(* ===== verification/_CoqProject ===== *)
-Q . S2P
prelude.v
wrapping_integers.v
byte_stream.v
btree_map.v
tcp_message.v
stream.v
reassembler.v
checksum.v
ethernet_frame.v
arp.v
icmp.v
ipv4_datagram.v
network_interface.v
router.v
tcp_segment.v
tcp_receiver.v
tcp_sender.v
tcp_link.v
tcp_progress.v
tcp_connection.v
tcp_duplex.v
tcp_duplex_progress.v
ip_host.v
ip_host_window.v
ip_duplex.v
conservation.v
internet.v
os.v
pcap.v
tap.v
tun.v
host_cli.v
tap_host.v
tun_host.v
carried.v
tap_hosts.v
tun_hosts.v
tun_probe.v
webget.v
tests_stream.v
tests_wire.v
tests_tcp.v
tests_net.v
