(* ===== verification/prelude.v ===== *)
(** * A verification development for minnow-rs

    minnow-rs is a small user-space TCP/IP stack in Rust: a TCP endpoint over IPv4, an
    Ethernet interface with ARP, a longest-prefix router, and programs that run the stack
    on Linux TUN and TAP devices.  This library is a shallow embedding of that code and the
    theorems about it.  Each file here models the Rust file of the same name (files and
    functions below are relative to [src/src/]); some files are specification only.

    ** How the program fits together

<<
      bin/tap_host.rs  bin/tun_host.rs   bin/webget.rs        programs
        |      |             |                  (the system's own TCP)
      tap.rs  network_      tun.rs    pcap.rs  bin/common/host_cli.rs
              interface.rs ----- router.rs
                 |        \
             arp.rs   ethernet_frame.rs
                 |
      ip_host.rs ------- icmp.rs, ipv4_datagram.rs ----- checksum.rs
         |
      tcp_connection.rs ------- tcp_segment.rs
         |           |
      tcp_sender.rs  tcp_receiver.rs ------- tcp_message.rs
         |              |                      |
      byte_stream.rs  reassembler.rs     wrapping_integers.rs
>>

    The application writes into the sender's [ByteStream]; [TcpSender] cuts it into
    messages, which [TcpConnection] turns into segments together with what
    [TcpReceiver] acknowledges, and [IpHost] wraps into datagrams.  On the way in the
    datagram is checked, the segment is handed to the connection, the receiver
    translates its sequence numbers and the [Reassembler] puts its bytes in order into
    the receiver's [ByteStream].  Below, [NetworkInterface] carries datagrams in Ethernet
    frames and resolves addresses, and [Router] moves datagrams between interfaces.

    ** Conventions

    - A Rust struct or enum is a [Module] whose type is [t], with the fields as a [Record]
      and one definition per method, of the same name; [&mut self] is the state passed in
      and handed back.  Callbacks ([transmit]) and output queues are lists of what was sent, in order.
    - The target has 64-bit [usize]; machine integers are [Z] with their range checks and
      wrap-around written out ([add_u], [sub_u], [saturating_add], ...).  The build is a
      debug build: overflow, failed assertions, [expect] and slices out of range are panics.
    - [exec] (below) is the outcome of pure code: a value, a panic, or a lack of fuel.
      [Result] is [result].  Code that calls the system is in [io] ([os.v]), Rust's [io::Result]
      over a world whose calls are a parameter ([Class Os], laws in [OsLaws]; that standard output works is
      a condition of its own, [StdoutWorks], since [print!] panics when it does not).  A variable that a program's
      functions change through a reference is kept beside the world.
    - Of the standard library, what the code uses is written out: [BufWriter] with its buffer and its
      destructor ([pcap.v]), [env::args] with its panic on arguments that are not Unicode ([env_args] in [os.v]),
      the parsers of numbers and addresses and [BufRead::lines] ([host_cli.v]).
    - Bytes are lists of [byte]; [Bytes] buffers are values, since sharing them is not
      observable.  [HashMap] is [gmap] (the code never depends on its order), [BTreeMap]
      is a sorted association list ([btree_map.v]), [VecDeque] and [Vec] are lists.
    - [m ⇓ Q] is total correctness: [m] returns, without a panic and with fuel to spare, and
      its value satisfies [Q].  The rules of this judgement carry nearly all the proofs, and [wp_step],
      [wp_apply] and [explode] apply them; [runs] is the same judgement for [io].

    ** Fuel

    Loops that are not structural take fuel, and every theorem shows that the fuel given
    by the definitions is enough, that is, that the loop terminates: [fold_carries] 3 (two
    carries of a 32-bit sum), [gaps_loop] one per byte of the window, [flush_loop] two per pending
    fragment, [push_loop] one per sequence number of the window, [route_interface] one per waiting
    datagram, [parse_loop] one per argument, the event loops of the programs one per read,
    event or frame that is queued, [copy] and [write_out] one per byte to come; each with one more to see the end.

    ** Files and theorems

    - [prelude.v]: outcomes and their rules, bounded integers, bytes and big-endian fields,
      list lemmas, [Class WireFormat] (serialise, parse and their round trip), which the
      message formats instantiate and [ip_host.v] and [tun.v] use.
    - [wrapping_integers.v]: [unwrap] returns the nearest of all candidates.
    - [byte_stream.v]: the stream is a FIFO with a bounded buffer.
    - [btree_map.v]: the operations of an ordered map.
    - [stream.v] (specification): pieces of a byte stream, and what of TCP's sequence space a
      message carries.
    - [reassembler.v]: [RInv] is the invariant behind the debug assertions.  It never
      panics; the exact outcome of [try_insert], refusals included; what is output is a
      prefix of the stream, and the longest one the fragments allow, whatever their order.
    - [checksum.v]: the accumulator against a reference sum, however the data is cut.
    - [ethernet_frame.v], [arp.v], [icmp.v], [ipv4_datagram.v], [tcp_segment.v]: parsing inverts
      serialising, parsing is total with the order of its errors, damage is detected.
    - [tcp_message.v], [tcp_receiver.v]: the receiver delivers its peer's stream and acknowledges the first
      number it misses.
    - [tcp_sender.v]: [SInv] is the invariant.  What is sent is the stream; the exact effect of an
      acknowledgement, of a tick and of filling the window; exponential back-off.
    - [tcp_link.v] (specification): a sender and a receiver over a network that loses, duplicates, delays
      and reorders; the receiver reads a prefix of what was written, and the sender
      reports itself finished only when all of it has arrived.  Proved from the interfaces of the two.
    - [tcp_progress.v] (specification): the same network makes progress; once the applications have
      acted, one good round per sequence number in between whatever else it does completes the transfer.
    - [tcp_connection.v]: an endpoint never panics and answers every segment that occupies sequence space.
    - [tcp_duplex.v] (specification): two connections over such a network; each direction is a link of
      [tcp_link.v] in which acknowledgements ride on the other direction's segments.
    - [tcp_duplex_progress.v] (specification): progress for both directions at once; when again and again a
      retransmission of each endpoint and the answer to it get through, both transfers complete.
    - [network_interface.v]: [NInv]; one request per address in five seconds, learned addresses last thirty,
      and queued datagrams leave when the answer arrives.
    - [router.v]: forwarding is by the longest matching prefix, and [route] empties every inbox.
    - [ip_host.v]: a host answers pings, accepts only its peer's segments, and is transparent to TCP.
    - [ip_host_window.v]: nothing reads what a host's receiver assembles, so its window only closes.
    - [ip_duplex.v] (specification): two hosts that exchange packets as bytes, over a network that may also
      inject anything that is not a valid segment; a simulation of [tcp_duplex.v].
    - [conservation.v] (specification): interfaces and routers make up no datagrams; a predicate on
      datagrams is an invariant of all they queue, transmit and hand up.
    - [internet.v] (specification): two hosts with their interfaces, any routers, and frames that reach
      any machine at any time or never; with [conservation.v], a simulation of [ip_duplex.v].
    - [os.v]: the system as a parameter, with a log of the packets that come and go on the device, [io] and
      its rules, and [Script], a concrete system the witnesses run on.
    - [pcap.v]: capture files, which a reader gets back with times and lengths from the file and the writer's buffer.
    - [tap.v], [tun.v], [host_cli.v]: devices, command-line helpers, and the thread that turns standard input
      into the events the programs read; [books], what of the typing a host's stream holds.
    - [tap_host.v], [tun_host.v]: the programs; on any input, with Unicode arguments and a standard output that works,
      they neither panic nor loop for ever in a turn,
      and put nothing on the device but well-formed packets of their own; what they do is what the
      machines of [internet.v] and [ip_duplex.v] do, with the same packets and the same writes and closes in order.
    - [carried.v], [tap_hosts.v], [tun_hosts.v] (specification): two running programs whose devices are
      connected.  Two logs that a cable or a network can have produced make one run of [internet.v] or
      [ip_duplex.v], so the stream each program's TCP assembles is what the other's TCP has accepted of the typing,
      which is all of it when it fits the send buffer.
    - [webget.v]: the client copies the whole answer.  [tun_probe.v]: the probe prints a report of every packet.
    - [tests_stream.v], [tests_wire.v], [tests_tcp.v], [tests_net.v]: the repository's own unit and integration
      tests, function by function, as computations on the model, and that each of them passes; they
      check the definitions against what the authors of the program expect of it.

    ** What is not modelled

    The text of [Display] and [Debug] (except of an Ethernet address and of what the programs print) and
    everything written to standard error (and the panic of [eprintln!] when that fails); sleeping; what happens in a
    process that is killed, beyond that its buffers are lost; how the input thread and the main loop interleave
    (what the main loop finds in the channel is the system's choice, and the thread is a
    program of its own); the size of a C structure; accessors that return a field, which are
    the projections.  [zerocopy] overlays are the [repr(C)] layouts the source declares.

    ** Plan

    Next come progress through a router and for two running programs, whose safety is in [tap_hosts.v] and
    [tun_hosts.v]. *)

From Stdlib Require Export ZArith Lia.
From Stdlib Require Export Strings.Byte.
From stdpp Require Export base numbers list option gmap.

#[global] Open Scope Z_scope.

(** ** Outcomes of a computation

    [exec A] is the outcome of running a piece of Rust code: it returns a value,
    or it stops abnormally.  [Panicked] stands for every panic of a debug build
    (a failed [assert!], [debug_assert!] or [expect], an arithmetic overflow, an
    index or a slice out of range); [OutOfFuel] is produced only by a loop whose
    fuel was too small, and every loop is proved never to produce it. *)

Inductive fault :=
| Panicked
| OutOfFuel.

Inductive exec (A : Type) :=
| Ret (a : A)
| Fault (f : fault).
Arguments Ret {A} _.
Arguments Fault {A} _.

#[global] Instance exec_mret : MRet exec := λ A a, Ret a.
#[global] Instance exec_mbind : MBind exec := λ A B k m,
  match m with Ret a => k a | Fault f => Fault f end.

#[global] Arguments mbind : simpl never.
#[global] Arguments mret : simpl never.
#[global] Arguments exec_mbind : simpl never.
#[global] Arguments exec_mret : simpl never.

(** Rust's [Result<T, E>]. *)
Inductive result (T E : Type) :=
| Ok (t : T)
| Err (e : E).
Arguments Ok {T E} _.
Arguments Err {T E} _.

Definition panic {A} : exec A := Fault Panicked.

(** [assert!] and [debug_assert!]. *)
Definition assert (b : bool) : exec unit := if b then mret tt else panic.

(** [Option::expect]. *)
Definition expect {A} (o : option A) : exec A :=
  match o with Some a => mret a | None => panic end.

(** ** Total correctness

    [m ⇓ Q]: [m] returns (no panic, no lack of fuel) a value satisfying [Q]. *)

Definition wp {A} (m : exec A) (Q : A → Prop) : Prop :=
  match m with Ret a => Q a | Fault _ => False end.
#[global] Arguments wp : simpl never.

Declare Scope exec_scope.
Delimit Scope exec_scope with exec.
Notation "m ⇓ Q" := (wp m Q) (at level 70, no associativity) : exec_scope.
#[global] Open Scope exec_scope.

Lemma bind_Ret {A B} (a : A) (k : A → exec B) : (Ret a ≫= k) = k a.
Proof. done. Qed.

Lemma bind_mret {A B} (a : A) (k : A → exec B) : (mret a ≫= k) = k a.
Proof. done. Qed.

Lemma wp_bind {A B} (m : exec A) (k : A → exec B) (Q : B → Prop) :
  (m ⇓ λ a, k a ⇓ Q) ↔ (m ≫= k) ⇓ Q.
Proof. by destruct m. Qed.

Lemma wp_mono {A} (m : exec A) (P Q : A → Prop) :
  m ⇓ P → (∀ a, P a → Q a) → m ⇓ Q.
Proof. destruct m; unfold wp; auto. Qed.

Lemma wp_and {A} (m : exec A) (P Q : A → Prop) :
  m ⇓ P → m ⇓ Q → m ⇓ λ a, P a ∧ Q a.
Proof. destruct m; unfold wp; auto. Qed.

(** A second postcondition that holds under a condition. *)
Lemma wp_imp {A} (m : exec A) (H : Prop) (P Q : A → Prop) : m ⇓ P → (H → m ⇓ Q) → m ⇓ λ a, P a ∧ (H → Q a).
Proof. destruct m; unfold wp; auto. Qed.

Lemma wp_Ret {A} (m : exec A) (Q : A → Prop) :
  m ⇓ Q ↔ ∃ a, m = Ret a ∧ Q a.
Proof.
  unfold wp. destruct m; split.
  - eauto.
  - by intros (? & [= <-] & ?).
  - done.
  - by intros (? & ? & ?).
Qed.

Lemma wp_eq {A} (m : exec A) (a : A) (Q : A → Prop) : m = Ret a → Q a → m ⇓ Q.
Proof. by intros ->. Qed.

Lemma wp_assert (b : bool) (Q : unit → Prop) : b = true → Q tt → assert b ⇓ Q.
Proof. by intros ->. Qed.

Lemma wp_expect {A} (o : option A) (a : A) (Q : A → Prop) :
  o = Some a → Q a → expect o ⇓ Q.
Proof. by intros ->. Qed.

(** ** Machine integers

    A [uN] is a [Z] together with the facts that bound it; [usize] is 64 bits
    wide, as on the Linux targets the program runs on. *)

Abbreviation u8_max := 255.
Abbreviation u16_max := 65535.
Abbreviation u32_max := 4294967295.
Abbreviation u64_max := 18446744073709551615.
Abbreviation usize_max := u64_max (only parsing).

Definition u8 (z : Z) : Prop := 0 ≤ z ≤ u8_max.
Definition u16 (z : Z) : Prop := 0 ≤ z ≤ u16_max.
Definition u32 (z : Z) : Prop := 0 ≤ z ≤ u32_max.
Definition u64 (z : Z) : Prop := 0 ≤ z ≤ u64_max.

(** [a + b] and [a - b] on an unsigned type with greatest value [top]. *)
Definition add_u (top a b : Z) : exec Z := if a + b <=? top then mret (a + b) else panic.
Definition sub_u (a b : Z) : exec Z := if b <=? a then mret (a - b) else panic.
Definition mul_u (top a b : Z) : exec Z := if a * b <=? top then mret (a * b) else panic.
Abbreviation add_u32 := (add_u u32_max).
Abbreviation add_u64 := (add_u u64_max).
Abbreviation mul_u64 := (mul_u u64_max).

Definition checked_add (top a b : Z) : option Z := if a + b <=? top then Some (a + b) else None.
Definition checked_sub (a b : Z) : option Z := if b <=? a then Some (a - b) else None.
Definition saturating_add (top a b : Z) : Z := Z.min top (a + b).
Definition saturating_mul (top a b : Z) : Z := Z.min top (a * b).
Definition wrapping_add (top a b : Z) : Z := (a + b) mod (top + 1).
Definition wrapping_sub (top a b : Z) : Z := (a - b) mod (top + 1).
Definition abs_diff (a b : Z) : Z := Z.abs (a - b).

(** [z as uN]. *)
Definition cast (top z : Z) : Z := z mod (top + 1).

(** [uN::try_from]. *)
Definition try_from (top z : Z) : option Z := if z <=? top then Some z else None.

(** [bool as u64]. *)
Definition of_bool (b : bool) : Z := if b then 1 else 0.

Lemma wp_add_u top a b (Q : Z → Prop) : a + b ≤ top → Q (a + b) → add_u top a b ⇓ Q.
Proof. intros H HQ. unfold add_u. by rewrite (proj2 (Z.leb_le _ _) H). Qed.

Lemma wp_sub_u a b (Q : Z → Prop) : b ≤ a → Q (a - b) → sub_u a b ⇓ Q.
Proof. intros H HQ. unfold sub_u. by rewrite (proj2 (Z.leb_le _ _) H). Qed.

Lemma wp_mul_u top a b (Q : Z → Prop) : a * b ≤ top → Q (a * b) → mul_u top a b ⇓ Q.
Proof. intros H HQ. unfold mul_u. by rewrite (proj2 (Z.leb_le _ _) H). Qed.

Lemma checked_add_Some top a b : a + b ≤ top → checked_add top a b = Some (a + b).
Proof. intros H. unfold checked_add. by rewrite (proj2 (Z.leb_le _ _) H). Qed.

Lemma checked_add_None top a b : top < a + b → checked_add top a b = None.
Proof. intros H. unfold checked_add. by rewrite (proj2 (Z.leb_gt _ _) H). Qed.

Lemma checked_sub_Some a b : b ≤ a → checked_sub a b = Some (a - b).
Proof. intros H. unfold checked_sub. by rewrite (proj2 (Z.leb_le _ _) H). Qed.

Lemma try_from_Some top z : z ≤ top → try_from top z = Some z.
Proof. intros H. unfold try_from. by rewrite (proj2 (Z.leb_le _ _) H). Qed.

Lemma of_bool_range b : 0 ≤ of_bool b ≤ 1.
Proof. destruct b; simpl; lia. Qed.

(** [ulia]: [lia] that sees through the integer types and the saturating operations. *)
Create HintDb ints.
#[export] Hint Unfold u8 u16 u32 u64 saturating_add saturating_mul abs_diff : ints.
Ltac ulia := autounfold with ints in *; lia.

(** Case analysis on the boolean comparisons of the goal. *)
Ltac cases_bool :=
  repeat match goal with
  | |- context [?a <=? ?b] => destruct (Z.leb_spec a b)
  | |- context [?a <? ?b] => destruct (Z.ltb_spec a b)
  | |- context [?a =? ?b] => destruct (Z.eqb_spec a b)
  end.

(** ** Bytes *)

Abbreviation bytes := (list byte).

Definition b2z (b : byte) : Z := Z.of_N (Byte.to_N b).
Definition z2b (z : Z) : byte :=
  match Byte.of_N (Z.to_N (z mod 256)) with Some b => b | None => x00 end.

Lemma b2z_range b : 0 ≤ b2z b ≤ 255.
Proof. unfold b2z. pose proof (Byte.to_N_bounded b). lia. Qed.

Lemma z2b_b2z b : z2b (b2z b) = b.
Proof.
  unfold z2b. rewrite Z.mod_small by (pose proof (b2z_range b); lia).
  unfold b2z. by rewrite N2Z.id, Byte.of_to_N.
Qed.

Lemma b2z_z2b z : b2z (z2b z) = z mod 256.
Proof.
  unfold z2b. pose proof (Z.mod_pos_bound z 256 ltac:(lia)) as Hr.
  destruct (Byte.of_N (Z.to_N (z mod 256))) as [b|] eqn:E.
  - apply Byte.to_of_N in E. unfold b2z. rewrite E. lia.
  - apply Byte.of_N_None_iff in E. lia.
Qed.

Lemma b2z_inj a b : b2z a = b2z b → a = b.
Proof. intros H. by rewrite <- (z2b_b2z a), <- (z2b_b2z b), H. Qed.

#[global] Instance byte_eq_dec : EqDecision byte.
Proof. intros a b. destruct (Byte.eqb a b) eqn:E; [left; by apply Byte.byte_dec_bl|right].
  intros ->. by rewrite Byte.byte_dec_lb in E. Defined.

#[global] Instance byte_countable : Countable byte :=
  inj_countable' b2z z2b z2b_b2z.

Definition blen {A} (l : list A) : Z := Z.of_nat (length l).

Lemma blen_nonneg {A} (l : list A) : 0 ≤ blen l.
Proof. unfold blen. lia. Qed.
Lemma blen_nil {A} : blen (@nil A) = 0.
Proof. done. Qed.
Lemma blen_cons {A} (x : A) l : blen (x :: l) = 1 + blen l.
Proof. unfold blen. simpl. lia. Qed.

(** A part as long as the whole is the whole. *)
Lemma sublist_whole {A} (a b : list A) : a `sublist_of` b → (length b ≤ length a)%nat → a = b.
Proof.
  induction 1 as [|x a b Hs IH|x a b Hs IH]; cbn; intros Hl; [done|f_equal; apply IH; lia|].
  apply sublist_length in Hs. lia.
Qed.

Lemma blen_app {A} (a b : list A) : blen (a ++ b) = blen a + blen b.
Proof. unfold blen. rewrite length_app. lia. Qed.
Lemma blen_0 {A} (l : list A) : blen l = 0 → l = [].
Proof. destruct l; [done|]. rewrite blen_cons. pose proof (blen_nonneg l). lia. Qed.
Lemma blen_pos {A} (l : list A) : l ≠ [] → 0 < blen l.
Proof. destruct l; [done|]. rewrite blen_cons. pose proof (blen_nonneg l). lia. Qed.

(** [l[lo..hi]], [l[lo..]] and [l[i]]. *)
Definition slice {A} (lo hi : Z) (l : list A) : exec (list A) :=
  if (0 <=? lo) && (lo <=? hi) && (hi <=? blen l)
  then mret (take (Z.to_nat (hi - lo)) (drop (Z.to_nat lo) l)) else panic.
Definition slice_from {A} (lo : Z) (l : list A) : exec (list A) := slice lo (blen l) l.
Definition index {A} (l : list A) (i : nat) : exec A := expect (l !! i).

(** The sublist of [l] at the indices [lo <= i < hi]. *)
Definition sub {A} (lo hi : Z) (l : list A) : list A :=
  take (Z.to_nat (hi - lo)) (drop (Z.to_nat lo) l).

(** Indexing a list with a [Z]. *)
Definition at_z {A} (l : list A) (i : Z) : option A :=
  if i <? 0 then None else l !! Z.to_nat i.

Lemma wp_slice {A} lo hi (l : list A) (Q : list A → Prop) :
  0 ≤ lo ≤ hi → hi ≤ blen l → Q (sub lo hi l) → slice lo hi l ⇓ Q.
Proof.
  intros [H1 H2] H3 HQ. unfold slice.
  by rewrite (proj2 (Z.leb_le _ _) H1), (proj2 (Z.leb_le _ _) H2), (proj2 (Z.leb_le _ _) H3).
Qed.

Lemma wp_slice_from {A} lo (l : list A) (Q : list A → Prop) :
  0 ≤ lo ≤ blen l → Q (drop (Z.to_nat lo) l) → slice_from lo l ⇓ Q.
Proof.
  intros H HQ. apply wp_slice; [lia|lia|]. unfold sub. rewrite take_ge; [done|].
  rewrite length_drop. unfold blen in *. lia.
Qed.

Lemma blen_sub {A} lo hi (l : list A) :
  0 ≤ lo ≤ hi → hi ≤ blen l → blen (sub lo hi l) = hi - lo.
Proof. intros. unfold sub, blen in *. rewrite length_take, length_drop. lia. Qed.

Lemma blen_take {A} n (l : list A) : 0 ≤ n ≤ blen l → blen (take (Z.to_nat n) l) = n.
Proof. intros. unfold blen in *. rewrite length_take. lia. Qed.

Lemma blen_drop {A} n (l : list A) : 0 ≤ n ≤ blen l → blen (drop (Z.to_nat n) l) = blen l - n.
Proof. intros. unfold blen in *. rewrite length_drop. lia. Qed.

Lemma take_sub {A} n (l : list A) : take (Z.to_nat n) l = sub 0 n l.
Proof. unfold sub. rewrite drop_0. f_equal. lia. Qed.

Lemma sub_all {A} (l : list A) : sub 0 (blen l) l = l.
Proof. unfold sub. rewrite drop_0, take_ge; [done|]. unfold blen. lia. Qed.

Lemma sub_split {A} lo mid hi (l : list A) :
  0 ≤ lo ≤ mid → mid ≤ hi → sub lo hi l = sub lo mid l ++ sub mid hi l.
Proof.
  intros. unfold sub.
  replace (Z.to_nat mid) with (Z.to_nat lo + Z.to_nat (mid - lo))%nat by lia.
  rewrite <- drop_drop.
  replace (Z.to_nat (hi - lo)) with (Z.to_nat (mid - lo) + Z.to_nat (hi - mid))%nat by lia.
  rewrite <- take_take_drop. f_equal. 
Qed.

Lemma at_z_lookup {A} (l : list A) i : 0 ≤ i → at_z l i = l !! Z.to_nat i.
Proof. intros. unfold at_z. by rewrite (proj2 (Z.ltb_ge _ _)). Qed.

Lemma at_z_None {A} (l : list A) i : i < 0 ∨ blen l ≤ i → at_z l i = None.
Proof.
  intros H. unfold at_z, blen in *. cases_bool; [done|].
  apply lookup_ge_None. lia.
Qed.

Lemma at_z_Some {A} (l : list A) i : 0 ≤ i < blen l → ∃ x, at_z l i = Some x.
Proof.
  intros H. rewrite at_z_lookup by lia. apply lookup_lt_is_Some. unfold blen in *. lia.
Qed.

Lemma at_z_is_Some {A} (l : list A) i x : at_z l i = Some x → 0 ≤ i < blen l.
Proof.
  intros H. destruct (decide (0 ≤ i < blen l)); [done|].
  rewrite at_z_None in H; [done|lia].
Qed.

Lemma at_z_app {A} (a b : list A) i :
  at_z (a ++ b) i = if i <? blen a then at_z a i else at_z b (i - blen a).
Proof.
  destruct (Z.ltb_spec i 0).
  - rewrite !(at_z_None _ i) by lia. cases_bool; [done|]. pose proof (blen_nonneg a). lia.
  - rewrite !at_z_lookup by lia. unfold blen. cases_bool.
    + apply lookup_app_l. lia.
    + rewrite at_z_lookup by lia. rewrite lookup_app_r by lia. f_equal. lia.
Qed.

Lemma at_z_sub {A} lo hi (l : list A) i :
  0 ≤ lo → at_z (sub lo hi l) i = if (0 <=? i) && (i <? hi - lo) then at_z l (lo + i) else None.
Proof.
  intros. unfold sub. destruct (Z.leb_spec 0 i); simpl.
  - rewrite !at_z_lookup by lia. destruct (Z.ltb_spec i (hi - lo)).
    + rewrite lookup_take_lt by lia. rewrite lookup_drop. f_equal. lia.
    + apply lookup_take_ge. lia.
  - apply at_z_None. lia.
Qed.

Lemma at_z_drop {A} n (l : list A) i :
  0 ≤ n → 0 ≤ i → at_z (drop (Z.to_nat n) l) i = at_z l (n + i).
Proof. intros. rewrite !at_z_lookup by lia. rewrite lookup_drop. f_equal. lia. Qed.

Lemma list_eq_at_z {A} (a b : list A) :
  blen a = blen b → (∀ i, 0 ≤ i < blen a → at_z a i = at_z b i) → a = b.
Proof.
  intros Hlen H. apply list_eq. intros i.
  destruct (decide (Z.of_nat i < blen a)) as [Hi|Hi].
  - specialize (H (Z.of_nat i) ltac:(lia)).
    rewrite !at_z_lookup, Nat2Z.id in H by lia. done.
  - rewrite !lookup_ge_None_2; [done| |]; unfold blen in *; lia.
Qed.

(** ** Traffic *)

(** What passes a device, seen from the machine. *)
Inductive traffic :=
| Received (bs : bytes)
| Sent (bs : bytes).

Fixpoint outgoing (l : list traffic) : list bytes :=
  match l with
  | [] => []
  | Sent bs :: l => bs :: outgoing l
  | Received _ :: l => outgoing l
  end.

Lemma outgoing_app l l' : outgoing (l ++ l') = outgoing l ++ outgoing l'.
Proof. induction l as [|[bs|bs] l IH]; cbn; [done..|]. by rewrite IH. Qed.

Lemma outgoing_sent ps : outgoing (map Sent ps) = ps.
Proof. induction ps as [|p ps IH]; cbn; [done|]. by rewrite IH. Qed.

(** ** Big-endian encodings *)

Definition be_val (bs : bytes) : Z := foldl (λ acc b, acc * 256 + b2z b) 0 bs.

Fixpoint be_bytes (n : nat) (z : Z) : bytes :=
  match n with
  | O => []
  | S n' => be_bytes n' (z / 256) ++ [z2b z]
  end.

(** [u16::from_be_bytes] and [u32::from_be_bytes] applied to the bytes of [l]
    from index [i]; [to_be_bytes] and [BufMut::put_u8/u16/u32]. *)
Fixpoint read_be (n : nat) (l : bytes) (i : nat) : exec bytes :=
  match n with
  | O => mret []
  | S n' => b ← index l i; bs ← read_be n' l (S i); mret (b :: bs)
  end.
Definition read_u16 (l : bytes) (i : nat) : exec Z := bs ← read_be 2 l i; mret (be_val bs).
Definition read_u32 (l : bytes) (i : nat) : exec Z := bs ← read_be 4 l i; mret (be_val bs).
Definition put_u8 (z : Z) : bytes := be_bytes 1 z.
Definition put_u16 (z : Z) : bytes := be_bytes 2 z.
Definition put_u32 (z : Z) : bytes := be_bytes 4 z.

#[global] Arguments be_val : simpl never.
#[global] Arguments put_u8 : simpl never.
#[global] Arguments put_u16 : simpl never.
#[global] Arguments put_u32 : simpl never.
#[global] Arguments b2z : simpl never.
#[global] Arguments z2b : simpl never.
#[global] Arguments blen : simpl never.

Lemma be_val_snoc bs b : be_val (bs ++ [b]) = be_val bs * 256 + b2z b.
Proof. unfold be_val. by rewrite foldl_app. Qed.

Lemma be_val_range bs : 0 ≤ be_val bs < 256 ^ blen bs.
Proof.
  induction bs as [|b bs IH] using rev_ind; [done|].
  rewrite be_val_snoc, blen_app, Z.pow_add_r by (pose proof (blen_nonneg bs); done || lia).
  pose proof (b2z_range b). change (256 ^ blen [b]) with 256. lia.
Qed.

Lemma length_be_bytes n z : length (be_bytes n z) = n.
Proof. revert z. induction n; intros; simpl; [done|]. rewrite length_app, IHn. simpl. lia. Qed.

Lemma be_val_bytes n z : be_val (be_bytes n z) = z mod 256 ^ Z.of_nat n.
Proof.
  revert z. induction n as [|n IH]; intros z; simpl; [by rewrite Z.mod_1_r|].
  rewrite be_val_snoc, IH, b2z_z2b, Nat2Z.inj_succ, Z.pow_succ_r by lia.
  rewrite Z.rem_mul_r by (pose proof (Z.pow_pos_nonneg 256 (Z.of_nat n)); lia). lia.
Qed.

Lemma be_bytes_val bs : be_bytes (length bs) (be_val bs) = bs.
Proof.
  induction bs as [|b bs IH] using rev_ind; [done|].
  rewrite length_app, Nat.add_comm. simpl. rewrite be_val_snoc.
  pose proof (b2z_range b).
  rewrite Z.div_add_l by lia. rewrite Z.div_small, Z.add_0_r, IH by lia.
  f_equal. f_equal. apply b2z_inj. rewrite b2z_z2b. rewrite Z.add_comm, Z.mod_add by lia.
  apply Z.mod_small. lia.
Qed.

Lemma put_u16_eq z : put_u16 z = [z2b (z / 256); z2b z].
Proof. done. Qed.

Lemma put_u32_eq z :
  put_u32 z = [z2b (z / 256 / 256 / 256); z2b (z / 256 / 256); z2b (z / 256); z2b z].
Proof. done. Qed.

Lemma be_val_u16 z : u16 z → be_val (put_u16 z) = z.
Proof. intros []. unfold put_u16. rewrite be_val_bytes. apply Z.mod_small. lia. Qed.

Lemma be_val_u32 z : u32 z → be_val (put_u32 z) = z.
Proof. intros []. unfold put_u32. rewrite be_val_bytes. apply Z.mod_small. lia. Qed.

Lemma put_u16_val a b : put_u16 (be_val [a; b]) = [a; b].
Proof. apply (be_bytes_val [a; b]). Qed.

Lemma put_u32_val a b c d : put_u32 (be_val [a; b; c; d]) = [a; b; c; d].
Proof. apply (be_bytes_val [a; b; c; d]). Qed.

Lemma put_u8_val a : put_u8 (b2z a) = [a].
Proof. unfold put_u8. simpl. by rewrite z2b_b2z. Qed.

(** The bytes of [put_u16] and [put_u32] applied to what was read. *)
Lemma put_u16_bytes a b : z2b (be_val [a; b] / 256) = a ∧ z2b (be_val [a; b]) = b.
Proof. pose proof (put_u16_val a b) as H. by injection H. Qed.

Lemma be_val_2 a b : be_val [a; b] = b2z a * 256 + b2z b.
Proof. done. Qed.

Lemma be_val_u16_range a b : u16 (be_val [a; b]).
Proof. rewrite be_val_2. pose proof (b2z_range a). pose proof (b2z_range b). ulia. Qed.

Lemma be_val_u32_range a b c d : u32 (be_val [a; b; c; d]).
Proof.
  pose proof (be_val_range [a; b; c; d]) as H. change (256 ^ blen [a; b; c; d]) with 4294967296 in H. ulia.
Qed.

(** [buf[at..at + src.len()].copy_from_slice(src)] *)
Definition copy_at (at_ : Z) (src buf : bytes) : exec bytes :=
  if at_ + blen src <=? blen buf
  then mret (take (Z.to_nat at_) buf ++ src ++ drop (Z.to_nat (at_ + blen src)) buf) else panic.

Lemma copy_at_app a old src b :
  blen old = blen src → copy_at (blen a) src (a ++ old ++ b) = Ret (a ++ src ++ b).
Proof.
  intros H. unfold copy_at. rewrite !blen_app. pose proof (blen_nonneg b).
  rewrite (proj2 (Z.leb_le _ _)) by lia. unfold mret, exec_mret. f_equal.
  unfold blen in *. f_equal; [|f_equal].
  - rewrite Nat2Z.id. apply take_app_length.
  - rewrite app_assoc, drop_app_length'; [done|]. rewrite length_app. lia.
Qed.

(** [debug_assert_eq!(buf.len(), n)] on buffers whose length is known. *)
Lemma slice_from_app {A} (a b : list A) n : blen a = n → slice_from n (a ++ b) = Ret b.
Proof.
  intros <-. unfold slice_from, slice. rewrite blen_app. pose proof (blen_nonneg a). pose proof (blen_nonneg b).
  rewrite !(proj2 (Z.leb_le _ _)) by lia. simpl. unfold mret, exec_mret. f_equal.
  unfold blen. rewrite Nat2Z.id, drop_app_length, take_ge; [done|]. lia.
Qed.

Lemma slice_app {A} (a b c : list A) lo hi :
  blen a = lo → lo + blen b = hi → slice lo hi (a ++ b ++ c) = Ret b.
Proof.
  intros <- <-. unfold slice. rewrite !blen_app.
  pose proof (blen_nonneg a). pose proof (blen_nonneg b). pose proof (blen_nonneg c).
  rewrite !(proj2 (Z.leb_le _ _)) by lia. simpl. unfold mret, exec_mret. f_equal.
  unfold blen. rewrite Nat2Z.id, drop_app_length, take_app_length'; [done|]. lia.
Qed.

Lemma slice_all {A} (l : list A) n : blen l = n → slice 0 n l = Ret l.
Proof.
  intros H. replace l with ([] ++ l ++ []) at 1 by by rewrite app_nil_r. by apply slice_app.
Qed.

Lemma slice_head {A} (a b : list A) n : blen a = n → slice 0 n (a ++ b) = Ret a.
Proof. intros H. by apply (slice_app [] a b). Qed.

Lemma slice_sub {A} lo hi (l : list A) :
  0 ≤ lo ≤ hi → hi ≤ blen l → slice lo hi l = Ret (sub lo hi l).
Proof. intros H1 H2. pose proof (wp_slice lo hi l (λ r, r = sub lo hi l) H1 H2 eq_refl) as H.
  apply wp_Ret in H as (a & -> & ->). done. Qed.

Lemma split_at {A} n (l : list A) :
  Z.of_nat n ≤ blen l → ∃ h rest, l = h ++ rest ∧ length h = n.
Proof.
  intros H. exists (take n l), (drop n l). rewrite take_drop, length_take.
  unfold blen in H. split; [done|]. lia.
Qed.

(** [explode h n]: write a list [h] whose length is known to be [n] by its elements. *)
Tactic Notation "explode" ident(h) int_or_var(n) :=
  do n (destruct h as [|? h]; [done|]); destruct h; [|done].

(** ** Byte arrays: [[u8; 4]] and [[u8; 6]] *)

Inductive array4 := A4 (a b c d : byte).
Inductive array6 := A6 (a b c d e f : byte).

#[global] Instance array4_eq_dec : EqDecision array4.
Proof. solve_decision. Defined.
#[global] Instance array6_eq_dec : EqDecision array6.
Proof. solve_decision. Defined.
#[global] Instance array4_countable : Countable array4.
Proof.
  by refine (inj_countable' (λ '(A4 a b c d), (a, b, c, d)) (λ '(a, b, c, d), A4 a b c d) _); intros [].
Defined.
#[global] Instance array6_countable : Countable array6.
Proof.
  by refine (inj_countable' (λ '(A6 a b c d e f), (a, b, c, d, e, f)) (λ '(a, b, c, d, e, f), A6 a b c d e f) _);
    intros [].
Defined.

Definition list4 (x : array4) : bytes := let '(A4 a b c d) := x in [a; b; c; d].
Definition list6 (x : array6) : bytes := let '(A6 a b c d e f) := x in [a; b; c; d; e; f].

(** [[l[i], l[i + 1], ...]] *)
Definition read4 (l : bytes) (i : nat) : exec array4 :=
  a ← index l i; b ← index l (i + 1); c ← index l (i + 2); d ← index l (i + 3);
  mret (A4 a b c d).
Definition read6 (l : bytes) (i : nat) : exec array6 :=
  a ← index l i; b ← index l (i + 1); c ← index l (i + 2);
  d ← index l (i + 3); e ← index l (i + 4); f ← index l (i + 5);
  mret (A6 a b c d e f).
Definition read_u8 (l : bytes) (i : nat) : exec Z := b ← index l i; mret (b2z b).

Lemma read_u8_eq l i a : l !! i = Some a → read_u8 l i = Ret (b2z a).
Proof. intros H. unfold read_u8, index. by rewrite H. Qed.

Lemma read_u16_eq l i a b : l !! i = Some a → l !! S i = Some b → read_u16 l i = Ret (be_val [a; b]).
Proof. intros Ha Hb. unfold read_u16, read_be, index. by rewrite Ha, Hb. Qed.

Lemma read_u32_eq l i a b c d :
  l !! i = Some a → l !! S i = Some b → l !! S (S i) = Some c → l !! S (S (S i)) = Some d →
  read_u32 l i = Ret (be_val [a; b; c; d]).
Proof. intros Ha Hb Hc Hd. unfold read_u32, read_be, index. by rewrite Ha, Hb, Hc, Hd. Qed.

Lemma read4_eq l i a b c d :
  l !! i = Some a → l !! (i + 1)%nat = Some b → l !! (i + 2)%nat = Some c →
  l !! (i + 3)%nat = Some d → read4 l i = Ret (A4 a b c d).
Proof. intros H1 H2 H3 H4. unfold read4, index. by rewrite H1, H2, H3, H4. Qed.

Lemma read6_eq l i a b c d e f :
  l !! i = Some a → l !! (i + 1)%nat = Some b → l !! (i + 2)%nat = Some c →
  l !! (i + 3)%nat = Some d → l !! (i + 4)%nat = Some e → l !! (i + 5)%nat = Some f →
  read6 l i = Ret (A6 a b c d e f).
Proof. intros H1 H2 H3 H4 H5 H6. unfold read6, index. by rewrite H1, H2, H3, H4, H5, H6. Qed.

Lemma be_val_1 a : be_val [a] = b2z a.
Proof. done. Qed.

Lemma b2z_put_u8 z : u8 z → b2z (z2b z) = z.
Proof. intros []. rewrite b2z_z2b. apply Z.mod_small. lia. Qed.

(** ** Wire formats

    What a protocol's [serialize] and [parse_bytes] promise to the layer below:
    serialisation of a well-formed message returns, and parsing gives it back;
    parsing any bytes returns. *)
Class WireFormat (A E : Type) := {
  wire_wf : A → Prop;
  wire_serialize : A → exec bytes;
  wire_parse : bytes → exec (result A E);
  wire_roundtrip a : wire_wf a → ∃ bs, wire_serialize a = Ret bs ∧ wire_parse bs = Ret (Ok a);
}.

(** The bytes a serialiser returns. *)
Definition wire_bytes (m : exec bytes) : bytes := match m with Ret bs => bs | Fault _ => [] end.

(** ** Tactics for the total-correctness judgement *)

(** One step of symbolic execution; the side conditions of the step come first. *)
Ltac wp_step :=
  lazymatch goal with
  | |- wp (_ ≫= _) _ => refine (proj1 (wp_bind _ _ _) _)
  | |- wp (mret _) _ => unfold mret, exec_mret; unfold wp at 1; cbv beta iota
  | |- wp (Ret _) _ => unfold wp at 1; cbv beta iota
  | |- wp (assert _) _ => apply wp_assert
  | |- wp (expect _) _ => eapply wp_expect
  | |- wp (add_u _ _ _) _ => apply wp_add_u
  | |- wp (sub_u _ _) _ => apply wp_sub_u
  | |- wp (mul_u _ _ _) _ => apply wp_mul_u
  | |- wp (slice _ _ _) _ => apply wp_slice
  | |- wp (slice_from _ _) _ => apply wp_slice_from
  end.

(** [wp_apply H]: run the current call by its specification [H]. *)
Tactic Notation "wp_apply" open_constr(H) := eapply wp_mono; [eapply H|cbv beta].

(** Turn a fact [m ⇓ Q] into the value [m] returns. *)
Ltac wp_inv H :=
  let a := fresh "r" in let E := fresh "Heq" in
  apply wp_Ret in H as (a & E & H).

(** Read the next field of a buffer whose first bytes are listed. *)
Ltac wp_read :=
  match goal with
  | |- context [read_u8 ?l ?i ≫= ?k] =>
      rewrite (read_u8_eq l i _ eq_refl : read_u8 l i = _)
  | |- context [read_u16 ?l ?i ≫= ?k] =>
      rewrite (read_u16_eq l i _ _ eq_refl eq_refl : read_u16 l i = _)
  | |- context [read_u32 ?l ?i ≫= ?k] =>
      rewrite (read_u32_eq l i _ _ _ _ eq_refl eq_refl eq_refl eq_refl : read_u32 l i = _)
  | |- context [read4 ?l ?i ≫= ?k] =>
      rewrite (read4_eq l i _ _ _ _ eq_refl eq_refl eq_refl eq_refl : read4 l i = _)
  | |- context [read6 ?l ?i ≫= ?k] =>
      rewrite (read6_eq l i _ _ _ _ _ _ eq_refl eq_refl eq_refl eq_refl eq_refl eq_refl : read6 l i = _)
  end;
  rewrite bind_Ret.
