(* ===== verification/wrapping_integers.v ===== *)
(** * Wrapping sequence numbers ([src/wrapping_integers.rs])

    [Wrap32] is a 32-bit sequence number relative to a zero point; [wrap] and
    [unwrap] translate between it and the 64-bit absolute sequence number.  The
    theorems say that [unwrap] picks the absolute number nearest to the
    checkpoint and that it inverts [wrap] within half a period of it. *)

From S2P Require Import prelude.

Definition MODULUS : Z := Z.shiftl 1 32.

Module Wrap32.

Record t := new { raw_value : Z }.

Definition wrap (absolute_seqno : Z) (zero_point : t) : t :=
  new (wrapping_add u32_max (raw_value zero_point) (cast u32_max absolute_seqno)).

Definition unwrap (self zero_point : t) (checkpoint : Z) : exec Z :=
  let offset := wrapping_sub u32_max (raw_value self) (raw_value zero_point) in
  era_start ← mul_u64 (checkpoint / MODULUS) MODULUS;
  current ← add_u64 era_start offset;
  let best := current in
  let best_distance := abs_diff current checkpoint in
  let '(best, best_distance) :=
    match checked_sub current MODULUS with
    | Some previous =>
        let distance := abs_diff previous checkpoint in
        if distance <? best_distance then (previous, distance) else (best, best_distance)
    | None => (best, best_distance)
    end in
  let best :=
    match checked_add u64_max current MODULUS with
    | Some next =>
        let distance := abs_diff next checkpoint in
        if distance <? best_distance then next else best
    | None => best
    end in
  mret best.

#[global] Instance eq_dec : EqDecision t.
Proof. solve_decision. Defined.

(** The type's range: the field is a [u32]. *)
Definition ok (w : t) : Prop := u32 (raw_value w).

End Wrap32.

#[export] Hint Unfold Wrap32.ok : ints.

Lemma MODULUS_eq : MODULUS = 2 ^ 32.
Proof. done. Qed.

Lemma wrap_ok n z : Wrap32.ok (Wrap32.wrap n z).
Proof.
  unfold Wrap32.ok, Wrap32.wrap, wrapping_add, cast, u32. simpl.
  pose proof (Z.mod_pos_bound (Wrap32.raw_value z + n `mod` (u32_max + 1)) (u32_max + 1)).
  lia.
Qed.

(** [wrap n z] is congruent to [z + n], and only the residue of [n] matters. *)
Lemma wrap_eq_iff n (z w : Wrap32.t) :
  Wrap32.ok z → Wrap32.ok w →
  Wrap32.wrap n z = w ↔
  n mod 2 ^ 32 = (Wrap32.raw_value w - Wrap32.raw_value z) mod 2 ^ 32.
Proof.
  destruct z as [z], w as [w]. unfold Wrap32.ok, u32, Wrap32.wrap, wrapping_add, cast. simpl.
  change (u32_max + 1) with (2 ^ 32). intros Hz Hw. split.
  - intros [= <-]. Z.div_mod_to_equations; lia.
  - intros Hn. f_equal. Z.div_mod_to_equations; lia.
Qed.

Lemma wrap_add n k z : Wrap32.wrap (n + k) z = Wrap32.wrap k (Wrap32.wrap n z).
Proof.
  unfold Wrap32.wrap, wrapping_add, cast. simpl. f_equal.
  change (u32_max + 1) with (2 ^ 32). Z.div_mod_to_equations; lia.
Qed.

(** The candidates [unwrap] compares: the era of the checkpoint and its two neighbours. *)
Lemma unwrap_arith self zero q m :
  let M := 2 ^ 32 in
  let off := wrapping_sub u32_max (Wrap32.raw_value self) (Wrap32.raw_value zero) in
  0 ≤ m < M → 0 ≤ q → q * M + m ≤ u64_max →
  Wrap32.unwrap self zero (q * M + m) ⇓ λ r,
    u64 r ∧ (∃ k, r = (q + k) * M + off) ∧
    ∀ k, u64 ((q + k) * M + off) →
      Z.abs (r - (q * M + m)) ≤ Z.abs ((q + k) * M + off - (q * M + m)).
Proof.
  intros M off Hm Hq Hcp. unfold Wrap32.unwrap. rewrite MODULUS_eq. fold off M.
  assert (0 ≤ off < M) by (apply (Z.mod_pos_bound _ (u32_max + 1)); lia).
  rewrite Z.div_add_l, Z.div_small, Z.add_0_r by (subst M; lia).
  unfold u64. clearbody off. subst M.
  wp_step. wp_step; [lia|]. wp_step. wp_step; [lia|].
  unfold checked_sub, checked_add, abs_diff.
  repeat first [case_match | progress cases_bool]; simplify_eq; wp_step;
    (split_and!; [lia|lia|first [exists 0; lia|exists (-1); lia|exists 1; lia]|]);
    intros; lia.
Qed.

(** The specification the clients of [unwrap] use. *)
Lemma unwrap_wp self zero cp :
  Wrap32.ok self → Wrap32.ok zero → u64 cp →
  Wrap32.unwrap self zero cp ⇓ λ r,
    u64 r ∧ Wrap32.wrap r zero = self ∧
    ∀ r', u64 r' → Wrap32.wrap r' zero = self → Z.abs (r - cp) ≤ Z.abs (r' - cp).
Proof.
  intros Hs Hz Hcp.
  pose proof (unwrap_arith self zero (cp / 2 ^ 32) (cp mod 2 ^ 32)) as H.
  cbv zeta in H.
  replace (cp / 2 ^ 32 * 2 ^ 32 + cp mod 2 ^ 32) with cp in H
    by (pose proof (Z.div_mod cp (2 ^ 32)); lia).
  eapply wp_mono; [apply H; [apply Z.mod_pos_bound; lia| |ulia]|clear H].
  { unfold u64 in Hcp. apply Z.div_pos; lia. }
  change (wrapping_sub u32_max (Wrap32.raw_value self) (Wrap32.raw_value zero))
    with ((Wrap32.raw_value self - Wrap32.raw_value zero) mod 2 ^ 32).
  set (off := (_ - _) mod 2 ^ 32).
  assert (0 ≤ off < 2 ^ 32) by (apply Z.mod_pos_bound; lia).
  intros r (Hr & [k ->] & Hmin). split_and!; [done| |].
  - apply wrap_eq_iff; [done|done|]. fold off. rewrite Z.add_comm, Z.mod_add by lia.
    apply Z.mod_small. lia.
  - intros r' Hr' Hw%wrap_eq_iff; [|done|done]. fold off in Hw.
    specialize (Hmin (r' / 2 ^ 32 - cp / 2 ^ 32)).
    replace ((cp / 2 ^ 32 + (r' / 2 ^ 32 - cp / 2 ^ 32)) * 2 ^ 32 + off) with r' in Hmin
      by (rewrite <- Hw; pose proof (Z.div_mod r' (2 ^ 32)); lia).
    auto.
Qed.

(** Within half a period of the checkpoint, [unwrap] inverts [wrap]. *)
Lemma unwrap_wrap_near n zero cp :
  Wrap32.ok zero → u64 n → u64 cp → Z.abs (n - cp) < 2 ^ 31 →
  Wrap32.unwrap (Wrap32.wrap n zero) zero cp = Ret n.
Proof.
  intros Hz Hn Hcp Hd.
  pose proof (unwrap_wp (Wrap32.wrap n zero) zero cp (wrap_ok _ _) Hz Hcp) as H.
  wp_inv H. rewrite Heq. f_equal. destruct H as (_ & Hw & Hmin).
  specialize (Hmin n Hn eq_refl).
  apply wrap_eq_iff in Hw; [|done|apply wrap_ok].
  assert (Hw' : Wrap32.wrap n zero = Wrap32.wrap n zero) by done.
  apply wrap_eq_iff in Hw'; [|done|apply wrap_ok].
  Z.div_mod_to_equations; lia.
Qed.

(** C17: [unwrap] never panics and returns the absolute sequence number nearest to
    the checkpoint: of all the 64-bit numbers that wrap to the given 32-bit one,
    none is closer to the checkpoint than the result. *)
Theorem unwrap_returns_nearest self zero cp :
  Wrap32.ok self → Wrap32.ok zero → u64 cp →
  ∃ r, Wrap32.unwrap self zero cp = Ret r ∧
    u64 r ∧ Wrap32.wrap r zero = self ∧
    ∀ r', u64 r' → Wrap32.wrap r' zero = self → Z.abs (r - cp) ≤ Z.abs (r' - cp).
Proof. intros. apply wp_Ret. by apply unwrap_wp. Qed.

Lemma unwrap_returns_nearest_witness :
  ∃ r, Wrap32.unwrap (Wrap32.new 17) (Wrap32.new 4294967290) (5 * 2 ^ 32 + 1) = Ret r ∧
    u64 r ∧ Wrap32.wrap r (Wrap32.new 4294967290) = Wrap32.new 17 ∧
    ∀ r', u64 r' → Wrap32.wrap r' (Wrap32.new 4294967290) = Wrap32.new 17 →
      Z.abs (r - (5 * 2 ^ 32 + 1)) ≤ Z.abs (r' - (5 * 2 ^ 32 + 1)).
Proof. apply unwrap_returns_nearest; unfold Wrap32.ok, u32, u64; simpl; lia. Defined.

(** [wrap] and [unwrap] round-trip: an absolute number less than half a period
    from the checkpoint is recovered exactly. *)
Theorem unwrap_wrap_roundtrip n zero cp :
  Wrap32.ok zero → u64 n → u64 cp → Z.abs (n - cp) < 2 ^ 31 →
  Wrap32.unwrap (Wrap32.wrap n zero) zero cp = Ret n.
Proof. apply unwrap_wrap_near. Qed.

Lemma unwrap_wrap_roundtrip_witness :
  Wrap32.unwrap (Wrap32.wrap (3 * 2 ^ 32 + 123) (Wrap32.new 9876)) (Wrap32.new 9876)
    (3 * 2 ^ 32) = Ret (3 * 2 ^ 32 + 123).
Proof. apply unwrap_wrap_roundtrip; unfold Wrap32.ok, u32, u64; simpl; lia. Defined.
