(* ===== verification/byte_stream.v ===== *)
(** * The bounded byte stream ([src/byte_stream.rs])

    A FIFO of byte chunks with a capacity, a closed flag, an error flag and two
    64-bit counters.  The theorems say that every run of the operations neither
    loses, duplicates nor reorders a byte, that the buffer stays within its
    capacity, and that no operation panics while fewer than 2^64 bytes pass. *)

From S2P Require Import prelude.

Module ByteStream.

Record t := mk {
  capacity : Z;
  chunks : list bytes;
  bytes_buffered : Z;
  closed : bool;
  error : bool;
  bytes_pushed : Z;
  bytes_popped : Z;
}.

Definition new (capacity : Z) : t := mk capacity [] 0 false false 0 0.

Definition available_capacity (self : t) : exec Z :=
  sub_u (capacity self) (bytes_buffered self).

Definition push (self : t) (data : bytes) : exec (Z * t) :=
  if closed self || error self then mret (0, self)
  else
    available ← available_capacity self;
    let accepted := Z.min (blen data) available in
    if 0 <? accepted then
      chunk ← (if accepted =? blen data then mret data else slice 0 accepted data);
      bytes_buffered' ← add_u64 (bytes_buffered self) accepted;
      bytes_pushed' ← add_u64 (bytes_pushed self) accepted;
      mret (accepted,
            mk (capacity self) (chunks self ++ [chunk]) bytes_buffered'
               (closed self) (error self) bytes_pushed' (bytes_popped self))
    else mret (accepted, self).

Definition close (self : t) : t :=
  mk (capacity self) (chunks self) (bytes_buffered self) true (error self)
     (bytes_pushed self) (bytes_popped self).

Definition is_closed (self : t) : bool := closed self.

Definition set_error (self : t) : t :=
  mk (capacity self) (chunks self) (bytes_buffered self) (closed self) true
     (bytes_pushed self) (bytes_popped self).

Definition has_error (self : t) : bool := error self.

Definition peek (self : t) : bytes := default [] (head (chunks self)).

Definition pop (self : t) (len : Z) : exec (bytes * t) :=
  match chunks self with
  | [] => mret ([], self)
  | front :: rest =>
      let popped := Z.min len (blen front) in
      if popped =? 0 then
        mret ([], mk (capacity self) (front :: rest) (bytes_buffered self) (closed self)
                     (error self) (bytes_pushed self) (bytes_popped self))
      else
        bytes_buffered' ← sub_u (bytes_buffered self) popped;
        bytes_popped' ← add_u64 (bytes_popped self) popped;
        if popped =? blen front then
          mret (front, mk (capacity self) rest bytes_buffered' (closed self) (error self)
                          (bytes_pushed self) bytes_popped')
        else
          prefix ← slice 0 popped front;
          suffix ← slice_from popped front;
          mret (prefix, mk (capacity self) (suffix :: rest) bytes_buffered' (closed self)
                           (error self) (bytes_pushed self) bytes_popped')
  end.

Definition is_finished (self : t) : bool := closed self && (bytes_buffered self =? 0).

(** The bytes the stream holds, oldest first. *)
Definition content (self : t) : bytes := concat (chunks self).

(** The state invariant. *)
Record Inv (self : t) : Prop := {
  inv_capacity : u64 (capacity self);
  inv_buffered : bytes_buffered self = blen (content self);
  inv_bound : bytes_buffered self ≤ capacity self;
  inv_balance : bytes_pushed self = bytes_popped self + bytes_buffered self;
  inv_popped : 0 ≤ bytes_popped self;
  inv_pushed : bytes_pushed self ≤ u64_max;
  inv_chunks : Forall (λ c, c ≠ []) (chunks self);
}.

(** How much of [data] a [push] accepts. *)
Definition accepts (self : t) (data : bytes) : Z :=
  if closed self || error self then 0
  else Z.min (blen data) (capacity self - bytes_buffered self).

(** [s'] differs from [s] only in its buffer and counters. *)
Definition same_flags (s s' : t) : Prop :=
  capacity s' = capacity s ∧ closed s' = closed s ∧ error s' = error s.

(** The operations as data, and a run of a sequence of them that records the
    bytes each [push] accepted and each [pop] returned. *)
Inductive op := Push (data : bytes) | Pop (len : Z) | Close | SetError.

Fixpoint run (self : t) (ops : list op) : exec (bytes * bytes * t) :=
  match ops with
  | [] => mret ([], [], self)
  | Push data :: ops =>
      '(n, self) ← push self data;
      '(ins, outs, self) ← run self ops;
      mret (take (Z.to_nat n) data ++ ins, outs, self)
  | Pop len :: ops =>
      '(b, self) ← pop self len;
      '(ins, outs, self) ← run self ops;
      mret (ins, b ++ outs, self)
  | Close :: ops => run (close self) ops
  | SetError :: ops => run (set_error self) ops
  end.

(** The bytes a run offers to the stream. *)
Fixpoint offered (ops : list op) : Z :=
  match ops with
  | [] => 0
  | Push data :: ops => blen data + offered ops
  | _ :: ops => offered ops
  end.

End ByteStream.

Section facts.
Import ByteStream.
Implicit Types s : ByteStream.t.

Lemma byte_stream_new_inv cap : u64 cap → Inv (new cap).
Proof. intros. split; simpl; try (done || ulia). Qed.

Lemma close_inv s : Inv s → Inv (close s).
Proof. intros []. by split. Qed.

Lemma set_error_inv s : Inv s → Inv (set_error s).
Proof. intros []. by split. Qed.

Lemma accepts_range s data : Inv s → 0 ≤ accepts s data ≤ blen data.
Proof.
  intros []. unfold accepts. pose proof (blen_nonneg data).
  destruct (closed s || error s); lia.
Qed.

(** [push] appends the accepted prefix and nothing else. *)
Lemma push_wp s data :
  Inv s → bytes_pushed s + accepts s data ≤ u64_max →
  push s data ⇓ λ r,
    r.1 = accepts s data ∧ Inv r.2 ∧ same_flags s r.2 ∧
    bytes_pushed r.2 = bytes_pushed s + r.1 ∧ bytes_popped r.2 = bytes_popped s ∧
    content r.2 = content s ++ sub 0 r.1 data.
Proof.
  intros HI Hmax. pose proof (accepts_range s data HI) as Hr. destruct HI.
  unfold push, accepts, available_capacity in *. destruct (closed s || error s).
  { wp_step. split_and!; simpl; try done; [lia|]. unfold sub. by rewrite app_nil_r. }
  wp_step. wp_step; [lia|].
  destruct (Z.ltb_spec 0 (Z.min (blen data) (capacity s - bytes_buffered s))).
  - wp_step. apply (wp_eq _ (sub 0 (Z.min (blen data) (capacity s - bytes_buffered s)) data)).
    { destruct (Z.eqb_spec (Z.min (blen data) (capacity s - bytes_buffered s)) (blen data)) as [->|].
      - by rewrite sub_all.
      - unfold slice. cases_bool; simpl; [done|lia..]. }
    wp_step. wp_step; [ulia|]. wp_step. wp_step; [ulia|]. wp_step.
    assert (Hc : blen (sub 0 (Z.min (blen data) (capacity s - bytes_buffered s)) data)
                 = Z.min (blen data) (capacity s - bytes_buffered s)) by (rewrite blen_sub; lia).
    split_and!; simpl; try done.
    + split; unfold content in *; simpl; rewrite ?concat_app, ?blen_app; simpl;
        rewrite ?app_nil_r; try ulia.
      apply Forall_app; split; [done|]. constructor; [|done].
      intros E. rewrite E in Hc. change (blen []) with 0 in Hc. lia.
    + unfold content. simpl. rewrite concat_app. simpl. by rewrite app_nil_r.
  - wp_step. split_and!; simpl; try done; [lia|].
    replace (Z.min _ _) with 0 by lia. by rewrite app_nil_r.
Qed.

(** [pop] removes a prefix of the content, as long as the request and the
    front chunk allow; it is empty only when there is nothing to give. *)
Lemma pop_wp s len :
  Inv s → 0 ≤ len →
  pop s len ⇓ λ r,
    content s = r.1 ++ content r.2 ∧ r.1 = sub 0 (Z.min len (blen (peek s))) (peek s) ∧
    Inv r.2 ∧ same_flags s r.2 ∧
    bytes_pushed r.2 = bytes_pushed s ∧ bytes_popped r.2 = bytes_popped s + blen r.1.
Proof.
  intros HI Hlen. unfold pop, peek. destruct (chunks s) as [|front rest] eqn:E.
  { wp_step. simpl. change (@blen byte []) with 0. split_and!; try done; try lia. unfold sub. by rewrite drop_nil, take_nil. }
  assert (Hcon : content s = front ++ concat rest) by (unfold content; by rewrite E).
  assert (Hfront : front ≠ [] ∧ Forall (λ c, c ≠ []) rest).
  { destruct HI. rewrite E in inv_chunks0. by inversion inv_chunks0. }
  pose proof (blen_pos front (proj1 Hfront)).
  simpl. destruct (Z.eqb_spec (Z.min len (blen front)) 0).
  { wp_step. simpl. replace (Z.min len (blen front)) with 0 by lia.
    change (@blen byte []) with 0. split_and!; try done; [|lia].
    destruct HI; split; unfold content in *; simpl; rewrite ?E in *; done. }
  destruct HI. pose proof (blen_nonneg (concat rest)).
  rewrite Hcon, blen_app in inv_buffered0.
  wp_step. wp_step; [lia|]. wp_step. wp_step; [lia|].
  destruct (Z.eqb_spec (Z.min len (blen front)) (blen front)) as [Hall|].
  - wp_step. simpl. rewrite Hall, sub_all. split_and!; try done.
    split; unfold content; simpl; try ulia; tauto.
  - wp_step. wp_step; [lia|lia|]. wp_step. wp_step; [lia|]. wp_step. simpl.
    assert (Hb : blen (sub 0 (Z.min len (blen front)) front) = Z.min len (blen front))
      by (rewrite blen_sub; lia).
    assert (Hb' : blen (drop (Z.to_nat (Z.min len (blen front))) front)
                  = blen front - Z.min len (blen front)) by (apply blen_drop; lia).
    split_and!; try done; [|split|rewrite Hb; done].
    all: unfold content; simpl; rewrite ?blen_app; try ulia.
    + unfold content in Hcon. rewrite Hcon, app_assoc. f_equal. unfold sub. rewrite drop_0, Z.sub_0_r.
      by rewrite take_drop.
    + constructor; [|tauto]. intros E'. rewrite E' in Hb'.
      change (blen []) with 0 in Hb'. lia.
Qed.

Lemma pop_progress s len :
  Inv s → 0 < len → 0 < bytes_buffered s →
  pop s len ⇓ λ r, r.1 ≠ [].
Proof.
  intros HI Hlen Hb. wp_apply (pop_wp s len); [done|lia|].
  intros [b s'] (_ & -> & _). unfold peek. destruct HI. unfold content in *.
  destruct (chunks s) as [|front rest]; simpl in *; [unfold blen in *; simpl in *; lia|].
  inversion inv_chunks0 as [|?? Hf]; subst. apply blen_pos in Hf. intros E.
  apply (f_equal blen) in E. rewrite blen_sub in E by lia. unfold blen in *. simpl in *. lia.
Qed.

(** A pop without a limit takes the whole first chunk. *)
Lemma pop_front s : Inv s → pop s u64_max ⇓ λ '(_, s'), chunks s' = tail (chunks s).
Proof.
  intros []. unfold pop. destruct (chunks s) as [|front rest] eqn:E; [wp_step; by rewrite E|].
  assert (Hc : blen (content s) = blen front + blen (concat rest)) by (unfold content; by rewrite E, <- blen_app).
  pose proof (blen_nonneg (concat rest)). inversion inv_chunks0 as [|?? Hf _]; subst. apply blen_pos in Hf.
  rewrite Z.min_r, (proj2 (Z.eqb_neq _ 0)), Z.eqb_refl by ulia.
  wp_step. wp_step; [lia|]. wp_step. wp_step; [ulia|]. by wp_step.
Qed.

Definition op_ok (o : op) : Prop := match o with Pop len => 0 ≤ len | _ => True end.

Lemma offered_nonneg ops : 0 ≤ offered ops.
Proof. induction ops as [|[d| | |] ops]; simpl; [lia|pose proof (blen_nonneg d)| | |]; lia. Qed.

Lemma run_wp ops s :
  Inv s → Forall op_ok ops → bytes_pushed s + offered ops ≤ u64_max →
  run s ops ⇓ λ r,
    content s ++ r.1.1 = r.1.2 ++ content r.2 ∧ Inv r.2 ∧ capacity r.2 = capacity s ∧
    bytes_pushed r.2 = bytes_pushed s + blen r.1.1 ∧
    bytes_popped r.2 = bytes_popped s + blen r.1.2.
Proof.
  revert s. induction ops as [|o ops IH]; intros s HI Hops Hmax.
  { simpl. wp_step. simpl. change (@blen byte []) with 0.
    split_and!; try done; [by rewrite app_nil_r|lia..]. }
  inversion Hops as [|?? Ho Hops']; subst. pose proof (offered_nonneg ops).
  destruct o as [data|len| |]; simpl in *.
  - pose proof (accepts_range s data HI). wp_step.
    wp_apply (push_wp s data); [done|lia|]. intros [n s1] (Hn & HI1 & (Hc & _) & Hp & Hq & Hcon).
    simpl in *. subst n. wp_step. wp_apply (IH s1); [done|done|lia|].
    intros [[ins outs] s2] (Heq & HI2 & Hc2 & Hp2 & Hq2). simpl in *. wp_step. simpl.
    rewrite take_sub, blen_app, blen_sub by lia.
    split_and!; try done; [|congruence|lia|lia].
    by rewrite app_assoc, <- Hcon.
  - wp_step. wp_apply (pop_wp s len); [done|done|].
    intros [b s1] (Hcon & _ & HI1 & (Hc & _) & Hp & Hq). simpl in *.
    wp_step. wp_apply (IH s1); [done|done|lia|].
    intros [[ins outs] s2] (Heq & HI2 & Hc2 & Hp2 & Hq2). simpl in *. wp_step. simpl.
    rewrite blen_app. split_and!; try done; [|congruence|lia|lia].
    by rewrite Hcon, <- !app_assoc, Heq.
  - apply (IH (close s)); [by apply close_inv|done|done].
  - apply (IH (set_error s)); [by apply set_error_inv|done|done].
Qed.

Lemma is_finished_iff s : Inv s → is_finished s = true ↔ closed s = true ∧ content s = [].
Proof.
  intros []. unfold is_finished. rewrite andb_true_iff, Z.eqb_eq, inv_buffered0.
  split; intros [? E]; split; try done; [by apply blen_0|by rewrite E].
Qed.

Lemma push_refused s data : closed s || error s = true → push s data = Ret (0, s).
Proof. intros E. unfold push. by rewrite E. Qed.
End facts.

(** C29: FIFO refinement. Whatever sequence of pushes, pops, closes and errors a new
    stream goes through, no operation panics (while fewer than 2^64 bytes are
    offered); the bytes accepted are exactly the bytes popped followed by the
    bytes still buffered, in order; the counters count them; and the buffer
    never exceeds the capacity. *)
Theorem byte_stream_fifo cap ops :
  u64 cap → Forall op_ok ops → ByteStream.offered ops ≤ u64_max →
  ∃ ins outs s, ByteStream.run (ByteStream.new cap) ops = Ret (ins, outs, s) ∧
    ins = outs ++ ByteStream.content s ∧
    ByteStream.bytes_pushed s = blen ins ∧ ByteStream.bytes_popped s = blen outs ∧
    ByteStream.bytes_buffered s = blen (ByteStream.content s) ∧
    blen (ByteStream.content s) ≤ cap.
Proof.
  intros Hcap Hops Hmax.
  pose proof (run_wp ops (ByteStream.new cap) (byte_stream_new_inv cap Hcap) Hops Hmax) as H.
  wp_inv H. destruct r as [[ins outs] s], H as (Hcon & [] & Hc & Hp & Hq).
  simpl in *. exists ins, outs, s. split_and!; try done; lia.
Qed.

Lemma byte_stream_fifo_witness :
  ∃ ins outs s, ByteStream.run (ByteStream.new 4)
      [ByteStream.Push [x61; x62; x63]; ByteStream.Pop 2; ByteStream.Push [x64; x65; x66; x67];
       ByteStream.Pop 1; ByteStream.Close; ByteStream.Push [x68]; ByteStream.Pop 100]
      = Ret (ins, outs, s) ∧
    ins = outs ++ ByteStream.content s ∧
    ByteStream.bytes_pushed s = blen ins ∧ ByteStream.bytes_popped s = blen outs ∧
    ByteStream.bytes_buffered s = blen (ByteStream.content s) ∧
    blen (ByteStream.content s) ≤ 4.
Proof.
  apply byte_stream_fifo; [unfold u64; lia| |vm_compute; discriminate].
  repeat constructor; simpl; lia.
Defined.

(** End of stream is final. Once a stream is finished (closed and drained) every
    further run of operations leaves it finished and produces no byte. *)
Theorem byte_stream_finished_forever s ops :
  ByteStream.Inv s → ByteStream.is_finished s = true → Forall op_ok ops →
  ∃ s', ByteStream.run s ops = Ret ([], [], s') ∧ ByteStream.is_finished s' = true.
Proof.
  intros HI Hf%is_finished_iff Hops; [|done]. destruct Hf as [Hc Hcon].
  revert s HI Hc Hcon. induction Hops as [|o ops Ho Hops IH]; intros s HI Hc Hcon.
  { exists s. split; [done|]. by apply is_finished_iff. }
  destruct o as [data|len| |]; simpl in *.
  - rewrite push_refused by by rewrite Hc. destruct (IH s HI Hc Hcon) as (s' & Hr & ?).
    exists s'. by rewrite bind_Ret, Hr.
  - pose proof (pop_wp s len HI Ho) as H. wp_inv H. destruct r as [b s1].
    destruct H as (Hb & _ & HI1 & (_ & Hc1 & _) & _). simpl in *. rewrite Hcon in Hb.
    symmetry in Hb. apply app_eq_nil in Hb as [-> Hcon1]. rewrite Heq, bind_Ret.
    destruct (IH s1 HI1 ltac:(by rewrite Hc1) Hcon1) as (s' & Hr & ?). exists s'. by rewrite Hr.
  - apply IH; [by apply close_inv|done|done].
  - apply IH; [by apply set_error_inv|done|done].
Qed.

Lemma byte_stream_finished_forever_witness :
  ∃ s', ByteStream.run (ByteStream.close (ByteStream.new 4))
      [ByteStream.Push [x61]; ByteStream.Pop 2; ByteStream.SetError] = Ret ([], [], s') ∧
    ByteStream.is_finished s' = true.
Proof.
  apply byte_stream_finished_forever; [|done|repeat constructor; simpl; lia].
  apply close_inv, byte_stream_new_inv. unfold u64. lia.
Defined.
