(* ===== verification/btree_map.v ===== *)
(** * The ordered map of the standard library, as the program uses it

    [BTreeMap<u64, V>] is an association list kept in ascending key order; the
    operations are the ones [src/reassembler.rs] calls.  The facts relate each
    of them to membership. *)

From S2P Require Import prelude.

Module BTreeMap.

Abbreviation t V := (list (Z * V)).

(** [insert] returns the value it replaced. *)
Fixpoint insert {V} (k : Z) (v : V) (m : t V) : option V * t V :=
  match m with
  | [] => (None, [(k, v)])
  | (k', v') :: m' =>
      if k <? k' then (None, (k, v) :: m)
      else if k =? k' then (Some v', (k, v) :: m')
      else let '(old, m'') := insert k v m' in (old, (k', v') :: m'')
  end.

Fixpoint remove {V} (k : Z) (m : t V) : option V * t V :=
  match m with
  | [] => (None, [])
  | (k', v') :: m' =>
      if k =? k' then (Some v', m')
      else let '(old, m'') := remove k m' in (old, (k', v') :: m'')
  end.

Definition first_key_value {V} (m : t V) : option (Z * V) := head m.

(** [range(..=k).next_back()] *)
Fixpoint last_at_most {V} (k : Z) (m : t V) : option (Z * V) :=
  match m with
  | [] => None
  | (k', v') :: m' =>
      if k' <=? k then
        match last_at_most k m' with Some e => Some e | None => Some (k', v') end
      else None
  end.

Fixpoint first_at_least {V} (k : Z) (m : t V) : option (Z * V) :=
  match m with
  | [] => None
  | (k', v') :: m' => if k <=? k' then Some (k', v') else first_at_least k m'
  end.

(** [range(lo..hi).next()], which panics when the bounds are out of order. *)
Definition range_first {V} (lo hi : Z) (m : t V) : exec (option (Z * V)) :=
  _ ← assert (lo <=? hi);
  mret match first_at_least lo m with
       | Some (k, v) => if k <? hi then Some (k, v) else None
       | None => None
       end.

Definition values {V} (m : t V) : list V := m.*2.

End BTreeMap.

Section facts.
Context {V : Type}.
Implicit Types (m : BTreeMap.t V) (k : Z) (v : V).
Import BTreeMap.

Lemma insert_first k v m :
  (∀ k' v', head m = Some (k', v') → k < k') → insert k v m = (None, (k, v) :: m).
Proof.
  destruct m as [|[k' v'] m]; [done|]. intros H. simpl. specialize (H k' v' eq_refl).
  by rewrite (proj2 (Z.ltb_lt _ _) H).
Qed.

Lemma insert_keeps k v m k' v' :
  (k', v') ∈ m → k' ≠ k → (k', v') ∈ (insert k v m).2.
Proof.
  induction m as [|[k1 v1] m IH]; simpl; intros Hin Hk; [by apply not_elem_of_nil in Hin|].
  destruct (Z.ltb_spec k k1); [by right|].
  apply elem_of_cons in Hin. destruct (Z.eqb_spec k k1) as [->|].
  - destruct Hin as [[= -> ->]|Hin]; [done|by right].
  - destruct (insert k v m) as [old m'']. simpl in *.
    destruct Hin as [[= -> ->]|Hin]; [by left|right; auto].
Qed.

Lemma remove_first k v m : remove k ((k, v) :: m) = (Some v, m).
Proof. simpl. by rewrite Z.eqb_refl. Qed.

Lemma last_at_most_None k m : last_at_most k m = None → ∀ k' v' m', m = (k', v') :: m' → k < k'.
Proof.
  intros H k' v' m' ->. simpl in H. destruct (Z.leb_spec k' k); [|done].
  by destruct (last_at_most k m').
Qed.

Lemma last_at_most_Some k m k' v' :
  last_at_most k m = Some (k', v') → (k', v') ∈ m ∧ k' ≤ k.
Proof.
  induction m as [|[k1 v1] m IH]; simpl; [done|]. destruct (Z.leb_spec k1 k); [|done].
  destruct (last_at_most k m) as [e|] eqn:E.
  - intros [= ->]. destruct IH as [? ?]; [done|]. split; [by right|done].
  - intros [= -> ->]. split; [by left|lia].
Qed.

Lemma first_at_least_Some k m k' v' :
  first_at_least k m = Some (k', v') → (k', v') ∈ m ∧ k ≤ k'.
Proof.
  induction m as [|[k1 v1] m IH]; simpl; [done|]. destruct (Z.leb_spec k k1).
  - intros [= -> ->]. split; [by left|done].
  - intros [? ?]%IH. split; [by right|done].
Qed.

Lemma first_at_least_None k m : first_at_least k m = None → ∀ k' v', (k', v') ∈ m → k' < k.
Proof.
  induction m as [|[k1 v1] m IH]; simpl; intros H k' v' Hin; [by apply not_elem_of_nil in Hin|].
  destruct (Z.leb_spec k k1); [done|].
  apply elem_of_cons in Hin as [[= -> ->]|Hin]; [lia|eauto].
Qed.
End facts.
