(* ===== verification/tcp_message.v ===== *)
(** * Messages between a TCP sender and a TCP receiver ([src/tcp_message.rs]) *)

From S2P Require Import prelude wrapping_integers.

Module TcpSenderMessage.

Record t := mk {
  seqno : Wrap32.t;
  syn : bool;
  payload : bytes;
  fin : bool;
  rst : bool;
}.

Definition new (seqno : Wrap32.t) : t := mk seqno false [] false false.

(** The sum cannot overflow: a [Bytes] is at most [isize::MAX] long. *)
Definition sequence_length (self : t) : Z :=
  of_bool (syn self) + blen (payload self) + of_bool (fin self).

Definition is_empty_in_sequence_space (self : t) : bool := sequence_length self =? 0.

#[global] Instance eq_dec : EqDecision t.
Proof. solve_decision. Defined.

End TcpSenderMessage.

Module TcpReceiverMessage.

Record t := mk {
  ackno : option Wrap32.t;
  window_size : Z;
  rst : bool;
}.

#[global] Instance eq_dec : EqDecision t.
Proof. solve_decision. Defined.

(** The field types: an acknowledgement number is a [u32], a window a [u16]. *)
Definition ok (m : t) : Prop :=
  u16 (window_size m) ∧ match ackno m with Some a => Wrap32.ok a | None => True end.

End TcpReceiverMessage.

Lemma sequence_length_nonneg m : 0 ≤ TcpSenderMessage.sequence_length m.
Proof.
  unfold TcpSenderMessage.sequence_length.
  pose proof (blen_nonneg (TcpSenderMessage.payload m)).
  pose proof (of_bool_range (TcpSenderMessage.syn m)).
  pose proof (of_bool_range (TcpSenderMessage.fin m)). lia.
Qed.
