(* ===== verification/stream.v ===== *)
(** * Specification: pieces of a byte stream and TCP's sequence space

    The vocabulary the theorems about both ends of a connection share: when a
    fragment is a piece of a stream, and when a message carries a range of the
    sequence space of that stream. *)

From S2P Require Import prelude wrapping_integers tcp_message.

(** [data] is what [S] holds from index [first], and only the end of [S] is marked as last. *)
Definition piece_of (S : bytes) (first : Z) (data : bytes) (last : bool) : Prop :=
  0 ≤ first ∧ first + blen data ≤ blen S ∧ data = sub first (first + blen data) S ∧
  (last = true → first + blen data = blen S).

(** [m] carries the sequence numbers of stream [S] from the absolute number [n], in a
    direction whose initial sequence number is [z]: the SYN has number 0, byte [k] has
    number [k + 1], and the FIN follows the last byte. *)
Definition carries (S : bytes) (z : Wrap32.t) (m : TcpSenderMessage.t) (n : Z) : Prop :=
  TcpSenderMessage.seqno m = Wrap32.wrap n z ∧
  (TcpSenderMessage.syn m = true ↔ n = 0) ∧ 0 ≤ n ∧
  piece_of S (if TcpSenderMessage.syn m then 0 else n - 1)
    (TcpSenderMessage.payload m) (TcpSenderMessage.fin m).

Lemma piece_at S first data last i b :
  piece_of S first data last → at_z data (i - first) = Some b → at_z S i = Some b.
Proof.
  intros (? & ? & Hd & _) Hb. pose proof (at_z_is_Some _ _ _ Hb). rewrite Hd in Hb.
  rewrite at_z_sub, (proj2 (Z.leb_le _ _)), (proj2 (Z.ltb_lt _ _)) in Hb by lia. simpl in Hb.
  by replace (first + (i - first)) with i in Hb by lia.
Qed.

Lemma sub_app_l {A} lo hi (a b : list A) : 0 ≤ lo ≤ hi → hi ≤ blen a → sub lo hi (a ++ b) = sub lo hi a.
Proof.
  intros. unfold sub, blen in *. rewrite drop_app_le by lia.
  rewrite take_app_le; [done|]. rewrite length_drop. lia.
Qed.

(** A piece that is not the last stays a piece when the stream grows. *)
Lemma piece_of_app S S' first data : piece_of S first data false → piece_of (S ++ S') first data false.
Proof.
  intros (? & ? & Hd & _). pose proof (blen_nonneg data). split_and!; try done.
  - rewrite blen_app. pose proof (blen_nonneg S'). lia.
  - by rewrite sub_app_l by lia.
Qed.

Lemma carries_app S S' z m n :
  carries S z m n → TcpSenderMessage.fin m = false → carries (S ++ S') z m n.
Proof.
  intros (? & ? & ? & Hp) Hf. split_and!; try done. rewrite Hf in *. by apply piece_of_app.
Qed.

Lemma drop_sub {A} k lo hi (l : list A) :
  0 ≤ k → 0 ≤ lo → drop (Z.to_nat k) (sub lo hi l) = sub (lo + k) hi l.
Proof.
  intros. unfold sub. rewrite skipn_firstn_comm, drop_drop. f_equal; [lia|]. f_equal. lia.
Qed.

(** What is left of a piece when its first [k] bytes are dropped. *)
Lemma piece_of_drop S first data last k :
  piece_of S first data last → 0 ≤ k ≤ blen data →
  piece_of S (first + k) (drop (Z.to_nat k) data) last.
Proof.
  intros (? & ? & Hd & Hl) Hk. unfold piece_of. rewrite blen_drop by lia.
  split_and!; [lia|lia| |intros Hlast; specialize (Hl Hlast); lia].
  rewrite Hd at 1. rewrite drop_sub by lia. f_equal. lia.
Qed.
