(* ===== verification/reassembler.v ===== *)
(** * The reassembler ([src/reassembler.rs])

    Out-of-order fragments of a byte stream go in, the stream comes out in order
    through a [ByteStream].  Pending fragments sit in an ordered map from start
    index to bytes.  The theorems give the exact outcome of [try_insert] (errors
    included), show that none of its assertions can fail, and that the
    reassembler implements the abstract specification "the set of bytes known
    so far, of which the longest contiguous prefix has been output". *)

From S2P Require Import prelude byte_stream btree_map stream.

Inductive ReassemblerError :=
| IndexOverflow
| InconsistentEof (existing received : Z)
| SegmentBeyondEof (eof segment_start segment_end : Z)
| BufferedDataBeyondEof (eof buffered_end : Z).

Module Reassembler.

Record t := mk {
  output : ByteStream.t;
  pending : BTreeMap.t bytes;
  eof_index : option Z;
}.

Definition with_output (self : t) (o : ByteStream.t) : t := mk o (pending self) (eof_index self).
Definition with_pending (self : t) (p : BTreeMap.t bytes) : t := mk (output self) p (eof_index self).
Definition with_eof_index (self : t) (e : option Z) : t := mk (output self) (pending self) e.

Definition first_unassembled (self : t) : Z := ByteStream.bytes_pushed (output self).

Definition first_unacceptable (self : t) : Z :=
  saturating_add u64_max (ByteStream.bytes_popped (output self))
                         (ByteStream.capacity (output self)).

Definition bytes_pending (self : t) : Z :=
  foldr (λ d n, blen d + n) 0 (BTreeMap.values (pending self)).

(** The loop of [debug_check_invariants] over the pending fragments. *)
Fixpoint check_fragments (lo hi : Z) (eof previous_end : option Z) (m : BTreeMap.t bytes)
  : exec unit :=
  match m with
  | [] => mret tt
  | (start, data) :: m =>
      _ ← assert (negb (blen data =? 0));
      let end_ := saturating_add u64_max start (blen data) in
      _ ← assert (lo <=? start);
      _ ← assert (end_ <=? hi);
      _ ← match previous_end with Some e => assert (e <=? start) | None => mret tt end;
      _ ← match eof with Some e => assert (end_ <=? e) | None => mret tt end;
      check_fragments lo hi eof (Some end_) m
  end.

Definition debug_check_invariants (self : t) : exec unit :=
  _ ← check_fragments (first_unassembled self) (first_unacceptable self) (eof_index self) None
        (pending self);
  _ ← assert (saturating_add usize_max (ByteStream.bytes_buffered (output self))
                (bytes_pending self) <=? ByteStream.capacity (output self));
  match eof_index self with
  | Some e => assert (ByteStream.bytes_pushed (output self) <=? e)
  | None => mret tt
  end.

Definition new (capacity : Z) : exec t :=
  let self := mk (ByteStream.new capacity) [] None in
  _ ← debug_check_invariants self;
  mret self.

Definition insert_gap (self : t) (original_start : Z) (original_data : bytes)
    (gap_start gap_end : Z) : exec t :=
  if gap_end <=? gap_start then mret self
  else
    slice_start ← sub_u gap_start original_start;
    slice_end ← sub_u gap_end original_start;
    gap ← slice slice_start slice_end original_data;
    let '(previous, pending') := BTreeMap.insert gap_start gap (pending self) in
    _ ← assert (match previous with None => true | Some _ => false end);
    mret (with_pending self pending').

(** The [while cursor < end] loop of [insert_missing_gaps]. *)
Fixpoint gaps_loop (fuel : nat) (self : t) (start : Z) (data : bytes) (cursor end_ : Z) : exec t :=
  match fuel with
  | O => Fault OutOfFuel
  | S fuel =>
      if cursor <? end_ then
        next_existing ← BTreeMap.range_first cursor end_ (pending self);
        match next_existing with
        | Some (next_start, next_data) =>
            let next_end := saturating_add u64_max next_start (blen next_data) in
            self ← (if cursor <? next_start
                    then insert_gap self start data cursor next_start else mret self);
            gaps_loop fuel self start data (Z.min (Z.max cursor next_end) end_) end_
        | None => insert_gap self start data cursor end_
        end
      else mret self
  end.

Definition insert_missing_gaps (self : t) (start : Z) (data : bytes) : exec t :=
  if blen data =? 0 then mret self
  else
    end_ ← expect (checked_add u64_max start (blen data));
    let cursor := start in
    let cursor :=
      match BTreeMap.last_at_most cursor (pending self) with
      | Some (previous_start, previous_data) =>
          let previous_end := saturating_add u64_max previous_start (blen previous_data) in
          if cursor <? previous_end then Z.min previous_end end_ else cursor
      | None => cursor
      end in
    gaps_loop (S (Z.to_nat (end_ - cursor))) self start data cursor end_.

Definition trim_stale_prefix (self : t) (start next_required : Z) : exec t :=
  let '(removed, pending') := BTreeMap.remove start (pending self) in
  data ← expect removed;
  let self := with_pending self pending' in
  let end_ := saturating_add u64_max start (blen data) in
  if end_ <=? next_required then mret self
  else
    suffix_start ← sub_u next_required start;
    suffix ← slice_from suffix_start data;
    mret (with_pending self (BTreeMap.insert next_required suffix (pending self)).2).

(** The [loop] of [flush_contiguous]. *)
Fixpoint flush_loop (fuel : nat) (self : t) : exec t :=
  match fuel with
  | O => Fault OutOfFuel
  | S fuel =>
      let next_required := ByteStream.bytes_pushed (output self) in
      match BTreeMap.first_key_value (pending self) with
      | None => mret self
      | Some (start, _) =>
          if start <? next_required then
            self ← trim_stale_prefix self start next_required;
            flush_loop fuel self
          else if negb (start =? next_required) then mret self
          else
            let '(removed, pending') := BTreeMap.remove start (pending self) in
            data ← expect removed;
            let self := with_pending self pending' in
            '(accepted, output') ← ByteStream.push (output self) data;
            let self := with_output self output' in
            _ ← assert (accepted <=? blen data);
            if accepted <? blen data then
              remainder_start ← add_u64 start accepted;
              remainder ← slice_from accepted data;
              mret (with_pending self (BTreeMap.insert remainder_start remainder (pending self)).2)
            else flush_loop fuel self
      end
  end.

Definition flush_contiguous (self : t) : exec t :=
  flush_loop (2 * length (pending self) + 2) self.

(** The [for] loop of [record_and_validate_eof]: the first fragment that ends beyond the EOF. *)
Fixpoint validate_pending (received_eof : Z) (m : BTreeMap.t bytes)
  : result unit ReassemblerError :=
  match m with
  | [] => Ok tt
  | (start, data) :: m =>
      match checked_add u64_max start (blen data) with
      | None => Err IndexOverflow
      | Some end_ =>
          if received_eof <? end_ then Err (BufferedDataBeyondEof received_eof end_)
          else validate_pending received_eof m
      end
  end.

Definition record_and_validate_eof (self : t) (received_eof : Z) (is_last_substring : bool)
  : result unit ReassemblerError * t :=
  if negb is_last_substring then (Ok tt, self)
  else
    match eof_index self with
    | Some existing =>
        if negb (existing =? received_eof)
        then (Err (InconsistentEof existing received_eof), self)
        else (Ok tt, self)
    | None =>
        if received_eof <? ByteStream.bytes_pushed (output self) then
          (Err (BufferedDataBeyondEof received_eof (ByteStream.bytes_pushed (output self))), self)
        else
          match validate_pending received_eof (pending self) with
          | Err e => (Err e, self)
          | Ok _ => (Ok tt, with_eof_index self (Some received_eof))
          end
    end.

Definition close_if_complete (self : t) : t :=
  match eof_index self with
  | Some eof_index =>
      if ByteStream.bytes_pushed (output self) =? eof_index
      then with_output self (ByteStream.close (output self)) else self
  | None => self
  end.

(** The part of [try_insert] after the validation of the indices. *)
Definition insert_window (self : t) (first_index : Z) (data : bytes) (original_end : Z)
  : exec t :=
  let clipped_start := Z.max first_index (first_unassembled self) in
  let clipped_end := Z.min original_end (first_unacceptable self) in
  self ←
    (if clipped_start <? clipped_end then
       data_start ← sub_u clipped_start first_index;
       data_end ← sub_u clipped_end first_index;
       clipped_data ← slice data_start data_end data;
       self ←
         (if clipped_start =? ByteStream.bytes_pushed (output self) then
            '(_, output') ← ByteStream.push (output self) clipped_data;
            mret (with_output self output')
          else insert_missing_gaps self clipped_start clipped_data);
       flush_contiguous self
     else mret self);
  let self := close_if_complete self in
  _ ← debug_check_invariants self;
  mret self.

Definition try_insert (self : t) (first_index : Z) (data : bytes) (is_last_substring : bool)
  : exec (result unit ReassemblerError * t) :=
  match try_from u64_max (blen data) with
  | None => mret (Err IndexOverflow, self)
  | Some data_len =>
  match checked_add u64_max first_index data_len with
  | None => mret (Err IndexOverflow, self)
  | Some original_end =>
  match record_and_validate_eof self original_end is_last_substring with
  | (Err e, self) => mret (Err e, self)
  | (Ok _, self) =>
      let beyond := match eof_index self with
                    | Some eof => if eof <? original_end then Some eof else None
                    | None => None
                    end in
      match beyond with
      | Some eof => mret (Err (SegmentBeyondEof eof first_index original_end), self)
      | None =>
          self ← insert_window self first_index data original_end;
          mret (Ok tt, self)
      end
  end end end.

Definition insert (self : t) (first_index : Z) (data : bytes) (is_last_substring : bool)
  : exec t :=
  '(r, self) ← try_insert self first_index data is_last_substring;
  match r with Ok _ => mret self | Err _ => panic end.

(** What its users do with a reassembler, as data: fragments arrive, the reader
    pops bytes from [output_mut()], and the stream may be put in error.  A run
    returns the bytes popped and the result of every [try_insert]. *)
Inductive op :=
| Insert (first_index : Z) (data : bytes) (is_last_substring : bool)
| PopOutput (len : Z)
| FailOutput.

Fixpoint run (self : t) (ops : list op)
  : exec (bytes * list (result unit ReassemblerError) * t) :=
  match ops with
  | [] => mret ([], [], self)
  | Insert first_index data is_last_substring :: ops =>
      '(r, self) ← try_insert self first_index data is_last_substring;
      '(popped, rs, self) ← run self ops;
      mret (popped, r :: rs, self)
  | PopOutput len :: ops =>
      '(b, o) ← ByteStream.pop (output self) len;
      '(popped, rs, self) ← run (with_output self o) ops;
      mret (b ++ popped, rs, self)
  | FailOutput :: ops => run (with_output self (ByteStream.set_error (output self))) ops
  end.

End Reassembler.

(** ** Fragment maps *)

(** [m] holds non-empty, disjoint fragments in ascending order, all within [lo, hi). *)
Fixpoint frags_ok (lo hi : Z) (m : BTreeMap.t bytes) : Prop :=
  match m with
  | [] => lo ≤ hi
  | (s, d) :: m => lo ≤ s ∧ 0 < blen d ∧ frags_ok (s + blen d) hi m
  end.

(** The byte the map holds for a stream index. *)
Fixpoint stored (m : BTreeMap.t bytes) (i : Z) : option byte :=
  match m with
  | [] => None
  | (s, d) :: m => if (s <=? i) && (i <? s + blen d) then at_z d (i - s) else stored m i
  end.

Section fragments.
Implicit Types m : BTreeMap.t bytes.

Lemma frags_le lo hi m : frags_ok lo hi m → lo ≤ hi.
Proof. revert lo. induction m as [|[s d] m IH]; simpl; intros lo H; [done|].
  destruct H as (? & ? & H%IH). lia. Qed.

Lemma frags_weaken lo hi lo' hi' m :
  frags_ok lo hi m → lo' ≤ lo → hi ≤ hi' → frags_ok lo' hi' m.
Proof. revert lo lo'. induction m as [|[s d] m IH]; simpl; intros lo lo' H ??; [lia|].
  destruct H as (? & ? & H). split_and!; [lia|done|]. eapply IH; [done|lia|lia]. Qed.

Lemma frags_In lo hi m s d : frags_ok lo hi m → (s, d) ∈ m →
  lo ≤ s ∧ 0 < blen d ∧ s + blen d ≤ hi.
Proof.
  revert lo. induction m as [|[s' d'] m IH]; simpl; intros lo H Hin; [by apply not_elem_of_nil in Hin|].
  destruct H as (? & ? & H). pose proof (frags_le _ _ _ H).
  apply elem_of_cons in Hin as [[= -> ->]|Hin]; [lia|].
  destruct (IH _ H Hin). lia.
Qed.

(** Two fragments of a map are equal or one ends before the other starts. *)
Lemma frags_disjoint lo hi m s d s' d' :
  frags_ok lo hi m → (s, d) ∈ m → (s', d') ∈ m →
  (s, d) = (s', d') ∨ s + blen d ≤ s' ∨ s' + blen d' ≤ s.
Proof.
  revert lo. induction m as [|[s1 d1] m IH]; simpl; intros lo H Hin Hin';
    [by apply not_elem_of_nil in Hin|].
  destruct H as (? & ? & H).
  apply elem_of_cons in Hin as [[= -> ->]|Hin]; apply elem_of_cons in Hin' as [[= -> ->]|Hin'].
  - by left.
  - destruct (frags_In _ _ _ _ _ H Hin'). lia.
  - destruct (frags_In _ _ _ _ _ H Hin). lia.
  - eauto.
Qed.

Lemma stored_In lo hi m i b : frags_ok lo hi m →
  stored m i = Some b ↔ ∃ s d, (s, d) ∈ m ∧ s ≤ i < s + blen d ∧ at_z d (i - s) = Some b.
Proof.
  revert lo. induction m as [|[s d] m IH]; simpl; intros lo H.
  { split; [done|]. intros (? & ? & []%not_elem_of_nil & _). }
  destruct H as (? & ? & H). destruct (Z.leb_spec s i), (Z.ltb_spec i (s + blen d)); simpl.
  - split; [intros E; exists s, d; split; [by left|lia || done]|].
    intros (s' & d' & Hin & Hr & Hb). apply elem_of_cons in Hin as [[= -> ->]|Hin]; [done|].
    destruct (frags_In _ _ _ _ _ H Hin). lia.
  - rewrite (IH _ H). split; intros (s' & d' & Hin & Hr & Hb); exists s', d'.
    + split; [by right|done].
    + apply elem_of_cons in Hin as [[= -> ->]|Hin]; [lia|done].
  - rewrite (IH _ H). split; intros (s' & d' & Hin & Hr & Hb); exists s', d'.
    + split; [by right|done].
    + apply elem_of_cons in Hin as [[= -> ->]|Hin]; [lia|done].
  - lia.
Qed.

Lemma stored_range lo hi m i b : frags_ok lo hi m → stored m i = Some b → lo ≤ i < hi.
Proof.
  intros H (s & d & Hin & ? & _)%(stored_In lo hi); [|done].
  destruct (frags_In _ _ _ _ _ H Hin). lia.
Qed.

Lemma stored_outside lo hi m i : frags_ok lo hi m → i < lo ∨ hi ≤ i → stored m i = None.
Proof.
  intros H Hi. destruct (stored m i) eqn:E; [|done].
  apply (stored_range lo hi) in E; [lia|done].
Qed.

(** Every index of a fragment of the map is stored. *)
Lemma stored_covers lo hi m s d i :
  frags_ok lo hi m → (s, d) ∈ m → s ≤ i < s + blen d → is_Some (stored m i).
Proof.
  intros H Hin Hi. destruct (at_z_Some d (i - s)) as [b Hb]; [lia|].
  exists b. apply (stored_In lo hi); [done|]. eauto 6.
Qed.

(** Inserting a fragment over indices the map does not hold. *)
Lemma insert_free lo hi m k d :
  frags_ok lo hi m → lo ≤ k → k + blen d ≤ hi → 0 < blen d →
  (∀ i, k ≤ i < k + blen d → stored m i = None) →
  ∃ m', BTreeMap.insert k d m = (None, m') ∧ frags_ok lo hi m' ∧
    length m' = S (length m) ∧
    ∀ i, stored m' i = if (k <=? i) && (i <? k + blen d) then at_z d (i - k) else stored m i.
Proof.
  revert lo. induction m as [|[s e] m IH]; simpl; intros lo H Hlo Hhi Hd Hfree.
  { eexists. split_and!; [done|simpl; split_and!; done|done|]. intros i. simpl. by case_match. }
  destruct H as (Hs & He & H). pose proof (frags_le _ _ _ H).
  assert (Hout : k + blen d ≤ s ∨ s + blen e ≤ k).
  { destruct (decide (k + blen d ≤ s)); [by left|]. right.
    destruct (decide (s + blen e ≤ k)); [done|].
    specialize (Hfree (Z.max k s) ltac:(lia)).
    rewrite (proj2 (Z.leb_le s _)), (proj2 (Z.ltb_lt _ (s + blen e))) in Hfree by lia.
    simpl in Hfree. destruct (at_z_Some e (Z.max k s - s)); [lia|congruence]. }
  destruct (Z.ltb_spec k s).
  { eexists. split_and!; [done|simpl; split_and!; [done|done|lia|done|done]|done|].
    intros i. simpl. repeat case_match; try done. }
  rewrite (proj2 (Z.eqb_neq k s)) by lia.
  destruct (IH (s + blen e)) as (m' & Hm' & Hok & Hlen & Hst); [done|lia|lia|done| |].
  { intros i Hi. specialize (Hfree i Hi). 
    rewrite (proj2 (Z.ltb_ge i (s + blen e))), andb_false_r in Hfree by lia. done. }
  exists ((s, e) :: m'). rewrite Hm'. split_and!; [done|simpl; split_and!; done|simpl; lia|].
  intros i. simpl. rewrite Hst.
  destruct (Z.leb_spec s i), (Z.ltb_spec i (s + blen e)); simpl; try done.
  rewrite (proj2 (Z.leb_gt k i)) by lia. done.
Qed.

Lemma frags_total lo hi m :
  frags_ok lo hi m → 0 ≤ foldr (λ d n, blen d + n) 0 (BTreeMap.values m) ≤ hi - lo.
Proof.
  revert lo. induction m as [|[s d] m IH]; simpl; intros lo H; [lia|].
  destruct H as (? & ? & H%IH). lia.
Qed.

(** [last_at_most c]: the only fragment that can reach beyond [c] from the left. *)
Lemma last_at_most_straddle lo hi m c s d :
  frags_ok lo hi m → (s, d) ∈ m → s ≤ c →
  ∃ ps pd, BTreeMap.last_at_most c m = Some (ps, pd) ∧
    (s = ps ∧ d = pd ∨ s + blen d ≤ ps).
Proof.
  revert lo. induction m as [|[s1 d1] m IH]; simpl; intros lo H Hin Hsc;
    [by apply not_elem_of_nil in Hin|].
  destruct H as (? & ? & H). apply elem_of_cons in Hin as [[= -> ->]|Hin].
  - rewrite (proj2 (Z.leb_le _ _) Hsc). destruct (BTreeMap.last_at_most c m) as [[ps pd]|] eqn:E.
    + exists ps, pd. split; [done|]. apply last_at_most_Some in E as [E ?].
      destruct (frags_In _ _ _ _ _ H E). lia.
    + eauto 6.
  - destruct (frags_In _ _ _ _ _ H Hin). rewrite (proj2 (Z.leb_le s1 c)) by lia.
    destruct (IH _ H Hin Hsc) as (ps & pd & -> & ?). eauto.
Qed.
End fragments.

(** ** Storing the missing gaps *)

(** No fragment starts before [c] and reaches beyond it. *)
Definition no_straddle (c : Z) (m : BTreeMap.t bytes) : Prop :=
  ∀ s d, (s, d) ∈ m → s < c → s + blen d ≤ c.

(** The bytes of [m], completed with those of [data] placed at [start]. *)
Definition fill (m : BTreeMap.t bytes) (data : bytes) (start i : Z) : option byte :=
  match stored m i with Some b => Some b | None => at_z data (i - start) end.

Section gaps.
Import Reassembler.
Implicit Types self : Reassembler.t.

Lemma range_first_wp lo hi m c e :
  frags_ok lo hi m → no_straddle c m → c ≤ e →
  BTreeMap.range_first c e m ⇓ λ r,
    match r with
    | Some (s, d) => (s, d) ∈ m ∧ c ≤ s < e ∧ ∀ i, c ≤ i < s → stored m i = None
    | None => ∀ i, c ≤ i < e → stored m i = None
    end.
Proof.
  intros H Hns Hce. unfold BTreeMap.range_first. wp_step. wp_step; [lia|]. wp_step.
  assert (Hfree : ∀ e', (∀ s d, (s, d) ∈ m → c ≤ s → e' ≤ s) →
                   ∀ i, c ≤ i < e' → stored m i = None).
  { intros e' Hmin i Hi. destruct (stored m i) as [b|] eqn:E; [|done].
    apply (stored_In lo hi) in E as (s & d & Hin & Hr & _); [|done].
    destruct (decide (s < c)) as [Hlt|]; [specialize (Hns s d Hin Hlt); lia|].
    specialize (Hmin s d Hin ltac:(lia)). lia. }
  destruct (BTreeMap.first_at_least c m) as [[s d]|] eqn:E.
  - pose proof (first_at_least_Some _ _ _ _ E) as [Hin Hcs].
    assert (Hmin : ∀ s' d', (s', d') ∈ m → c ≤ s' → s ≤ s').
    { clear Hns Hfree Hin Hcs. revert lo H E. induction m as [|[s1 d1] m IH]; intros lo H E s' d' Hin Hc;
        [by apply not_elem_of_nil in Hin|]. simpl in *. destruct H as (? & ? & H).
      destruct (Z.leb_spec c s1).
      - injection E as -> ->. apply elem_of_cons in Hin as [[= -> ->]|Hin]; [lia|].
        destruct (frags_In _ _ _ _ _ H Hin). lia.
      - apply elem_of_cons in Hin as [[= -> ->]|Hin]; [lia|]. eapply IH; eauto. }
    destruct (Z.ltb_spec s e); [by eauto|]. intros i Hi. apply (Hfree e); [|done].
    intros s' d' Hin' Hc'. specialize (Hmin s' d' Hin' Hc'). lia.
  - apply Hfree. intros s d Hin Hc. pose proof (first_at_least_None _ _ E s d Hin). lia.
Qed.

Lemma insert_gap_wp lo hi self start data gs ge :
  frags_ok lo hi (pending self) → lo ≤ gs → ge ≤ hi →
  start ≤ gs → gs < ge → ge ≤ start + blen data →
  (∀ i, gs ≤ i < ge → stored (pending self) i = None) →
  insert_gap self start data gs ge ⇓ λ s',
    output s' = output self ∧ eof_index s' = eof_index self ∧
    frags_ok lo hi (pending s') ∧
    (∀ s d, (s, d) ∈ pending self → (s, d) ∈ pending s') ∧
    ∀ i, stored (pending s') i =
         if (gs <=? i) && (i <? ge) then at_z data (i - start) else stored (pending self) i.
Proof.
  intros H Hlo Hhi Hs Hg Hge Hfree. unfold insert_gap. rewrite (proj2 (Z.leb_gt _ _)) by lia.
  wp_step. wp_step; [lia|]. wp_step. wp_step; [lia|]. wp_step. wp_step; [lia|lia|].
  assert (Hb : blen (sub (gs - start) (ge - start) data) = ge - gs) by (rewrite blen_sub; lia).
  destruct (insert_free lo hi (pending self) gs (sub (gs - start) (ge - start) data))
    as (m' & Hm' & Hok & _ & Hst); try done; try lia.
  { intros i Hi. apply Hfree. lia. }
  pose proof (insert_keeps gs (sub (gs - start) (ge - start) data) (pending self)) as Hkeep.
  rewrite Hm' in Hkeep |- *. simpl in Hkeep. wp_step. wp_step; [done|]. wp_step. simpl.
  split_and!; try done.
  - intros s d Hin. apply Hkeep; [done|]. intros ->.
    destruct (frags_In _ _ _ _ _ H Hin) as (? & ? & ?).
    destruct (stored_covers _ _ _ _ _ gs H Hin) as [b E]; [lia|].
    rewrite Hfree in E; [done|lia].
  - intros i. rewrite Hst, Hb. replace (gs + (ge - gs)) with ge by lia.
    destruct (Z.leb_spec gs i), (Z.ltb_spec i ge); simpl; try done.
    rewrite at_z_sub by lia. replace (gs - start + (i - gs)) with (i - start) by lia.
    by rewrite (proj2 (Z.leb_le _ _)), (proj2 (Z.ltb_lt _ _)) by lia.
Qed.

Lemma gaps_loop_wp fuel lo hi self start data cursor end_ :
  frags_ok lo hi (pending self) → lo ≤ start → end_ ≤ hi → hi ≤ u64_max →
  end_ = start + blen data → start ≤ cursor ≤ end_ →
  no_straddle cursor (pending self) ∨ cursor = end_ →
  (Z.to_nat (end_ - cursor) < fuel)%nat →
  gaps_loop fuel self start data cursor end_ ⇓ λ s',
    output s' = output self ∧ eof_index s' = eof_index self ∧
    frags_ok lo hi (pending s') ∧
    ∀ i, stored (pending s') i =
         if (cursor <=? i) && (i <? end_) then fill (pending self) data start i
         else stored (pending self) i.
Proof.
  revert self cursor. induction fuel as [|fuel IH]; intros self cursor H Hlo Hhi Hmax He Hc Hns Hf;
    [lia|]. simpl.
  destruct (Z.ltb_spec cursor end_) as [Hlt|].
  2:{ wp_step. split_and!; try done. intros i. destruct (Z.leb_spec cursor i), (Z.ltb_spec i end_); done || lia. }
  destruct Hns as [Hns|]; [|lia]. wp_step.
  wp_apply (range_first_wp lo hi (pending self) cursor end_); [done|done|lia|].
  intros [[ns nd]|] Hr.
  2:{ wp_apply (insert_gap_wp lo hi self start data cursor end_); try lia; [done|done|].
      intros s' (Ho & Heo & Hok & _ & Hst). split_and!; try done. intros i. rewrite Hst. unfold fill.
      destruct (Z.leb_spec cursor i), (Z.ltb_spec i end_); simpl; try done. by rewrite Hr by lia. }
  destruct Hr as (Hin & Hns' & Hfree).
  destruct (frags_In _ _ _ _ _ H Hin) as (? & ? & ?). wp_step.
  assert (Hgap : (if cursor <? ns then insert_gap self start data cursor ns else mret self) ⇓ λ s',
    output s' = output self ∧ eof_index s' = eof_index self ∧ frags_ok lo hi (pending s') ∧
    (ns, nd) ∈ pending s' ∧
    ∀ i, stored (pending s') i =
         if (cursor <=? i) && (i <? ns) then at_z data (i - start) else stored (pending self) i).
  { destruct (Z.ltb_spec cursor ns).
    - wp_apply (insert_gap_wp lo hi self start data cursor ns); try lia; [done|done|].
      intros s' (? & ? & ? & Hk & ?). eauto 6.
    - wp_step. split_and!; try done. intros i.
      destruct (Z.leb_spec cursor i), (Z.ltb_spec i ns); done || lia. }
  wp_apply Hgap. clear Hgap. intros s1 (Ho1 & Heo1 & Hok1 & Hin1 & Hst1).
  unfold saturating_add. set (cursor' := Z.min _ _).
  assert (cursor < cursor' ≤ end_) by lia.
  wp_apply (IH s1 cursor'); try done; try lia.
  { destruct (decide (cursor' = end_)) as [|Hne]; [by right|left]. intros s d Hsd Hlt'.
    destruct (frags_disjoint _ _ _ _ _ _ _ Hok1 Hsd Hin1) as [[= -> ->]|]; lia. }
  intros s' (Ho & Heo & Hok & Hst). split_and!; try done; [congruence..|].
  intros i. rewrite Hst. unfold fill. rewrite Hst1.
  assert (Hcov : ns ≤ i < ns + blen nd → is_Some (stored (pending self) i))
    by (intros; by eapply stored_covers).
  destruct (Z.leb_spec cursor i), (Z.leb_spec cursor' i), (Z.ltb_spec i ns), (Z.ltb_spec i end_);
    simpl; try done; try lia; try (by rewrite Hfree by lia);
    destruct Hcov as [b ->]; done || lia.
Qed.

Lemma insert_missing_gaps_wp lo hi self start data :
  frags_ok lo hi (pending self) → lo ≤ start → start + blen data ≤ hi → hi ≤ u64_max →
  insert_missing_gaps self start data ⇓ λ s',
    output s' = output self ∧ eof_index s' = eof_index self ∧
    frags_ok lo hi (pending s') ∧
    ∀ i, stored (pending s') i = fill (pending self) data start i.
Proof.
  intros H Hlo Hhi Hmax. unfold insert_missing_gaps. pose proof (blen_nonneg data).
  destruct (Z.eqb_spec (blen data) 0) as [Hz|].
  { wp_step. split_and!; try done. intros i. unfold fill. rewrite at_z_None by lia. by case_match. }
  wp_step. wp_step; [by apply checked_add_Some; lia|].
  match goal with |- context [gaps_loop _ _ _ _ ?c _] => set (cursor := c) end.
  assert (Hcur : start ≤ cursor ≤ start + blen data ∧
    (no_straddle cursor (pending self) ∨ cursor = start + blen data) ∧
    ∀ i, start ≤ i < cursor → is_Some (stored (pending self) i)).
  { subst cursor.
    assert (Hst : ∀ s d, (s, d) ∈ pending self → s ≤ start → ∃ ps pd,
      BTreeMap.last_at_most start (pending self) = Some (ps, pd) ∧
      (s = ps ∧ d = pd ∨ s + blen d ≤ ps)) by (intros; by eapply last_at_most_straddle).
    destruct (BTreeMap.last_at_most start (pending self)) as [[ps pd]|] eqn:E.
    - apply last_at_most_Some in E as [Hin Hps]. destruct (frags_In _ _ _ _ _ H Hin) as (? & ? & ?).
      unfold saturating_add. destruct (Z.ltb_spec start (Z.min u64_max (ps + blen pd))).
      + split_and!; [lia|lia| |intros; eapply stored_covers; [done|done|lia]].
        destruct (decide (ps + blen pd < start + blen data)); [left|right; lia].
        intros s d Hsd Hlt. destruct (frags_disjoint _ _ _ _ _ _ _ H Hsd Hin) as [[= -> ->]|]; lia.
      + split_and!; [lia|lia|left|lia]. intros s d Hsd Hlt.
        destruct (Hst s d Hsd ltac:(lia)) as (? & ? & [= <- <-] & [[-> ->]|?]); lia.
    - split_and!; [lia|lia|left|lia]. intros s d Hsd Hlt.
      by destruct (Hst s d Hsd ltac:(lia)) as (? & ? & ? & _). }
  clearbody cursor. destruct Hcur as (Hc & Hns & Hcov).
  wp_apply (gaps_loop_wp _ lo hi self start data cursor); try done; [lia|].
  intros s' (Ho & Heo & Hok & Hst). split_and!; try done. intros i. rewrite Hst. unfold fill.
  destruct (Z.leb_spec cursor i), (Z.ltb_spec i (start + blen data)); simpl; try done.
  - rewrite at_z_None by lia. by case_match.
  - destruct (decide (start ≤ i)); [by destruct (Hcov i ltac:(lia)) as [b ->]|].
    rewrite at_z_None by lia. by case_match.
  - lia.
Qed.
End gaps.

(** ** Flushing the contiguous prefix *)

Section flush.
Import Reassembler.
Implicit Types self : Reassembler.t.

(** The output accepts bytes: it is neither closed nor in error. *)
Definition alive self : bool :=
  negb (ByteStream.closed (output self) || ByteStream.error (output self)).

(** [s'] is [s] after the bytes [new] moved from the pending map to the output. *)
Record flushed (hi : Z) (s s' : Reassembler.t) (new : bytes) : Prop := {
  fl_eof : eof_index s' = eof_index s;
  fl_inv : ByteStream.Inv (output s');
  fl_flags : ByteStream.same_flags (output s) (output s');
  fl_popped : ByteStream.bytes_popped (output s') = ByteStream.bytes_popped (output s);
  fl_content : ByteStream.content (output s') = ByteStream.content (output s) ++ new;
  fl_pushed : first_unassembled s' = first_unassembled s + blen new;
  fl_frags : frags_ok (first_unassembled s') hi (pending s');
  fl_new : ∀ i, first_unassembled s ≤ i < first_unassembled s' →
           at_z new (i - first_unassembled s) = stored (pending s) i;
  fl_stored : ∀ i, stored (pending s') i =
                   if i <? first_unassembled s' then None else stored (pending s) i;
  fl_dead : alive s = false → new = [];
  fl_alive : alive s = true → stored (pending s) (first_unassembled s') = None;
}.

Lemma flushed_nothing hi s s' :
  output s' = output s → eof_index s' = eof_index s → ByteStream.Inv (output s) →
  frags_ok (first_unassembled s) hi (pending s') →
  (∀ i, stored (pending s') i = if i <? first_unassembled s then None else stored (pending s) i) →
  (alive s = true → stored (pending s) (first_unassembled s) = None) →
  flushed hi s s' [].
Proof.
  intros Ho He HI Hf Hst Ha. unfold first_unassembled in *.
  split; unfold first_unassembled; rewrite ?Ho; try done.
  - by rewrite app_nil_r.
  - change (@blen byte []) with 0. lia.
  - intros. lia.
Qed.

(** What is flushed after the pending map lost or shortened stale fragments. *)
Lemma flushed_stale hi s s1 s' new :
  output s1 = output s → eof_index s1 = eof_index s →
  (∀ i, first_unassembled s ≤ i → stored (pending s1) i = stored (pending s) i) →
  flushed hi s1 s' new → flushed hi s s' new.
Proof.
  intros Ho He Hst []. unfold alive, first_unassembled in *. rewrite ?Ho in *.
  pose proof (blen_nonneg new).
  split; unfold first_unassembled; try done; [congruence|..].
  - intros i Hi. rewrite fl_new0 by done. apply Hst. lia.
  - intros i. rewrite fl_stored0. destruct (Z.ltb_spec i (ByteStream.bytes_pushed (output s'))); [done|].
    apply Hst. lia.
  - intros Ha. rewrite <- Hst by lia. auto.
Qed.

(** One fragment flushed whole, then the rest. *)
Lemma flushed_cons hi s s1 s' d m new :
  pending s = (first_unassembled s, d) :: m → pending s1 = m →
  eof_index s1 = eof_index s → ByteStream.same_flags (output s) (output s1) →
  ByteStream.bytes_popped (output s1) = ByteStream.bytes_popped (output s) →
  ByteStream.content (output s1) = ByteStream.content (output s) ++ d →
  first_unassembled s1 = first_unassembled s + blen d → alive s = true →
  frags_ok (first_unassembled s) hi (pending s) →
  flushed hi s1 s' new → flushed hi s s' (d ++ new).
Proof.
  intros Hp Hp1 He (Hf1 & Hf2 & Hf3) Hpop Hcon Hfu Ha Hok [].
  pose proof (blen_nonneg new). pose proof (blen_nonneg d).
  assert (Hok1 : frags_ok (first_unassembled s + blen d) hi m) by (rewrite Hp in Hok; apply Hok).
  assert (Ha1 : alive s1 = true) by (unfold alive in *; by rewrite Hf2, Hf3).
  assert (Hst : ∀ i, first_unassembled s ≤ i → stored (pending s) i =
      if i <? first_unassembled s + blen d then at_z d (i - first_unassembled s) else stored m i).
  { intros i Hi. rewrite Hp. simpl. by rewrite (proj2 (Z.leb_le _ _) Hi). }
  split; try done; try congruence.
  - destruct fl_flags0 as (? & ? & ?). split_and!; congruence.
  - by rewrite fl_content0, Hcon, app_assoc.
  - rewrite blen_app. lia.
  - intros i Hi. rewrite at_z_app, Hst by lia.
    destruct (Z.ltb_spec (i - first_unassembled s) (blen d)), (Z.ltb_spec i (first_unassembled s + blen d));
      try lia; [done|]. rewrite <- Hp1. rewrite <- fl_new0 by lia. f_equal. lia.
  - intros i. rewrite fl_stored0. destruct (Z.ltb_spec i (first_unassembled s')); [done|].
    rewrite Hst by lia. by rewrite (proj2 (Z.ltb_ge i _)), Hp1 by lia.
  - intros _. rewrite Hst, (proj2 (Z.ltb_ge _ _)), <- Hp1 by lia. auto.
Qed.

Definition stale_head self : nat :=
  match pending self with
  | (s, _) :: _ => if s <? first_unassembled self then 1%nat else 0%nat
  | [] => 0%nat
  end.

Lemma trim_stale_prefix_wp lo hi self s d m :
  pending self = (s, d) :: m → frags_ok lo hi (pending self) →
  s < first_unassembled self → hi ≤ u64_max →
  trim_stale_prefix self s (first_unassembled self) ⇓ λ s',
    output s' = output self ∧ eof_index s' = eof_index self ∧
    (∃ lo', frags_ok lo' hi (pending s')) ∧
    (∀ i, first_unassembled self ≤ i → stored (pending s') i = stored (pending self) i) ∧
    (2 * length (pending s') + stale_head s' < 2 * length (pending self) + 1)%nat.
Proof.
  intros Hp Hok Hs Hmax. pose proof Hok as Hok'. rewrite Hp in Hok'. simpl in Hok'.
  destruct Hok' as (? & ? & Hm). pose proof (frags_le _ _ _ Hm).
  unfold trim_stale_prefix. rewrite Hp, remove_first. wp_step. wp_step; [done|].
  unfold saturating_add. rewrite Z.min_r by lia.
  destruct (Z.leb_spec (s + blen d) (first_unassembled self)).
  - wp_step. split_and!; try done; [eauto| |].
    + intros i Hi. simpl. by rewrite (proj2 (Z.ltb_ge i _)), andb_false_r by lia.
    + unfold stale_head. simpl. repeat case_match; simpl; lia.
  - wp_step. wp_step; [lia|]. wp_step. wp_step; [lia|]. wp_step. simpl.
    assert (Hb : blen (drop (Z.to_nat (first_unassembled self - s)) d)
                 = s + blen d - first_unassembled self) by (rewrite blen_drop; lia).
    rewrite insert_first.
    2:{ intros k v Hk. destruct m as [|[k' v'] m]; [done|]. injection Hk as -> ->.
        simpl in Hm. lia. }
    simpl. split_and!; try done.
    + exists (first_unassembled self). simpl. rewrite Hb. split_and!; [done|lia|].
      by replace (first_unassembled self + (s + blen d - first_unassembled self)) with (s + blen d) by lia.
    + intros i Hi. simpl. rewrite Hb.
      replace (first_unassembled self + (s + blen d - first_unassembled self)) with (s + blen d) by lia.
      rewrite !(proj2 (Z.leb_le _ i)) by lia. destruct (Z.ltb_spec i (s + blen d)); simpl; [|done].
      rewrite at_z_drop by lia. f_equal. lia.
    + unfold stale_head, first_unassembled. simpl. rewrite Z.ltb_irrefl. lia.
Qed.

(** The loop stops at a gap ... *)
Lemma flushed_gap lo hi self s d m :
  ByteStream.Inv (output self) → pending self = (s, d) :: m → frags_ok lo hi ((s, d) :: m) →
  first_unassembled self < s → flushed hi self self [].
Proof.
  intros HI Hp (_ & Hd & Hm) Hlt.
  assert (Hout : ∀ i, i ≤ first_unassembled self → stored ((s, d) :: m) i = None).
  { intros i Hi. eapply (stored_outside s hi); [simpl; by split_and!|left; lia]. }
  apply flushed_nothing; try done; rewrite Hp.
  - simpl. split_and!; [lia|done|done].
  - intros i. destruct (Z.ltb_spec i (first_unassembled self)); [|done]. apply Hout. lia.
  - intros _. apply Hout. lia.
Qed.

(** ... and when the output accepts nothing: the block goes back as it was. *)
Lemma flushed_dead hi self o' d m :
  pending self = (first_unassembled self, d) :: m →
  0 < blen d → frags_ok (first_unassembled self + blen d) hi m → first_unassembled self ≤ hi →
  ByteStream.Inv o' → ByteStream.same_flags (output self) o' → alive self = false →
  ByteStream.bytes_pushed o' = ByteStream.bytes_pushed (output self) →
  ByteStream.bytes_popped o' = ByteStream.bytes_popped (output self) →
  ByteStream.content o' = ByteStream.content (output self) ++ sub 0 0 d →
  flushed hi self (with_pending (mk o' m (eof_index self))
    (BTreeMap.insert (ByteStream.bytes_pushed (output self)) (drop (Z.to_nat 0) d) m).2) [].
Proof.
  intros Hp Hd Hm Hle HI' (Hf1 & Hf2 & Hf3) Ha Hpu Hpo Hcon. unfold first_unassembled in *.
  assert (Hm1 : (BTreeMap.insert (ByteStream.bytes_pushed (output self)) (drop (Z.to_nat 0) d) m).2
           = pending self).
  { rewrite insert_first; [by rewrite Hp, drop_0|]. intros k v Hk. destruct m as [|[k' v'] m2]; [done|].
    injection Hk as -> ->. simpl in Hm. lia. }
  unfold with_pending. rewrite Hm1.
  split; simpl; unfold first_unassembled; simpl; try done; rewrite ?Hpu.
  - change (@blen byte []) with 0. lia.
  - rewrite Hp. simpl. split_and!; [lia|done|done].
  - intros. lia.
  - intros i. destruct (Z.ltb_spec i (ByteStream.bytes_pushed (output self))); [|done].
    eapply (stored_outside (ByteStream.bytes_pushed (output self)) hi); [|by left].
    rewrite Hp. simpl. by split_and!.
  - unfold alive in *. congruence.
Qed.

Lemma flush_loop_wp fuel lo hi self :
  ByteStream.Inv (output self) → frags_ok lo hi (pending self) →
  first_unassembled self ≤ hi → hi ≤ first_unacceptable self →
  (2 * length (pending self) + stale_head self < fuel)%nat →
  flush_loop fuel self ⇓ λ s', ∃ new, flushed hi self s' new.
Proof.
  revert lo self. induction fuel as [|fuel IH]; intros lo self HI Hok Hle Hhi Hfuel; [lia|].
  assert (hi ≤ u64_max ∧ hi ≤ ByteStream.bytes_popped (output self) + ByteStream.capacity (output self))
    by (unfold first_unacceptable, saturating_add in Hhi; lia).
  simpl. unfold BTreeMap.first_key_value. destruct (pending self) as [|[s d] m] eqn:Hp; simpl.
  { wp_step. exists []. apply flushed_nothing; try done; rewrite Hp; simpl; try done.
    intros i. by case_match. }
  pose proof Hok as (_ & Hd & Hm).
  change (ByteStream.bytes_pushed (output self)) with (first_unassembled self).
  destruct (Z.ltb_spec s (first_unassembled self)) as [Hs|Hs].
  - wp_step. wp_apply (trim_stale_prefix_wp lo hi self s d m); [done|by rewrite Hp|done|lia|].
    intros s1 (Ho & He & [lo' Hok1] & Hst & Hlen). rewrite Hp in Hlen.
    assert (Hfu : first_unassembled s1 = first_unassembled self) by (unfold first_unassembled; by rewrite Ho).
    wp_apply (IH lo' s1); try done.
    + by rewrite Ho.
    + by rewrite Hfu.
    + unfold first_unacceptable in *. by rewrite Ho.
    + unfold stale_head in Hfuel. rewrite Hp, (proj2 (Z.ltb_lt _ _) Hs) in Hfuel. simpl in *. lia.
    + intros s' [new Hfl]. exists new. by eapply flushed_stale.
  - destruct (Z.eqb_spec s (first_unassembled self)) as [->|Hne]; simpl.
    2:{ wp_step. exists []. apply (flushed_gap lo hi self s d m); try done. lia. }
    rewrite Z.eqb_refl. wp_step. wp_step; [done|]. wp_step. simpl.
    pose proof (frags_le _ _ _ Hm). pose proof HI as [].
    assert (Hacc : ByteStream.accepts (output self) d = if alive self then blen d else 0).
    { unfold ByteStream.accepts, alive. unfold first_unassembled in *.
      destruct (ByteStream.closed (output self) || ByteStream.error (output self)); simpl; lia. }
    unfold first_unassembled in *.
    wp_apply (push_wp (output self) d); [done|rewrite Hacc; destruct (alive self); lia|].
    intros [n o'] (Hn & HI' & Hfl & Hpu & Hpo & Hcon). simpl in *. rewrite Hacc in Hn. subst n.
    wp_step. wp_step; [destruct (alive self); [apply Z.leb_refl|apply Z.leb_le; lia]|].
    destruct (alive self) eqn:Ha.
    + rewrite Z.ltb_irrefl. rewrite sub_all in Hcon.
      wp_apply (IH (ByteStream.bytes_pushed (output self) + blen d)); simpl; try done.
      * unfold first_unassembled. simpl. lia.
      * unfold first_unacceptable in *. simpl. destruct Hfl as (-> & _). by rewrite Hpo.
      * unfold stale_head. simpl in *. destruct m as [|[s2 d2] m2]; simpl in *; [lia|].
        unfold first_unassembled. simpl. rewrite (proj2 (Z.ltb_ge s2 _)) by lia. lia.
      * intros s' [new Hnew]. exists (d ++ new). apply (flushed_cons hi self (mk o' m (eof_index self)) s' d m); try done.
        rewrite Hp. simpl. unfold first_unassembled. split_and!; [lia|done|done].
    + rewrite (proj2 (Z.ltb_lt 0 _)) by lia. wp_step. wp_step; [lia|]. wp_step. wp_step; [lia|].
      wp_step. exists []. rewrite Z.add_0_r in *. simpl.
      apply (flushed_dead hi self o' d m); try done.
Qed.

Lemma flush_contiguous_wp lo hi self :
  ByteStream.Inv (output self) → frags_ok lo hi (pending self) →
  first_unassembled self ≤ hi → hi ≤ first_unacceptable self →
  flush_contiguous self ⇓ λ s', ∃ new, flushed hi self s' new.
Proof.
  intros. eapply flush_loop_wp; try done. unfold stale_head. repeat case_match; lia.
Qed.
End flush.

(** ** The invariant of the reassembler, and [try_insert] *)

Section try_insert.
Import Reassembler.
Implicit Types self r : Reassembler.t.

(** One past the last index a fragment may hold. *)
Definition bound r : Z :=
  match eof_index r with
  | Some e => Z.min (first_unacceptable r) e
  | None => first_unacceptable r
  end.

Record RInv r : Prop := {
  ri_output : ByteStream.Inv (output r);
  ri_pending : frags_ok (first_unassembled r) (bound r) (pending r);
  ri_eof : ∀ e, eof_index r = Some e → first_unassembled r ≤ e ≤ u64_max;
  ri_closed : ByteStream.closed (output r) = true → eof_index r = Some (first_unassembled r);
  ri_gap : alive r = true → stored (pending r) (first_unassembled r) = None;
}.

Lemma window_le r : ByteStream.Inv (output r) →
  0 ≤ first_unassembled r ≤ first_unacceptable r ∧ first_unacceptable r ≤ u64_max ∧
  first_unacceptable r ≤ ByteStream.bytes_popped (output r) + ByteStream.capacity (output r).
Proof.
  intros []. pose proof (blen_nonneg (ByteStream.content (output r))).
  unfold first_unassembled, first_unacceptable. ulia.
Qed.

Lemma bound_le r : bound r ≤ first_unacceptable r ∧ ∀ e, eof_index r = Some e → bound r ≤ e.
Proof. unfold bound. destruct (eof_index r); split; intros; simplify_eq; lia. Qed.

Lemma check_fragments_wp lo hi l h eof prev m :
  frags_ok l h m → lo ≤ l → h ≤ hi → hi ≤ u64_max →
  (∀ e, eof = Some e → h ≤ e) → (∀ e, prev = Some e → e ≤ l) →
  check_fragments lo hi eof prev m ⇓ λ _, True.
Proof.
  revert l prev. induction m as [|[s d] m IH]; simpl; intros l prev H Hlo Hhi Hmax Heof Hprev.
  { by wp_step. }
  destruct H as (? & ? & H). pose proof (frags_le _ _ _ H).
  unfold saturating_add. rewrite Z.min_r by lia.
  wp_step. wp_step; [by rewrite (proj2 (Z.eqb_neq _ _)) by lia|].
  wp_step. wp_step; [apply Z.leb_le; lia|]. wp_step. wp_step; [apply Z.leb_le; lia|].
  wp_step. destruct prev as [e|]; [specialize (Hprev e eq_refl); wp_step; [apply Z.leb_le; lia|]|wp_step];
  (wp_step; destruct eof as [e'|]; [specialize (Heof e' eq_refl); wp_step; [apply Z.leb_le; lia|]|wp_step]);
  (eapply IH; [done|lia|lia|lia| |]; intros ? [= <-]; lia).
Qed.

Lemma debug_check_invariants_wp r : RInv r → debug_check_invariants r ⇓ λ _, True.
Proof.
  intros []. destruct (window_le r ri_output0) as (? & ? & ?).
  destruct (bound_le r) as [? Hb]. pose proof (frags_total _ _ _ ri_pending0).
  unfold debug_check_invariants, bytes_pending. wp_step.
  wp_apply (check_fragments_wp _ _ _ _ _ _ _ ri_pending0); [lia|done|done|done|done|].
  intros _ _. wp_step. wp_step.
  { apply Z.leb_le. destruct ri_output0. unfold first_unassembled in *. ulia. }
  destruct (eof_index r) as [e|]; [|by wp_step]. wp_step; [|done].
  apply Z.leb_le. destruct (ri_eof0 e eq_refl). done.
Qed.

Lemma reassembler_new_wp cap : u64 cap → new cap ⇓ λ r, RInv r ∧
  r = mk (ByteStream.new cap) [] None.
Proof.
  intros Hc. unfold new.
  assert (HR : RInv (mk (ByteStream.new cap) [] None)).
  { split; simpl; try done; [by apply byte_stream_new_inv|].
    unfold first_unassembled, bound, first_unacceptable. simpl. ulia. }
  wp_step. wp_apply (debug_check_invariants_wp _ HR). intros _ _. by wp_step.
Qed.

(** The byte known for index [i] once [data] has been placed at [first]: the
    window is [first_unassembled, first_unacceptable), and of two versions of
    a byte the new one wins exactly when the fragment reaches the stream's end. *)
Definition fresh r (first : Z) (data : bytes) (i : Z) : option byte :=
  if (first_unassembled r <=? i) && (i <? first_unacceptable r)
  then at_z data (i - first) else None.

Definition merged r (first : Z) (data : bytes) (i : Z) : option byte :=
  if first <=? first_unassembled r
  then match fresh r first data i with Some b => Some b | None => stored (pending r) i end
  else match stored (pending r) i with Some b => Some b | None => fresh r first data i end.

(** The effect of an accepted fragment: [new] is what it added to the output. *)
Record inserted r (first : Z) (data : bytes) r' (new : bytes) : Prop := {
  in_inv : RInv r';
  in_eof : eof_index r' = eof_index r;
  in_capacity : ByteStream.capacity (output r') = ByteStream.capacity (output r);
  in_error : ByteStream.error (output r') = ByteStream.error (output r);
  in_popped : ByteStream.bytes_popped (output r') = ByteStream.bytes_popped (output r);
  in_content : ByteStream.content (output r') = ByteStream.content (output r) ++ new;
  in_pushed : first_unassembled r' = first_unassembled r + blen new;
  in_closed : ByteStream.closed (output r') =
              ByteStream.closed (output r) || bool_decide (eof_index r = Some (first_unassembled r'));
  in_new : alive r = true → ∀ i, first_unassembled r ≤ i < first_unassembled r' →
           at_z new (i - first_unassembled r) = merged r first data i;
  in_stored : alive r = true → ∀ i, stored (pending r') i =
           if i <? first_unassembled r' then None else merged r first data i;
  in_maximal : alive r = true → merged r first data (first_unassembled r') = None;
  in_dead : alive r = false → new = [];
  in_sound : ∀ i b, stored (pending r') i = Some b → merged r first data i = Some b ∨
           stored (pending r) i = Some b;
}.

(** What the middle of [insert_window] establishes, before the stream is closed. *)
Record placed r (first : Z) (data : bytes) r' (new : bytes) : Prop := {
  pl_eof : eof_index r' = eof_index r;
  pl_inv : ByteStream.Inv (output r');
  pl_flags : ByteStream.same_flags (output r) (output r');
  pl_popped : ByteStream.bytes_popped (output r') = ByteStream.bytes_popped (output r);
  pl_content : ByteStream.content (output r') = ByteStream.content (output r) ++ new;
  pl_pushed : first_unassembled r' = first_unassembled r + blen new;
  pl_frags : frags_ok (first_unassembled r') (bound r) (pending r');
  pl_new : alive r = true → ∀ i, first_unassembled r ≤ i < first_unassembled r' →
           at_z new (i - first_unassembled r) = merged r first data i;
  pl_stored : alive r = true → ∀ i, stored (pending r') i =
           if i <? first_unassembled r' then None else merged r first data i;
  pl_maximal : alive r = true → merged r first data (first_unassembled r') = None;
  pl_dead : alive r = false → new = [];
  pl_sound : ∀ i b, stored (pending r') i = Some b → merged r first data i = Some b ∨
           stored (pending r) i = Some b;
}.

Lemma close_if_complete_placed r first data r' new :
  RInv r → placed r first data r' new →
  inserted r first data (close_if_complete r') new.
Proof.
  intros HR [] . destruct pl_flags0 as (Hcap & Hcl & Herr). pose proof HR as [].
  pose proof (frags_le _ _ _ pl_frags0) as Hle. destruct (bound_le r) as [_ Hbe].
  assert (Hsame : output (close_if_complete r') =
      (if bool_decide (eof_index r = Some (first_unassembled r')) then ByteStream.close (output r')
       else output r') ∧ pending (close_if_complete r') = pending r' ∧
      eof_index (close_if_complete r') = eof_index r).
  { unfold close_if_complete. rewrite pl_eof0. destruct (eof_index r) as [e|] eqn:E.
    - change (ByteStream.bytes_pushed (output r')) with (first_unassembled r').
      destruct (Z.eqb_spec (first_unassembled r') e) as [Heq|Hne].
      + by rewrite bool_decide_eq_true_2 by congruence.
      + by rewrite bool_decide_eq_false_2 by congruence.
    - rewrite bool_decide_eq_false_2 by done. done. }
  destruct Hsame as (Ho & Hp & He). set (r2 := close_if_complete r') in *.
  assert (Hfu : first_unassembled r2 = first_unassembled r') by (unfold first_unassembled; rewrite Ho; by case_bool_decide).
  assert (Hclosed : ByteStream.closed (output r2) =
      ByteStream.closed (output r) || bool_decide (eof_index r = Some (first_unassembled r'))).
  { rewrite Ho. case_bool_decide; simpl; [by rewrite orb_true_r|by rewrite orb_false_r]. }
  assert (Hdead : ByteStream.closed (output r) = true → first_unassembled r' = first_unassembled r).
  { intros Hc. rewrite pl_dead0 in pl_pushed0 by (unfold alive; by rewrite Hc).
    change (@blen byte []) with 0 in pl_pushed0. lia. }
  split; rewrite ?Hfu, ?Hp; try done; try (rewrite Ho; by case_bool_decide).
  split; rewrite ?Hfu, ?Hp, ?He.
  - rewrite Ho. case_bool_decide; [by apply close_inv|done].
  - replace (bound r2) with (bound r); [done|]. unfold bound, first_unacceptable.
    rewrite He, Ho. repeat case_match; simpl; by rewrite ?pl_popped0, ?Hcap.
  - intros e Hee. specialize (Hbe e Hee). destruct (ri_eof0 e Hee). lia.
  - rewrite Hclosed. intros [Hc|Hc%bool_decide_eq_true_1]%orb_true_iff; [|done].
    rewrite (Hdead Hc). by apply ri_closed0.
  - intros Ha2. assert (Ha : alive r = true).
    { unfold alive in *. rewrite Hclosed in Ha2. rewrite Ho in Ha2. revert Ha2. rewrite <- Herr.
      case_bool_decide; simpl; rewrite ?orb_true_r, ?orb_false_r; done. }
    rewrite pl_stored0 by done. rewrite Z.ltb_irrefl. auto.
Qed.

Lemma fresh_None r first data i :
  first_unacceptable r ≤ i ∨ i < first ∨ first + blen data ≤ i → fresh r first data i = None.
Proof.
  intros H. unfold fresh. destruct (Z.leb_spec (first_unassembled r) i), (Z.ltb_spec i (first_unacceptable r));
    simpl; try done. apply at_z_None. lia.
Qed.

Lemma merged_stale r first data i :
  fresh r first data i = None → merged r first data i = stored (pending r) i.
Proof. intros H. unfold merged. rewrite H. by repeat case_match. Qed.

(** Nothing of the fragment is in the window. *)
Lemma placed_nothing r first data :
  RInv r → (∀ i, fresh r first data i = None) → placed r first data r [].
Proof.
  intros [] Hf. assert (Hm : ∀ i, merged r first data i = stored (pending r) i)
    by (intros; by apply merged_stale).
  split; try done.
  - by rewrite app_nil_r.
  - change (@blen byte []) with 0. lia.
  - intros. lia.
  - intros _ i. rewrite Hm. destruct (Z.ltb_spec i (first_unassembled r)); [|done].
    eapply stored_outside; [done|by left].
  - intros Ha. rewrite Hm. auto.
  - by right.
Qed.

(** The fragment starts at the end of the output: push it, then flush. *)
(** What a block at the front of the window holds, below its end and from its end on. *)
Lemma merged_front r first data cs ce d i :
  first ≤ cs → cs = first_unassembled r → ce = Z.min (first + blen data) (first_unacceptable r) →
  d = sub (cs - first) (ce - first) data → 0 ≤ first → first_unassembled r ≤ i →
  merged r first data i = if i <? ce then at_z d (i - cs) else stored (pending r) i.
Proof.
  intros Hfirst Hcs Hce Hd H0 Hi. destruct (Z.ltb_spec i ce).
  - assert (Hf : fresh r first data i = at_z d (i - cs)).
    { unfold fresh. rewrite (proj2 (Z.leb_le _ _)), (proj2 (Z.ltb_lt _ _)) by lia. simpl.
      subst d. rewrite at_z_sub, (proj2 (Z.leb_le _ _)), (proj2 (Z.ltb_lt _ _)) by lia. simpl. f_equal. lia. }
    unfold merged. rewrite (proj2 (Z.leb_le _ _)) by lia. rewrite Hf.
    destruct (at_z_Some d (i - cs)) as [b ->]; [|done]. subst d. rewrite blen_sub; lia.
  - apply merged_stale, fresh_None. lia.
Qed.

Lemma place_front r first data cs ce d :
  RInv r → first ≤ first_unassembled r → cs = first_unassembled r →
  ce = Z.min (first + blen data) (first_unacceptable r) → cs < ce →
  (∀ e, eof_index r = Some e → ce ≤ e) → 0 ≤ first →
  d = sub (cs - first) (ce - first) data →
  ('(_, output') ← ByteStream.push (output r) d; mret (with_output r output'))
    ⇓ λ r1, flush_contiguous r1 ⇓ λ r', ∃ new, placed r first data r' new.
Proof.
  intros HR Hfirst Hcs Hce Hlt Heof H0 Hd. pose proof HR as [].
  destruct (window_le r ri_output0) as (? & ? & ?). destruct (bound_le r) as [Hbf Hbe].
  assert (Hb : blen d = ce - cs) by (subst d; rewrite blen_sub; lia).
  assert (Hcb : ce ≤ bound r).
  { unfold bound. destruct (eof_index r); [|lia]. specialize (Heof _ eq_refl). lia. }
  assert (Hacc : ByteStream.accepts (output r) d = if alive r then blen d else 0).
  { unfold ByteStream.accepts, alive. pose proof ri_output0 as []. unfold first_unassembled in *.
    destruct (ByteStream.closed (output r) || ByteStream.error (output r)); simpl; lia. }
  assert (Hme : ∀ i, first_unassembled r ≤ i → merged r first data i =
      if i <? ce then at_z d (i - cs) else stored (pending r) i).
  { intros i Hi. apply merged_front; try done; lia. }
  wp_step. wp_apply (push_wp (output r) d); [done|rewrite Hacc; unfold first_unassembled in *; destruct (alive r); lia|].
  intros [n o'] (Hn & HI' & Hfl & Hpu & Hpo & Hcon). simpl in *. rewrite Hacc in Hn. subst n. wp_step.
  destruct Hfl as (Hcap & Hcl & Herr).
  set (r1 := with_output r o').
  assert (Hal : alive r1 = alive r) by (unfold alive; simpl; by rewrite Hcl, Herr).
  assert (Hfu : first_unassembled r1 = first_unassembled r + (if alive r then ce - cs else 0)).
  { unfold first_unassembled. simpl. rewrite Hpu. destruct (alive r); lia. }
  wp_apply (flush_contiguous_wp (first_unassembled r) (bound r) r1); try done.
  { rewrite Hfu. pose proof (frags_le _ _ _ ri_pending0). destruct (alive r); lia. }
  { unfold first_unacceptable in *. simpl. by rewrite Hpo, Hcap. }
  intros r' [new []]. rewrite Hal in *.
  exists ((if alive r then d else []) ++ new). simpl in *.
  destruct fl_flags0 as (Hcap' & Hcl' & Herr'). simpl in *.
  pose proof (blen_nonneg new).
  split; try done; try congruence.
  - split_and!; congruence.
  - rewrite fl_content0, Hcon, <- app_assoc. destruct (alive r); by rewrite ?sub_all.
  - rewrite blen_app. destruct (alive r); rewrite ?blen_nil in *; lia.
  - intros Ha i Hi. rewrite Ha in *. rewrite at_z_app, Hme by lia.
    destruct (Z.ltb_spec (i - first_unassembled r) (blen d)), (Z.ltb_spec i ce); try lia; [by subst|].
    rewrite <- fl_new0 by lia. f_equal. lia.
  - intros Ha i. rewrite Ha in *. rewrite fl_stored0. destruct (Z.ltb_spec i (first_unassembled r')); [done|].
    by rewrite Hme, (proj2 (Z.ltb_ge _ _)) by lia.
  - intros Ha. rewrite Ha in *. rewrite Hme, (proj2 (Z.ltb_ge _ _)) by lia. auto.
  - intros Ha. rewrite Ha in *. by rewrite fl_dead0.
  - intros i b. rewrite fl_stored0. destruct (Z.ltb_spec i (first_unassembled r')); [done|]. by right.
Qed.

(** The fragment starts beyond the end of the output: store what is missing of it. *)
Lemma place_gap r first data cs ce d :
  RInv r → cs = first → first_unassembled r < first →
  ce = Z.min (first + blen data) (first_unacceptable r) → cs < ce →
  (∀ e, eof_index r = Some e → ce ≤ e) → 0 ≤ first →
  d = sub (cs - first) (ce - first) data →
  insert_missing_gaps r cs d ⇓ λ r1, flush_contiguous r1 ⇓ λ r', ∃ new, placed r first data r' new.
Proof.
  intros HR Hcs Hfirst Hce Hlt Heof H0 Hd. pose proof HR as [].
  destruct (window_le r ri_output0) as (? & ? & ?). destruct (bound_le r) as [Hbf Hbe].
  assert (Hb : blen d = ce - cs) by (subst d; rewrite blen_sub; lia).
  assert (Hcb : ce ≤ bound r).
  { unfold bound. destruct (eof_index r); [|lia]. specialize (Heof _ eq_refl). lia. }
  wp_apply (insert_missing_gaps_wp (first_unassembled r) (bound r) r cs d); try done; try lia.
  intros r1 (Ho & He & Hok & Hst).
  assert (Hfu : first_unassembled r1 = first_unassembled r) by (unfold first_unassembled; by rewrite Ho).
  assert (Hal : alive r1 = alive r) by (unfold alive; by rewrite Ho).
  assert (Hme : ∀ i, first_unassembled r ≤ i → stored (pending r1) i = merged r first data i).
  { intros i Hi. rewrite Hst. unfold fill, merged, fresh. rewrite (proj2 (Z.leb_gt _ _) Hfirst).
    rewrite (proj2 (Z.leb_le _ _) Hi). simpl. destruct (stored (pending r) i); [done|].
    subst d. rewrite at_z_sub by lia.
    destruct (Z.leb_spec 0 (i - cs)), (Z.ltb_spec (i - cs) (ce - first - (cs - first))),
      (Z.ltb_spec i (first_unacceptable r)); simpl; try done; try lia;
      first [f_equal; lia | symmetry; apply at_z_None; lia]. }
  wp_apply (flush_contiguous_wp (first_unassembled r) (bound r) r1); try done.
  { by rewrite Ho. }
  { rewrite Hfu. apply (frags_le _ _ _ ri_pending0). }
  { unfold first_unacceptable in *. by rewrite Ho. }
  intros r' [new []]. exists new. rewrite Hal, Hfu, Ho in *. pose proof (blen_nonneg new).
  split; try done; try congruence.
  - intros Ha i Hi. rewrite fl_new0 by done. apply Hme. lia.
  - intros Ha i. rewrite fl_stored0. destruct (Z.ltb_spec i (first_unassembled r')); [done|].
    apply Hme. lia.
  - intros Ha. rewrite <- Hme by lia. auto.
  - intros i b. rewrite fl_stored0. destruct (Z.ltb_spec i (first_unassembled r')); [done|].
    rewrite Hme by lia. by left.
Qed.

Lemma insert_window_wp r first data oend :
  RInv r → 0 ≤ first → oend = first + blen data → oend ≤ u64_max →
  (∀ e, eof_index r = Some e → oend ≤ e) →
  insert_window r first data oend ⇓ λ r', ∃ new, inserted r first data r' new.
Proof.
  intros HR Hfirst Hoend Hmax Heof. pose proof HR as [].
  destruct (window_le r ri_output0) as (? & ? & ?).
  assert (Hfin : ∀ r1 new, placed r first data r1 new →
    (_ ← debug_check_invariants (close_if_complete r1); mret (close_if_complete r1))
      ⇓ λ r', ∃ new, inserted r first data r' new).
  { intros r1 new Hpl%close_if_complete_placed; [|done]. wp_step.
    wp_apply debug_check_invariants_wp; [apply Hpl|]. intros _ _. wp_step. eauto. }
  unfold insert_window.
  set (cs := Z.max first (first_unassembled r)). set (ce := Z.min oend (first_unacceptable r)).
  destruct (Z.ltb_spec cs ce) as [Hlt|Hge]; wp_step.
  2:{ wp_step. apply (Hfin r []). apply placed_nothing; [done|]. intros i.
      unfold fresh. destruct (Z.leb_spec (first_unassembled r) i), (Z.ltb_spec i (first_unacceptable r));
        simpl; try done. apply at_z_None. lia. }
  wp_step. wp_step; [lia|]. wp_step. wp_step; [lia|]. wp_step. wp_step; [lia|lia|].
  assert (Heof' : ∀ e, eof_index r = Some e → ce ≤ e) by (intros e He; specialize (Heof e He); lia).
  change (ByteStream.bytes_pushed (output r)) with (first_unassembled r).
  wp_step. destruct (Z.eqb_spec cs (first_unassembled r)) as [Heq|Hne].
  - wp_apply (place_front r first data cs ce); try done; try lia.
    intros r1 Hr1. wp_apply Hr1. intros r' [new Hpl]. by apply (Hfin r' new).
  - wp_apply (place_gap r first data cs ce); try done; try lia.
    intros r1 Hr1. wp_apply Hr1. intros r' [new Hpl]. by apply (Hfin r' new).
Qed.
(** Why a fragment ending at [end_] is refused: it overflows the index space,
    contradicts the known end of the stream, or declares an end of the stream
    that bytes already received contradict. *)
Definition refused r (end_ : Z) (last : bool) : Prop :=
  u64_max < end_ ∨
  match eof_index r with
  | Some e => if last then e ≠ end_ else e < end_
  | None => last = true ∧
      (end_ < first_unassembled r ∨ ∃ i, end_ ≤ i ∧ is_Some (stored (pending r) i))
  end.

(** The state the fragment is placed in: the end of the stream is now known. *)
Definition with_last r (end_ : Z) (last : bool) : t :=
  if last then with_eof_index r (Some end_) else r.

Lemma validate_pending_spec lo hi e m :
  frags_ok lo hi m → hi ≤ u64_max → lo ≤ e →
  match validate_pending e m with
  | Ok _ => frags_ok lo (Z.min hi e) m
  | Err _ => ∃ i, e ≤ i ∧ is_Some (stored m i)
  end.
Proof.
  intros Hm Hmax Hlo. revert lo Hm Hlo. induction m as [|[s d] m IH]; intros lo Hm Hlo;
    [simpl in *; lia|].
  pose proof Hm as Hm0. cbn [frags_ok] in Hm. destruct Hm as (? & ? & Hm). pose proof (frags_le _ _ _ Hm).
  cbn [validate_pending]. rewrite checked_add_Some by lia.
  destruct (Z.ltb_spec e (s + blen d)).
  - exists (Z.max e s). split; [lia|]. eapply stored_covers; [done|by left|lia].
  - specialize (IH _ Hm ltac:(lia)). destruct (validate_pending e m).
    + simpl. by split_and!.
    + destruct IH as (i & Hi & [b Hb]). exists i. split; [done|]. exists b. simpl.
      pose proof (stored_range _ _ _ _ _ Hm Hb).
      by rewrite (proj2 (Z.ltb_ge i _)), andb_false_r by lia.
Qed.

Lemma with_last_inv r end_ last :
  RInv r → end_ ≤ u64_max → eof_index r = None → last = true →
  first_unassembled r ≤ end_ →
  frags_ok (first_unassembled r) (Z.min (first_unacceptable r) end_) (pending r) →
  RInv (with_last r end_ last).
Proof.
  intros [] Hmax He -> Hle Hf. split; simpl; try done.
  - intros e [= <-]. done.
  - intros Hc. by rewrite ri_closed0 in He.
Qed.

Lemma record_spec r end_ last :
  RInv r → end_ ≤ u64_max →
  match record_and_validate_eof r end_ last with
  | (Err _, r') => r' = r ∧ last = true ∧ refused r end_ last
  | (Ok _, r') => r' = with_last r end_ last ∧ RInv r' ∧
      (last = true → ¬ refused r end_ last)
  end.
Proof.
  intros HR Hmax. pose proof HR as []. unfold record_and_validate_eof.
  destruct last; simpl; [|split_and!; done].
  unfold refused, with_last. destruct (eof_index r) as [e|] eqn:E.
  - destruct (Z.eqb_spec e end_) as [->|]; simpl.
    + split_and!; [by destruct r; simpl in *; subst|done|]. intros _ [?|?]; [lia|done].
    + split_and!; [done..|]. by right.
  - change (ByteStream.bytes_pushed (output r)) with (first_unassembled r).
    destruct (Z.ltb_spec end_ (first_unassembled r)); [split_and!; [done..|]; right; split; [done|by left]|].
    destruct (window_le r ri_output0) as (? & ? & ?).
    assert (Hb : bound r = first_unacceptable r) by (unfold bound; by rewrite E).
    rewrite Hb in ri_pending0.
    pose proof (validate_pending_spec _ _ end_ _ ri_pending0 ltac:(lia) ltac:(lia)) as Hv.
    destruct (validate_pending end_ (pending r)) as [u|e].
    + split_and!; [done|by apply (with_last_inv r end_ true)|].
      intros _ [?|(_ & [?|(i & Hi & b & Hst)])]; [lia|lia|].
      apply (stored_range _ _ _ _ _ Hv) in Hst. lia.
    + split_and!; [done..|]. right. split; [done|by right].
Qed.

Lemma try_insert_wp r first data last :
  RInv r → u64 first → blen data ≤ u64_max →
  try_insert r first data last ⇓ λ '(res, r'),
    match res with
    | Err _ => r' = r ∧ refused r (first + blen data) last
    | Ok _ => ¬ refused r (first + blen data) last ∧
        ∃ new, inserted (with_last r (first + blen data) last) first data r' new
    end.
Proof.
  intros HR Hfirst Hlen. unfold try_insert. rewrite try_from_Some by done.
  unfold checked_add. destruct (Z.leb_spec (first + blen data) u64_max) as [Hmax|].
  2:{ wp_step. split; [done|]. left. lia. }
  pose proof (record_spec r (first + blen data) last HR Hmax) as Hrec.
  destruct (record_and_validate_eof r (first + blen data) last) as [[u|e] r0].
  2:{ wp_step. tauto. }
  destruct Hrec as (Hr0 & HR0 & Hlast).
  assert (Hbe : (∃ e, eof_index r0 = Some e ∧ e < first + blen data) ↔ last = false ∧ refused r (first + blen data) last).
  { rewrite Hr0. unfold refused, with_last in *. destruct last; simpl.
    - split; [intros (e & [= <-] & ?); lia|by intros []].
    - destruct (eof_index r) as [e|]; split.
      + intros (? & [= <-] & ?). split; [done|by right].
      + intros (_ & [?|?]); [lia|eauto].
      + by intros (? & ? & _).
      + intros (_ & [?|[? _]]); [lia|done]. }
  destruct (eof_index r0) as [e|] eqn:E; [destruct (Z.ltb_spec e (first + blen data))|].
  1:{ wp_step. destruct Hbe as [[Hl Hre] _]; [eauto|]. split; [|done]. subst r0 last. done. }
  all: wp_step; wp_apply (insert_window_wp r0 first data (first + blen data)); try done; try ulia;
    [intros ? ?; congruence || (simplify_eq; lia)|].
  all: intros r' [new Hin]; wp_step; rewrite <- Hr0; split; [|by eauto].
  all: intros Href; destruct last; [by apply Hlast|].
  all: destruct Hbe as [_ (? & ? & ?)]; [done|]; simplify_eq; lia.
Qed.
End try_insert.

(** ** Runs *)

Section runs.
Import Reassembler.
Implicit Types r : Reassembler.t.

Definition rop_ok (o : op) : Prop :=
  match o with
  | Insert first data _ => u64 first ∧ blen data ≤ u64_max
  | PopOutput len => 0 ≤ len
  | FailOutput => True
  end.

Lemma fail_output_inv r : RInv r → RInv (with_output r (ByteStream.set_error (output r))).
Proof.
  intros []. split; simpl; try done; [by apply set_error_inv|].
  unfold alive. simpl. by rewrite orb_true_r.
Qed.

(** Reading moves the window forward and leaves the rest of the state alone. *)
Lemma pop_output_wp r len :
  RInv r → 0 ≤ len →
  ByteStream.pop (output r) len ⇓ λ '(b, o),
    RInv (with_output r o) ∧ ByteStream.content (output r) = b ++ ByteStream.content o ∧
    ByteStream.same_flags (output r) o ∧
    ByteStream.bytes_pushed o = first_unassembled r ∧
    ByteStream.bytes_popped o = ByteStream.bytes_popped (output r) + blen b.
Proof.
  intros [] Hlen. wp_apply (pop_wp (output r) len); [done|done|].
  intros [b o] (Hcon & _ & HI & Hfl & Hpu & Hpo). simpl in *. split_and!; try done.
  pose proof (blen_nonneg b). destruct Hfl as (Hcap & Hcl & Herr).
  split; unfold first_unassembled, alive in *; simpl; rewrite ?Hpu, ?Hcl, ?Herr; try done.
  eapply frags_weaken; [done|lia|]. unfold bound, first_unacceptable. simpl. rewrite Hpo, Hcap.
  destruct (eof_index r); ulia.
Qed.

(** An accepted fragment preserves the invariant. *)
Lemma run_safe ops r :
  RInv r → Forall rop_ok ops →
  run r ops ⇓ λ '(_, _, r'), RInv r' ∧
    ByteStream.capacity (output r') = ByteStream.capacity (output r).
Proof.
  intros HR Hops. revert r HR. induction Hops as [|o ops Ho _ IH]; intros r HR; simpl.
  { by wp_step. }
  destruct o as [first data last|len|]; simpl in Ho.
  - wp_step. wp_apply (try_insert_wp r first data last); [done|tauto|tauto|].
    intros [res r1] Hres. assert (HR1 : RInv r1 ∧
      ByteStream.capacity (output r1) = ByteStream.capacity (output r)).
    { destruct res; [|destruct Hres; by subst]. destruct Hres as (_ & new & []). split; [done|].
      rewrite in_capacity0. by destruct last. }
    destruct HR1 as [HR1 Hc1]. wp_step. wp_apply (IH r1 HR1). intros [[p rs] r2] [HR2 Hc2].
    wp_step. split; [done|congruence].
  - wp_step. wp_apply (pop_output_wp r len); [done|done|]. intros [b o] (HR1 & _ & (Hc & _) & _).
    wp_step. wp_apply (IH _ HR1). intros [[p rs] r2] [HR2 Hc2]. wp_step. split; [done|].
    by rewrite Hc2, <- Hc.
  - by apply (IH _ (fail_output_inv r HR)).
Qed.

(** *** Fragments of one stream [S] *)

Definition op_of (S : bytes) (o : op) : Prop :=
  match o with
  | Insert first data last => piece_of S first data last
  | PopOutput len => 0 ≤ len
  | FailOutput => True
  end.

(** Everything [r] and its reader know is true of [S]. *)
Record agrees (S : bytes) (popped : bytes) r : Prop := {
  ag_inv : RInv r;
  ag_eof : ∀ e, eof_index r = Some e → e = blen S;
  ag_popped : blen popped = ByteStream.bytes_popped (output r);
  ag_output : popped ++ ByteStream.content (output r) = sub 0 (first_unassembled r) S;
  ag_bound : first_unassembled r ≤ blen S;
  ag_stored : ∀ i b, stored (pending r) i = Some b → at_z S i = Some b;
}.

Lemma merged_at S first data last r i b :
  piece_of S first data last → (∀ j b, stored (pending r) j = Some b → at_z S j = Some b) →
  merged r first data i = Some b → at_z S i = Some b.
Proof.
  intros Hp Hst. assert (Hf : ∀ b, fresh r first data i = Some b → at_z S i = Some b).
  { unfold fresh. intros b'. case_match; [|done]. by eapply piece_at. }
  unfold merged. repeat case_match; intros; simplify_eq; auto.
Qed.

Lemma piece_accepted S popped first data last r :
  agrees S popped r → piece_of S first data last → blen S ≤ u64_max →
  ¬ refused r (first + blen data) last.
Proof.
  intros [] (? & ? & _ & Hl) Hmax [?|Href]; [lia|].
  destruct (eof_index r) as [e|] eqn:E.
  - specialize (ag_eof0 e eq_refl). destruct last; [specialize (Hl eq_refl)|]; lia.
  - destruct Href as (-> & [?|(i & Hi & b & Hb)]); specialize (Hl eq_refl); [lia|].
    apply ag_stored0, at_z_is_Some in Hb. lia.
Qed.

Lemma with_last_agrees S popped first data last r :
  agrees S popped r → piece_of S first data last → blen S ≤ u64_max →
  RInv (with_last r (first + blen data) last) →
  agrees S popped (with_last r (first + blen data) last).
Proof.
  intros [] (? & ? & _ & Hl) Hmax. destruct last; simpl; [|done].
  split; try done. intros e [= <-]. auto.
Qed.

Lemma inserted_agrees S popped first data last r r' new :
  agrees S popped r → piece_of S first data last →
  inserted r first data r' new → agrees S popped r'.
Proof.
  intros [] Hp []. assert (H0 := blen_nonneg new). pose proof ag_inv0 as [].
  destruct (window_le r ri_output0) as ([Hfu _] & _).
  assert (Hnew : new = sub (first_unassembled r) (first_unassembled r') S ∧ first_unassembled r' ≤ blen S).
  { destruct (alive r) eqn:Ha.
    2:{ rewrite in_dead0 in * by done. change (@blen byte []) with 0 in *. unfold sub.
        split; [|lia]. by replace (Z.to_nat _) with O by lia. }
    assert (Hat : ∀ i, first_unassembled r ≤ i < first_unassembled r' → at_z S i = at_z new (i - first_unassembled r)).
    { intros i Hi. destruct (at_z_Some new (i - first_unassembled r)) as [b Hb]; [lia|].
      rewrite Hb. eapply merged_at; [done..|]. by rewrite <- in_new0. }
    assert (Hle : first_unassembled r' ≤ blen S).
    { destruct (decide (first_unassembled r' = first_unassembled r)); [lia|].
      specialize (Hat (first_unassembled r' - 1) ltac:(lia)).
      destruct (at_z_Some new (first_unassembled r' - 1 - first_unassembled r)) as [b Hb]; [lia|].
      rewrite Hb in Hat. apply at_z_is_Some in Hat. lia. }
    split; [|done]. apply list_eq_at_z; [rewrite blen_sub; lia|]. intros i Hi.
    rewrite at_z_sub, (proj2 (Z.leb_le _ _)), (proj2 (Z.ltb_lt _ _)) by lia. simpl.
    rewrite Hat by lia. f_equal. lia. }
  destruct Hnew as [Hnew Hle]. split; try done.
  - by rewrite in_eof0.
  - by rewrite in_popped0.
  - rewrite in_content0, app_assoc, ag_output0, (sub_split 0 (first_unassembled r) (first_unassembled r')), <- Hnew by lia. done.
  - intros i b [Hb|Hb]%in_sound0; [by eapply merged_at|auto].
Qed.
Lemma with_last_inserted S popped first data last r :
  agrees S popped r → piece_of S first data last → blen S ≤ u64_max →
  try_insert r first data last ⇓ λ '(res, r'), res = Ok tt ∧
    ∃ new, agrees S popped (with_last r (first + blen data) last) ∧
      inserted (with_last r (first + blen data) last) first data r' new ∧
      agrees S popped r'.
Proof.
  intros Ha Hp Hmax. pose proof Hp as (? & ? & _ & _). pose proof (blen_nonneg data).
  pose proof (record_spec r (first + blen data) last (ag_inv _ _ _ Ha) ltac:(lia)) as Hrec.
  pose proof (piece_accepted _ _ _ _ _ _ Ha Hp Hmax) as Hok.
  destruct (record_and_validate_eof r _ last) as [[u|e] r0]; [|by destruct Hrec as (_ & _ & ?)].
  destruct Hrec as (-> & HR0 & _).
  wp_apply (try_insert_wp r first data last); [apply Ha|ulia|lia|].
  intros [[[]|e] r'] Hres; [|by destruct Hres].
  destruct Hres as (_ & new & Hin). split; [done|]. exists new.
  pose proof (with_last_agrees _ _ _ _ _ _ Ha Hp Hmax HR0) as Ha0.
  split_and!; [done|done|]. by eapply inserted_agrees.
Qed.

Lemma pop_agrees S popped r len :
  agrees S popped r → 0 ≤ len →
  ByteStream.pop (output r) len ⇓ λ '(b, o), agrees S (popped ++ b) (with_output r o).
Proof.
  intros Ha Hlen. wp_apply (pop_output_wp r len (ag_inv _ _ _ Ha)); [done|].
  intros [b o] (HR & Hcon & _ & Hpu & Hpo). destruct Ha. unfold first_unassembled in *.
  split; unfold first_unassembled; simpl; rewrite ?Hpu; try done.
  - rewrite blen_app. lia.
  - by rewrite <- app_assoc, <- Hcon.
Qed.

Lemma run_agrees S popped r ops :
  agrees S popped r → Forall (op_of S) ops → blen S ≤ u64_max →
  run r ops ⇓ λ '(p, rs, r'), Forall (λ x, x = Ok tt) rs ∧ agrees S (popped ++ p) r'.
Proof.
  intros Ha Hops Hmax. revert popped r Ha. induction Hops as [|o ops Ho _ IH]; intros popped r Ha; simpl.
  { wp_step. by rewrite app_nil_r. }
  destruct o as [first data last|len|]; simpl in Ho.
  - wp_step. wp_apply (with_last_inserted S popped); [done..|]. intros [res r1] (-> & _ & _ & _ & Ha1).
    wp_step. wp_apply (IH _ _ Ha1). intros [[p rs] r2] [? ?]. wp_step. split; [by constructor|done].
  - wp_step. wp_apply (pop_agrees S popped r len Ha Ho). intros [b o] Ha1. wp_step.
    wp_apply (IH (popped ++ b) _ Ha1). intros [[p rs] r2] [? ?]. wp_step. by rewrite app_assoc.
  - apply IH. destruct Ha. split; try done. by apply fail_output_inv.
Qed.

Lemma new_agrees S cap : u64 cap → new cap ⇓ λ r, agrees S [] r ∧ r = mk (ByteStream.new cap) [] None.
Proof.
  intros Hc. wp_apply (reassembler_new_wp cap Hc). intros r [HR Hr]. split; [|done].
  rewrite Hr in *. split; try done. apply blen_nonneg.
Qed.

(** *** Completeness *)

(** The fragments [(first_index, data, is_last_substring)] as operations. *)
Definition inserts (frags : list (Z * bytes * bool)) : list op :=
  (λ '(first, data, last), Insert first data last) <$> frags.

(** Some fragment carries the byte at index [i]; some fragment is the last. *)
Definition covered (frags : list (Z * bytes * bool)) (i : Z) : Prop :=
  ∃ first data last, (first, data, last) ∈ frags ∧ first ≤ i < first + blen data.
Definition has_last (frags : list (Z * bytes * bool)) : Prop :=
  ∃ first data, (first, data, true) ∈ frags.

(** [r] knows exactly the bytes of the fragments received. *)
Record knows (S : bytes) (frags : list (Z * bytes * bool)) r : Prop := {
  kn_agrees : agrees S [] r;
  kn_capacity : blen S ≤ ByteStream.capacity (output r);
  kn_error : ByteStream.error (output r) = false;
  kn_output : ∀ i, 0 ≤ i < first_unassembled r → covered frags i;
  kn_pending : ByteStream.closed (output r) = false →
    ∀ i, first_unassembled r ≤ i → is_Some (stored (pending r) i) ↔ covered frags i;
  kn_eof : is_Some (eof_index r) ↔ has_last frags;
  kn_closed : ByteStream.closed (output r) = true ↔ eof_index r = Some (first_unassembled r);
}.

Lemma covered_snoc frags first data last i :
  covered (frags ++ [(first, data, last)]) i ↔ covered frags i ∨ first ≤ i < first + blen data.
Proof.
  unfold covered. setoid_rewrite elem_of_app. setoid_rewrite list_elem_of_singleton. split.
  - intros (? & ? & ? & [?|[= -> -> ->]] & ?); [left; eauto 6|by right].
  - intros [(? & ? & ? & ? & ?)|?]; eauto 8.
Qed.

Lemma merged_known r first data i :
  first_unassembled r ≤ i < first_unacceptable r →
  is_Some (merged r first data i) ↔
    is_Some (stored (pending r) i) ∨ first ≤ i < first + blen data.
Proof.
  intros Hi. assert (Hf : is_Some (fresh r first data i) ↔ first ≤ i < first + blen data).
  { unfold fresh. rewrite (proj2 (Z.leb_le _ _)), (proj2 (Z.ltb_lt _ _)) by lia. simpl. split.
    - intros [b Hb%at_z_is_Some]. lia.
    - intros ?. destruct (at_z_Some data (i - first)); [lia|eauto]. }
  rewrite <- Hf. unfold merged. destruct (first <=? first_unassembled r), (stored (pending r) i), (fresh r first data i);
    simpl; split; intros; eauto; by destruct_or?; auto.
Qed.

Lemma knows_step S frags first data last r :
  knows S frags r → piece_of S first data last → blen S ≤ u64_max →
  try_insert r first data last ⇓ λ '(res, r'), res = Ok tt ∧
    knows S (frags ++ [(first, data, last)]) r'.
Proof.
  intros [] Hp Hmax. wp_apply (with_last_inserted S []); [done..|].
  intros [res r'] (-> & new & Ha0 & [] & Ha'). split; [done|]. set (r0 := with_last r _ last) in *.
  assert (Ho : output r0 = output r ∧ pending r0 = pending r) by (subst r0; by destruct last).
  destruct Ho as [Ho Hpe]. assert (Hfu : first_unassembled r0 = first_unassembled r) by (unfold first_unassembled; by rewrite Ho).
  assert (Heof : is_Some (eof_index r0) ↔ has_last (frags ++ [(first, data, last)])).
  { unfold has_last. setoid_rewrite elem_of_app. setoid_rewrite list_elem_of_singleton.
    subst r0. unfold has_last in kn_eof0. destruct last; simpl.
    - split; [intros _; eauto 6|eauto].
    - rewrite kn_eof0. split; [intros (? & ? & ?); eauto|]. intros (? & ? & [?|?]); [eauto|done]. }
  rewrite Ho, Hfu, ?Hpe in *. pose proof (blen_nonneg new).
  destruct (window_le r (ri_output _ (ag_inv _ _ _ kn_agrees0))) as ([? ?] & _).
  assert (Hwin : blen S ≤ first_unacceptable r0).
  { unfold first_unacceptable. rewrite Ho, <- (ag_popped _ _ _ kn_agrees0).
    change (@blen byte []) with 0. ulia. }
  pose proof Hp as (? & ? & _ & _).
  assert (Hal : alive r0 = negb (ByteStream.closed (output r))).
  { unfold alive. rewrite Ho, kn_error0. by rewrite orb_false_r. }
  assert (Hknown : ByteStream.closed (output r) = false → ∀ i, first_unassembled r ≤ i →
      is_Some (merged r0 first data i) ↔ covered (frags ++ [(first, data, last)]) i).
  { intros Hcl i Hi. rewrite covered_snoc, <- kn_pending0 by done.
    destruct (decide (i < first_unacceptable r0)).
    - rewrite merged_known, Hpe by lia. done.
    - rewrite merged_stale, Hpe by (apply fresh_None; lia). split; [by left|]. intros [?|?]; [done|lia]. }
  split; try done; try congruence.
  - intros i Hi. destruct (decide (i < first_unassembled r)) as [|Hge].
    { apply covered_snoc. left. apply kn_output0. lia. }
    destruct (ByteStream.closed (output r)) eqn:Hcl.
    { rewrite in_dead0 in in_pushed0 by done. change (@blen byte []) with 0 in in_pushed0. lia. }
    apply Hknown; [done|lia|]. rewrite <- in_new0 by (done || lia).
    destruct (at_z_Some new (i - first_unassembled r)); [lia|eauto].
  - intros Hcl' i Hi. rewrite in_closed0 in Hcl'. apply orb_false_iff in Hcl' as [Hcl _].
    rewrite in_stored0 by by rewrite Hal, Hcl. rewrite (proj2 (Z.ltb_ge _ _)) by lia.
    apply Hknown; [done|lia].
  - split; [apply in_inv0|]. intros He. rewrite in_closed0. rewrite in_eof0 in He.
    by rewrite bool_decide_eq_true_2, orb_true_r.
Qed.

Lemma run_knows S frags0 frags r :
  knows S frags0 r → Forall (λ '(first, data, last), piece_of S first data last) frags →
  blen S ≤ u64_max →
  run r (inserts frags) ⇓ λ '(p, rs, r'), p = [] ∧ knows S (frags0 ++ frags) r'.
Proof.
  intros Hk Hf Hmax. revert frags0 r Hk.
  induction Hf as [|[[first data] last] frags Hp _ IH]; intros frags0 r Hk; simpl.
  { wp_step. split; [done|]. by rewrite app_nil_r. }
  wp_step. wp_apply (knows_step S frags0); [done..|]. intros [res r1] [-> Hk1].
  wp_step. wp_apply (IH _ _ Hk1). intros [[p rs] r2] [-> Hk2]. wp_step.
  split; [done|]. by rewrite <- app_assoc in Hk2.
Qed.

Lemma new_knows S cap : u64 cap → blen S ≤ cap → new cap ⇓ λ r, knows S [] r.
Proof.
  intros Hc HS. wp_apply (new_agrees S cap Hc). intros r [Ha Hr]. rewrite Hr in *. split; try done.
  - intros i. unfold first_unassembled. simpl. lia.
  - intros _ i _. simpl. unfold covered. split; [by intros []|]. intros (? & ? & ? & []%not_elem_of_nil & _).
  - unfold has_last. simpl. split; [by intros []|]. intros (? & ? & []%not_elem_of_nil).
Qed.
End runs.

(** C22: Panic freedom. Whatever fragments arrive (overlapping, contradictory, out of
    range, in any order), interleaved with reads and with a stream error, a new
    reassembler runs to the end: no debug assertion, checked conversion or slice
    fails, no loop runs out of fuel, and the output and the pending fragments
    together stay within the capacity. *)
Theorem reassembler_never_panics cap ops :
  u64 cap → Forall rop_ok ops →
  ∃ popped results r,
    (r ← Reassembler.new cap; Reassembler.run r ops) = Ret (popped, results, r) ∧
    RInv r ∧ ByteStream.capacity (Reassembler.output r) = cap ∧
    ByteStream.bytes_buffered (Reassembler.output r) + Reassembler.bytes_pending r ≤ cap.
Proof.
  intros Hcap Hops. pose proof (reassembler_new_wp cap Hcap) as H. wp_inv H. destruct H as [HR ->].
  pose proof (run_safe ops _ HR Hops) as H. wp_inv H. destruct r as [[popped results] r].
  destruct H as [HI Hc]. exists popped, results, r. rewrite Heq, bind_Ret.
  split_and!; try done. destruct HI. pose proof (frags_total _ _ _ ri_pending0).
  destruct (bound_le r). destruct (window_le r ri_output0) as (? & ? & ?).
  destruct ri_output0. simpl in Hc. unfold Reassembler.bytes_pending, Reassembler.first_unassembled in *. lia.
Qed.

Lemma reassembler_never_panics_witness :
  ∃ popped results r,
    (r ← Reassembler.new 8;
     Reassembler.run r
       [Reassembler.Insert 2 [x63; x64] false; Reassembler.Insert 1 [x62; x78; x65] true;
        Reassembler.Insert 0 [x61] false; Reassembler.PopOutput 3;
        Reassembler.Insert 7 [x61] false; Reassembler.Insert u64_max [x61] false;
        Reassembler.FailOutput; Reassembler.Insert 0 [x61] true])
      = Ret (popped, results, r) ∧
    RInv r ∧ ByteStream.capacity (Reassembler.output r) = 8 ∧
    ByteStream.bytes_buffered (Reassembler.output r) + Reassembler.bytes_pending r ≤ 8.
Proof.
  apply reassembler_never_panics; [unfold u64; lia|].
  repeat constructor; unfold rop_ok, u64, blen; simpl; lia.
Defined.



(** In-order delivery. When every fragment is a piece of one stream [S] (in any
    order, overlapping and repeated at will, interleaved with reads), every
    fragment is accepted, and the bytes read so far followed by the bytes waiting
    in the output are a prefix of [S]; the output is closed only at the end of [S]. *)
Theorem reassembler_prefix S cap ops :
  u64 cap → blen S ≤ u64_max → Forall (op_of S) ops →
  ∃ popped results r,
    (r ← Reassembler.new cap; Reassembler.run r ops) = Ret (popped, results, r) ∧
    Forall (λ x, x = Ok tt) results ∧
    popped ++ ByteStream.content (Reassembler.output r) = sub 0 (Reassembler.first_unassembled r) S ∧
    Reassembler.first_unassembled r ≤ blen S ∧
    (ByteStream.closed (Reassembler.output r) = true → Reassembler.first_unassembled r = blen S).
Proof.
  intros Hcap HS Hops. pose proof (new_agrees S cap Hcap) as H. wp_inv H. destruct H as [HR _].
  pose proof (run_agrees S [] r ops HR Hops HS) as H. wp_inv H. destruct r0 as [[popped results] r'].
  destruct H as [Hres []]. exists popped, results, r'. rewrite Heq, bind_Ret.
  split_and!; try done. intros Hcl. by apply ag_eof0, (ri_closed _ ag_inv0).
Qed.

Lemma reassembler_prefix_witness :
  ∃ popped results r,
    (r ← Reassembler.new 3;
     Reassembler.run r
       [Reassembler.Insert 2 [x63; x64] true; Reassembler.Insert 1 [x62; x63] false;
        Reassembler.Insert 0 [x61] false; Reassembler.PopOutput 2;
        Reassembler.Insert 2 [x63; x64] true])
      = Ret (popped, results, r) ∧
    Forall (λ x, x = Ok tt) results ∧
    popped ++ ByteStream.content (Reassembler.output r)
      = sub 0 (Reassembler.first_unassembled r) [x61; x62; x63; x64] ∧
    Reassembler.first_unassembled r ≤ blen [x61; x62; x63; x64] ∧
    (ByteStream.closed (Reassembler.output r) = true →
     Reassembler.first_unassembled r = blen [x61; x62; x63; x64]).
Proof.
  apply reassembler_prefix; [unfold u64; lia|vm_compute; discriminate|].
  repeat constructor; unfold piece_of, blen; simpl; (lia || done).
Defined.

(** C9: Completeness, independently of the order. After any list of pieces of a stream
    [S] that fits the capacity, the output is the longest prefix of [S] whose bytes
    were all received, and it is closed exactly when that is all of [S] and its
    last piece has arrived. *)
Theorem reassembler_longest_prefix S cap frags :
  u64 cap → blen S ≤ cap → Forall (λ '(first, data, last), piece_of S first data last) frags →
  ∃ results r n,
    (r ← Reassembler.new cap; Reassembler.run r (inserts frags)) = Ret ([], results, r) ∧
    ByteStream.content (Reassembler.output r) = sub 0 n S ∧ 0 ≤ n ≤ blen S ∧
    (∀ i, 0 ≤ i < n → covered frags i) ∧ (n < blen S → ¬ covered frags n) ∧
    (ByteStream.closed (Reassembler.output r) = true ↔ n = blen S ∧ has_last frags).
Proof.
  intros Hcap HS Hf. pose proof (new_knows S cap Hcap HS) as H. wp_inv H.
  pose proof (run_knows S [] frags r H Hf ltac:(ulia)) as H'. wp_inv H'.
  destruct r0 as [[popped results] r']. destruct H' as [-> Hk].
  exists results, r', (Reassembler.first_unassembled r'). rewrite Heq, bind_Ret.
  simpl in Hk. destruct Hk as [[] _ Herr Hout Hpend Heof Hcl].
  destruct (window_le r' (ri_output _ ag_inv0)) as ([? ?] & _). split_and!; try done.
  - intros Hlt Hc. destruct (ByteStream.closed (Reassembler.output r')) eqn:E.
    + apply (ri_closed _ ag_inv0), ag_eof0 in E. lia.
    + apply Hpend in Hc as [b Hb]; [|done|lia]. rewrite (ri_gap _ ag_inv0) in Hb; [done|].
      unfold alive. by rewrite E, Herr.
  - rewrite Hcl, <- Heof. split.
    + intros He. rewrite He. split; [by apply ag_eof0|done].
    + intros [Hn [e He]]. rewrite He, Hn. f_equal. auto.
Qed.

Lemma reassembler_longest_prefix_witness :
  ∃ results r n,
    (r ← Reassembler.new 4;
     Reassembler.run r (inserts [(3, [x64], true); (1, [x62], false); (0, [x61; x62], false)]))
      = Ret ([], results, r) ∧
    ByteStream.content (Reassembler.output r) = sub 0 n [x61; x62; x63; x64] ∧
    0 ≤ n ≤ blen [x61; x62; x63; x64] ∧
    (∀ i, 0 ≤ i < n → covered [(3, [x64], true); (1, [x62], false); (0, [x61; x62], false)] i) ∧
    (n < blen [x61; x62; x63; x64] →
     ¬ covered [(3, [x64], true); (1, [x62], false); (0, [x61; x62], false)] n) ∧
    (ByteStream.closed (Reassembler.output r) = true ↔
     n = blen [x61; x62; x63; x64] ∧
     has_last [(3, [x64], true); (1, [x62], false); (0, [x61; x62], false)]).
Proof.
  apply reassembler_longest_prefix; [unfold u64; lia|vm_compute; discriminate|].
  repeat constructor; unfold piece_of, blen; simpl; (lia || done).
Defined.
