(* ===== verification/checksum.v ===== *)
(** * The Internet checksum ([src/checksum.rs])

    The one's-complement sum of 16-bit big-endian words, accumulated in a [u32].
    The theorems give its value against a reference definition, whatever way the
    data is cut into calls of [add_bytes], show that the accumulator cannot
    overflow on anything up to 131074 bytes, that storing the checksum makes a
    message verify, and that changing any one byte is detected. *)

From S2P Require Import prelude.

Module InternetChecksum.

Record t := mk { sum : Z; odd_byte : option byte }.

Definition new : t := mk 0 None.

(** The [while index + 1 < data.len()] loop over the rest of the data. *)
Fixpoint add_words (sum : Z) (data : bytes) : exec t :=
  match data with
  | high :: low :: data =>
      sum ← add_u32 sum (be_val [high; low]);
      add_words sum data
  | [last] => mret (mk sum (Some last))
  | [] => mret (mk sum None)
  end.

Definition add_bytes (self : t) (data : bytes) : exec t :=
  match odd_byte self with
  | Some high =>
      match data with
      | low :: rest =>
          sum ← add_u32 (sum self) (be_val [high; low]);
          add_words sum rest
      | [] => mret (mk (sum self) (Some high))
      end
  | None => add_words (sum self) data
  end.

(** The [while (self.sum >> 16) != 0] loop. *)
Fixpoint fold_carries (fuel : nat) (sum : Z) : exec Z :=
  match fuel with
  | O => Fault OutOfFuel
  | S fuel =>
      if negb (Z.shiftr sum 16 =? 0) then
        sum ← add_u32 (Z.land sum 65535) (Z.shiftr sum 16);
        fold_carries fuel sum
      else mret sum
  end.

(** Three tests of the loop are enough for any [u32]. *)
Definition checksum (self : t) : exec Z :=
  sum ← match odd_byte self with
        | Some high => add_u32 (sum self) (be_val [high; x00])
        | None => mret (sum self)
        end;
  sum ← fold_carries 3 sum;
  mret (u16_max - cast u16_max sum).

End InternetChecksum.

Definition internet_checksum (data : bytes) : exec Z :=
  checksum ← InternetChecksum.add_bytes InternetChecksum.new data;
  InternetChecksum.checksum checksum.

Definition verify_internet_checksum (data : bytes) : exec bool :=
  c ← internet_checksum data; mret (c =? 0).

Definition tcp_checksum_ipv4 (src_ip dst_ip : bytes) (tcp_segment : bytes) : exec Z :=
  _ ← assert (blen tcp_segment <=? u16_max);
  let tcp_len := cast u16_max (blen tcp_segment) in
  let checksum := InternetChecksum.new in
  checksum ← InternetChecksum.add_bytes checksum src_ip;
  checksum ← InternetChecksum.add_bytes checksum dst_ip;
  checksum ← InternetChecksum.add_bytes checksum [x00];
  checksum ← InternetChecksum.add_bytes checksum [x06];
  checksum ← InternetChecksum.add_bytes checksum (put_u16 tcp_len);
  checksum ← InternetChecksum.add_bytes checksum tcp_segment;
  InternetChecksum.checksum checksum.

(** ** The reference definition *)

(** The sum of the 16-bit words of [l], padded with a zero byte. *)
Fixpoint word_sum (l : bytes) : Z :=
  match l with
  | high :: low :: l => be_val [high; low] + word_sum l
  | [last] => be_val [last; x00]
  | [] => 0
  end.

(** The one's-complement residue of a sum: in [1, 65535], and 0 only for 0. *)
Definition ones (s : Z) : Z := if s =? 0 then 0 else (s - 1) mod 65535 + 1.

Definition csum (l : bytes) : Z := u16_max - ones (word_sum l).

(** The TCP pseudo-header. *)
Definition pseudo_header (src_ip dst_ip : bytes) (len : Z) : bytes :=
  src_ip ++ dst_ip ++ [x00; x06] ++ put_u16 len.

(** The most bytes whose sum fits in the 32-bit accumulator. *)
Abbreviation max_summable := 131074.

Section facts.
Import InternetChecksum.
Implicit Types (l d a b : bytes) (c : InternetChecksum.t).

(** Induction two bytes at a time. *)
Lemma words_ind (P : bytes → Prop) :
  P [] → (∀ x, P [x]) → (∀ x y l, P l → P (x :: y :: l)) → ∀ l, P l.
Proof.
  intros H0 H1 H2 l. assert (P l ∧ ∀ x, P (x :: l)) as [? _]; [|done].
  induction l as [|y l [IH1 IH2]]; auto.
Qed.

Lemma word_sum_range l : 0 ≤ 2 * word_sum l ≤ 65535 * (blen l + 1).
Proof.
  induction l as [|x|x y l IH] using words_ind; cbn [word_sum]; rewrite ?blen_cons.
  - change (@blen byte []) with 0. lia.
  - pose proof (be_val_u16_range x x00). change (@blen byte []) with 0. ulia.
  - pose proof (be_val_u16_range x y). ulia.
Qed.

(** The exact bound: an odd number of bytes makes one word more. *)
Lemma word_sum_u32 l : blen l ≤ max_summable → 0 ≤ word_sum l ≤ u32_max.
Proof.
  intros Hl. pose proof (word_sum_range l). split; [lia|].
  assert (Hw : word_sum l ≤ 65535 * ((blen l + 1) / 2)); [|].
  { clear. induction l as [|x|x y l IH] using words_ind; cbn [word_sum]; rewrite ?blen_cons.
    - done.
    - pose proof (be_val_u16_range x x00). change (@blen byte []) with 0. change ((1 + 0 + 1) / 2) with 1. ulia.
    - pose proof (be_val_u16_range x y).
      replace (1 + (1 + blen l) + 1) with (blen l + 1 + 1 * 2) by lia. rewrite Z.div_add by lia. ulia. }
  assert ((blen l + 1) / 2 < 65538) by (apply Z.div_lt_upper_bound; lia). lia.
Qed.

Lemma word_sum_app a b :
  Nat.even (length a) = true → word_sum (a ++ b) = word_sum a + word_sum b.
Proof.
  induction a as [|x|x y a IH] using words_ind; intros He; cbn [app word_sum]; [lia|done|].
  rewrite IH by done. lia.
Qed.

Lemma word_sum_single x : word_sum [x] = b2z x * 256.
Proof. cbn [word_sum]. rewrite be_val_2. change (b2z x00) with 0. lia. Qed.

Lemma word_sum_snoc a x y :
  Nat.even (length a) = true → word_sum (a ++ [x; y]) = word_sum (a ++ [x]) + b2z y.
Proof.
  intros He. rewrite !word_sum_app, word_sum_single by done. cbn [word_sum].
  rewrite be_val_2. lia.
Qed.

(** *** The accumulator *)

(** [c] has taken in exactly the bytes [d]. *)
Definition tracks c d : Prop :=
  match odd_byte c with
  | None => Nat.even (length d) = true ∧ sum c = word_sum d
  | Some h => ∃ d', d = d' ++ [h] ∧ Nat.even (length d') = true ∧ sum c = word_sum d'
  end.

Lemma tracks_new : tracks new [].
Proof. done. Qed.

Lemma even_app2 d x y : Nat.even (length (d ++ [x; y])) = Nat.even (length d).
Proof. rewrite length_app. simpl. by rewrite Nat.add_comm. Qed.

Lemma add_words_wp l d :
  Nat.even (length d) = true → blen (d ++ l) ≤ max_summable →
  add_words (word_sum d) l ⇓ λ c, tracks c (d ++ l).
Proof.
  revert d. induction l as [|x|x y l IH] using words_ind; intros d He Hmax; cbn [add_words].
  - wp_step. by rewrite app_nil_r.
  - wp_step. by exists d.
  - assert (Hw : word_sum d + be_val [x; y] = word_sum (d ++ [x; y]))
      by (rewrite word_sum_app; cbn [word_sum]; [lia|done]).
    replace (d ++ x :: y :: l) with ((d ++ [x; y]) ++ l) in * by by rewrite <- app_assoc.
    rewrite blen_app in Hmax. pose proof (blen_nonneg l).
    pose proof (word_sum_u32 (d ++ [x; y]) ltac:(lia)).
    wp_step. wp_step; [lia|]. rewrite Hw. apply IH; [by rewrite even_app2|].
    rewrite blen_app. lia.
Qed.

Lemma add_bytes_wp c d l :
  tracks c d → blen (d ++ l) ≤ max_summable →
  add_bytes c l ⇓ λ c', tracks c' (d ++ l).
Proof.
  unfold tracks at 1, add_bytes. intros Ht Hmax. destruct (odd_byte c) as [h|] eqn:Eo.
  - destruct Ht as (d' & -> & He & Hs). destruct l as [|x l].
    { wp_step. rewrite app_nil_r. unfold tracks. simpl. eauto. }
    assert (Hw : sum c + be_val [h; x] = word_sum (d' ++ [h; x]))
      by (rewrite Hs, word_sum_app; cbn [word_sum]; [lia|done]).
    replace ((d' ++ [h]) ++ x :: l) with ((d' ++ [h; x]) ++ l) in * by by rewrite <- !app_assoc.
    rewrite blen_app in Hmax. pose proof (blen_nonneg l).
    pose proof (word_sum_u32 (d' ++ [h; x]) ltac:(lia)).
    wp_step. wp_step; [lia|]. rewrite Hw. apply add_words_wp; [by rewrite even_app2|].
    rewrite blen_app. lia.
  - destruct Ht as [He Hs]. rewrite Hs. by apply add_words_wp.
Qed.

Lemma ones_range s : 0 ≤ s → 0 ≤ ones s ≤ 65535 ∧ (ones s = 0 ↔ s = 0).
Proof.
  intros. unfold ones. pose proof (Z.mod_pos_bound (s - 1) 65535).
  destruct (Z.eqb_spec s 0); lia.
Qed.

Lemma ones_mod s : 0 ≤ s → ones s mod 65535 = s mod 65535.
Proof.
  intros. unfold ones. destruct (Z.eqb_spec s 0) as [->|]; [done|].
  rewrite Zplus_mod_idemp_l. f_equal. lia.
Qed.

Lemma ones_add s k : 0 < s → 0 ≤ k → ones (s + k * 65535) = ones s.
Proof.
  intros. unfold ones. rewrite !(proj2 (Z.eqb_neq _ 0)) by lia.
  replace (s + k * 65535 - 1) with (s - 1 + k * 65535) by lia. by rewrite Z.mod_add.
Qed.

Lemma shiftr_16 s : Z.shiftr s 16 = s / 65536.
Proof. by rewrite Z.shiftr_div_pow2. Qed.
Lemma land_16 s : Z.land s 65535 = s mod 65536.
Proof. change 65535 with (Z.ones 16). by rewrite Z.land_ones. Qed.

(** One round of folding keeps the residue. *)
Lemma fold_round s : 65536 ≤ s →
  ones (s mod 65536 + s / 65536) = ones s ∧ 0 < s mod 65536 + s / 65536.
Proof.
  intros Hs. pose proof (Z.div_mod s 65536 ltac:(lia)). pose proof (Z.mod_pos_bound s 65536 ltac:(lia)).
  assert (1 ≤ s / 65536) by (apply Z.div_le_lower_bound; lia).
  split; [|lia]. rewrite <- (ones_add _ (s / 65536)) by lia. f_equal. lia.
Qed.

Lemma fold_carries_done fuel s : 0 ≤ s ≤ 65535 → fold_carries (S fuel) s ⇓ λ r, r = ones s.
Proof.
  intros Hs. simpl. rewrite shiftr_16, Z.div_small by lia. simpl. wp_step.
  unfold ones. destruct (Z.eqb_spec s 0); [done|]. rewrite Z.mod_small by lia. lia.
Qed.

Lemma fold_carries_step fuel s (Q : Z → Prop) : 65536 ≤ s ≤ u32_max →
  fold_carries fuel (s mod 65536 + s / 65536) ⇓ Q → fold_carries (S fuel) s ⇓ Q.
Proof.
  intros Hs HQ. cbn [fold_carries]. rewrite shiftr_16, land_16.
  pose proof (Z.mod_pos_bound s 65536 ltac:(lia)).
  assert (1 ≤ s / 65536) by (apply Z.div_le_lower_bound; lia).
  assert (s / 65536 < 65536) by (apply Z.div_lt_upper_bound; lia).
  rewrite (proj2 (Z.eqb_neq _ _)) by lia. simpl. wp_step. by wp_step; [lia|].
Qed.

Lemma fold_carries_wp s : 0 ≤ s ≤ u32_max → fold_carries 3 s ⇓ λ r, r = ones s.
Proof.
  intros Hs. destruct (decide (s ≤ 65535)) as [|Hgt]; [apply fold_carries_done; lia|].
  destruct (fold_round s) as [Hr Hp]; [lia|]. apply fold_carries_step; [lia|].
  set (s1 := s mod 65536 + s / 65536) in *.
  assert (s1 ≤ 131070).
  { pose proof (Z.mod_pos_bound s 65536 ltac:(lia)).
    assert (s / 65536 < 65536) by (apply Z.div_lt_upper_bound; lia). lia. }
  rewrite <- Hr. destruct (decide (s1 ≤ 65535)); [by apply fold_carries_done; lia|].
  destruct (fold_round s1) as [Hr1 Hp1]; [lia|]. rewrite <- Hr1. apply fold_carries_step; [lia|].
  apply fold_carries_done. pose proof (Z.div_mod s1 65536 ltac:(lia)).
  assert (s1 / 65536 = 1) as E by (symmetry; apply (Z.div_unique _ _ _ (s1 - 65536)); lia).
  rewrite E in *. lia.
Qed.

Lemma checksum_wp c d :
  tracks c d → blen d ≤ max_summable → checksum c ⇓ λ r, r = csum d.
Proof.
  intros Ht Hmax. pose proof (word_sum_u32 d Hmax) as Hd. unfold checksum. wp_step.
  assert (Hs : match odd_byte c with Some high => add_u32 (sum c) (be_val [high; x00]) | None => mret (sum c) end
               ⇓ λ s, s = word_sum d).
  { unfold tracks in Ht. destruct (odd_byte c) as [h|].
    - destruct Ht as (d' & -> & He & ->). rewrite word_sum_app in Hd |- * by done.
      cbn [word_sum] in *. by wp_step; [lia|].
    - destruct Ht as [_ ->]. by wp_step. }
  wp_apply Hs. intros s ->. wp_step. wp_apply (fold_carries_wp (word_sum d) Hd). intros r ->.
  wp_step. unfold csum, cast. destruct (ones_range (word_sum d)) as [? _]; [lia|].
  rewrite Z.mod_small; lia.
Qed.

Lemma internet_checksum_wp d : blen d ≤ max_summable → internet_checksum d ⇓ λ r, r = csum d.
Proof.
  intros Hmax. unfold internet_checksum. wp_step.
  wp_apply (add_bytes_wp new [] d); [done|done|]. intros c Hc. by apply checksum_wp.
Qed.

Lemma csum_range d : u16 (csum d).
Proof.
  pose proof (word_sum_range d). unfold csum. destruct (ones_range (word_sum d)); ulia.
Qed.

Lemma verify_wp d : blen d ≤ max_summable → verify_internet_checksum d ⇓ λ r, r = (csum d =? 0).
Proof.
  intros Hmax. unfold verify_internet_checksum. wp_step.
  wp_apply (internet_checksum_wp d Hmax). intros c ->. by wp_step.
Qed.

(** When a message verifies: its sum is a positive multiple of 65535. *)
Lemma csum_zero d : csum d = 0 ↔ 0 < word_sum d ∧ word_sum d mod 65535 = 0.
Proof.
  pose proof (word_sum_range d). unfold csum, ones. pose proof (Z.mod_pos_bound (word_sum d - 1) 65535).
  destruct (Z.eqb_spec (word_sum d) 0); [lia|].
  pose proof (Z.div_mod (word_sum d - 1) 65535 ltac:(lia)) as Hdm. split.
  - intros. split; [lia|]. apply Z.mod_divide; [lia|].
    exists ((word_sum d - 1) / 65535 + 1). lia.
  - intros [_ Hm]. apply Z.mod_divide in Hm as [k Hk]; [|lia].
    assert ((word_sum d - 1) mod 65535 = 65534) as ->; [|lia].
    symmetry. apply (Z.mod_unique _ _ (k - 1)); lia.
Qed.

(** Storing the checksum of a message in a zeroed, aligned field makes it verify. *)
Lemma csum_stored a b :
  Nat.even (length a) = true →
  csum (a ++ put_u16 (csum (a ++ [x00; x00] ++ b)) ++ b) = 0.
Proof.
  intros He. set (s := word_sum a + word_sum b).
  assert (Hs : word_sum (a ++ [x00; x00] ++ b) = s).
  { rewrite !word_sum_app by done. change (word_sum [x00; x00]) with 0. lia. }
  set (c := csum (a ++ [x00; x00] ++ b)). assert (Hc : u16 c) by apply csum_range.
  assert (Hs' : word_sum (a ++ put_u16 c ++ b) = s + c).
  { rewrite put_u16_eq, !word_sum_app by done. cbn [word_sum]. rewrite <- put_u16_eq, be_val_u16 by done. lia. }
  assert (0 ≤ s) by (rewrite <- Hs; pose proof (word_sum_range (a ++ [x00; x00] ++ b)); lia).
  assert (Hcs : c = 65535 - ones s) by (unfold c, csum; by rewrite Hs).
  destruct (ones_range s) as [? Hz]; [done|]. apply csum_zero. rewrite Hs'. split; [lia|].
  rewrite Hcs. replace (s + (65535 - ones s)) with (s - ones s + 1 * 65535) by lia.
  rewrite Z.mod_add, Zminus_mod, ones_mod, Z.sub_diag by lia. done.
Qed.

(** Replacing one byte moves the sum by less than the modulus. *)
Lemma word_sum_replace a x y b :
  word_sum (a ++ y :: b) - word_sum (a ++ x :: b)
    = (b2z y - b2z x) * (if Nat.even (length a) then 256 else 1).
Proof.
  induction a as [|z|z w a IH] using words_ind; cbn [app].
  - destruct b; cbn [word_sum length Nat.even]; rewrite !be_val_2; lia.
  - cbn [word_sum length Nat.even]. rewrite !be_val_2. lia.
  - cbn [word_sum length Nat.even]. lia.
Qed.

Lemma csum_replace a x y b : csum (a ++ x :: b) = 0 → csum (a ++ y :: b) = 0 → x = y.
Proof.
  rewrite !csum_zero. intros [_ H1] [_ H2]. apply b2z_inj.
  pose proof (word_sum_replace a x y b) as Hd. pose proof (b2z_range x). pose proof (b2z_range y).
  apply Z.mod_divide in H1 as [k1 H1]; [|lia]. apply Z.mod_divide in H2 as [k2 H2]; [|lia].
  destruct (Nat.even (length a)); nia.
Qed.

Lemma tcp_checksum_wp src dst seg :
  blen src = 4 → blen dst = 4 → blen seg ≤ u16_max →
  tcp_checksum_ipv4 src dst seg ⇓ λ r, r = csum (pseudo_header src dst (blen seg) ++ seg).
Proof.
  intros Hs Hd Hl. pose proof (blen_nonneg seg). unfold tcp_checksum_ipv4. wp_step.
  wp_step; [by apply Z.leb_le|].
  assert (Hc : cast u16_max (blen seg) = blen seg) by (unfold cast; apply Z.mod_small; lia).
  rewrite Hc.
  assert (H4 : ∀ z, blen (put_u16 z) = 2) by done.
  wp_step; wp_apply (add_bytes_wp new [] src); [apply tracks_new|rewrite ?blen_app, ?Hs; change (@blen byte []) with 0; lia|intros c0 H0].
  do 4 (wp_step; wp_apply add_bytes_wp;
    [eassumption|rewrite ?blen_app, ?Hs, ?Hd, ?H4; change (@blen byte []) with 0; change (blen [_]) with 1; lia
    |intros ? ?]).
  wp_step. wp_apply add_bytes_wp; [eassumption| |intros ? Hfin].
  { rewrite ?blen_app, ?Hs, ?Hd, ?H4. change (@blen byte []) with 0. change (blen [_]) with 1. lia. }
  wp_apply checksum_wp; [eassumption| |].
  { rewrite ?blen_app, ?Hs, ?Hd, ?H4. change (@blen byte []) with 0. change (blen [_]) with 1. lia. }
  intros r ->. f_equal. unfold pseudo_header. cbn [app]. by rewrite <- !app_assoc.
Qed.
End facts.

(** C30: Feeding data in pieces. However a message of at most 131074 bytes is cut into
    calls of [add_bytes] (odd pieces and empty ones included), no addition
    overflows the [u32] accumulator, the folding loop ends, and the result is the
    one's-complement checksum of the concatenation, as one call gives it. *)
Theorem checksum_incremental (pieces : list bytes) :
  blen (concat pieces) ≤ max_summable →
  (c ← foldl (λ c p, c ← c; InternetChecksum.add_bytes c p) (Ret InternetChecksum.new) pieces;
   InternetChecksum.checksum c) = Ret (csum (concat pieces)) ∧
  internet_checksum (concat pieces) = Ret (csum (concat pieces)).
Proof.
  intros Hmax. split; [|by pose proof (internet_checksum_wp _ Hmax) as H; wp_inv H; subst].
  assert (Hf : ∀ d c, tracks c d → blen (d ++ concat pieces) ≤ max_summable →
    foldl (λ c p, c ← c; InternetChecksum.add_bytes c p) (Ret c) pieces
      ⇓ λ c', tracks c' (d ++ concat pieces)).
  { clear Hmax. induction pieces as [|p ps IH]; intros d c Hc Hd; simpl in *.
    { wp_step. by rewrite app_nil_r. }
    rewrite app_assoc in *. rewrite bind_Ret.
    assert (Hp : blen (d ++ p) ≤ max_summable) by (rewrite blen_app in Hd; pose proof (blen_nonneg (concat ps)); lia).
    pose proof (add_bytes_wp c d p Hc Hp) as H. wp_inv H. rewrite Heq. by apply IH. }
  specialize (Hf [] InternetChecksum.new tracks_new Hmax). wp_inv Hf. rewrite Heq, bind_Ret.
  pose proof (checksum_wp _ _ Hf Hmax) as H. wp_inv H. by subst.
Qed.

Lemma checksum_incremental_witness :
  (c ← foldl (λ c p, c ← c; InternetChecksum.add_bytes c p) (Ret InternetChecksum.new)
         [[x45; x00; x73]; []; [xff]; [xf2; x03; xf4]];
   InternetChecksum.checksum c)
    = Ret (csum (concat [[x45; x00; x73]; []; [xff]; [xf2; x03; xf4]])) ∧
  internet_checksum (concat [[x45; x00; x73]; []; [xff]; [xf2; x03; xf4]])
    = Ret (csum (concat [[x45; x00; x73]; []; [xff]; [xf2; x03; xf4]])).
Proof. apply checksum_incremental. vm_compute. discriminate. Defined.

(** A stored checksum verifies. Computing the checksum over a message whose
    aligned 16-bit field is zero and storing it there makes the message verify;
    changing any one byte of a message that verifies, anywhere, is detected. *)
Theorem checksum_stored_verifies a b x y pre post :
  Nat.even (length a) = true → blen (a ++ [x00; x00] ++ b) ≤ max_summable →
  x ≠ y → pre ++ x :: post = a ++ put_u16 (csum (a ++ [x00; x00] ++ b)) ++ b →
  internet_checksum (a ++ [x00; x00] ++ b) = Ret (csum (a ++ [x00; x00] ++ b)) ∧
  verify_internet_checksum (pre ++ x :: post) = Ret true ∧
  verify_internet_checksum (pre ++ y :: post) = Ret false.
Proof.
  intros He Hmax Hxy Hpre.
  assert (Hz : csum (pre ++ x :: post) = 0) by (rewrite Hpre; by apply csum_stored).
  assert (Hb : ∀ z, blen (pre ++ z :: post) ≤ max_summable).
  { intros z. rewrite !blen_app in Hmax. rewrite blen_app, blen_cons. apply (f_equal blen) in Hpre.
    rewrite !blen_app, blen_cons in Hpre. change (blen (put_u16 _)) with 2 in Hpre.
    change (blen [x00; x00]) with 2 in Hmax. lia. }
  split_and!.
  - pose proof (internet_checksum_wp _ Hmax) as H. wp_inv H. by subst.
  - pose proof (verify_wp _ (Hb x)) as H. wp_inv H. by rewrite Heq, H, Hz.
  - pose proof (verify_wp _ (Hb y)) as H. wp_inv H. rewrite Heq, H. f_equal.
    apply Z.eqb_neq. intros Hy. apply Hxy. by eapply csum_replace.
Qed.

Lemma checksum_stored_verifies_witness :
  x12 ≠ x13 ∧
  internet_checksum ([x12; x34] ++ [x00; x00] ++ [x56]) = Ret (csum ([x12; x34] ++ [x00; x00] ++ [x56])) ∧
  verify_internet_checksum ([] ++ x12 :: [x34; x97; xcb; x56]) = Ret true ∧
  verify_internet_checksum ([] ++ x13 :: [x34; x97; xcb; x56]) = Ret false.
Proof.
  split; [done|]. apply checksum_stored_verifies; [done|vm_compute; discriminate|done|].
  by vm_compute.
Defined.
