(* ===== verification/ethernet_frame.v ===== *)
(** * Ethernet frames ([src/ethernet_frame.rs])

    The frame type, its 14-byte header on the wire and its parser.  Parsing and
    serialising are shown to be inverse to each other on every input. *)

From S2P Require Import prelude.

Definition ETHERNET_HEADER_LEN : Z := 14.
Definition ETHERTYPE_IPV4 : Z := 2048. (* 0x0800 *)
Definition ETHERTYPE_ARP : Z := 2054. (* 0x0806 *)

Module EthernetAddress.

Abbreviation t := array6.

Definition BROADCAST : t := A6 xff xff xff xff xff xff.
Definition ZERO : t := A6 x00 x00 x00 x00 x00 x00.

Definition octets (self : t) : bytes := list6 self.

Definition is_broadcast (self : t) : bool := bool_decide (self = BROADCAST).

(** One octet as [{:02x}]. *)
Definition hex_digit (z : Z) : byte := z2b (if z <? 10 then 48 + z else 87 + z).
Definition hex_octet (b : byte) : bytes := [hex_digit (b2z b / 16); hex_digit (b2z b mod 16)].

Definition fmt (self : t) : bytes :=
  let '(A6 a b c d e f) := self in
  hex_octet a ++ [x3a] ++ hex_octet b ++ [x3a] ++ hex_octet c ++ [x3a] ++
  hex_octet d ++ [x3a] ++ hex_octet e ++ [x3a] ++ hex_octet f.

End EthernetAddress.

Module EthernetHeader.
Record t := mk { dst : EthernetAddress.t; src : EthernetAddress.t; ethertype : Z }.
End EthernetHeader.

Inductive EthernetParseError := FrameTooShort.

Module EthernetFrame.

Record t := mk { header : EthernetHeader.t; payload : bytes }.

Definition new (dst src : EthernetAddress.t) (ethertype : Z) (payload : bytes) : t :=
  mk (EthernetHeader.mk dst src ethertype) payload.

Definition ipv4 (dst src : EthernetAddress.t) (payload : bytes) : t :=
  new dst src ETHERTYPE_IPV4 payload.

Definition arp (dst src : EthernetAddress.t) (payload : bytes) : t :=
  new dst src ETHERTYPE_ARP payload.

Definition is_for (self : t) (ethernet_address : EthernetAddress.t) : bool :=
  bool_decide (EthernetHeader.dst (header self) = ethernet_address)
  || EthernetAddress.is_broadcast (EthernetHeader.dst (header self)).

Definition serialize (self : t) : bytes :=
  EthernetAddress.octets (EthernetHeader.dst (header self)) ++
  EthernetAddress.octets (EthernetHeader.src (header self)) ++
  put_u16 (EthernetHeader.ethertype (header self)) ++
  payload self.

Definition parse_bytes (data : bytes) : exec (result t EthernetParseError) :=
  if blen data <? ETHERNET_HEADER_LEN then mret (Err FrameTooShort)
  else
    dst ← read6 data 0;
    src ← read6 data 6;
    ethertype ← read_u16 data 12;
    payload ← slice_from ETHERNET_HEADER_LEN data;
    mret (Ok (mk (EthernetHeader.mk dst src ethertype) payload)).

Definition wf (self : t) : Prop := u16 (EthernetHeader.ethertype (header self)).

End EthernetFrame.

Section facts.
Import EthernetFrame.

(** Parsing accepts anything that holds a header, and loses nothing. *)
Lemma ethernet_parse_wp (data : bytes) :
  ETHERNET_HEADER_LEN ≤ blen data →
  ∃ f, parse_bytes data = Ret (Ok f) ∧ wf f ∧ serialize f = data.
Proof.
  intros Hlen. unfold parse_bytes. rewrite (proj2 (Z.ltb_ge _ _)) by done.
  unfold ETHERNET_HEADER_LEN in *. destruct (split_at 14 data Hlen) as (h & rest & -> & Hh).
  rewrite slice_from_app by (unfold blen; by rewrite Hh). explode h 14. eexists. split; [done|].
  split; [apply be_val_u16_range|]. unfold serialize. simpl.
  by destruct (put_u16_bytes b11 b12) as [-> ->].
Qed.

Lemma ethernet_parse_total (data : bytes) : ∃ r, parse_bytes data = Ret r.
Proof.
  destruct (decide (ETHERNET_HEADER_LEN ≤ blen data)) as [Hl|Hl].
  - destruct (ethernet_parse_wp data Hl) as (f & -> & _). eauto.
  - unfold parse_bytes. rewrite (proj2 (Z.ltb_lt _ _)) by lia. eauto.
Qed.

Lemma ethernet_roundtrip f : wf f → parse_bytes (serialize f) = Ret (Ok f).
Proof.
  intros Hf. destruct f as [[dst src ty] p]. unfold wf in Hf. simpl in Hf.
  unfold parse_bytes. rewrite (proj2 (Z.ltb_ge _ _)).
  2:{ unfold serialize. destruct dst, src. simpl. rewrite !blen_cons.
      pose proof (blen_nonneg p). unfold ETHERNET_HEADER_LEN. lia. }
  unfold serialize. rewrite !app_assoc, slice_from_app by (by destruct dst, src).
  transitivity (Ret (Ok (E := EthernetParseError) (new dst src (be_val (put_u16 ty)) p))); [|by rewrite be_val_u16].
  by destruct dst, src.
Qed.

End facts.

#[export, refine] Instance ethernet_wire : WireFormat EthernetFrame.t EthernetParseError := {
  wire_wf := EthernetFrame.wf;
  wire_serialize f := mret (EthernetFrame.serialize f);
  wire_parse := EthernetFrame.parse_bytes;
}.
Proof.
  intros f Hf. exists (EthernetFrame.serialize f). split; [done|]. by apply ethernet_roundtrip.
Defined.

(** The Ethernet header is read and written without loss. Parsing a serialised
    frame gives the frame back; parsing any byte string returns, it fails exactly
    on those shorter than the 14-byte header, and what it accepts serialises back to
    the same bytes. *)
Theorem ethernet_frame_codec f (data : bytes) :
  EthernetFrame.wf f →
  EthernetFrame.parse_bytes (EthernetFrame.serialize f) = Ret (Ok f) ∧
  (if blen data <? 14 then EthernetFrame.parse_bytes data = Ret (Err FrameTooShort)
   else ∃ f', EthernetFrame.parse_bytes data = Ret (Ok f') ∧ EthernetFrame.wf f' ∧
          EthernetFrame.serialize f' = data).
Proof.
  intros Hf. split; [by apply ethernet_roundtrip|].
  destruct (Z.ltb_spec (blen data) 14) as [Hlt|].
  - unfold EthernetFrame.parse_bytes. by rewrite (proj2 (Z.ltb_lt _ _)).
  - by apply ethernet_parse_wp.
Qed.

Lemma ethernet_frame_codec_witness :
  EthernetFrame.parse_bytes (EthernetFrame.serialize
    (EthernetFrame.arp EthernetAddress.BROADCAST (A6 x02 x00 x00 x00 x00 x01) [x2a]))
  = Ret (Ok (EthernetFrame.arp EthernetAddress.BROADCAST (A6 x02 x00 x00 x00 x00 x01) [x2a])) ∧
  (if blen [x00] <? 14 then EthernetFrame.parse_bytes [x00] = Ret (Err FrameTooShort)
   else ∃ f', EthernetFrame.parse_bytes [x00] = Ret (Ok f') ∧ EthernetFrame.wf f' ∧
          EthernetFrame.serialize f' = [x00]).
Proof.
  apply ethernet_frame_codec. unfold EthernetFrame.wf. simpl. unfold ETHERTYPE_ARP. ulia.
Defined.
