(* ===== verification/arp.v ===== *)
(** * ARP messages ([src/arp.rs])

    The 28-byte Ethernet/IPv4 ARP message, its serialiser and its parser with the
    order in which it rejects unsupported fields. *)

From S2P Require Import prelude ethernet_frame.

Definition ARP_MESSAGE_LEN : Z := 28.
Definition ARP_HARDWARE_TYPE_ETHERNET : Z := 1.
Definition ARP_PROTOCOL_TYPE_IPV4 : Z := ETHERTYPE_IPV4.
Definition ARP_HARDWARE_ADDRESS_LEN_ETHERNET : Z := 6.
Definition ARP_PROTOCOL_ADDRESS_LEN_IPV4 : Z := 4.
Definition ARP_OPCODE_REQUEST : Z := 1.
Definition ARP_OPCODE_REPLY : Z := 2.

Module ArpOperation.

Inductive t := Request | Reply.

#[global] Instance eq_dec : EqDecision t.
Proof. solve_decision. Defined.

Definition opcode (self : t) : Z :=
  match self with Request => ARP_OPCODE_REQUEST | Reply => ARP_OPCODE_REPLY end.

Definition from_opcode (opcode : Z) : option t :=
  if opcode =? ARP_OPCODE_REQUEST then Some Request
  else if opcode =? ARP_OPCODE_REPLY then Some Reply
  else None.

End ArpOperation.

Inductive ArpParseError :=
| MessageTooShort
| UnsupportedHardwareType (v : Z)
| UnsupportedProtocolType (v : Z)
| UnsupportedHardwareAddressLength (v : Z)
| UnsupportedProtocolAddressLength (v : Z)
| UnsupportedOperation (v : Z).

Module ArpMessage.

Record t := mk {
  operation : ArpOperation.t;
  sender_ethernet_address : EthernetAddress.t;
  sender_ip_address : array4;
  target_ethernet_address : EthernetAddress.t;
  target_ip_address : array4;
}.

Definition request (sender_ethernet_address : EthernetAddress.t)
    (sender_ip_address target_ip_address : array4) : t :=
  mk ArpOperation.Request sender_ethernet_address sender_ip_address
     EthernetAddress.ZERO target_ip_address.

Definition reply (sender_ethernet_address : EthernetAddress.t) (sender_ip_address : array4)
    (target_ethernet_address : EthernetAddress.t) (target_ip_address : array4) : t :=
  mk ArpOperation.Reply sender_ethernet_address sender_ip_address
     target_ethernet_address target_ip_address.

Definition is_request (self : t) : bool := bool_decide (operation self = ArpOperation.Request).
Definition is_reply (self : t) : bool := bool_decide (operation self = ArpOperation.Reply).

Definition serialize (self : t) : exec bytes :=
  let buf :=
    put_u16 ARP_HARDWARE_TYPE_ETHERNET ++
    put_u16 ARP_PROTOCOL_TYPE_IPV4 ++
    put_u8 ARP_HARDWARE_ADDRESS_LEN_ETHERNET ++
    put_u8 ARP_PROTOCOL_ADDRESS_LEN_IPV4 ++
    put_u16 (ArpOperation.opcode (operation self)) ++
    EthernetAddress.octets (sender_ethernet_address self) ++
    list4 (sender_ip_address self) ++
    EthernetAddress.octets (target_ethernet_address self) ++
    list4 (target_ip_address self) in
  _ ← assert (blen buf =? ARP_MESSAGE_LEN);
  mret buf.

Definition parse_bytes (data : bytes) : exec (result t ArpParseError) :=
  if blen data <? ARP_MESSAGE_LEN then mret (Err MessageTooShort)
  else
    hardware_type ← read_u16 data 0;
    protocol_type ← read_u16 data 2;
    hardware_len ← read_u8 data 4;
    protocol_len ← read_u8 data 5;
    opcode ← read_u16 data 6;
    if negb (hardware_type =? ARP_HARDWARE_TYPE_ETHERNET)
    then mret (Err (UnsupportedHardwareType hardware_type))
    else if negb (protocol_type =? ARP_PROTOCOL_TYPE_IPV4)
    then mret (Err (UnsupportedProtocolType protocol_type))
    else if negb (hardware_len =? ARP_HARDWARE_ADDRESS_LEN_ETHERNET)
    then mret (Err (UnsupportedHardwareAddressLength hardware_len))
    else if negb (protocol_len =? ARP_PROTOCOL_ADDRESS_LEN_IPV4)
    then mret (Err (UnsupportedProtocolAddressLength protocol_len))
    else
      match ArpOperation.from_opcode opcode with
      | None => mret (Err (UnsupportedOperation opcode))
      | Some operation =>
          sender_ethernet_address ← read6 data 8;
          sender_ip_address ← read4 data 14;
          target_ethernet_address ← read6 data 18;
          target_ip_address ← read4 data 24;
          mret (Ok (mk operation sender_ethernet_address sender_ip_address
                       target_ethernet_address target_ip_address))
      end.

End ArpMessage.

Section facts.
Import ArpMessage.

Lemma arp_serialize_length m : serialize m ⇓ λ bs, blen bs = 28.
Proof.
  destruct m as [op [] [] [] []]. unfold serialize. wp_step. wp_step; [done|]. by wp_step.
Qed.

Lemma arp_roundtrip m rest : ∃ bs, serialize m = Ret bs ∧ parse_bytes (bs ++ rest) = Ret (Ok m).
Proof.
  destruct m as [op [] [] [] []]. eexists. split; [done|]. unfold parse_bytes.
  rewrite (proj2 (Z.ltb_ge _ _)).
  2:{ rewrite blen_app. pose proof (blen_nonneg rest). unfold ARP_MESSAGE_LEN, blen. simpl. lia. }
  by destruct op.
Qed.

Lemma opcode_inv z op : ArpOperation.from_opcode z = Some op → ArpOperation.opcode op = z.
Proof.
  unfold ArpOperation.from_opcode.
  destruct (Z.eqb_spec z ARP_OPCODE_REQUEST) as [->|]; [by intros [= <-]|].
  by destruct (Z.eqb_spec z ARP_OPCODE_REPLY) as [->|]; [intros [= <-]|].
Qed.

(** The parser on 28 bytes or more: it returns, and what it accepts is what the
    first 28 bytes spell. *)
Lemma arp_parse_wp (data : bytes) :
  ARP_MESSAGE_LEN ≤ blen data →
  parse_bytes data ⇓ λ r,
    match r with
    | Ok m => serialize m = Ret (take 28 data)
    | Err e => e ≠ MessageTooShort
    end.
Proof.
  intros Hlen. unfold parse_bytes. rewrite (proj2 (Z.ltb_ge _ _)) by done.
  unfold ARP_MESSAGE_LEN in *. destruct (split_at 28 data Hlen) as (h & rest & -> & Hh).
  rewrite (take_app_length' h) by done. explode h 28.
  do 5 wp_read.
  destruct (Z.eqb_spec (be_val [b; b0]) ARP_HARDWARE_TYPE_ETHERNET) as [Ht|]; simpl; [|by wp_step].
  destruct (Z.eqb_spec (be_val [b1; b2]) ARP_PROTOCOL_TYPE_IPV4) as [Hp|]; simpl; [|by wp_step].
  destruct (Z.eqb_spec (b2z b3) ARP_HARDWARE_ADDRESS_LEN_ETHERNET) as [Hhl|]; simpl; [|by wp_step].
  destruct (Z.eqb_spec (b2z b4) ARP_PROTOCOL_ADDRESS_LEN_IPV4) as [Hpl|]; simpl; [|by wp_step].
  destruct (ArpOperation.from_opcode (be_val [b5; b6])) as [op|] eqn:Hop; [|by wp_step].
  apply opcode_inv in Hop. do 4 wp_read. wp_step. unfold serialize.
  cbn [operation sender_ethernet_address sender_ip_address target_ethernet_address target_ip_address
       EthernetAddress.octets list6 list4].
  rewrite Hop, <- Ht, <- Hp, <- Hhl, <- Hpl, !put_u16_val, !put_u8_val. done.
Qed.

(** Parsing is total. *)
Lemma arp_parse_total (data : bytes) : ∃ r, parse_bytes data = Ret r.
Proof.
  destruct (decide (ARP_MESSAGE_LEN ≤ blen data)) as [Hlen|Hlen].
  - pose proof (arp_parse_wp data Hlen) as Hp. wp_inv Hp. eauto.
  - unfold parse_bytes. rewrite (proj2 (Z.ltb_lt _ _)) by lia. eauto.
Qed.
End facts.

#[export, refine] Instance arp_wire : WireFormat ArpMessage.t ArpParseError := {
  wire_wf _ := True;
  wire_serialize := ArpMessage.serialize;
  wire_parse := ArpMessage.parse_bytes;
}.
Proof.
  intros m _. destruct (arp_roundtrip m []) as (bs & H & H'). exists bs.
  by rewrite app_nil_r in H'.
Defined.

(** ARP on the wire. Serialising an ARP message never trips its length assertion and
    parsing the result gives the message back, whatever Ethernet padding follows;
    parsing any byte string returns; it reports a short message exactly below 28
    bytes, and a message it accepts is the one its first 28 bytes spell. *)
Theorem arp_codec m (padding data : bytes) :
  (∃ bs, ArpMessage.serialize m = Ret bs ∧ blen bs = 28 ∧
         ArpMessage.parse_bytes (bs ++ padding) = Ret (Ok m)) ∧
  ∃ r, ArpMessage.parse_bytes data = Ret r ∧
    match r with
    | Ok m' => 28 ≤ blen data ∧ ArpMessage.serialize m' = Ret (take 28 data)
    | Err e => e = MessageTooShort ↔ blen data < 28
    end.
Proof.
  split.
  - destruct (arp_roundtrip m padding) as (bs & H & H'). exists bs.
    pose proof (arp_serialize_length m) as Hl. rewrite H in Hl. done.
  - destruct (decide (28 ≤ blen data)) as [Hlen|Hlen].
    + pose proof (arp_parse_wp data Hlen) as Hp. wp_inv Hp. exists r. split; [done|].
      destruct r; [done|]. split; [done|lia].
    + exists (Err MessageTooShort). unfold ArpMessage.parse_bytes.
      rewrite (proj2 (Z.ltb_lt _ _)) by (unfold ARP_MESSAGE_LEN; lia). split; [done|]. split; [lia|done].
Qed.
