(* ===== verification/icmp.v ===== *)
(** * ICMP echo messages ([src/icmp.rs])

    The ICMP echo message, its serialiser (with the checksum stored in place), its
    parser and the construction of an echo reply. *)

From S2P Require Import prelude checksum.

Definition ICMP_ECHO_REPLY : Z := 0.
Definition ICMP_ECHO_REQUEST : Z := 8.
Definition ICMP_ECHO_HEADER_LEN : Z := 8.

Inductive IcmpParseError := MessageTooShort | InvalidChecksum.

Module IcmpMessage.

Record t := mk {
  icmp_type : Z;
  code : Z;
  identifier : Z;
  sequence_number : Z;
  payload : bytes;
}.

Definition echo_request (identifier sequence_number : Z) (payload : bytes) : t :=
  mk ICMP_ECHO_REQUEST 0 identifier sequence_number payload.

Definition echo_reply_from_request (request : t) : option t :=
  if negb (icmp_type request =? ICMP_ECHO_REQUEST) || negb (code request =? 0) then None
  else Some (mk ICMP_ECHO_REPLY 0 (identifier request) (sequence_number request) (payload request)).

Definition parse_bytes (data : bytes) : exec (result t IcmpParseError) :=
  if blen data <? ICMP_ECHO_HEADER_LEN then mret (Err MessageTooShort)
  else
    valid ← verify_internet_checksum data;
    if negb valid then mret (Err InvalidChecksum)
    else
      icmp_type ← read_u8 data 0;
      code ← read_u8 data 1;
      identifier ← read_u16 data 4;
      sequence_number ← read_u16 data 6;
      payload ← slice_from ICMP_ECHO_HEADER_LEN data;
      mret (Ok (mk icmp_type code identifier sequence_number payload)).

Definition serialize (self : t) : exec bytes :=
  let buf :=
    put_u8 (icmp_type self) ++ put_u8 (code self) ++ put_u16 0 ++
    put_u16 (identifier self) ++ put_u16 (sequence_number self) ++ payload self in
  checksum ← internet_checksum buf;
  copy_at 2 (put_u16 checksum) buf.

(** The message fits its fields, and its checksum fits the accumulator. *)
Definition wf (self : t) : Prop :=
  u8 (icmp_type self) ∧ u8 (code self) ∧ u16 (identifier self) ∧ u16 (sequence_number self) ∧
  8 + blen (payload self) ≤ max_summable.

End IcmpMessage.

Section facts.
Import IcmpMessage.

(** The bytes around the checksum field. *)
Definition icmp_head (m : t) : bytes := put_u8 (icmp_type m) ++ put_u8 (code m).
Definition icmp_tail (m : t) : bytes :=
  put_u16 (identifier m) ++ put_u16 (sequence_number m) ++ payload m.

Lemma icmp_serialize_eq m : wf m →
  ∃ c, serialize m = Ret (icmp_head m ++ put_u16 c ++ icmp_tail m) ∧
    csum (icmp_head m ++ put_u16 c ++ icmp_tail m) = 0.
Proof.
  intros (_ & _ & _ & _ & Hlen). unfold serialize.
  change (put_u8 (icmp_type m) ++ put_u8 (code m) ++ put_u16 0 ++
    put_u16 (identifier m) ++ put_u16 (sequence_number m) ++ payload m)
    with (icmp_head m ++ put_u16 0 ++ icmp_tail m).
  assert (Hl : blen (icmp_head m ++ put_u16 0 ++ icmp_tail m) ≤ max_summable).
  { unfold icmp_head, icmp_tail. rewrite !blen_app. change (blen (put_u16 _)) with 2.
    change (blen (put_u8 _)) with 1. lia. }
  pose proof (internet_checksum_wp _ Hl) as H. wp_inv H. rewrite Heq, bind_Ret.
  exists r. rewrite (copy_at_app (icmp_head m)) by done. split; [done|]. subst r.
  by apply (csum_stored (icmp_head m)).
Qed.

Lemma icmp_roundtrip m : wf m → ∃ bs, serialize m = Ret bs ∧ parse_bytes bs = Ret (Ok m).
Proof.
  intros Hm. destruct (icmp_serialize_eq m Hm) as (c & Hs & Hc). eexists. split; [done|].
  destruct Hm as (Ht & Hcd & Hi & Hsn & Hlen).
  set (bs := icmp_head m ++ put_u16 c ++ icmp_tail m) in *.
  assert (Hb : blen bs = 8 + blen (payload m)).
  { subst bs. unfold icmp_head, icmp_tail. rewrite !blen_app. change (blen (put_u16 _)) with 2.
    change (blen (put_u8 _)) with 1. lia. }
  pose proof (blen_nonneg (payload m)). unfold parse_bytes.
  rewrite (proj2 (Z.ltb_ge _ _)) by (unfold ICMP_ECHO_HEADER_LEN; lia).
  pose proof (verify_wp bs ltac:(lia)) as Hv. wp_inv Hv. rewrite Heq, bind_Ret, Hv, Hc. simpl.
  transitivity (Ret (Ok (E := IcmpParseError) (mk (b2z (z2b (icmp_type m))) (b2z (z2b (code m)))
    (be_val (put_u16 (identifier m))) (be_val (put_u16 (sequence_number m))) (payload m)))).
  - subst bs. unfold icmp_head, icmp_tail.
    rewrite !app_assoc, slice_from_app by done. done.
  - rewrite !be_val_u16, !b2z_put_u8 by done. by destruct m.
Qed.

(** The parser on any bytes the accumulator can sum. *)
Lemma icmp_parse_wp (data : bytes) :
  blen data ≤ max_summable →
  parse_bytes data ⇓ λ r,
    match r with
    | Ok m => 8 ≤ blen data ∧ csum data = 0 ∧ wf m ∧
              ∃ c, data = icmp_head m ++ put_u16 c ++ icmp_tail m
    | Err MessageTooShort => blen data < 8
    | Err InvalidChecksum => 8 ≤ blen data ∧ csum data ≠ 0
    end.
Proof.
  intros Hmax. unfold parse_bytes, ICMP_ECHO_HEADER_LEN.
  destruct (Z.ltb_spec (blen data) 8) as [|Hlen]; [by wp_step|].
  wp_step. wp_apply (verify_wp data Hmax). intros v ->.
  destruct (Z.eqb_spec (csum data) 0) as [Hz|]; simpl; [|by wp_step].
  destruct (split_at 8 data Hlen) as (h & rest & -> & Hh).
  assert (Hs : slice_from 8 (h ++ rest) = Ret rest) by (apply slice_from_app; unfold blen; by rewrite Hh).
  assert (Hb : blen (h ++ rest) = 8 + blen rest) by (rewrite blen_app; unfold blen; by rewrite Hh).
  explode h 8. do 4 wp_read. rewrite Hs, bind_Ret. wp_step. split_and!; [done..| |].
  - unfold wf. simpl. pose proof (b2z_range b). pose proof (b2z_range b0).
    pose proof (be_val_u16_range b3 b4). pose proof (be_val_u16_range b5 b6). ulia.
  - exists (be_val [b1; b2]). cbv beta iota delta [icmp_head icmp_tail icmp_type code identifier sequence_number payload].
    rewrite !z2b_b2z, !put_u16_val. by destruct (put_u16_bytes b1 b2) as [-> ->].
Qed.
End facts.

#[export, refine] Instance icmp_wire : WireFormat IcmpMessage.t IcmpParseError := {
  wire_wf := IcmpMessage.wf;
  wire_serialize := IcmpMessage.serialize;
  wire_parse := IcmpMessage.parse_bytes;
}.
Proof. exact icmp_roundtrip. Defined.

(** An ICMP echo survives the wire. For a message whose fields fit and whose
    payload the checksum accumulator can sum, serialising returns, parsing gives
    the message back, and after any one byte is changed the parser reports an invalid
    checksum. *)
Theorem icmp_codec m :
  IcmpMessage.wf m →
  ∃ bs, IcmpMessage.serialize m = Ret bs ∧ IcmpMessage.parse_bytes bs = Ret (Ok m) ∧
    ∀ pre x y post, bs = pre ++ x :: post → x ≠ y →
      IcmpMessage.parse_bytes (pre ++ y :: post) = Ret (Err InvalidChecksum).
Proof.
  intros Hm. destruct (icmp_roundtrip m Hm) as (bs & Hs & Hp). exists bs. split_and!; [done..|].
  intros pre x y post -> Hxy. destruct (icmp_serialize_eq m Hm) as (c & Hs' & Hc).
  assert (Hbs : icmp_head m ++ put_u16 c ++ icmp_tail m = pre ++ x :: post) by congruence. clear Hs.
  assert (Hb : blen (pre ++ y :: post) = 8 + blen (IcmpMessage.payload m)).
  { transitivity (blen (pre ++ x :: post)); [by rewrite !blen_app, !blen_cons|].
    rewrite <- Hbs. unfold icmp_head, icmp_tail. rewrite !blen_app. change (blen (put_u16 _)) with 2.
    change (blen (put_u8 _)) with 1. lia. }
  destruct Hm as (_ & _ & _ & _ & Hlen). pose proof (blen_nonneg (IcmpMessage.payload m)).
  pose proof (icmp_parse_wp (pre ++ y :: post) ltac:(lia)) as H'. wp_inv H'. rewrite Heq.
  destruct r as [m'|[|]]; [|lia|done]. destruct H' as (_ & Hz & _).
  destruct Hxy. rewrite Hbs in Hc. by eapply csum_replace.
Qed.

Lemma icmp_codec_witness :
  ∃ bs, IcmpMessage.serialize (IcmpMessage.echo_request 7 1 [x61; x62; x63]) = Ret bs ∧
    IcmpMessage.parse_bytes bs = Ret (Ok (IcmpMessage.echo_request 7 1 [x61; x62; x63])) ∧
    ∀ pre x y post, bs = pre ++ x :: post → x ≠ y →
      IcmpMessage.parse_bytes (pre ++ y :: post) = Ret (Err InvalidChecksum).
Proof.
  apply icmp_codec. unfold IcmpMessage.wf, u8, u16, blen. simpl. unfold ICMP_ECHO_REQUEST. lia.
Defined.
