(* ===== verification/ipv4_datagram.v ===== *)
(** * IPv4 datagrams ([src/ipv4_datagram.rs])

    The IPv4 header on the wire.  [Ipv4FixedHeader] is the 20-byte [repr(C)]
    structure the source overlays on the packet: one-byte fields, big-endian
    16-bit fields and two 4-byte addresses, in the order of the declaration. *)

From S2P Require Import prelude checksum.

Definition IPV4_HEADER_MIN_LEN : Z := 20.
Definition IPV4_PROTOCOL_ICMP : Z := 1.
Definition IPV4_PROTOCOL_TCP : Z := 6.

Inductive Ipv4ParseError :=
| PacketTooShort
| NotIpv4
| InvalidHeaderLength
| InvalidTotalLength
| InvalidChecksum.

Module Ipv4AddrBytes.
Abbreviation t := array4.
Definition octets (self : t) : bytes := list4 self.
End Ipv4AddrBytes.

Module Ipv4FixedHeader.

Record t := mk {
  version_ihl : Z;
  dscp_ecn : Z;
  total_len : Z;
  identification : Z;
  flags_fragment_offset : Z;
  ttl : Z;
  protocol : Z;
  checksum : Z;
  src : array4;
  dst : array4;
}.

Definition view (packet : bytes) : exec (result t Ipv4ParseError) :=
  if blen packet <? IPV4_HEADER_MIN_LEN then mret (Err PacketTooShort)
  else
    packet ← slice 0 IPV4_HEADER_MIN_LEN packet;
    version_ihl ← read_u8 packet 0;
    dscp_ecn ← read_u8 packet 1;
    total_len ← read_u16 packet 2;
    identification ← read_u16 packet 4;
    flags_fragment_offset ← read_u16 packet 6;
    ttl ← read_u8 packet 8;
    protocol ← read_u8 packet 9;
    checksum ← read_u16 packet 10;
    src ← read4 packet 12;
    dst ← read4 packet 16;
    mret (Ok (mk version_ihl dscp_ecn total_len identification flags_fragment_offset
                 ttl protocol checksum src dst)).

Definition version (self : t) : Z := Z.shiftr (version_ihl self) 4.
Definition ihl (self : t) : Z := Z.land (version_ihl self) 15.

End Ipv4FixedHeader.

Module Ipv4Header.

Record t := mk {
  src : Ipv4AddrBytes.t;
  dst : Ipv4AddrBytes.t;
  ttl : Z;
  protocol : Z;
  identification : Z;
  flags_fragment_offset : Z;
}.

Definition new (src dst : array4) (protocol : Z) : t := mk src dst 64 protocol 0 16384.
Definition new_tcp (src dst : array4) : t := new src dst IPV4_PROTOCOL_TCP.

End Ipv4Header.

Module Ipv4Datagram.

Record t := mk { header : Ipv4Header.t; payload : bytes }.

Definition new (src dst : array4) (protocol : Z) (payload : bytes) : t :=
  mk (Ipv4Header.new src dst protocol) payload.
Definition new_tcp (src dst : array4) (payload : bytes) : t := new src dst IPV4_PROTOCOL_TCP payload.
Definition new_icmp (src dst : array4) (payload : bytes) : t := new src dst IPV4_PROTOCOL_ICMP payload.

Definition serialize (self : t) : exec bytes :=
  total_len ← expect (checked_add usize_max IPV4_HEADER_MIN_LEN (blen (payload self)));
  _ ← assert (total_len <=? u16_max);
  let h := header self in
  let buf :=
    put_u8 (Z.lor (Z.shiftl 4 4) 5) ++ put_u8 0 ++
    put_u16 (cast u16_max total_len) ++
    put_u16 (Ipv4Header.identification h) ++
    put_u16 (Ipv4Header.flags_fragment_offset h) ++
    put_u8 (Ipv4Header.ttl h) ++ put_u8 (Ipv4Header.protocol h) ++
    put_u16 0 ++
    Ipv4AddrBytes.octets (Ipv4Header.src h) ++ Ipv4AddrBytes.octets (Ipv4Header.dst h) in
  _ ← assert (blen buf =? IPV4_HEADER_MIN_LEN);
  head ← slice 0 IPV4_HEADER_MIN_LEN buf;
  checksum ← internet_checksum head;
  buf ← copy_at 10 (put_u16 checksum) buf;
  mret (buf ++ payload self).

Definition parse_bytes (packet : bytes) : exec (result t Ipv4ParseError) :=
  fixed ← Ipv4FixedHeader.view packet;
  match fixed with
  | Err e => mret (Err e)
  | Ok fixed =>
      let version := Ipv4FixedHeader.version fixed in
      let ihl := Ipv4FixedHeader.ihl fixed in
      if negb (version =? 4) then mret (Err NotIpv4)
      else
        let header_len := ihl * 4 in
        if (header_len <? IPV4_HEADER_MIN_LEN) || (blen packet <? header_len)
        then mret (Err InvalidHeaderLength)
        else
          let total_len := Ipv4FixedHeader.total_len fixed in
          if (total_len <? header_len) || (blen packet <? total_len)
          then mret (Err InvalidTotalLength)
          else
            head ← slice 0 header_len packet;
            valid ← verify_internet_checksum head;
            if negb valid then mret (Err InvalidChecksum)
            else
              payload ← slice header_len total_len packet;
              mret (Ok (mk (Ipv4Header.mk (Ipv4FixedHeader.src fixed) (Ipv4FixedHeader.dst fixed)
                              (Ipv4FixedHeader.ttl fixed) (Ipv4FixedHeader.protocol fixed)
                              (Ipv4FixedHeader.identification fixed)
                              (Ipv4FixedHeader.flags_fragment_offset fixed))
                           payload))
  end.

(** The fields fit their widths and the datagram fits the 16-bit total length. *)
Definition wf (self : t) : Prop :=
  u8 (Ipv4Header.ttl (header self)) ∧ u8 (Ipv4Header.protocol (header self)) ∧
  u16 (Ipv4Header.identification (header self)) ∧
  u16 (Ipv4Header.flags_fragment_offset (header self)) ∧
  20 + blen (payload self) ≤ u16_max.

End Ipv4Datagram.

Section facts.
Import Ipv4Datagram.

(** The header bytes before and after the checksum field. *)
Definition ipv4_head (d : t) : bytes :=
  put_u8 69 ++ put_u8 0 ++ put_u16 (20 + blen (payload d)) ++
  put_u16 (Ipv4Header.identification (header d)) ++
  put_u16 (Ipv4Header.flags_fragment_offset (header d)) ++
  put_u8 (Ipv4Header.ttl (header d)) ++ put_u8 (Ipv4Header.protocol (header d)).
Definition ipv4_addrs (d : t) : bytes :=
  Ipv4AddrBytes.octets (Ipv4Header.src (header d)) ++ Ipv4AddrBytes.octets (Ipv4Header.dst (header d)).

Lemma ipv4_head_len d : blen (ipv4_head d) = 10.
Proof. done. Qed.
Lemma ipv4_addrs_len d : blen (ipv4_addrs d) = 8.
Proof. unfold ipv4_addrs. by destruct (Ipv4Header.src _), (Ipv4Header.dst _). Qed.

Lemma ipv4_serialize_eq d : wf d →
  ∃ c, serialize d = Ret (ipv4_head d ++ put_u16 c ++ ipv4_addrs d ++ payload d) ∧
    csum (ipv4_head d ++ put_u16 c ++ ipv4_addrs d) = 0.
Proof.
  intros (_ & _ & _ & _ & Hlen). pose proof (blen_nonneg (payload d)). unfold serialize, IPV4_HEADER_MIN_LEN.
  rewrite checked_add_Some by lia. cbn [expect]. rewrite bind_mret.
  rewrite (proj2 (Z.leb_le _ _)) by lia. cbn [assert]. rewrite bind_mret.
  replace (cast u16_max (20 + blen (payload d))) with (20 + blen (payload d))
    by (unfold cast; rewrite Z.mod_small; lia).
  match goal with |- context [blen ?b =? 20] =>
    replace b with (ipv4_head d ++ put_u16 0 ++ ipv4_addrs d) by reflexivity end.
  assert (Hb : ∀ c, blen (ipv4_head d ++ put_u16 c ++ ipv4_addrs d) = 20).
  { intros c. rewrite !blen_app, ipv4_head_len, ipv4_addrs_len. done. }
  rewrite Hb. cbn [assert Z.eqb Pos.eqb]. rewrite bind_mret.
  rewrite (slice_all _ 20), bind_Ret by apply Hb.
  pose proof (internet_checksum_wp (ipv4_head d ++ put_u16 0 ++ ipv4_addrs d) ltac:(rewrite Hb; lia)) as H'.
  wp_inv H'. rewrite Heq, bind_Ret. exists r.
  rewrite (copy_at_app (ipv4_head d)) by done. rewrite bind_Ret. split.
  - by rewrite <- !app_assoc.
  - subst r. by apply (csum_stored (ipv4_head d)).
Qed.

Lemma ipv4_roundtrip_padded d padding : wf d →
  ∃ bs, serialize d = Ret bs ∧ parse_bytes (bs ++ padding) = Ret (Ok d).
Proof.
  intros Hd. destruct (ipv4_serialize_eq d Hd) as (c & Hs & Hc). eexists. split; [done|].
  destruct Hd as (Httl & Hpr & Hid & Hfl & Hlen).
  pose proof (blen_nonneg (payload d)). pose proof (blen_nonneg padding).
  set (head20 := ipv4_head d ++ put_u16 c ++ ipv4_addrs d) in *.
  assert (H20 : blen head20 = 20) by (unfold head20; by rewrite !blen_app, ipv4_head_len, ipv4_addrs_len).
  replace ((ipv4_head d ++ put_u16 c ++ ipv4_addrs d ++ payload d) ++ padding)
    with (head20 ++ payload d ++ padding) by (unfold head20; by rewrite <- !app_assoc).
  assert (Hb : blen (head20 ++ payload d ++ padding) = 20 + blen (payload d) + blen padding)
    by (rewrite !blen_app; lia).
  assert (Hview : Ipv4FixedHeader.view (head20 ++ payload d ++ padding) = Ret (Ok
    (Ipv4FixedHeader.mk 69 0 (20 + blen (payload d)) (Ipv4Header.identification (header d))
      (Ipv4Header.flags_fragment_offset (header d)) (Ipv4Header.ttl (header d))
      (Ipv4Header.protocol (header d)) (be_val (put_u16 c)) (Ipv4Header.src (header d)) (Ipv4Header.dst (header d))))).
  { unfold Ipv4FixedHeader.view, IPV4_HEADER_MIN_LEN. rewrite (proj2 (Z.ltb_ge _ _)) by lia.
    rewrite (slice_head head20), bind_Ret by done.
    transitivity (Ret (Ok (E := Ipv4ParseError)
      (Ipv4FixedHeader.mk (b2z (z2b 69)) (b2z (z2b 0)) (be_val (put_u16 (20 + blen (payload d))))
        (be_val (put_u16 (Ipv4Header.identification (header d))))
        (be_val (put_u16 (Ipv4Header.flags_fragment_offset (header d))))
        (b2z (z2b (Ipv4Header.ttl (header d)))) (b2z (z2b (Ipv4Header.protocol (header d))))
        (be_val (put_u16 c)) (Ipv4Header.src (header d)) (Ipv4Header.dst (header d))))).
    - unfold head20, ipv4_head, ipv4_addrs. by destruct d as [[[] [] ? ? ? ?] ?].
    - rewrite !be_val_u16, !b2z_put_u8 by (done || ulia). done. }
  unfold parse_bytes. rewrite Hview, bind_Ret. cbv beta iota zeta.
  match goal with |- context [Ipv4FixedHeader.version ?f] =>
    change (Ipv4FixedHeader.version f) with 4; change (Ipv4FixedHeader.ihl f * 4) with 20;
    change (Ipv4FixedHeader.total_len f) with (20 + blen (payload d)) end.
  unfold IPV4_HEADER_MIN_LEN. cbn [negb Z.eqb Pos.eqb]. rewrite Hb, !(proj2 (Z.ltb_ge _ _)) by lia. cbn [orb].
  rewrite (slice_head head20), bind_Ret by done.
  pose proof (verify_wp head20 ltac:(lia)) as Hv. wp_inv Hv. rewrite Heq, bind_Ret, Hv, Hc. cbn [Z.eqb negb].
  rewrite (slice_app head20) by (lia || done). rewrite bind_Ret. by destruct d as [[] ?].
Qed.

(** The fields of a packet by their offsets in RFC 791. *)
Definition field (lo hi : Z) (data : bytes) : Z := be_val (sub lo hi data).
Definition version_of (data : bytes) : Z := field 0 1 data / 16.
Definition header_length (data : bytes) : Z := field 0 1 data mod 16 * 4.
Definition total_length (data : bytes) : Z := field 2 4 data.

(** What the parser accepts, and as what: the lengths fit into each other and the packet, the header's
    checksum is right, and every field is the one of the packet. *)
Definition accepted (data : bytes) (d : t) : Prop :=
  version_of data = 4 ∧ 20 ≤ header_length data ≤ total_length data ∧ total_length data ≤ blen data ∧
  csum (sub 0 (header_length data) data) = 0 ∧
  payload d = sub (header_length data) (total_length data) data ∧
  Ipv4Header.identification (header d) = field 4 6 data ∧ Ipv4Header.flags_fragment_offset (header d) = field 6 8 data ∧
  Ipv4Header.ttl (header d) = field 8 9 data ∧ Ipv4Header.protocol (header d) = field 9 10 data ∧
  list4 (Ipv4Header.src (header d)) = sub 12 16 data ∧ list4 (Ipv4Header.dst (header d)) = sub 16 20 data.

(** The first thing wrong with a packet. *)
Definition defective (data : bytes) (e : Ipv4ParseError) : Prop :=
  match e with
  | PacketTooShort => blen data < 20
  | NotIpv4 => 20 ≤ blen data ∧ version_of data ≠ 4
  | InvalidHeaderLength =>
      20 ≤ blen data ∧ version_of data = 4 ∧ (header_length data < 20 ∨ blen data < header_length data)
  | InvalidTotalLength =>
      version_of data = 4 ∧ 20 ≤ header_length data ≤ blen data ∧
      (total_length data < header_length data ∨ blen data < total_length data)
  | InvalidChecksum =>
      version_of data = 4 ∧ 20 ≤ header_length data ≤ total_length data ∧ total_length data ≤ blen data ∧
      csum (sub 0 (header_length data) data) ≠ 0
  end.

Lemma ipv4_parse_wp (data : bytes) :
  parse_bytes data ⇓ λ r, match r with Ok d => accepted data d ∧ wf d | Err e => defective data e end.
Proof.
  unfold parse_bytes, Ipv4FixedHeader.view, IPV4_HEADER_MIN_LEN.
  destruct (Z.ltb_spec (blen data) 20) as [|Hlen]; [by wp_step; wp_step; wp_step|].
  assert (Hh : ∃ h rest, data = h ++ rest ∧ length h = 20%nat) by by apply split_at.
  destruct Hh as (h & rest & Hdata & Hh).
  assert (Hsl : slice 0 20 data = Ret h) by (rewrite Hdata; apply slice_head; unfold blen; by rewrite Hh).
  rewrite Hsl, bind_Ret. explode h 20. do 10 wp_read. rewrite bind_mret.
  unfold Ipv4FixedHeader.version, Ipv4FixedHeader.ihl.
  cbn [Ipv4FixedHeader.version_ihl Ipv4FixedHeader.total_len Ipv4FixedHeader.src Ipv4FixedHeader.dst
       Ipv4FixedHeader.ttl Ipv4FixedHeader.protocol Ipv4FixedHeader.identification Ipv4FixedHeader.flags_fragment_offset].
  change 15 with (Z.ones 4). rewrite Z.shiftr_div_pow2, Z.land_ones by lia. change (2 ^ 4) with 16.
  pose proof (b2z_range b). pose proof (Z.mod_pos_bound (b2z b) 16 ltac:(lia)).
  assert (Hv : version_of data = b2z b / 16) by (rewrite Hdata; unfold version_of, field; f_equal; apply be_val_1).
  assert (Hhl : header_length data = b2z b mod 16 * 4) by (rewrite Hdata; unfold header_length, field; do 2 f_equal; apply be_val_1).
  assert (Htl : total_length data = be_val [b1; b2]) by by rewrite Hdata.
  unfold accepted, defective. rewrite <- Hv, <- Hhl, <- Htl in *.
  destruct (Z.eqb_spec (version_of data) 4) as [Hv4|]; cbn [negb]; [|by wp_step].
  destruct (Z.ltb_spec (header_length data) 20), (Z.ltb_spec (blen data) (header_length data)); cbn [orb]; try by (wp_step; auto).
  destruct (Z.ltb_spec (total_length data) (header_length data)), (Z.ltb_spec (blen data) (total_length data)); cbn [orb];
    try by (wp_step; auto).
  wp_step. wp_step; [lia|lia|]. wp_step.
  wp_apply verify_wp; [rewrite blen_sub; lia|]. intros v ->.
  destruct (Z.eqb_spec (csum (sub 0 (header_length data) data)) 0) as [Hz|]; cbn [negb]; [|by wp_step].
  wp_step. wp_step; [lia|lia|]. wp_step. split.
  - cbn [payload header Ipv4Header.identification Ipv4Header.flags_fragment_offset Ipv4Header.ttl Ipv4Header.protocol Ipv4Header.src Ipv4Header.dst].
    split_and!; try done; rewrite Hdata; first [done|symmetry; apply be_val_1].
  - assert (Hp : blen (sub (header_length data) (total_length data) data) = total_length data - header_length data) by (rewrite blen_sub; lia).
    pose proof (be_val_u16_range b1 b2). rewrite <- Htl in *.
    unfold wf. simpl. rewrite Hp. pose proof (b2z_range b7). pose proof (b2z_range b8).
    pose proof (be_val_u16_range b3 b4). pose proof (be_val_u16_range b5 b6). split_and!; ulia.
Qed.
End facts.

#[export, refine] Instance ipv4_wire : WireFormat Ipv4Datagram.t Ipv4ParseError := {
  wire_wf := Ipv4Datagram.wf;
  wire_serialize := Ipv4Datagram.serialize;
  wire_parse := Ipv4Datagram.parse_bytes;
}.
Proof.
  intros d Hd. destruct (ipv4_roundtrip_padded d [] Hd) as (bs & H & H').
  rewrite app_nil_r in H'. eauto.
Defined.

(** C28: An IPv4 datagram survives the wire. A datagram that fits the 16-bit total
    length serialises; parsing gives it back whatever padding the link layer
    appended; and after any one header byte but the first is changed the parser no
    longer accepts the packet. *)
Theorem ipv4_codec d :
  Ipv4Datagram.wf d →
  ∃ bs, Ipv4Datagram.serialize d = Ret bs ∧
    (∀ padding, Ipv4Datagram.parse_bytes (bs ++ padding) = Ret (Ok d)) ∧
    ∀ pre x y post, bs = pre ++ x :: post → x ≠ y → 1 ≤ blen pre < 20 →
      ∃ e, Ipv4Datagram.parse_bytes (pre ++ y :: post) = Ret (Err e).
Proof.
  intros Hd. destruct (ipv4_serialize_eq d Hd) as (c & Hs & Hc).
  set (head20 := ipv4_head d ++ put_u16 c ++ ipv4_addrs d) in *.
  assert (H20 : length head20 = 20%nat).
  { apply Nat2Z.inj. change (Z.of_nat (length head20)) with (blen head20). unfold head20.
    by rewrite !blen_app, ipv4_head_len, ipv4_addrs_len. }
  eexists. split; [done|]. split.
  - intros padding. destruct (ipv4_roundtrip_padded d padding Hd) as (bs & Hs' & Hp). congruence.
  - intros pre x y post Hbs Hxy Hpre. pose proof (ipv4_parse_wp (pre ++ y :: post)) as Hp. wp_inv Hp.
    destruct r as [d'|e]; [exfalso|by exists e].
    destruct Hp as [(_ & _ & _ & Hz & _) _].
    assert (Hbs' : head20 ++ Ipv4Datagram.payload d = pre ++ x :: post)
      by (rewrite <- Hbs; unfold head20; by rewrite <- !app_assoc).
    destruct pre as [|p pre]; [unfold blen in Hpre; simpl in Hpre; lia|].
    assert (p = z2b 69) as -> by (unfold head20, ipv4_head in Hbs'; by injection Hbs').
    change (header_length ((z2b 69 :: pre) ++ y :: post)) with 20 in Hz.
    rewrite blen_cons in Hpre. set (pre' := z2b 69 :: pre) in *.
    assert (Hl : (length pre' < 20)%nat) by (subst pre'; unfold blen in Hpre; simpl; lia).
    assert (Hh : head20 = pre' ++ x :: take (19 - length pre') post).
    { rewrite <- (take_app_length' head20 (Ipv4Datagram.payload d) 20) by done. rewrite Hbs', take_app, take_ge by lia.
      f_equal. by replace (20 - length pre')%nat with (S (19 - length pre')) by lia. }
    assert (Ht : sub 0 20 (pre' ++ y :: post) = pre' ++ y :: take (19 - length pre') post).
    { rewrite <- take_sub. change (Z.to_nat 20) with 20%nat. rewrite take_app, take_ge by lia.
      f_equal. by replace (20 - length pre')%nat with (S (19 - length pre')) by lia. }
    rewrite Ht in Hz. rewrite Hh in Hc. apply Hxy. by eapply csum_replace.
Qed.

Lemma ipv4_codec_witness :
  ∃ bs, Ipv4Datagram.serialize (Ipv4Datagram.new_icmp (A4 x0a x00 x00 x01) (A4 x0a x00 x00 x02) [x61]) = Ret bs ∧
    (∀ padding, Ipv4Datagram.parse_bytes (bs ++ padding)
       = Ret (Ok (Ipv4Datagram.new_icmp (A4 x0a x00 x00 x01) (A4 x0a x00 x00 x02) [x61]))) ∧
    ∀ pre x y post, bs = pre ++ x :: post → x ≠ y → 1 ≤ blen pre < 20 →
      ∃ e, Ipv4Datagram.parse_bytes (pre ++ y :: post) = Ret (Err e).
Proof.
  apply ipv4_codec. unfold Ipv4Datagram.wf, u8, u16, blen. simpl. unfold IPV4_PROTOCOL_ICMP. lia.
Defined.

(** C38: Parsing IPv4 is total. On any bytes whatever, [parse_bytes] returns. Which of its errors it
    reports is exactly the first that applies, in the order of the checks; and it accepts exactly
    when none does: version 4, a header of at least 20 bytes within the total length, which lies
    within the packet, and a header whose checksum is right. The datagram then has every field from its place in
    the packet and as payload exactly the bytes between the header and the total length; its fields fit, so that it
    can be serialised again. *)
Theorem ipv4_parse_total (data : bytes) :
  ∃ r, Ipv4Datagram.parse_bytes data = Ret r ∧
    (∀ e, r = Err e ↔ defective data e) ∧
    ∀ d, r = Ok d → accepted data d ∧ ∃ bs, Ipv4Datagram.serialize d = Ret bs.
Proof.
  pose proof (ipv4_parse_wp data) as Hp. wp_inv Hp. exists r. split; [done|]. split.
  - intros e. split; [by intros ->|]. intros He. destruct r as [d|e'].
    + exfalso. destruct Hp as [(Hv & Hl & Ht & Hz & _) _]. destruct e; cbn in He; lia || tauto.
    + f_equal. destruct e, e'; cbn in *; try done; exfalso; lia || tauto.
  - intros d ->. destruct Hp as [Ha Hwf]. split; [done|].
    destruct (ipv4_serialize_eq d Hwf) as (c & Hs & _). eauto.
Qed.
