(* ===== verification/network_interface.v ===== *)
(** * A network interface with ARP ([src/network_interface.rs])

    The link between IP and Ethernet: datagrams go out to a next hop whose Ethernet
    address is looked up in a cache, or wait while an ARP request is answered; frames
    come in, IPv4 ones for the layer above and ARP ones to fill the cache.  The two
    [HashMap]s are finite maps: nothing the code does depends on their iteration
    order, since [tick] treats each entry by itself. *)

From S2P Require Import prelude checksum ethernet_frame arp ipv4_datagram.

Definition ARP_CACHE_TTL_MS : Z := 30000.
Definition ARP_REQUEST_COOLDOWN_MS : Z := 5000.
Definition PENDING_DATAGRAM_TTL_MS : Z := 5000.

Module ArpCacheEntry.

Record t := mk { ethernet_address : EthernetAddress.t; age_ms : Z }.

(** [entry.age_ms = entry.age_ms.saturating_add(elapsed_ms)] *)
Definition grow (elapsed_ms : Z) (self : t) : t :=
  mk (ethernet_address self) (saturating_add u64_max (age_ms self) elapsed_ms).

End ArpCacheEntry.

Module PendingResolution.

Record t := mk { datagrams : list Ipv4Datagram.t; age_ms : Z; request_age_ms : Z }.

Definition new : t := mk [] 0 ARP_REQUEST_COOLDOWN_MS.

Definition should_send_arp_request (self : t) : bool := ARP_REQUEST_COOLDOWN_MS <=? request_age_ms self.

Definition mark_request_sent (self : t) : t := mk (datagrams self) (age_ms self) 0.

Definition tick (elapsed_ms : Z) (self : t) : t :=
  mk (datagrams self) (saturating_add u64_max (age_ms self) elapsed_ms)
     (saturating_add u64_max (request_age_ms self) elapsed_ms).

Definition is_expired (self : t) : bool := PENDING_DATAGRAM_TTL_MS <=? age_ms self.

(** [pending.datagrams.push_back(datagram)] *)
Definition push_back (self : t) (datagram : Ipv4Datagram.t) : t :=
  mk (datagrams self ++ [datagram]) (age_ms self) (request_age_ms self).

End PendingResolution.

Module NetworkInterface.

Record t := mk {
  ethernet_address : EthernetAddress.t;
  ip_address : Ipv4AddrBytes.t;
  arp_cache : gmap Ipv4AddrBytes.t ArpCacheEntry.t;
  pending : gmap Ipv4AddrBytes.t PendingResolution.t;
  frames_out : list EthernetFrame.t;
  datagrams_in : list Ipv4Datagram.t;
}.

Definition with_arp_cache (self : t) x : t :=
  mk (ethernet_address self) (ip_address self) x (pending self) (frames_out self) (datagrams_in self).
Definition with_pending (self : t) x : t :=
  mk (ethernet_address self) (ip_address self) (arp_cache self) x (frames_out self) (datagrams_in self).
Definition with_frames_out (self : t) x : t :=
  mk (ethernet_address self) (ip_address self) (arp_cache self) (pending self) x (datagrams_in self).
Definition with_datagrams_in (self : t) x : t :=
  mk (ethernet_address self) (ip_address self) (arp_cache self) (pending self) (frames_out self) x.

Definition new (ethernet_address : EthernetAddress.t) (ip_address : Ipv4AddrBytes.t) : t :=
  mk ethernet_address ip_address ∅ ∅ [] [].

Definition frames_out_len (self : t) : Z := blen (frames_out self).
Definition datagrams_in_len (self : t) : Z := blen (datagrams_in self).
Definition arp_cache_len (self : t) : nat := size (arp_cache self).
Definition pending_len (self : t) : nat := size (pending self).
Definition has_arp_cache_entry (self : t) (ip : Ipv4AddrBytes.t) : bool :=
  bool_decide (is_Some (arp_cache self !! ip)).

Definition lookup_ethernet_address (self : t) (ip : Ipv4AddrBytes.t) : option EthernetAddress.t :=
  option_map ArpCacheEntry.ethernet_address (arp_cache self !! ip).

Definition pop_frame (self : t) : option EthernetFrame.t * t :=
  match frames_out self with
  | [] => (None, self)
  | frame :: rest => (Some frame, with_frames_out self rest)
  end.

Definition pop_datagram (self : t) : option Ipv4Datagram.t * t :=
  match datagrams_in self with
  | [] => (None, self)
  | datagram :: rest => (Some datagram, with_datagrams_in self rest)
  end.

Definition emit_ipv4_frame (self : t) (datagram : Ipv4Datagram.t) (dst : EthernetAddress.t) : exec t :=
  payload ← Ipv4Datagram.serialize datagram;
  let frame := EthernetFrame.ipv4 dst (ethernet_address self) payload in
  mret (with_frames_out self (frames_out self ++ [frame])).

Definition emit_arp_request (self : t) (target_ip : Ipv4AddrBytes.t) : exec t :=
  let arp := ArpMessage.request (ethernet_address self) (ip_address self) target_ip in
  payload ← ArpMessage.serialize arp;
  let frame := EthernetFrame.arp EthernetAddress.BROADCAST (ethernet_address self) payload in
  mret (with_frames_out self (frames_out self ++ [frame])).

Definition emit_arp_reply (self : t) (target_ethernet_address : EthernetAddress.t)
    (target_ip : Ipv4AddrBytes.t) : exec t :=
  let arp := ArpMessage.reply (ethernet_address self) (ip_address self) target_ethernet_address target_ip in
  payload ← ArpMessage.serialize arp;
  let frame := EthernetFrame.arp target_ethernet_address (ethernet_address self) payload in
  mret (with_frames_out self (frames_out self ++ [frame])).

Definition send_datagram (self : t) (datagram : Ipv4Datagram.t) (next_hop : Ipv4AddrBytes.t) : exec t :=
  match lookup_ethernet_address self next_hop with
  | Some ethernet_address => emit_ipv4_frame self datagram ethernet_address
  | None =>
      let entry := default PendingResolution.new (pending self !! next_hop) in
      let entry := PendingResolution.push_back entry datagram in
      if PendingResolution.should_send_arp_request entry then
        emit_arp_request
          (with_pending self (<[next_hop := PendingResolution.mark_request_sent entry]> (pending self)))
          next_hop
      else mret (with_pending self (<[next_hop := entry]> (pending self)))
  end.

(** The [while let Some(datagram) = pending.datagrams.pop_front()] loop. *)
Fixpoint flush_pending (self : t) (datagrams : list Ipv4Datagram.t) (dst : EthernetAddress.t) : exec t :=
  match datagrams with
  | [] => mret self
  | datagram :: datagrams =>
      self ← emit_ipv4_frame self datagram dst;
      flush_pending self datagrams dst
  end.

Definition learn_arp_mapping (self : t) (ip : Ipv4AddrBytes.t) (ethernet_address : EthernetAddress.t) : exec t :=
  let self := with_arp_cache self (<[ip := ArpCacheEntry.mk ethernet_address 0]> (arp_cache self)) in
  match pending self !! ip with
  | Some entry =>
      flush_pending (with_pending self (delete ip (pending self)))
        (PendingResolution.datagrams entry) ethernet_address
  | None => mret self
  end.

Definition recv_frame (self : t) (frame : EthernetFrame.t) : exec t :=
  if negb (EthernetFrame.is_for frame (ethernet_address self)) then mret self
  else
    let ethertype := EthernetHeader.ethertype (EthernetFrame.header frame) in
    if ethertype =? ETHERTYPE_IPV4 then
      r ← Ipv4Datagram.parse_bytes (EthernetFrame.payload frame);
      match r with
      | Ok datagram => mret (with_datagrams_in self (datagrams_in self ++ [datagram]))
      | Err _ => mret self
      end
    else if ethertype =? ETHERTYPE_ARP then
      r ← ArpMessage.parse_bytes (EthernetFrame.payload frame);
      match r with
      | Ok message =>
          self ← learn_arp_mapping self (ArpMessage.sender_ip_address message)
                   (ArpMessage.sender_ethernet_address message);
          if bool_decide (ArpMessage.operation message = ArpOperation.Request)
             && bool_decide (ArpMessage.target_ip_address message = ip_address self)
          then emit_arp_reply self (ArpMessage.sender_ethernet_address message)
                 (ArpMessage.sender_ip_address message)
          else mret self
      | Err _ => mret self
      end
    else mret self.

Definition tick (self : t) (elapsed_ms : Z) : t :=
  let self := with_arp_cache self (ArpCacheEntry.grow elapsed_ms <$> arp_cache self) in
  let self := with_arp_cache self
    (filter (λ kv, ArpCacheEntry.age_ms (kv.2) < ARP_CACHE_TTL_MS) (arp_cache self)) in
  let self := with_pending self (PendingResolution.tick elapsed_ms <$> pending self) in
  with_pending self (filter (λ kv, PendingResolution.is_expired (kv.2) = false) (pending self)).

(** What happens to an interface, as data. *)
Inductive op :=
| SendDatagram (datagram : Ipv4Datagram.t) (next_hop : Ipv4AddrBytes.t)
| RecvFrame (frame : EthernetFrame.t)
| Tick (elapsed_ms : Z)
| PopFrame
| PopDatagram.

Definition step (self : t) (o : op) : exec t :=
  match o with
  | SendDatagram datagram next_hop => send_datagram self datagram next_hop
  | RecvFrame frame => recv_frame self frame
  | Tick elapsed_ms => mret (tick self elapsed_ms)
  | PopFrame => mret (pop_frame self).2
  | PopDatagram => mret (pop_datagram self).2
  end.

Fixpoint run (self : t) (ops : list op) : exec t :=
  match ops with
  | [] => mret self
  | o :: ops => self ← step self o; run self ops
  end.

(** The milliseconds that pass during [ops]. *)
Fixpoint elapsed (ops : list op) : Z :=
  match ops with
  | [] => 0
  | Tick elapsed_ms :: ops => elapsed_ms + elapsed ops
  | _ :: ops => elapsed ops
  end.

End NetworkInterface.

Section interface.
Import NetworkInterface.
Implicit Types (n : t) (ip : Ipv4AddrBytes.t) (mac : EthernetAddress.t) (d : Ipv4Datagram.t).

Definition ipv4_frame (src dst : EthernetAddress.t) d : EthernetFrame.t :=
  EthernetFrame.ipv4 dst src (wire_bytes (Ipv4Datagram.serialize d)).
Definition arp_frame (src dst : EthernetAddress.t) (m : ArpMessage.t) : EthernetFrame.t :=
  EthernetFrame.arp dst src (wire_bytes (ArpMessage.serialize m)).
Definition request_frame n ip : EthernetFrame.t :=
  arp_frame (ethernet_address n) EthernetAddress.BROADCAST
    (ArpMessage.request (ethernet_address n) (ip_address n) ip).
Definition reply_frame n mac ip : EthernetFrame.t :=
  arp_frame (ethernet_address n) mac (ArpMessage.reply (ethernet_address n) (ip_address n) mac ip).

Lemma datagram_bytes d : Ipv4Datagram.wf d →
  Ipv4Datagram.serialize d = Ret (wire_bytes (Ipv4Datagram.serialize d)) ∧
  Ipv4Datagram.parse_bytes (wire_bytes (Ipv4Datagram.serialize d)) = Ret (Ok d).
Proof. intros Hd. destruct (wire_roundtrip (WireFormat := ipv4_wire) d Hd) as (bs & Hs & Hp). cbn in Hs, Hp. by rewrite Hs. Qed.

Lemma arp_bytes m :
  ArpMessage.serialize m = Ret (wire_bytes (ArpMessage.serialize m)) ∧
  ArpMessage.parse_bytes (wire_bytes (ArpMessage.serialize m)) = Ret (Ok m).
Proof. destruct (wire_roundtrip (WireFormat := arp_wire) m I) as (bs & Hs & Hp). cbn in Hs, Hp. by rewrite Hs. Qed.

Lemma arp_frame_inj s s' t t' m m' : arp_frame s t m = arp_frame s' t' m' → m = m'.
Proof.
  intros [= _ _ H]. pose proof (proj2 (arp_bytes m)) as H1. pose proof (proj2 (arp_bytes m')) as H2.
  rewrite H, H2 in H1. by injection H1.
Qed.

(** The datagrams waiting for the address of [ip]. *)
Definition waiting n ip : list Ipv4Datagram.t :=
  match pending n !! ip with Some p => PendingResolution.datagrams p | None => [] end.

(** A resolution in progress for [ip]. *)
Definition pending_ok n ip (p : PendingResolution.t) : Prop :=
  0 ≤ PendingResolution.age_ms p < 5000 ∧ PendingResolution.request_age_ms p = PendingResolution.age_ms p ∧
  PendingResolution.datagrams p ≠ [] ∧ Forall Ipv4Datagram.wf (PendingResolution.datagrams p) ∧
  arp_cache n !! ip = None.

(** Cached addresses are younger than 30 seconds; unresolved ones younger than 5, with
    something queued and the request sent when the entry was made; no address is both;
    what is queued can be serialised and everything sent carries our address. *)
Record NInv n : Prop := {
  ni_cache : map_Forall (λ _ e, 0 ≤ ArpCacheEntry.age_ms e < 30000) (arp_cache n);
  ni_pending : map_Forall (pending_ok n) (pending n);
  ni_frames : Forall (λ f, EthernetFrame.wf f ∧
                EthernetHeader.src (EthernetFrame.header f) = ethernet_address n) (frames_out n);
  ni_datagrams : Forall Ipv4Datagram.wf (datagrams_in n);
}.

Lemma waiting_wf n ip : NInv n → Forall Ipv4Datagram.wf (waiting n ip).
Proof.
  intros []. unfold waiting. destruct (pending n !! ip) as [p|] eqn:E; [|constructor].
  by apply ni_pending0 in E as (_ & _ & _ & ? & _).
Qed.

Lemma new_inv mac ip : NInv (new mac ip).
Proof. split; cbn; try apply map_Forall_empty; constructor. Qed.

Lemma frames_inv n fs : NInv n →
  Forall (λ f, EthernetFrame.wf f ∧ EthernetHeader.src (EthernetFrame.header f) = ethernet_address n) fs →
  NInv (with_frames_out n (frames_out n ++ fs)).
Proof. intros [] Hf. split; cbn; try done. by apply Forall_app. Qed.

Lemma ipv4_frame_ok n mac d :
  EthernetFrame.wf (ipv4_frame (ethernet_address n) mac d) ∧
  EthernetHeader.src (EthernetFrame.header (ipv4_frame (ethernet_address n) mac d)) = ethernet_address n.
Proof. split; [|done]. unfold EthernetFrame.wf. simpl. unfold ETHERTYPE_IPV4. ulia. Qed.

Lemma arp_frame_ok n mac m :
  EthernetFrame.wf (arp_frame (ethernet_address n) mac m) ∧
  EthernetHeader.src (EthernetFrame.header (arp_frame (ethernet_address n) mac m)) = ethernet_address n.
Proof. split; [|done]. unfold EthernetFrame.wf. simpl. unfold ETHERTYPE_ARP. ulia. Qed.

Lemma ipv4_frames_ok n mac ds :
  Forall (λ f, EthernetFrame.wf f ∧ EthernetHeader.src (EthernetFrame.header f) = ethernet_address n)
    (map (ipv4_frame (ethernet_address n) mac) ds).
Proof. apply Forall_map, Forall_true. intros d. apply ipv4_frame_ok. Qed.

(** ** What each operation does *)

Lemma emit_ipv4_frame_eq n d mac : Ipv4Datagram.wf d →
  emit_ipv4_frame n d mac
  = Ret (with_frames_out n (frames_out n ++ [ipv4_frame (ethernet_address n) mac d])).
Proof. intros Hd. unfold emit_ipv4_frame. by rewrite (proj1 (datagram_bytes d Hd)), bind_Ret. Qed.

Lemma emit_arp_request_eq n ip :
  emit_arp_request n ip = Ret (with_frames_out n (frames_out n ++ [request_frame n ip])).
Proof. unfold emit_arp_request. by rewrite (proj1 (arp_bytes _)), bind_Ret. Qed.

Lemma emit_arp_reply_eq n mac ip :
  emit_arp_reply n mac ip = Ret (with_frames_out n (frames_out n ++ [reply_frame n mac ip])).
Proof. unfold emit_arp_reply. by rewrite (proj1 (arp_bytes _)), bind_Ret. Qed.

Lemma flush_pending_eq n ds mac : Forall Ipv4Datagram.wf ds →
  flush_pending n ds mac
  = Ret (with_frames_out n (frames_out n ++ map (ipv4_frame (ethernet_address n) mac) ds)).
Proof.
  intros Hds. revert n. induction Hds as [|d ds Hd _ IH]; intros n; cbn.
  - rewrite app_nil_r. by destruct n.
  - rewrite emit_ipv4_frame_eq, bind_Ret, IH by done. cbn. by rewrite <- app_assoc.
Qed.

(** The interface after it has learned the address of [ip]. *)
Definition learned n ip mac : t :=
  mk (ethernet_address n) (ip_address n) (<[ip := ArpCacheEntry.mk mac 0]> (arp_cache n))
     (delete ip (pending n))
     (frames_out n ++ map (ipv4_frame (ethernet_address n) mac) (waiting n ip)) (datagrams_in n).

Lemma learn_arp_mapping_eq n ip mac : NInv n → learn_arp_mapping n ip mac = Ret (learned n ip mac).
Proof.
  intros HI. pose proof (waiting_wf n ip HI) as Hw. unfold learn_arp_mapping, learned, waiting in *. cbn.
  destruct (pending n !! ip) as [p|] eqn:E.
  - by rewrite flush_pending_eq.
  - rewrite (delete_id (pending n)) by done. by rewrite app_nil_r.
Qed.

Lemma learned_inv n ip mac : NInv n → NInv (learned n ip mac).
Proof.
  intros []. split; cbn.
  - apply map_Forall_insert_2; [cbn; lia|done].
  - intros ip' p [Hne Hp]%lookup_delete_Some. destruct (ni_pending0 ip' p Hp) as (? & ? & ? & ? & ?).
    unfold pending_ok. cbn. by rewrite lookup_insert_ne.
  - apply Forall_app. split; [done|apply ipv4_frames_ok].
  - done.
Qed.

(** The interface after [d] has been queued for [ip]. *)
Definition queued n d ip : t :=
  let entry := default (PendingResolution.mk [] 0 0) (pending n !! ip) in
  with_pending n (<[ip := PendingResolution.push_back entry d]> (pending n)).

Lemma send_datagram_eq n d ip : NInv n → Ipv4Datagram.wf d →
  send_datagram n d ip = Ret (
    match lookup_ethernet_address n ip with
    | Some mac => with_frames_out n (frames_out n ++ [ipv4_frame (ethernet_address n) mac d])
    | None =>
        with_frames_out (queued n d ip)
          (frames_out n ++ match pending n !! ip with Some _ => [] | None => [request_frame n ip] end)
    end).
Proof.
  intros [] Hd. unfold send_datagram, queued.
  destruct (lookup_ethernet_address n ip) as [mac|] eqn:E; [by apply emit_ipv4_frame_eq|].
  destruct (pending n !! ip) as [p|] eqn:Ep; cbn.
  - destruct (ni_pending0 _ _ Ep) as (? & Hr & _). unfold PendingResolution.should_send_arp_request.
    cbn. rewrite Hr, (proj2 (Z.leb_gt _ _)) by (unfold ARP_REQUEST_COOLDOWN_MS; lia).
    rewrite app_nil_r. by destruct n.
  - by rewrite emit_arp_request_eq.
Qed.

(** Sending looks at neither the inbox nor changes it. *)
Lemma send_inbox n x d ip :
  send_datagram (with_datagrams_in n x) d ip
  = n' ← send_datagram n d ip; mret (with_datagrams_in n' x).
Proof.
  unfold send_datagram, lookup_ethernet_address, emit_arp_request,
    emit_ipv4_frame. cbn.
  destruct (option_map _ _); [by destruct (Ipv4Datagram.serialize d)|].
  destruct (PendingResolution.should_send_arp_request _); [|done]. by destruct (ArpMessage.serialize _).
Qed.

Lemma send_keeps_inbox n d ip n' : send_datagram n d ip = Ret n' →
  datagrams_in n' = datagrams_in n.
Proof.
  intros H. pose proof (send_inbox n (datagrams_in n) d ip) as Hs.
  replace (with_datagrams_in n (datagrams_in n)) with n in Hs by by destruct n.
  rewrite H, bind_Ret in Hs. injection Hs as Hs. by rewrite Hs.
Qed.

Lemma lookup_ethernet_None n ip : lookup_ethernet_address n ip = None → arp_cache n !! ip = None.
Proof. unfold lookup_ethernet_address. by destruct (_ !! _). Qed.

Lemma queued_inv n d ip : NInv n → Ipv4Datagram.wf d → arp_cache n !! ip = None → NInv (queued n d ip).
Proof.
  intros [] Hd Hc. split; cbn; try done. apply map_Forall_insert_2; [|done].
  unfold pending_ok. cbn. destruct (pending n !! ip) as [p|] eqn:Ep; cbn.
  - destruct (ni_pending0 _ _ Ep) as (? & ? & ? & ? & _). split_and!; [lia|lia|done|by intros [_ [=]]%app_nil| |done].
    apply Forall_app. by split; [|constructor].
  - split_and!; [lia|lia|done|done|by constructor|done].
Qed.

Lemma send_inv n d ip : NInv n → Ipv4Datagram.wf d → send_datagram n d ip ⇓ NInv.
Proof.
  intros HI Hd. rewrite send_datagram_eq by done. wp_step.
  destruct (lookup_ethernet_address n ip) eqn:E.
  - apply frames_inv; [done|]. constructor; [apply ipv4_frame_ok|done].
  - apply (frames_inv (queued n d ip)); [by apply queued_inv; [..|apply lookup_ethernet_None]|].
    destruct (pending n !! ip); [constructor|]. apply Forall_singleton, (arp_frame_ok (queued n d ip)).
Qed.

(** What a frame addressed to us says: an IPv4 datagram, an ARP message, or nothing. *)
Inductive content :=
| Datagram d
| Arp (m : ArpMessage.t)
| Ignored.

Definition content_of n (f : EthernetFrame.t) : content :=
  if EthernetFrame.is_for f (ethernet_address n) then
    if EthernetHeader.ethertype (EthernetFrame.header f) =? ETHERTYPE_IPV4 then
      match Ipv4Datagram.parse_bytes (EthernetFrame.payload f) with Ret (Ok d) => Datagram d | _ => Ignored end
    else if EthernetHeader.ethertype (EthernetFrame.header f) =? ETHERTYPE_ARP then
      match ArpMessage.parse_bytes (EthernetFrame.payload f) with Ret (Ok m) => Arp m | _ => Ignored end
    else Ignored
  else Ignored.

(** Is [m] a request for our own address? *)
Definition asks_us n (m : ArpMessage.t) : bool :=
  ArpMessage.is_request m && bool_decide (ArpMessage.target_ip_address m = ip_address n).

Definition heard n (m : ArpMessage.t) : t :=
  learned n (ArpMessage.sender_ip_address m) (ArpMessage.sender_ethernet_address m).

Lemma recv_frame_eq n f : NInv n →
  recv_frame n f = Ret (
    match content_of n f with
    | Datagram d => with_datagrams_in n (datagrams_in n ++ [d])
    | Arp m =>
        with_frames_out (heard n m) (frames_out (heard n m) ++
          if asks_us n m
          then [reply_frame n (ArpMessage.sender_ethernet_address m) (ArpMessage.sender_ip_address m)] else [])
    | Ignored => n
    end).
Proof.
  intros HI. unfold recv_frame, content_of.
  destruct (EthernetFrame.is_for f (ethernet_address n)); cbn [negb]; [|done].
  destruct (_ =? ETHERTYPE_IPV4).
  { pose proof (ipv4_parse_wp (EthernetFrame.payload f)) as Hp. wp_inv Hp. rewrite Heq, bind_Ret. by destruct r. }
  destruct (_ =? ETHERTYPE_ARP); [|done].
  destruct (arp_parse_total (EthernetFrame.payload f)) as [r Hr]. rewrite Hr, bind_Ret.
  destruct r as [m|]; [|done]. rewrite learn_arp_mapping_eq, bind_Ret by done.
  unfold asks_us, ArpMessage.is_request. cbn [ip_address learned]. destruct (_ && _).
  - by rewrite emit_arp_reply_eq.
  - rewrite app_nil_r. done.
Qed.

Lemma recv_inv n f : NInv n → recv_frame n f ⇓ NInv.
Proof.
  intros HI. rewrite recv_frame_eq by done. wp_step. unfold content_of.
  destruct (EthernetFrame.is_for _ _); [|done]. destruct (_ =? ETHERTYPE_IPV4).
  { pose proof (ipv4_parse_wp (EthernetFrame.payload f)) as Hp. wp_inv Hp. rewrite Heq.
    destruct r as [d|]; [|done]. destruct HI. split; cbn; try done. apply Forall_app.
    split; [done|]. apply Forall_singleton, Hp. }
  destruct (_ =? ETHERTYPE_ARP); [|done]. destruct (ArpMessage.parse_bytes _) as [[m|]|]; [|done..].
  apply frames_inv; [by apply learned_inv|]. destruct (asks_us n m); [|done]. apply Forall_singleton, (arp_frame_ok (heard n m)).
Qed.

(** Looking an address up after time has passed. *)
Lemma tick_cache n ms ip : 
  arp_cache (tick n ms) !! ip =
  match arp_cache n !! ip with
  | Some e =>
      if saturating_add u64_max (ArpCacheEntry.age_ms e) ms <? 30000 then Some (ArpCacheEntry.grow ms e) else None
  | None => None
  end.
Proof.
  unfold tick. cbn. rewrite map_lookup_filter, lookup_fmap. destruct (arp_cache n !! ip) as [e|]; [|done].
  cbn. unfold ARP_CACHE_TTL_MS, guard, mbind, option_bind. cbn.
  destruct (Z.ltb_spec (saturating_add u64_max (ArpCacheEntry.age_ms e) ms) 30000); case_decide; done || lia.
Qed.

Lemma tick_pending n ms ip :
  pending (tick n ms) !! ip =
  match pending n !! ip with
  | Some p =>
      if saturating_add u64_max (PendingResolution.age_ms p) ms <? 5000 then Some (PendingResolution.tick ms p) else None
  | None => None
  end.
Proof.
  unfold tick. cbn. rewrite map_lookup_filter, lookup_fmap. destruct (pending n !! ip) as [p|]; [|done].
  cbn. unfold PendingResolution.is_expired, PENDING_DATAGRAM_TTL_MS, guard, mbind, option_bind. cbn.
  destruct (Z.ltb_spec (saturating_add u64_max (PendingResolution.age_ms p) ms) 5000) as [H|H].
  - rewrite (proj2 (Z.leb_gt _ _)) by done. by case_decide.
  - rewrite (proj2 (Z.leb_le _ _)) by done. by case_decide.
Qed.

Lemma tick_inv n ms : NInv n → 0 ≤ ms → NInv (tick n ms).
Proof.
  intros [] Hms. split; try done.
  - intros ip e He. rewrite tick_cache in He. destruct (arp_cache n !! ip) as [e0|] eqn:E0; [|done].
    specialize (ni_cache0 _ _ E0). cbn in He. destruct (Z.ltb_spec (saturating_add u64_max (ArpCacheEntry.age_ms e0) ms) 30000); [|done].
    injection He as <-. cbn. ulia.
  - intros ip p Hp. rewrite tick_pending in Hp. destruct (pending n !! ip) as [p0|] eqn:E0; [|done].
    destruct (ni_pending0 _ _ E0) as (Ha & Hr & Hd & Hw & Hc). cbn in Hp.
    destruct (Z.ltb_spec (saturating_add u64_max (PendingResolution.age_ms p0) ms) 5000); [|done].
    injection Hp as <-. unfold pending_ok. rewrite tick_cache, Hc. cbn. rewrite Hr. split_and!; try done; ulia.
Qed.

Definition nop_ok (o : op) : Prop :=
  match o with
  | SendDatagram d _ => Ipv4Datagram.wf d
  | Tick ms => 0 ≤ ms
  | _ => True
  end.

Lemma step_inv n o : NInv n → nop_ok o → step n o ⇓ NInv.
Proof.
  intros HI Ho. destruct o as [d ip|f|ms| |]; cbn.
  - by apply send_inv.
  - by apply recv_inv.
  - by apply tick_inv.
  - wp_step. unfold pop_frame. destruct (frames_out n) as [|f fs] eqn:E; [done|].
    destruct HI. rewrite E in ni_frames0. apply Forall_cons in ni_frames0 as [_ ?]. by split.
  - wp_step. unfold pop_datagram. destruct (datagrams_in n) as [|f fs] eqn:E; [done|].
    destruct HI. rewrite E in ni_datagrams0. apply Forall_cons in ni_datagrams0 as [_ ?]. by split.
Qed.

Lemma run_inv n ops : NInv n → Forall nop_ok ops → run n ops ⇓ NInv.
Proof.
  intros HI Hops. revert n HI. induction Hops as [|o ops Ho _ IH]; intros n HI; cbn; [by wp_step|].
  wp_step. wp_apply (step_inv n o HI Ho). apply IH.
Qed.

(** ** Addresses over time *)

Lemma step_addresses n o : NInv n → nop_ok o →
  step n o ⇓ λ n', ethernet_address n' = ethernet_address n ∧ ip_address n' = ip_address n.
Proof.
  intros HI Ho. destruct o as [d ip|f|ms| |]; cbn.
  - rewrite send_datagram_eq by done. wp_step. by destruct (lookup_ethernet_address n ip).
  - rewrite recv_frame_eq by done. wp_step. by destruct (content_of n f).
  - by wp_step.
  - wp_step. unfold pop_frame. by destruct (frames_out n).
  - wp_step. unfold pop_datagram. by destruct (datagrams_in n).
Qed.

(** A sound interface with this Ethernet address. *)
Definition owned mac n : Prop := NInv n ∧ ethernet_address n = mac.

Lemma step_owned mac n o : owned mac n → nop_ok o → step n o ⇓ owned mac.
Proof.
  intros [HI <-] Ho. pose proof (step_inv n o HI Ho) as H1. pose proof (step_addresses n o HI Ho) as H2.
  destruct (step n o) as [n'|]; [|done]. by destruct H2.
Qed.

(** Between [n] and [n'] an ARP request for [ip] was appended to the output. *)
Definition asked n n' ip : Prop :=
  ∃ fs, frames_out n' = frames_out n ++ fs ∧ request_frame n ip ∈ fs.

Lemma not_appended {A} (l fs : list A) x : l = l ++ fs → x ∉ fs.
Proof. intros H Hin. rewrite <- (app_nil_r l) in H at 1. apply app_inv_head in H as <-. by apply not_elem_of_nil in Hin. Qed.

Lemma request_not_ipv4 n ip mac ds src : request_frame n ip ∉ map (ipv4_frame src mac) ds.
Proof. intros (d & Hd & _)%list_elem_of_fmap. discriminate Hd. Qed.

(** Only sending to an address that is neither cached nor pending asks for it. *)
Lemma asked_inv n o n' ip : NInv n → nop_ok o → step n o = Ret n' → asked n n' ip →
  (∃ d, o = SendDatagram d ip) ∧ lookup_ethernet_address n ip = None ∧ pending n !! ip = None.
Proof.
  intros HI Ho Hs (fs & Hfs & Hin). destruct o as [d ip'|f|ms| |]; cbn in Hs.
  - rewrite send_datagram_eq in Hs by done. injection Hs as <-.
    destruct (lookup_ethernet_address n ip') as [mac|] eqn:E; cbn in Hfs; apply app_inv_head in Hfs; subst fs.
    { by apply (request_not_ipv4 n ip mac [d] (ethernet_address n)) in Hin. }
    destruct (pending n !! ip') eqn:Ep; [by apply not_elem_of_nil in Hin|].
    apply list_elem_of_singleton, arp_frame_inj in Hin. injection Hin as ->. split; [by exists d|done].
  - exfalso. rewrite recv_frame_eq in Hs by done. injection Hs as <-.
    destruct (content_of n f) as [d|m|]; cbn in Hfs; [by eapply not_appended| |by eapply not_appended].
    rewrite <- app_assoc in Hfs. apply app_inv_head in Hfs. subst fs.
    apply elem_of_app in Hin as [Hin|Hin]; [by eapply request_not_ipv4|].
    destruct (asks_us n m); [|by apply not_elem_of_nil in Hin].
    by apply list_elem_of_singleton, arp_frame_inj in Hin.
  - injection Hs as <-. exfalso. by eapply not_appended.
  - injection Hs as <-. exfalso. unfold pop_frame in Hfs. destruct (frames_out n) as [|f fs0] eqn:E; cbn in Hfs.
    + rewrite E in Hfs. by eapply (not_appended []).
    + apply (f_equal length) in Hfs. cbn in Hfs. rewrite length_app in Hfs. lia.
  - injection Hs as <-. exfalso. unfold pop_datagram in Hfs. destruct (datagrams_in n); by eapply not_appended.
Qed.

(** For the last [age] milliseconds or less, [ip] has been pending or cached. *)
Definition quiet (age : Z) n ip : Prop :=
  (∃ p, pending n !! ip = Some p ∧ PendingResolution.age_ms p ≤ age) ∨
  (∃ e, arp_cache n !! ip = Some e ∧ ArpCacheEntry.age_ms e ≤ age).

Lemma quiet_not_asked age n ip o n' : NInv n → nop_ok o → quiet age n ip → step n o = Ret n' → ¬ asked n n' ip.
Proof.
  intros HI Ho Hq Hs Ha. destruct (asked_inv n o n' ip HI Ho Hs Ha) as (_ & Hc%lookup_ethernet_None & Hp).
  destruct Hq as [(? & ? & _)|(? & ? & _)]; congruence.
Qed.

Lemma learned_quiet age n ip ip' mac : 0 ≤ age → quiet age n ip → quiet age (learned n ip' mac) ip.
Proof.
  intros Hage Hq. unfold quiet, learned. cbn. destruct (decide (ip' = ip)) as [->|Hne].
  - right. rewrite lookup_insert_eq. eexists. split; [done|]. cbn. lia.
  - by rewrite lookup_delete_ne, lookup_insert_ne.
Qed.

(** Sending leaves the address pending, with its old age or age 0. *)
Lemma queued_quiet age n d ip ip' : 0 ≤ age → (ip' = ip → arp_cache n !! ip = None) →
  (ip' = ip ∧ pending n !! ip = None) ∨ quiet age n ip → quiet age (queued n d ip') ip.
Proof.
  intros Hage Hc Hq. unfold quiet, queued. cbn. destruct (decide (ip' = ip)) as [->|Hne].
  - left. rewrite lookup_insert_eq. eexists. split; [done|]. specialize (Hc eq_refl).
    destruct Hq as [[_ ->]|[(p & -> & ?)|(? & ? & _)]]; [done..|congruence].
  - rewrite lookup_insert_ne by done. by destruct Hq as [[? _]|Hq].
Qed.

Lemma step_quiet age n o n' ip : NInv n → nop_ok o → 0 ≤ age → age + elapsed [o] < 5000 →
  quiet age n ip → step n o = Ret n' → quiet (age + elapsed [o]) n' ip.
Proof.
  intros HI Ho Hage Hlt Hq Hs. destruct o as [d ip'|f|ms| |]; cbn in Hs, Hlt |- *; rewrite ?Z.add_0_r.
  - rewrite send_datagram_eq in Hs by done. injection Hs as <-.
    destruct (lookup_ethernet_address n ip') eqn:E; [done|].
    apply lookup_ethernet_None in E. apply (queued_quiet age n d ip ip'); [done|by intros ->|by right].
  - rewrite recv_frame_eq in Hs by done. injection Hs as <-.
    destruct (content_of n f); [done| |done]. by apply (learned_quiet age n).
  - injection Hs as <-. cbn in Ho. destruct Hq as [(p & Hp & ?)|(e & He & ?)].
    + left. rewrite tick_pending, Hp. destruct (ni_pending _ HI _ _ Hp) as (? & _).
      rewrite (proj2 (Z.ltb_lt _ _)) by ulia. eexists. split; [done|]. cbn. ulia.
    + right. rewrite tick_cache, He. pose proof (ni_cache _ HI _ _ He).
      rewrite (proj2 (Z.ltb_lt _ _)) by ulia. eexists. split; [done|]. cbn. ulia.
  - injection Hs as <-. unfold pop_frame. by destruct (frames_out n).
  - injection Hs as <-. unfold pop_datagram. by destruct (datagrams_in n).
Qed.

Lemma elapsed_cons o ops : elapsed (o :: ops) = elapsed [o] + elapsed ops.
Proof. destruct o; cbn; lia. Qed.

Lemma elapsed_nonneg ops : Forall nop_ok ops → 0 ≤ elapsed ops.
Proof. induction 1 as [|o ops Ho _ IH]; [done|]. rewrite elapsed_cons. destruct o; cbn in *; lia. Qed.

Lemma run_quiet age n ops n' ip : NInv n → Forall nop_ok ops → 0 ≤ age → age + elapsed ops < 5000 →
  quiet age n ip → run n ops = Ret n' → NInv n' ∧ quiet (age + elapsed ops) n' ip.
Proof.
  intros HI Hops. revert age n HI. induction Hops as [|o ops Ho Hops IH]; intros age n HI Hage Hlt Hq Hr.
  { injection Hr as <-. by rewrite Z.add_0_r. }
  pose proof (elapsed_nonneg ops Hops). pose proof (elapsed_nonneg [o] ltac:(by constructor)).
  rewrite (elapsed_cons o ops) in *. cbn [run] in Hr. pose proof (step_inv n o HI Ho) as Hs. wp_inv Hs.
  rewrite Heq, bind_Ret in Hr. rewrite Z.add_assoc.
  apply (IH (age + elapsed [o]) r); [done|lia|lia| |done]. apply (step_quiet age n o); try done. lia.
Qed.

(** The frame [f] teaches an interface with Ethernet address [us] the address of [ip]. *)
Definition teaches (us : EthernetAddress.t) (o : op) ip mac : Prop :=
  ∃ f m, o = RecvFrame f ∧ EthernetFrame.is_for f us = true ∧
    EthernetHeader.ethertype (EthernetFrame.header f) = ETHERTYPE_ARP ∧
    ArpMessage.parse_bytes (EthernetFrame.payload f) = Ret (Ok m) ∧
    ArpMessage.sender_ip_address m = ip ∧ ArpMessage.sender_ethernet_address m = mac.

(** What the cache says of [ip], [age] milliseconds after it was learned. *)
Definition remembers (age : Z) n ip mac : Prop :=
  arp_cache n !! ip = if age <? 30000 then Some (ArpCacheEntry.mk mac age) else None.

Lemma content_arp n f m : content_of n f = Arp m →
  teaches (ethernet_address n) (RecvFrame f) (ArpMessage.sender_ip_address m) (ArpMessage.sender_ethernet_address m).
Proof.
  unfold content_of. destruct (EthernetFrame.is_for f (ethernet_address n)) eqn:Ef; [|done].
  destruct (_ =? ETHERTYPE_IPV4); [by destruct (Ipv4Datagram.parse_bytes _) as [[]|]|].
  destruct (Z.eqb_spec (EthernetHeader.ethertype (EthernetFrame.header f)) ETHERTYPE_ARP); [|done].
  destruct (ArpMessage.parse_bytes _) as [[m'|]|] eqn:Ep; intros [= ->]. by exists f, m.
Qed.

Lemma teaches_content n f ip mac : teaches (ethernet_address n) (RecvFrame f) ip mac →
  ∃ m, content_of n f = Arp m ∧ ArpMessage.sender_ip_address m = ip ∧ ArpMessage.sender_ethernet_address m = mac.
Proof.
  intros (f' & m & [= <-] & Hf & Ht & Hp & ? & ?). exists m. split; [|done].
  unfold content_of. by rewrite Hf, Ht, Hp.
Qed.

Lemma step_remembers age n o n' ip mac : NInv n → nop_ok o → 0 ≤ age →
  (∀ mac', ¬ teaches (ethernet_address n) o ip mac') → remembers age n ip mac → step n o = Ret n' →
  remembers (age + elapsed [o]) n' ip mac.
Proof.
  intros HI Ho Hage Ht Hr Hs. destruct o as [d ip'|f|ms| |]; cbn in Hs, Ho |- *; rewrite ?Z.add_0_r.
  - rewrite send_datagram_eq in Hs by done. injection Hs as <-. by destruct (lookup_ethernet_address n ip').
  - rewrite recv_frame_eq in Hs by done. injection Hs as <-.
    destruct (content_of n f) as [|m|] eqn:E; [done| |done]. apply content_arp in E.
    unfold remembers. cbn. rewrite lookup_insert_ne; [done|]. intros He. apply (Ht (ArpMessage.sender_ethernet_address m)).
    by rewrite <- He.
  - injection Hs as <-. unfold remembers in *. rewrite tick_cache, Hr.
    destruct (Z.ltb_spec age 30000) as [|]; cbn.
    + destruct (Z.ltb_spec (saturating_add u64_max age ms) 30000), (Z.ltb_spec (age + ms) 30000); try done; [|ulia..].
      unfold ArpCacheEntry.grow. cbn. do 2 f_equal. ulia.
    + by rewrite (proj2 (Z.ltb_ge _ _)) by lia.
  - injection Hs as <-. unfold pop_frame. by destruct (frames_out n).
  - injection Hs as <-. unfold pop_datagram. by destruct (datagrams_in n).
Qed.

Lemma run_remembers age n ops n' ip mac : NInv n → Forall nop_ok ops → 0 ≤ age →
  Forall (λ o, ∀ mac', ¬ teaches (ethernet_address n) o ip mac') ops →
  remembers age n ip mac → run n ops = Ret n' → remembers (age + elapsed ops) n' ip mac.
Proof.
  intros HI Hops. revert age n HI. induction Hops as [|o ops Ho Hops IH]; intros age n HI Hage Ht Hq Hr.
  { injection Hr as <-. by rewrite Z.add_0_r. }
  apply Forall_cons in Ht as [Ht Hts]. pose proof (elapsed_nonneg [o] ltac:(by constructor)).
  rewrite (elapsed_cons o ops). cbn [run] in Hr. pose proof (wp_and _ _ _ (step_inv n o HI Ho) (step_addresses n o HI Ho)) as Hs.
  wp_inv Hs. destruct Hs as (HI' & He & _). rewrite Heq, bind_Ret in Hr. rewrite Z.add_assoc.
  apply (IH (age + elapsed [o]) r); [done|lia|by rewrite He| |done]. by apply (step_remembers age n o).
Qed.

(** ** Resolving an address *)

Lemma send_more n ip ds : NInv n → arp_cache n !! ip = None → is_Some (pending n !! ip) →
  Forall Ipv4Datagram.wf ds →
  run n (map (λ d, SendDatagram d ip) ds) ⇓ λ n', NInv n' ∧ frames_out n' = frames_out n ∧
    ethernet_address n' = ethernet_address n ∧ ip_address n' = ip_address n ∧ waiting n' ip = waiting n ip ++ ds.
Proof.
  intros HI Hc Hp Hds. revert n HI Hc Hp. induction Hds as [|d ds Hd _ IH]; intros n HI Hc [p Hp]; cbn [map run].
  { wp_step. by rewrite app_nil_r. }
  wp_step. cbn [step]. rewrite send_datagram_eq by done. unfold lookup_ethernet_address. rewrite Hc, Hp. cbn [option_map].
  wp_step. rewrite app_nil_r. wp_apply IH.
  - apply (queued_inv n d ip) in Hc as []; [by split|done..].
  - done.
  - cbn. rewrite lookup_insert_eq. by eexists.
  - intros n' (HI' & Hf & He & Hip & Hw). split_and!; try done. rewrite Hw. unfold waiting. cbn.
    rewrite lookup_insert_eq, Hp. cbn. by rewrite <- app_assoc.
Qed.

Lemma send_first n ip d ds : NInv n → lookup_ethernet_address n ip = None → pending n !! ip = None →
  Forall Ipv4Datagram.wf (d :: ds) →
  run n (map (λ d, SendDatagram d ip) (d :: ds)) ⇓ λ n', NInv n' ∧
    frames_out n' = frames_out n ++ [request_frame n ip] ∧
    ethernet_address n' = ethernet_address n ∧ ip_address n' = ip_address n ∧ waiting n' ip = d :: ds.
Proof.
  intros HI Hl Hp [Hd Hds]%Forall_cons. pose proof (lookup_ethernet_None n ip Hl) as Hc. cbn [map run step]. wp_step.
  pose proof (send_inv n d ip HI Hd) as HI1. rewrite send_datagram_eq, Hl, Hp in HI1 |- * by done. wp_step.
  wp_apply send_more; [exact HI1|done|cbn; rewrite lookup_insert_eq; by eexists|done|].
  intros n' (HI' & Hf & He & Hip & Hw). split_and!; try done. rewrite Hw. unfold waiting. cbn.
  rewrite lookup_insert_eq, Hp. done.
Qed.

Lemma request_content n n' ip :
  content_of n' (request_frame n ip) = Arp (ArpMessage.request (ethernet_address n) (ip_address n) ip).
Proof.
  unfold content_of, request_frame, arp_frame. cbn [EthernetFrame.arp EthernetFrame.new EthernetFrame.is_for EthernetFrame.header
    EthernetHeader.dst EthernetHeader.ethertype EthernetFrame.payload].
  rewrite (proj2 (arp_bytes _)). unfold EthernetFrame.is_for. cbn. by rewrite orb_true_r.
Qed.

Lemma reply_content n n' ip :
  content_of n' (reply_frame n (ethernet_address n') ip)
  = Arp (ArpMessage.reply (ethernet_address n) (ip_address n) (ethernet_address n') ip).
Proof.
  unfold content_of, reply_frame, arp_frame. cbn [EthernetFrame.arp EthernetFrame.new EthernetFrame.header
    EthernetHeader.dst EthernetHeader.ethertype EthernetFrame.payload].
  rewrite (proj2 (arp_bytes _)). unfold EthernetFrame.is_for. cbn. by rewrite bool_decide_true.
Qed.

Lemma ipv4_content n src d : Ipv4Datagram.wf d →
  content_of n (ipv4_frame src (ethernet_address n) d) = Datagram d.
Proof.
  intros Hd. unfold content_of, ipv4_frame. cbn [EthernetFrame.ipv4 EthernetFrame.new EthernetFrame.header
    EthernetHeader.dst EthernetHeader.ethertype EthernetFrame.payload].
  rewrite (proj2 (datagram_bytes d Hd)). unfold EthernetFrame.is_for. cbn. by rewrite bool_decide_true.
Qed.

Lemma recv_datagrams n src ds : NInv n → Forall Ipv4Datagram.wf ds →
  run n (map RecvFrame (map (ipv4_frame src (ethernet_address n)) ds)) ⇓ λ n',
    NInv n' ∧ datagrams_in n' = datagrams_in n ++ ds.
Proof.
  intros HI Hds. revert n HI. induction Hds as [|d ds Hd _ IH]; intros n HI; cbn [map run step].
  { wp_step. by rewrite app_nil_r. }
  wp_step. pose proof (recv_inv n (ipv4_frame src (ethernet_address n) d) HI) as HI1.
  rewrite recv_frame_eq, ipv4_content in HI1 |- * by done. wp_step. wp_apply (IH _ HI1).
  intros n' [HI' Hin]. split; [done|]. rewrite Hin. cbn. by rewrite <- app_assoc.
Qed.
End interface.

(** C31: The interface never panics and keeps its tables in order. From a new interface,
    through any datagrams that fit IPv4, any frames whatever, and any passing of time:
    no cached address reaches 30 seconds of age and no unresolved one 5; an address
    is never both cached and pending; and every frame queued for sending carries the
    interface's own address and survives Ethernet serialisation. *)
Theorem network_interface_safe mac ip ops :
  Forall nop_ok ops →
  ∃ n, NetworkInterface.run (NetworkInterface.new mac ip) ops = Ret n ∧ NInv n ∧
    Forall (λ f, EthernetHeader.src (EthernetFrame.header f) = NetworkInterface.ethernet_address n ∧
                 EthernetFrame.parse_bytes (EthernetFrame.serialize f) = Ret (Ok f))
      (NetworkInterface.frames_out n).
Proof.
  intros Hops. pose proof (run_inv _ ops (new_inv mac ip) Hops) as H. wp_inv H. exists r. split_and!; [done..|].
  eapply Forall_impl; [apply (ni_frames _ H)|]. intros f [Hf Hs]. split; [done|]. by apply ethernet_roundtrip.
Qed.

(** A datagram and two neighbours to try the theorems on. *)
Example hello : Ipv4Datagram.t := Ipv4Datagram.new_tcp (A4 x0a x00 x00 x01) (A4 x0a x00 x00 x02) [x68; x69].
Example alice : NetworkInterface.t := NetworkInterface.new (A6 x02 x00 x00 x00 x00 x01) (A4 x0a x00 x00 x01).
Example bob : NetworkInterface.t := NetworkInterface.new (A6 x02 x00 x00 x00 x00 x02) (A4 x0a x00 x00 x02).

Lemma hello_wf : Ipv4Datagram.wf hello.
Proof. unfold Ipv4Datagram.wf, u8, u16, blen. simpl. unfold IPV4_PROTOCOL_TCP. lia. Qed.

Lemma network_interface_safe_witness :
  let ops := [NetworkInterface.SendDatagram hello (A4 x0a x00 x00 x02); NetworkInterface.Tick 4999;
              NetworkInterface.RecvFrame (EthernetFrame.ipv4 EthernetAddress.BROADCAST EthernetAddress.ZERO [x45]);
              NetworkInterface.PopFrame; NetworkInterface.Tick 1] in
  ∃ n, NetworkInterface.run (NetworkInterface.new (A6 x02 x00 x00 x00 x00 x01) (A4 x0a x00 x00 x01)) ops = Ret n ∧ NInv n ∧
    Forall (λ f, EthernetHeader.src (EthernetFrame.header f) = NetworkInterface.ethernet_address n ∧
                 EthernetFrame.parse_bytes (EthernetFrame.serialize f) = Ret (Ok f))
      (NetworkInterface.frames_out n).
Proof.
  intros ops. apply network_interface_safe. subst ops. rewrite !Forall_cons, Forall_nil. cbn.
  split_and!; try done.
Defined.

(** C23: Address resolution delivers what was queued. Datagrams sent to a neighbour whose
    address is not known, and for which no request is pending, produce one ARP request; the neighbour answers it; the answer
    makes the interface remember the address and transmit exactly the queued datagrams,
    in order; and the neighbour hands exactly those to the layer above. *)
Theorem arp_resolution_delivers a b ds :
  NInv a → NInv b → ds ≠ [] → Forall Ipv4Datagram.wf ds →
  NetworkInterface.lookup_ethernet_address a (NetworkInterface.ip_address b) = None →
  NetworkInterface.pending a !! NetworkInterface.ip_address b = None →
  ∃ a1 b1 a2 b2 request reply flushed frames,
    NetworkInterface.run a (map (λ d, NetworkInterface.SendDatagram d (NetworkInterface.ip_address b)) ds) = Ret a1 ∧
    NetworkInterface.frames_out a1 = NetworkInterface.frames_out a ++ [request] ∧
    NetworkInterface.recv_frame b request = Ret b1 ∧
    NetworkInterface.frames_out b1 = NetworkInterface.frames_out b ++ flushed ++ [reply] ∧
    NetworkInterface.recv_frame a1 reply = Ret a2 ∧
    NetworkInterface.frames_out a2 = NetworkInterface.frames_out a1 ++ frames ∧
    NetworkInterface.lookup_ethernet_address a2 (NetworkInterface.ip_address b)
      = Some (NetworkInterface.ethernet_address b) ∧
    NetworkInterface.run b1 (map NetworkInterface.RecvFrame frames) = Ret b2 ∧
    NetworkInterface.datagrams_in b2 = NetworkInterface.datagrams_in b ++ ds.
Proof.
  intros Ha Hb Hne Hds Hl Hp. destruct ds as [|d ds]; [done|].
  pose proof (send_first a _ d ds Ha Hl Hp Hds) as H1. wp_inv H1. destruct H1 as (Ha1 & Hf & He & Hi & Hw).
  set (request := request_frame a (NetworkInterface.ip_address b)) in *.
  pose proof (recv_inv b request Hb) as H2. rewrite recv_frame_eq in H2 by done. apply wp_Ret in H2 as (b1 & Hb1 & Hb1').
  set (reply := reply_frame b (NetworkInterface.ethernet_address r) (NetworkInterface.ip_address a)).
  assert (Hc : content_of r reply = Arp (ArpMessage.reply (NetworkInterface.ethernet_address b)
    (NetworkInterface.ip_address b) (NetworkInterface.ethernet_address r) (NetworkInterface.ip_address a)))
    by apply reply_content.
  unfold request in Hb1. rewrite request_content in Hb1. injection Hb1 as Hb1.
  set (frames := map (ipv4_frame (NetworkInterface.ethernet_address r) (NetworkInterface.ethernet_address b1)) (d :: ds)).
  pose proof (recv_datagrams b1 (NetworkInterface.ethernet_address r) (d :: ds) Hb1' Hds) as H3. fold frames in H3.
  apply wp_Ret in H3 as (b2 & Hb2 & _ & Hin).
  exists r, b1. do 2 eexists. exists request, reply. do 2 eexists. split_and!.
  - done.
  - done.
  - rewrite recv_frame_eq by done. unfold request. rewrite request_content. exact (f_equal Ret Hb1).
  - rewrite <- Hb1. cbn. unfold asks_us. cbn. rewrite bool_decide_true by done. cbn. rewrite <- app_assoc, <- He. done.
  - rewrite recv_frame_eq, Hc by done. done.
  - cbn. rewrite Hw, app_nil_r. reflexivity.
  - unfold NetworkInterface.lookup_ethernet_address. cbn. by rewrite lookup_insert_eq.
  - replace (NetworkInterface.ethernet_address b) with (NetworkInterface.ethernet_address b1) by by rewrite <- Hb1.
    exact Hb2.
  - rewrite Hin, <- Hb1. done.
Qed.

Lemma arp_resolution_delivers_witness :
  ∃ a1 b1 a2 b2 request reply flushed frames,
    NetworkInterface.run alice (map (λ d, NetworkInterface.SendDatagram d (NetworkInterface.ip_address bob)) [hello; hello]) = Ret a1 ∧
    NetworkInterface.frames_out a1 = NetworkInterface.frames_out alice ++ [request] ∧
    NetworkInterface.recv_frame bob request = Ret b1 ∧
    NetworkInterface.frames_out b1 = NetworkInterface.frames_out bob ++ flushed ++ [reply] ∧
    NetworkInterface.recv_frame a1 reply = Ret a2 ∧
    NetworkInterface.frames_out a2 = NetworkInterface.frames_out a1 ++ frames ∧
    NetworkInterface.lookup_ethernet_address a2 (NetworkInterface.ip_address bob)
      = Some (NetworkInterface.ethernet_address bob) ∧
    NetworkInterface.run b1 (map NetworkInterface.RecvFrame frames) = Ret b2 ∧
    NetworkInterface.datagrams_in b2 = NetworkInterface.datagrams_in bob ++ [hello; hello].
Proof.
  apply arp_resolution_delivers; [apply new_inv|apply new_inv|done| |reflexivity|reflexivity].
  rewrite !Forall_cons, Forall_nil. pose proof hello_wf. done.
Defined.

(** C12: At most one ARP request every five seconds. Once the interface has asked for an
    address, nothing that happens in the next 4999 milliseconds (more datagrams for it,
    any frames, answers included) makes it ask for that address again. *)
Theorem arp_request_rate_limit n o ops o' ip :
  NInv n → Forall nop_ok (o :: ops ++ [o']) → NetworkInterface.elapsed (o :: ops) < 5000 →
  ∃ n1 n2 n3,
    NetworkInterface.step n o = Ret n1 ∧ NetworkInterface.run n1 ops = Ret n2 ∧
    NetworkInterface.step n2 o' = Ret n3 ∧
    (asked n n1 ip → ¬ asked n2 n3 ip).
Proof.
  intros HI [Ho [Hops [Ho' _]%Forall_cons]%Forall_app]%Forall_cons Hlt.
  pose proof (step_inv n o HI Ho) as H1. apply wp_Ret in H1 as (n1 & H1 & HI1).
  pose proof (run_inv n1 ops HI1 Hops) as H2. apply wp_Ret in H2 as (n2 & H2 & HI2).
  pose proof (step_inv n2 o' HI2 Ho') as H3. apply wp_Ret in H3 as (n3 & H3 & _).
  exists n1, n2, n3. split_and!; [done..|]. intros Ha.
  destruct (asked_inv n o n1 ip HI Ho H1 Ha) as ([d ->] & Hl & Hp). cbn in H1, Hlt.
  assert (Hq : quiet 0 n1 ip).
  { rewrite send_datagram_eq, Hl in H1 by done. injection H1 as <-.
    apply (queued_quiet 0 n d ip ip); [done| |by left]. intros _. by apply lookup_ethernet_None. }
  destruct (run_quiet 0 n1 ops n2 ip HI1 Hops ltac:(lia) Hlt Hq H2) as [_ Hq2]. by eapply quiet_not_asked.
Qed.

Lemma arp_request_rate_limit_witness :
  let send := NetworkInterface.SendDatagram hello (A4 x0a x00 x00 x02) in
  ∃ n1 n2 n3,
    NetworkInterface.step alice send = Ret n1 ∧
    NetworkInterface.run n1 [NetworkInterface.Tick 4000; send; NetworkInterface.Tick 999] = Ret n2 ∧
    NetworkInterface.step n2 send = Ret n3 ∧
    (asked alice n1 (A4 x0a x00 x00 x02) → ¬ asked n2 n3 (A4 x0a x00 x00 x02)).
Proof.
  intros send. apply arp_request_rate_limit; [apply new_inv| |reflexivity].
  cbn [app]. rewrite !Forall_cons, Forall_nil. pose proof hello_wf. by split_and!.
Defined.

(** C32: A learned address is used for exactly thirty seconds. After a frame has taught
    the interface the address of [ip], and as long as no further frame teaches it one,
    a lookup finds that address until 30000 milliseconds have passed and nothing from
    then on. *)
Theorem arp_cache_lifetime n f ip mac ops :
  NInv n → Forall nop_ok ops →
  teaches (NetworkInterface.ethernet_address n) (NetworkInterface.RecvFrame f) ip mac →
  Forall (λ o, ∀ mac', ¬ teaches (NetworkInterface.ethernet_address n) o ip mac') ops →
  ∃ n1 n2, NetworkInterface.recv_frame n f = Ret n1 ∧ NetworkInterface.run n1 ops = Ret n2 ∧
    NetworkInterface.lookup_ethernet_address n2 ip
    = if NetworkInterface.elapsed ops <? 30000 then Some mac else None.
Proof.
  intros HI Hops Ht Hts. destruct (teaches_content n f ip mac Ht) as (m & Hc & <- & <-).
  pose proof (recv_inv n f HI) as H1. apply wp_Ret in H1 as (n1 & H1 & HI1).
  pose proof (run_inv n1 ops HI1 Hops) as H2. apply wp_Ret in H2 as (n2 & H2 & _).
  exists n1, n2. split_and!; [done..|]. rewrite recv_frame_eq, Hc in H1 by done. injection H1 as <-.
  pose proof (run_remembers 0 _ ops n2 (ArpMessage.sender_ip_address m) (ArpMessage.sender_ethernet_address m)
                HI1 Hops ltac:(lia) Hts) as Hr.
  unfold NetworkInterface.lookup_ethernet_address. rewrite Hr; [by destruct (_ <? _)| |done].
  unfold remembers. cbn. by rewrite lookup_insert_eq.
Qed.

Lemma arp_cache_lifetime_witness :
  let f := reply_frame bob (NetworkInterface.ethernet_address alice) (A4 x0a x00 x00 x01) in
  ∃ n1 n2, NetworkInterface.recv_frame alice f = Ret n1 ∧
    NetworkInterface.run n1 [NetworkInterface.Tick 20000; NetworkInterface.PopFrame; NetworkInterface.Tick 9999] = Ret n2 ∧
    NetworkInterface.lookup_ethernet_address n2 (A4 x0a x00 x00 x02)
    = if 29999 <? 30000 then Some (A6 x02 x00 x00 x00 x00 x02) else None.
Proof.
  intros f. apply arp_cache_lifetime; [apply new_inv| | |].
  - rewrite !Forall_cons, Forall_nil. by split_and!.
  - eexists f, _. split_and!; reflexivity.
  - rewrite !Forall_cons, Forall_nil. split_and!; try done; by intros mac' (? & ? & ? & _).
Defined.

(** A queued datagram shares the fate of the first one. The five-second limit on
    unresolved datagrams is counted from the first datagram queued for the address: when the
    resolution is [age] milliseconds old, a datagram queued now is dropped, unsent,
    after only [5000 - age] more, and the interface has not asked again in the
    meantime. *)
Theorem pending_age_is_shared n d ip p :
  NInv n → Ipv4Datagram.wf d → NetworkInterface.pending n !! ip = Some p →
  ∃ n1, NetworkInterface.send_datagram n d ip = Ret n1 ∧
    waiting n1 ip = PendingResolution.datagrams p ++ [d] ∧
    waiting (NetworkInterface.tick n1 (5000 - PendingResolution.age_ms p)) ip = [] ∧
    NetworkInterface.frames_out (NetworkInterface.tick n1 (5000 - PendingResolution.age_ms p))
    = NetworkInterface.frames_out n.
Proof.
  intros HI Hd Hp. destruct (ni_pending _ HI _ _ Hp) as (Ha & _ & _ & _ & Hc).
  eexists. rewrite send_datagram_eq by done. unfold NetworkInterface.lookup_ethernet_address. rewrite Hc, Hp. cbn [option_map].
  split; [done|]. unfold waiting. rewrite tick_pending. cbn. rewrite lookup_insert_eq, Hp. cbn.
  rewrite (proj2 (Z.ltb_ge _ _)) by ulia. by rewrite app_nil_r.
Qed.

Lemma pending_age_is_shared_witness :
  let waiting_for := A4 x0a x00 x00 x02 in
  let n := NetworkInterface.with_pending alice {[ waiting_for := PendingResolution.mk [hello] 4900 4900 ]} in
  ∃ n1, NetworkInterface.send_datagram n hello waiting_for = Ret n1 ∧
    waiting n1 waiting_for = [hello] ++ [hello] ∧
    waiting (NetworkInterface.tick n1 (5000 - 4900)) waiting_for = [] ∧
    NetworkInterface.frames_out (NetworkInterface.tick n1 (5000 - 4900)) = NetworkInterface.frames_out n.
Proof.
  intros waiting_for n. apply (pending_age_is_shared n hello waiting_for (PendingResolution.mk [hello] 4900 4900)).
  - destruct (new_inv (NetworkInterface.ethernet_address alice) (NetworkInterface.ip_address alice)). split; try done.
    apply map_Forall_singleton. unfold pending_ok. cbn. split_and!; try lia; try done.
    constructor; [apply hello_wf|done].
  - apply hello_wf.
  - reflexivity.
Defined.
