(* ===== verification/router.v ===== *)
(** * The IPv4 router ([src/router.rs])

    Longest-prefix-match forwarding between network interfaces.  [route] empties the
    inbox of every interface in turn; its inner [while let] loop runs with one unit of
    fuel per queued datagram and one to see the inbox empty, and is proved never to
    need more. *)

From S2P Require Import prelude checksum ethernet_frame arp ipv4_datagram network_interface.

(** [u32::from_be_bytes(address.octets())] *)
Definition addr_u32 (address : Ipv4AddrBytes.t) : Z := be_val (Ipv4AddrBytes.octets address).

(** [u32::MAX << (32 - prefix_length)]; the subtraction is on [u8]. *)
Definition prefix_mask (prefix_length : Z) : exec Z :=
  if prefix_length =? 0 then mret 0
  else
    shift ← sub_u 32 prefix_length;
    mret (cast u32_max (Z.shiftl u32_max shift)).

Module Route.

Record t := mk {
  route_prefix : Ipv4AddrBytes.t;
  prefix_length : Z;
  next_hop : option Ipv4AddrBytes.t;
  interface_num : Z;
}.

Definition matches (self : t) (destination : Ipv4AddrBytes.t) : exec bool :=
  mask ← prefix_mask (prefix_length self);
  let prefix := addr_u32 (route_prefix self) in
  let destination := addr_u32 destination in
  mret (Z.land prefix mask =? Z.land destination mask).

End Route.

Module Router.

Record t := mk { interfaces : list NetworkInterface.t; routes : list Route.t }.

Definition new : t := mk [] [].

Definition with_interfaces (self : t) x : t := mk x (routes self).

Definition add_interface (self : t) (interface : NetworkInterface.t) : Z * t :=
  let interface_num := blen (interfaces self) in
  (interface_num, with_interfaces self (interfaces self ++ [interface])).

Definition interface (self : t) (interface_num : Z) : option NetworkInterface.t :=
  at_z (interfaces self) interface_num.

(** [self.interfaces[interface_num] = interface], for an index in range. *)
Definition set_interface (self : t) (interface_num : Z) (interface : NetworkInterface.t) : t :=
  with_interfaces self (<[Z.to_nat interface_num := interface]> (interfaces self)).

Definition add_route (self : t) (route_prefix : Ipv4AddrBytes.t) (prefix_length : Z)
    (next_hop : option Ipv4AddrBytes.t) (interface_num : Z) : exec t :=
  _ ← assert (prefix_length <=? 32);
  mret (mk (interfaces self) (routes self ++ [Route.mk route_prefix prefix_length next_hop interface_num])).

(** The [for] loop of [find_route], [best] being the best route so far. *)
Fixpoint best_route (best : option Route.t) (routes : list Route.t) (destination : Ipv4AddrBytes.t)
    : exec (option Route.t) :=
  match routes with
  | [] => mret best
  | route :: routes =>
      matches ← Route.matches route destination;
      let better := match best with
        | None => true
        | Some best => Route.prefix_length best <? Route.prefix_length route
        end in
      best_route (if matches && better then Some route else best) routes destination
  end.

Definition find_route (self : t) (destination : Ipv4AddrBytes.t) : exec (option Route.t) :=
  best_route None (routes self) destination.

(** [datagram.header.ttl -= 1] *)
Definition decrement_ttl (datagram : Ipv4Datagram.t) : exec Ipv4Datagram.t :=
  let h := Ipv4Datagram.header datagram in
  ttl ← sub_u (Ipv4Header.ttl h) 1;
  mret (Ipv4Datagram.mk
    (Ipv4Header.mk (Ipv4Header.src h) (Ipv4Header.dst h) ttl (Ipv4Header.protocol h)
       (Ipv4Header.identification h) (Ipv4Header.flags_fragment_offset h))
    (Ipv4Datagram.payload datagram)).

Definition route_one_datagram (self : t) (datagram : Ipv4Datagram.t) : exec t :=
  if Ipv4Header.ttl (Ipv4Datagram.header datagram) <=? 1 then mret self
  else
    let destination := Ipv4Header.dst (Ipv4Datagram.header datagram) in
    best ← find_route self destination;
    match best with
    | None => mret self
    | Some route =>
        let interface_num := Route.interface_num route in
        let next_hop := default destination (Route.next_hop route) in
        match interface self interface_num with
        | None => mret self
        | Some interface =>
            datagram ← decrement_ttl datagram;
            interface ← NetworkInterface.send_datagram interface datagram next_hop;
            mret (set_interface self interface_num interface)
        end
    end.

(** The [while let] loop of [route] on one interface. *)
Fixpoint route_interface (fuel : nat) (self : t) (interface_num : Z) : exec t :=
  match fuel with
  | O => Fault OutOfFuel
  | S fuel =>
      interface ← expect (interface self interface_num);
      let '(popped, interface) := NetworkInterface.pop_datagram interface in
      let self := set_interface self interface_num interface in
      match popped with
      | None => mret self
      | Some datagram =>
          self ← route_one_datagram self datagram;
          route_interface fuel self interface_num
      end
  end.

Fixpoint route_interfaces (self : t) (interface_nums : list nat) : exec t :=
  match interface_nums with
  | [] => mret self
  | k :: interface_nums =>
      let queued := match interfaces self !! k with
        | Some interface => length (NetworkInterface.datagrams_in interface)
        | None => O
        end in
      self ← route_interface (S queued) self (Z.of_nat k);
      route_interfaces self interface_nums
  end.

Definition route (self : t) : exec t := route_interfaces self (seq 0 (length (interfaces self))).

End Router.

Section routing.
Import Router.
Implicit Types (r : Router.t) (rt : Route.t) (d : Ipv4Datagram.t) (dst : Ipv4AddrBytes.t).

(** ** Prefixes *)

Lemma addr_u32_range a : u32 (addr_u32 a).
Proof. destruct a. apply be_val_u32_range. Qed.

(** The addresses whose first [len] bits are those of [prefix]. *)
Definition in_prefix (prefix : Ipv4AddrBytes.t) (len : Z) dst : Prop :=
  Z.shiftr (addr_u32 prefix) (32 - len) = Z.shiftr (addr_u32 dst) (32 - len).

Definition serves rt dst : Prop := in_prefix (Route.route_prefix rt) (Route.prefix_length rt) dst.

#[export] Instance serves_dec rt dst : Decision (serves rt dst).
Proof. unfold serves, in_prefix. apply _. Defined.

Definition route_ok rt : Prop := 0 ≤ Route.prefix_length rt ≤ 32.

(** Masking the low bits away is shifting them out and back in. *)
Lemma land_mask x k : u32 x → 0 ≤ k ≤ 32 →
  Z.land x (cast u32_max (Z.shiftl u32_max k)) = Z.shiftl (Z.shiftr x k) k.
Proof.
  intros Hx Hk. apply Z.bits_inj'. intros i Hi. unfold cast. change (u32_max + 1) with (2 ^ 32).
  rewrite Z.land_spec, Z.shiftl_spec by lia.
  assert (Hhigh : 32 ≤ i → Z.testbit x i = false).
  { intros. rewrite <- (Z.mod_small x (2 ^ 32)) by (unfold u32 in Hx; lia). by apply Z.mod_pow2_bits_high. }
  destruct (Z.ltb_spec i 32).
  - rewrite Z.mod_pow2_bits_low, Z.shiftl_spec by lia. destruct (Z.ltb_spec i k).
    + rewrite !(Z.testbit_neg_r _ (i - k)) by lia. by rewrite andb_false_r.
    + rewrite Z.shiftr_spec by lia. change u32_max with (Z.ones 32). rewrite Z.ones_spec_low by lia.
      rewrite andb_true_r. f_equal. lia.
  - rewrite Hhigh by lia. rewrite Z.shiftr_spec by lia. replace (i - k + k) with i by lia. by rewrite Hhigh.
Qed.

Lemma prefix_mask_wp len : 0 ≤ len ≤ 32 →
  prefix_mask len ⇓ λ mask, ∀ x, u32 x → Z.land x mask = Z.shiftl (Z.shiftr x (32 - len)) (32 - len).
Proof.
  intros Hlen. unfold prefix_mask. destruct (Z.eqb_spec len 0) as [->|Hne].
  - wp_step. intros x Hx. by rewrite Z.land_0_r, Z.shiftr_div_pow2, Z.div_small by ulia.
  - wp_step. wp_step; [lia|]. wp_step. intros x Hx. apply land_mask; [done|lia].
Qed.

Lemma matches_eq rt dst : route_ok rt → Route.matches rt dst = Ret (bool_decide (serves rt dst)).
Proof.
  intros Hrt. unfold Route.matches. pose proof (prefix_mask_wp _ Hrt) as Hm. wp_inv Hm. rewrite Heq, bind_Ret.
  rewrite !Hm by apply addr_u32_range. unfold mret, exec_mret. f_equal.
  assert (0 < 2 ^ (32 - Route.prefix_length rt)) by (apply Z.pow_pos_nonneg; unfold route_ok in Hrt; lia).
  rewrite !Z.shiftl_mul_pow2 by (unfold route_ok in Hrt; lia).
  case_bool_decide as He; unfold serves, in_prefix in He; [by rewrite He, Z.eqb_refl|].
  apply Z.eqb_neq. intros Hz. apply He. nia.
Qed.

(** ** The best route *)

(** [x] is the answer for [dst] after the routes [rs]: the first of the longest prefixes that contain it. *)
Definition is_best (rs : list Route.t) dst (x : option Route.t) : Prop :=
  match x with
  | None => ∀ rt, rt ∈ rs → ¬ serves rt dst
  | Some x => ∃ before after, rs = before ++ x :: after ∧ serves x dst ∧
      (∀ rt, rt ∈ before → serves rt dst → Route.prefix_length rt < Route.prefix_length x) ∧
      (∀ rt, rt ∈ after → serves rt dst → Route.prefix_length rt ≤ Route.prefix_length x)
  end.

Lemma is_best_in rs dst x : is_best rs dst (Some x) → x ∈ rs.
Proof. intros (b & a & -> & _). apply elem_of_app. right. left. Qed.

Lemma is_best_longer rs dst rt x : is_best rs dst (Some x) → serves rt dst →
  Route.prefix_length x < Route.prefix_length rt → is_best (rs ++ [rt]) dst (Some rt).
Proof.
  intros (b & a & -> & Hx & Hb & Ha) Hs Hlt. eexists _, []. split_and!; [done|done| |].
  - intros rt' [Hin|[->|Hin]%elem_of_cons]%elem_of_app Hs'; [|done|].
    + specialize (Hb _ Hin Hs'). lia.
    + specialize (Ha _ Hin Hs'). lia.
  - by intros ? ?%not_elem_of_nil.
Qed.

Lemma is_best_shorter rs dst rt x : is_best rs dst (Some x) →
  (serves rt dst → Route.prefix_length rt ≤ Route.prefix_length x) → is_best (rs ++ [rt]) dst (Some x).
Proof.
  intros (b & a & -> & Hx & Hb & Ha) Hs. exists b, (a ++ [rt]). split_and!; [by rewrite <- app_assoc|done|done|].
  intros rt' [Hin| ->%list_elem_of_singleton]%elem_of_app; [by apply Ha|done].
Qed.

Lemma best_route_wp seen rs dst best : Forall route_ok rs → is_best seen dst best →
  best_route best rs dst ⇓ λ x, is_best (seen ++ rs) dst x.
Proof.
  intros Hrs. revert seen best. induction Hrs as [|rt rs Hrt _ IH]; intros seen best Hb; cbn.
  { wp_step. by rewrite app_nil_r. }
  wp_step. rewrite matches_eq by done. wp_step. rewrite cons_middle, app_assoc. apply IH.
  case_bool_decide as Hs; cbn [andb].
  - destruct best as [x|].
    + destruct (Z.ltb_spec (Route.prefix_length x) (Route.prefix_length rt)).
      * by eapply is_best_longer.
      * by apply is_best_shorter.
    + exists seen, []. split_and!; [done|done| |by intros ? ?%not_elem_of_nil].
      intros rt' Hin Hs'. by destruct (Hb rt' Hin).
  - destruct best as [x|]; [by apply is_best_shorter|].
    intros rt' [Hin| ->%list_elem_of_singleton]%elem_of_app; [by apply Hb|done].
Qed.

Record RInv r : Prop := {
  ri_interfaces : Forall NInv (interfaces r);
  ri_routes : Forall route_ok (routes r);
}.

Lemma find_route_wp r dst : RInv r → find_route r dst ⇓ is_best (routes r) dst.
Proof.
  intros [_ Hr]. apply (best_route_wp [] (routes r) dst None Hr). by intros ? ?%not_elem_of_nil.
Qed.

(** ** Forwarding one datagram *)

(** The datagram as it leaves the router. *)
Definition hopped d : Ipv4Datagram.t :=
  let h := Ipv4Datagram.header d in
  Ipv4Datagram.mk (Ipv4Header.mk (Ipv4Header.src h) (Ipv4Header.dst h) (Ipv4Header.ttl h - 1)
    (Ipv4Header.protocol h) (Ipv4Header.identification h) (Ipv4Header.flags_fragment_offset h))
    (Ipv4Datagram.payload d).

Abbreviation ttl d := (Ipv4Header.ttl (Ipv4Datagram.header d)).
Abbreviation dest d := (Ipv4Header.dst (Ipv4Datagram.header d)).

Lemma decrement_ttl_eq d : 1 < ttl d → decrement_ttl d = Ret (hopped d).
Proof. intros H. unfold decrement_ttl, sub_u. by rewrite (proj2 (Z.leb_le _ _)) by lia. Qed.

Lemma hopped_wf d : Ipv4Datagram.wf d → 1 < ttl d → Ipv4Datagram.wf (hopped d).
Proof. intros (? & ? & ? & ? & ?) Ht. unfold Ipv4Datagram.wf. cbn. split_and!; try done; ulia. Qed.

Lemma at_z_insert {A} (l : list A) i x y : at_z l i = Some y → ∀ j, 0 ≤ j →
  at_z (<[Z.to_nat i := x]> l) j = if i =? j then Some x else at_z l j.
Proof.
  intros Hi j Hj. apply at_z_is_Some in Hi as Hr. rewrite !at_z_lookup by lia. destruct (Z.eqb_spec i j) as [<-|].
  - apply list_lookup_insert_eq. unfold blen in Hr. lia.
  - apply list_lookup_insert_ne. lia.
Qed.

(** What becomes of [d], as a property of the router before and after. *)
Definition forwarded r d r' : Prop :=
  ∃ best, is_best (routes r) (dest d) best ∧
  match best with
  | Some rt =>
      match interface r (Route.interface_num rt) with
      | Some n =>
          if ttl d <=? 1 then r' = r
          else ∃ n', NetworkInterface.send_datagram n (hopped d) (default (dest d) (Route.next_hop rt)) = Ret n' ∧
                 NInv n' ∧ r' = set_interface r (Route.interface_num rt) n'
      | None => r' = r
      end
  | None => r' = r
  end.

Lemma route_one_wp r d : RInv r → Ipv4Datagram.wf d → route_one_datagram r d ⇓ forwarded r d.
Proof.
  intros HI Hd. unfold route_one_datagram. pose proof (find_route_wp r (dest d) HI) as Hf. wp_inv Hf. rename r0 into best.
  destruct (Z.leb_spec (ttl d) 1) as [Ht|Ht].
  { wp_step. exists best. split; [done|]. destruct best as [rt|]; [|done].
    destruct (interface r _); [|done]. by rewrite (proj2 (Z.leb_le _ _)). }
  wp_step. rewrite Heq. wp_step. destruct best as [rt|]; [|wp_step; by exists None].
  destruct (interface r (Route.interface_num rt)) as [n|] eqn:En.
  2:{ wp_step. exists (Some rt). split; [done|]. by rewrite En. }
  assert (Hn : NInv n).
  { apply (Forall_lookup_1 _ _ (Z.to_nat (Route.interface_num rt)) n (ri_interfaces _ HI)).
    rewrite <- at_z_lookup; [exact En|]. apply at_z_is_Some in En. lia. }
  wp_step. rewrite decrement_ttl_eq by done. wp_step. wp_step.
  pose proof (send_inv n (hopped d) (default (dest d) (Route.next_hop rt)) Hn (hopped_wf d Hd Ht)) as Hs.
  apply wp_Ret in Hs as (n' & Hs & HI'). rewrite Hs. wp_step. wp_step. exists (Some rt). split; [done|].
  rewrite En, (proj2 (Z.leb_gt _ _)) by done. by exists n'.
Qed.

Lemma forwarded_inv r d r' : RInv r → forwarded r d r' → RInv r'.
Proof.
  intros [Hi Hr] (best & _ & Hb). destruct best as [rt|]; [|by subst].
  destruct (interface r _); [|by subst]. destruct (_ <=? _); [by subst|].
  destruct Hb as (n' & _ & Hn & ->). split; [|done]. by apply Forall_insert.
Qed.

(** ** Inboxes *)

Definition inboxes r : list (list Ipv4Datagram.t) := NetworkInterface.datagrams_in <$> interfaces r.

Definition set_inbox r (k : nat) (x : list Ipv4Datagram.t) : Router.t :=
  with_interfaces r (alter (λ n, NetworkInterface.with_datagrams_in n x) k (interfaces r)).

Definition set_inboxes r (ks : list nat) : Router.t := foldl (λ r k, set_inbox r k []) r ks.

(** [route] by its effect: [forward_all r ds] forwards [ds] in order. *)
Fixpoint forward_all r (ds : list Ipv4Datagram.t) : exec Router.t :=
  match ds with
  | [] => mret r
  | d :: ds => r ← route_one_datagram r d; forward_all r ds
  end.

Lemma set_inbox_lookup r k x i :
  interface (set_inbox r k x) i =
  option_map (λ n, if i =? Z.of_nat k then NetworkInterface.with_datagrams_in n x else n) (interface r i).
Proof.
  unfold interface, set_inbox. cbn. destruct (Z.ltb_spec i 0); [by rewrite !at_z_None by lia|].
  rewrite !at_z_lookup by lia. destruct (Z.eqb_spec i (Z.of_nat k)) as [->|].
  - rewrite Nat2Z.id, list_lookup_alter_eq. by destruct (_ !! _).
  - rewrite list_lookup_alter_ne by lia. by destruct (_ !! _).
Qed.

Lemma set_interface_inbox r k x i n n0 : interface r i = Some n0 →
  set_interface (set_inbox r k x) i (if i =? Z.of_nat k then NetworkInterface.with_datagrams_in n x else n)
  = set_inbox (set_interface r i n) k x.
Proof.
  intros Hi%at_z_is_Some. unfold set_interface, set_inbox, with_interfaces. cbn. f_equal. apply list_eq. intros j.
  destruct (decide (j = Z.to_nat i)) as [->|Hji].
  - rewrite list_lookup_insert_eq by (rewrite length_alter; unfold blen in Hi; lia).
    destruct (Z.eqb_spec i (Z.of_nat k)) as [->|].
    + rewrite Nat2Z.id, list_lookup_alter_eq, list_lookup_insert_eq; [done|]. unfold blen in Hi. lia.
    + rewrite list_lookup_alter_ne by lia. rewrite list_lookup_insert_eq; [done|]. unfold blen in Hi. lia.
  - rewrite list_lookup_insert_ne by done. destruct (decide (j = k)) as [->|].
    + rewrite !list_lookup_alter_eq. by rewrite list_lookup_insert_ne.
    + rewrite !list_lookup_alter_ne by done. by rewrite list_lookup_insert_ne.
Qed.

Lemma route_one_inbox r k x d :
  route_one_datagram (set_inbox r k x) d = r' ← route_one_datagram r d; mret (set_inbox r' k x).
Proof.
  unfold route_one_datagram. destruct (_ <=? 1); [done|]. change (find_route (set_inbox r k x)) with (find_route r).
  destruct (find_route r (dest d)) as [[rt|]|]; [|done..]. rewrite !bind_Ret, set_inbox_lookup.
  destruct (interface r (Route.interface_num rt)) as [n|] eqn:En; [|done]. cbn [option_map].
  destruct (decrement_ttl d) as [d'|]; [|done]. rewrite !bind_Ret.
  destruct (Z.eqb_spec (Route.interface_num rt) (Z.of_nat k)) as [Hk|Hk].
  - rewrite send_inbox. destruct (NetworkInterface.send_datagram n d' _) as [n'|]; [|done]. rewrite !bind_Ret, ?bind_mret.
    pose proof (set_interface_inbox r k x _ n' n En) as Hs. by rewrite Hk, Z.eqb_refl in *; rewrite Hs.
  - destruct (NetworkInterface.send_datagram n d' _) as [n'|]; [|done]. rewrite !bind_Ret, ?bind_mret.
    pose proof (set_interface_inbox r k x _ n' n En) as Hs. by rewrite (proj2 (Z.eqb_neq _ _)) in Hs by done; rewrite Hs.
Qed.

Lemma forward_all_inbox r k x ds :
  forward_all (set_inbox r k x) ds = r' ← forward_all r ds; mret (set_inbox r' k x).
Proof.
  revert r. induction ds as [|d ds IH]; intros r; [done|]. cbn. rewrite route_one_inbox.
  destruct (route_one_datagram r d) as [r'|]; [|done]. rewrite !bind_Ret, ?bind_mret. apply IH.
Qed.

Lemma forward_all_inboxes r ks ds :
  forward_all (set_inboxes r ks) ds = r' ← forward_all r ds; mret (set_inboxes r' ks).
Proof.
  revert r. induction ks as [|k ks IH]; intros r; cbn; [by destruct (forward_all r ds)|].
  rewrite IH, forward_all_inbox. by destruct (forward_all r ds).
Qed.

Lemma forward_all_app r ds ds' : forward_all r (ds ++ ds') = r' ← forward_all r ds; forward_all r' ds'.
Proof.
  revert r. induction ds as [|d ds IH]; intros r; [done|]. cbn. destruct (route_one_datagram r d); [|done]. rewrite !bind_Ret. apply IH.
Qed.

Lemma forwarded_inboxes r d r' : forwarded r d r' → inboxes r' = inboxes r.
Proof.
  intros (best & _ & Hb). destruct best as [rt|]; [|by subst].
  destruct (interface r _) as [n|] eqn:En; [|by subst]. destruct (_ <=? _); [by subst|].
  destruct Hb as (n' & Hs & _ & ->). apply send_keeps_inbox in Hs. unfold inboxes. cbn.
  apply at_z_is_Some in En as Hr. unfold interface in En. rewrite at_z_lookup in En by lia.
  rewrite <- (list_insert_id (interfaces r) (Z.to_nat (Route.interface_num rt)) n) at 2 by done.
  rewrite !list_fmap_insert. by rewrite Hs.
Qed.

Lemma forward_all_wp r ds : RInv r → Forall Ipv4Datagram.wf ds →
  forward_all r ds ⇓ λ r', RInv r' ∧ inboxes r' = inboxes r.
Proof.
  intros HI Hds. revert r HI. induction Hds as [|d ds Hd _ IH]; intros r HI; cbn; [by wp_step|].
  wp_step. wp_apply (route_one_wp r d HI Hd). intros r' Hf. pose proof (forwarded_inboxes _ _ _ Hf) as Hi.
  wp_apply (IH r' (forwarded_inv _ _ _ HI Hf)). intros r2 [? ?]. split; [done|congruence].
Qed.

(** ** The loops *)

Lemma set_inbox_inv r k : RInv r → RInv (set_inbox r k []).
Proof.
  intros [Hi Hr]. split; [|done]. cbn. apply Forall_alter; [done|]. intros n _ []. by split.
Qed.

Lemma set_inbox_twice r k x y : set_inbox (set_inbox r k x) k y = set_inbox r k y.
Proof.
  unfold set_inbox, with_interfaces. cbn. f_equal. apply list_eq. intros j. destruct (decide (j = k)) as [->|].
  - rewrite !list_lookup_alter_eq. by destruct (_ !! k).
  - by rewrite !list_lookup_alter_ne.
Qed.

Lemma set_inbox_id r k x : inboxes r !! k = Some x → set_inbox r k x = r.
Proof.
  unfold inboxes. rewrite list_lookup_fmap. intros Hx. unfold set_inbox, with_interfaces.
  destruct r as [ifs rs]. cbn in *. f_equal. apply list_eq. intros j. destruct (decide (j = k)) as [->|].
  - rewrite list_lookup_alter_eq. destruct (ifs !! k) as [n|]; [|done]. injection Hx as <-. by destruct n.
  - by rewrite list_lookup_alter_ne.
Qed.

Lemma inboxes_set r k x j : inboxes r !! j ≠ None →
  inboxes (set_inbox r k x) !! j = if decide (j = k) then Some x else inboxes r !! j.
Proof.
  unfold inboxes, set_inbox. cbn. rewrite !list_lookup_fmap. intros Hj. case_decide as Hjk.
  - subst. rewrite list_lookup_alter_eq. by destruct (interfaces r !! k).
  - by rewrite list_lookup_alter_ne.
Qed.

Lemma pop_inbox r k n x : interfaces r !! k = Some n →
  set_interface r (Z.of_nat k) (NetworkInterface.with_datagrams_in n x) = set_inbox r k x.
Proof.
  intros Hn. unfold set_interface, set_inbox, with_interfaces. rewrite Nat2Z.id. f_equal. apply list_eq. intros j.
  destruct (decide (j = k)) as [->|].
  - rewrite list_lookup_alter_eq, Hn, list_lookup_insert_eq; [done|]. by eapply lookup_lt_Some.
  - by rewrite list_lookup_alter_ne, list_lookup_insert_ne.
Qed.

Lemma inbox_wf r k ds : RInv r → inboxes r !! k = Some ds → Forall Ipv4Datagram.wf ds.
Proof.
  intros [Hi _]. unfold inboxes. rewrite list_lookup_fmap. destruct (interfaces r !! k) as [n|] eqn:En; [|done].
  intros [= <-]. apply (ni_datagrams n). by eapply Forall_lookup_1.
Qed.

(** The inner loop forwards the whole inbox: one unit of fuel per datagram and one more. *)
Lemma route_interface_eq fuel r k ds : RInv r → inboxes r !! k = Some ds → (length ds < fuel)%nat →
  route_interface fuel r (Z.of_nat k) = forward_all (set_inbox r k []) ds.
Proof.
  revert r ds. induction fuel as [|fuel IH]; intros r ds HI Hk Hlen; [lia|]. cbn [route_interface].
  pose proof (inbox_wf r k ds HI Hk) as Hwf. pose proof Hk as Hk'. unfold inboxes in Hk'. rewrite list_lookup_fmap in Hk'.
  destruct (interfaces r !! k) as [n|] eqn:En; [|done]. injection Hk' as Hds.
  unfold interface. rewrite at_z_lookup, Nat2Z.id, En by lia. cbn [expect]. rewrite bind_mret.
  unfold NetworkInterface.pop_datagram. rewrite Hds. destruct ds as [|d ds].
  { replace n with (NetworkInterface.with_datagrams_in n []) by (rewrite <- Hds; by destruct n).
    by rewrite (pop_inbox r k n []). }
  rewrite (pop_inbox r k n ds) by done. apply Forall_cons in Hwf as [Hd _].
  cbn [forward_all]. rewrite !route_one_inbox. pose proof (route_one_wp r d HI Hd) as Hf. wp_inv Hf.
  rewrite Heq, !bind_Ret. pose proof (forwarded_inboxes _ _ _ Hf) as Hi. pose proof (forwarded_inv _ _ _ HI Hf) as HI'.
  rewrite ?bind_mret. rewrite (IH _ ds).
  - by rewrite set_inbox_twice.
  - destruct HI' as [Hi' Hr']. split; [|done]. cbn. apply Forall_alter; [done|]. intros m _ []. split; try done. cbn.
    pose proof (inbox_wf r k _ HI Hk) as [_ ?]%Forall_cons. done.
  - rewrite inboxes_set; [by rewrite decide_True|]. by rewrite Hi, Hk.
  - cbn in Hlen. lia.
Qed.

(** The outer loop, over the interfaces [ks]. *)
Lemma route_interfaces_eq ks r : RInv r → NoDup ks → (∀ k, k ∈ ks → is_Some (inboxes r !! k)) →
  route_interfaces r ks = forward_all (set_inboxes r ks) (mjoin (map (λ k, default [] (inboxes r !! k)) ks)).
Proof.
  revert r. induction ks as [|k ks IH]; intros r HI Hnd Hin; [done|]. apply NoDup_cons in Hnd as [Hk Hks]. cbn [route_interfaces map].
  destruct (Hin k ltac:(left)) as [ds Hds]. pose proof (inbox_wf r k ds HI Hds) as Hwf. rewrite Hds. cbn [default mjoin list_join].
  assert (Hq : match interfaces r !! k with Some interface => length (NetworkInterface.datagrams_in interface) | None => O end = length ds).
  { unfold inboxes in Hds. rewrite list_lookup_fmap in Hds. destruct (interfaces r !! k); [|done]. by injection Hds as <-. }
  rewrite Hq, (route_interface_eq _ r k ds) by (done || lia). clear Hq.
  pose proof (set_inbox_inv r k HI) as HI1.
  assert (Hother : ∀ j, j ∈ ks → inboxes (set_inbox r k []) !! j = inboxes r !! j).
  { intros j Hj. rewrite inboxes_set; [rewrite decide_False; [done|by intros ->]|].
    destruct (Hin j ltac:(by right)) as [? ->]. done. }
  rewrite forward_all_app. change (id ds) with ds. change (set_inboxes r (k :: ks)) with (set_inboxes (set_inbox r k []) ks). rewrite (forward_all_inboxes (set_inbox r k []) ks ds).
  pose proof (forward_all_wp _ ds HI1 Hwf) as Hf. wp_inv Hf. destruct Hf as [HI2 Hi2]. rewrite Heq, !bind_Ret, ?bind_mret.
  rewrite IH; [|done|done|].
  - f_equal. f_equal. apply map_ext_in. intros j Hj%list_elem_of_In. by rewrite Hi2, Hother.
  - intros j Hj. rewrite Hi2, Hother by done. apply Hin. by right.
Qed.

Lemma seq_inboxes {A} (l : list (list A)) : map (λ k, default [] (l !! k)) (seq 0 (length l)) = l.
Proof.
  apply list_eq. intros i. rewrite list_lookup_fmap. destruct (decide (i < length l)%nat) as [Hi|Hi].
  - rewrite lookup_seq_lt by done. cbn. apply lookup_lt_is_Some in Hi as [x ->]. done.
  - rewrite lookup_seq_ge, lookup_ge_None_2 by lia. done.
Qed.

(** The router with every inbox empty. *)
Definition drained r : Router.t :=
  with_interfaces r ((λ n, NetworkInterface.with_datagrams_in n []) <$> interfaces r).

Lemma set_inboxes_lookup r ks j :
  interfaces (set_inboxes r ks) !! j =
  (if decide (j ∈ ks) then λ n, NetworkInterface.with_datagrams_in n [] else id) <$> interfaces r !! j.
Proof.
  revert r. induction ks as [|k ks IH]; intros r; cbn; [by destruct (interfaces r !! j)|].
  fold (set_inboxes (set_inbox r k []) ks). rewrite IH. unfold set_inbox. cbn. destruct (decide (j = k)) as [->|Hjk].
  - rewrite list_lookup_alter_eq, (decide_True _ _ (list_elem_of_here _ _)). case_decide; by destruct (interfaces r !! k).
  - rewrite list_lookup_alter_ne by done. f_equal.
    destruct (decide (j ∈ ks)), (decide (j ∈ k :: ks)) as [Hin|Hin]; try done.
    + destruct Hin. by right.
    + by apply elem_of_cons in Hin as [|].
Qed.

Lemma set_inboxes_all r : set_inboxes r (seq 0 (length (interfaces r))) = drained r.
Proof.
  assert (Hr : ∀ ks r0, routes (set_inboxes r0 ks) = routes r0).
  { induction ks as [|k ks IH]; intros r0; [done|]. cbn. apply (IH (set_inbox r0 k [])). }
  pose proof (Hr (seq 0 (length (interfaces r))) r) as Hrs. destruct (set_inboxes r _) as [ifs rs] eqn:E. cbn in Hrs. subst rs.
  unfold drained, with_interfaces. f_equal. apply list_eq. intros j.
  pose proof (set_inboxes_lookup r (seq 0 (length (interfaces r))) j) as Hj. rewrite E in Hj. cbn in Hj.
  rewrite Hj, list_lookup_fmap. destruct (interfaces r !! j) eqn:Ej; [|done]. cbn.
  rewrite decide_True; [done|]. apply elem_of_seq. apply lookup_lt_Some in Ej. lia.
Qed.

Lemma drained_inv r : RInv r → RInv (drained r).
Proof.
  intros [Hi Hr]. split; [|done]. cbn. apply Forall_fmap. eapply Forall_impl; [exact Hi|]. intros n []. by split.
Qed.

Lemma route_wp r : RInv r →
  route r = forward_all (drained r) (mjoin (inboxes r)) ∧
  route r ⇓ λ r', RInv r' ∧ Forall (λ ds, ds = []) (inboxes r').
Proof.
  intros HI. assert (Hr : route r = forward_all (drained r) (mjoin (inboxes r))).
  { unfold route. rewrite route_interfaces_eq; [|done|apply NoDup_seq|].
    - rewrite set_inboxes_all. f_equal. pose proof (seq_inboxes (inboxes r)) as Hq.
      replace (length (inboxes r)) with (length (interfaces r)) in Hq by (unfold inboxes; by rewrite length_fmap).
      by rewrite Hq.
    - intros k [_ Hk]%elem_of_seq. apply lookup_lt_is_Some. unfold inboxes. rewrite length_fmap. lia. }
  split; [done|]. rewrite Hr.
  assert (Hwf : Forall Ipv4Datagram.wf (mjoin (inboxes r))).
  { apply Forall_join. unfold inboxes. apply Forall_fmap. eapply Forall_impl; [apply (ri_interfaces _ HI)|]. by intros n []. }
  wp_apply (forward_all_wp _ _ (drained_inv r HI) Hwf). intros r' [HI' Hb]. split; [done|]. rewrite Hb.
  unfold inboxes, drained. cbn. rewrite <- list_fmap_compose. apply Forall_fmap, Forall_true. done.
Qed.
End routing.

(** C11: Datagrams follow the longest matching prefix. A datagram is forwarded exactly when its
    time to live exceeds one, some route's prefix contains the destination and the chosen
    route names an existing interface; the chosen route is the first among the longest
    prefixes containing the destination; the datagram leaves through that interface alone, with
    its time to live one less and nothing else changed, towards the route's next hop
    or, without one, the destination itself. Otherwise the router does not change. *)
Theorem router_longest_prefix r d :
  RInv r → Ipv4Datagram.wf d →
  ∃ r', Router.route_one_datagram r d = Ret r' ∧ RInv r' ∧ forwarded r d r'.
Proof.
  intros HI Hd. pose proof (route_one_wp r d HI Hd) as H. wp_inv H. exists r0.
  split_and!; [done|by eapply forwarded_inv|done].
Qed.

(** A router between two networks. *)
Example gateway : Router.t := Router.mk
  [NetworkInterface.with_datagrams_in (NetworkInterface.new (A6 x02 x00 x00 x00 x00 x0a) (A4 x0a x00 x00 xfe)) [hello; hello];
   NetworkInterface.new (A6 x02 x00 x00 x00 x00 x0b) (A4 x0b x00 x00 xfe)]
  [Route.mk (A4 x00 x00 x00 x00) 0 (Some (A4 x0b x00 x00 x09)) 1;
   Route.mk (A4 x0a x00 x00 x00) 8 None 0].

Lemma gateway_inv : RInv gateway.
Proof.
  split; cbn [Router.interfaces Router.routes gateway].
  - rewrite !Forall_cons, Forall_nil. split_and!; [|apply new_inv|done].
    destruct (new_inv (A6 x02 x00 x00 x00 x00 x0a) (A4 x0a x00 x00 xfe)). split; try done.
    cbn. rewrite !Forall_cons, Forall_nil. pose proof hello_wf. done.
  - rewrite !Forall_cons, Forall_nil. unfold route_ok. cbn. lia.
Qed.

Lemma router_longest_prefix_witness :
  ∃ r', Router.route_one_datagram gateway hello = Ret r' ∧ RInv r' ∧ forwarded gateway hello r'.
Proof. apply router_longest_prefix; [apply gateway_inv|apply hello_wf]. Defined.

(** C24: Routing empties every inbox and forwards each datagram once. [route] returns (its
    loops end), leaves no datagram waiting at any interface, and has the effect of
    forwarding one by one, in interface order and in order of arrival, the datagrams that
    waited when it was called. *)
Theorem router_drains_inboxes r :
  RInv r →
  ∃ r', Router.route r = Ret r' ∧ RInv r' ∧ Forall (λ ds, ds = []) (inboxes r') ∧
    forward_all (drained r) (mjoin (inboxes r)) = Ret r'.
Proof.
  intros HI. destruct (route_wp r HI) as [He H]. wp_inv H. destruct H. exists r0. by rewrite <- He.
Qed.

Lemma router_drains_inboxes_witness :
  ∃ r', Router.route gateway = Ret r' ∧ RInv r' ∧ Forall (λ ds, ds = []) (inboxes r') ∧
    forward_all (drained gateway) (mjoin (inboxes gateway)) = Ret r'.
Proof. apply router_drains_inboxes, gateway_inv. Defined.
