(* ===== verification/tcp_segment.v ===== *)
(** * TCP segments ([src/tcp_segment.rs])

    The TCP header on the wire, without options on output and with options skipped
    on input, the pseudo-header checksum, and the translation between a segment and
    the sender and receiver messages it carries. *)

From S2P Require Import prelude wrapping_integers tcp_message checksum.

Definition TCP_HEADER_MIN_LEN : Z := 20.
Definition TCP_FLAG_FIN : Z := 1.
Definition TCP_FLAG_SYN : Z := 2.
Definition TCP_FLAG_RST : Z := 4.
Definition TCP_FLAG_ACK : Z := 16.

Inductive TcpParseError := SegmentTooShort | InvalidDataOffset | InvalidChecksum.

Module TcpHeader.

Record t := mk {
  src_port : Z;
  dst_port : Z;
  seqno : Wrap32.t;
  ackno : option Wrap32.t;
  window_size : Z;
  syn : bool;
  fin : bool;
  rst : bool;
}.

Definition flags (self : t) : Z :=
  let flags := 0 in
  let flags := if fin self then Z.lor flags TCP_FLAG_FIN else flags in
  let flags := if syn self then Z.lor flags TCP_FLAG_SYN else flags in
  let flags := if rst self then Z.lor flags TCP_FLAG_RST else flags in
  match ackno self with Some _ => Z.lor flags TCP_FLAG_ACK | None => flags end.

End TcpHeader.

Module TcpSegment.

Record t := mk { header : TcpHeader.t; payload : bytes }.

Definition from_messages (src_port dst_port : Z) (sender : TcpSenderMessage.t)
    (receiver : option TcpReceiverMessage.t) : t :=
  let ackno := message ← receiver; TcpReceiverMessage.ackno message in
  let window_size := match receiver with
                     | Some message => TcpReceiverMessage.window_size message
                     | None => 0
                     end in
  let rst := TcpSenderMessage.rst sender
             || match receiver with Some message => TcpReceiverMessage.rst message | None => false end in
  mk (TcpHeader.mk src_port dst_port (TcpSenderMessage.seqno sender) ackno window_size
        (TcpSenderMessage.syn sender) (TcpSenderMessage.fin sender) rst)
     (TcpSenderMessage.payload sender).

Definition to_sender_message (self : t) : TcpSenderMessage.t :=
  TcpSenderMessage.mk (TcpHeader.seqno (header self)) (TcpHeader.syn (header self)) (payload self)
    (TcpHeader.fin (header self)) (TcpHeader.rst (header self)).

Definition to_receiver_message (self : t) : TcpReceiverMessage.t :=
  TcpReceiverMessage.mk (TcpHeader.ackno (header self)) (TcpHeader.window_size (header self))
    (TcpHeader.rst (header self)).

Definition serialize_ipv4 (self : t) (src_ip dst_ip : array4) : exec bytes :=
  tcp_len ← expect (checked_add usize_max TCP_HEADER_MIN_LEN (blen (payload self)));
  _ ← assert (tcp_len <=? u16_max);
  let h := header self in
  let data_offset := 5 in
  let offset_and_flags := Z.lor (Z.shiftl data_offset 12) (Z.land (TcpHeader.flags h) 511) in
  let buf :=
    put_u16 (TcpHeader.src_port h) ++ put_u16 (TcpHeader.dst_port h) ++
    put_u32 (Wrap32.raw_value (TcpHeader.seqno h)) ++
    put_u32 (match TcpHeader.ackno h with Some a => Wrap32.raw_value a | None => 0 end) ++
    put_u16 offset_and_flags ++ put_u16 (TcpHeader.window_size h) ++ put_u16 0 ++ put_u16 0 in
  _ ← assert (blen buf =? TCP_HEADER_MIN_LEN);
  let buf := buf ++ payload self in
  checksum ← tcp_checksum_ipv4 (list4 src_ip) (list4 dst_ip) buf;
  copy_at 16 (put_u16 checksum) buf.

Definition parse_ipv4_bytes (src_ip dst_ip : array4) (segment : bytes)
  : exec (result t TcpParseError) :=
  if blen segment <? TCP_HEADER_MIN_LEN then mret (Err SegmentTooShort)
  else
    checksum ← tcp_checksum_ipv4 (list4 src_ip) (list4 dst_ip) segment;
    if negb (checksum =? 0) then mret (Err InvalidChecksum)
    else
      byte12 ← read_u8 segment 12;
      let data_offset := Z.shiftr byte12 4 in
      let header_len := data_offset * 4 in
      if (header_len <? TCP_HEADER_MIN_LEN) || (blen segment <? header_len)
      then mret (Err InvalidDataOffset)
      else
        src_port ← read_u16 segment 0;
        dst_port ← read_u16 segment 2;
        raw_seqno ← read_u32 segment 4;
        raw_ackno ← read_u32 segment 8;
        offset_and_flags ← read_u16 segment 12;
        let flags := Z.land offset_and_flags 511 in
        let ackno := if negb (Z.land flags TCP_FLAG_ACK =? 0) then Some (Wrap32.new raw_ackno) else None in
        window_size ← read_u16 segment 14;
        let header :=
          TcpHeader.mk src_port dst_port (Wrap32.new raw_seqno) ackno window_size
            (negb (Z.land flags TCP_FLAG_SYN =? 0)) (negb (Z.land flags TCP_FLAG_FIN =? 0))
            (negb (Z.land flags TCP_FLAG_RST =? 0)) in
        payload ← slice_from header_len segment;
        mret (Ok (mk header payload)).

(** The fields fit their widths and the segment fits the pseudo-header's 16-bit length. *)
Definition wf (self : t) : Prop :=
  u16 (TcpHeader.src_port (header self)) ∧ u16 (TcpHeader.dst_port (header self)) ∧
  Wrap32.ok (TcpHeader.seqno (header self)) ∧
  (∀ a, TcpHeader.ackno (header self) = Some a → Wrap32.ok a) ∧
  u16 (TcpHeader.window_size (header self)) ∧
  20 + blen (payload self) ≤ u16_max.

End TcpSegment.

Section facts.
Import TcpSegment.
Implicit Types (s : TcpSegment.t) (src dst : array4).

(** The bytes before and after the checksum field. *)
Definition tcp_head s : bytes :=
  put_u16 (TcpHeader.src_port (header s)) ++ put_u16 (TcpHeader.dst_port (header s)) ++
  put_u32 (Wrap32.raw_value (TcpHeader.seqno (header s))) ++
  put_u32 (match TcpHeader.ackno (header s) with Some a => Wrap32.raw_value a | None => 0 end) ++
  put_u16 (Z.lor (Z.shiftl 5 12) (Z.land (TcpHeader.flags (header s)) 511)) ++
  put_u16 (TcpHeader.window_size (header s)).
Definition tcp_tail s : bytes := put_u16 0 ++ payload s.

Lemma list4_len x : blen (list4 x) = 4.
Proof. by destruct x. Qed.

Lemma pseudo_len src dst n : length (pseudo_header (list4 src) (list4 dst) n) = 12%nat.
Proof. by destruct src, dst. Qed.

Lemma tcp_wire_len s c : blen (tcp_head s ++ put_u16 c ++ tcp_tail s) = 20 + blen (payload s).
Proof.
  unfold tcp_head, tcp_tail. rewrite !blen_app. change (blen (put_u16 _)) with 2.
  change (blen (put_u32 _)) with 4. lia.
Qed.

Lemma tcp_serialize_eq s src dst : wf s →
  ∃ c, serialize_ipv4 s src dst = Ret (tcp_head s ++ put_u16 c ++ tcp_tail s) ∧
    csum (pseudo_header (list4 src) (list4 dst) (20 + blen (payload s))
          ++ tcp_head s ++ put_u16 c ++ tcp_tail s) = 0.
Proof.
  intros (_ & _ & _ & _ & _ & Hlen). pose proof (blen_nonneg (payload s)).
  unfold serialize_ipv4, TCP_HEADER_MIN_LEN.
  rewrite checked_add_Some by lia. cbn [expect]. rewrite bind_mret.
  rewrite (proj2 (Z.leb_le _ _)) by lia. cbn [assert]. rewrite bind_mret.
  match goal with |- context [blen ?b =? 20] => change (blen b =? 20) with true;
    replace (b ++ payload s) with (tcp_head s ++ put_u16 0 ++ tcp_tail s) by
      (unfold tcp_head, tcp_tail; by rewrite <- !app_assoc) end.
  cbn [assert]. rewrite bind_mret.
  pose proof (tcp_checksum_wp (list4 src) (list4 dst) (tcp_head s ++ put_u16 0 ++ tcp_tail s)
    (list4_len _) (list4_len _) ltac:(rewrite tcp_wire_len; lia)) as H'.
  wp_inv H'. rewrite Heq, bind_Ret. exists r. rewrite (copy_at_app (tcp_head s)) by done.
  split; [done|]. rewrite tcp_wire_len in H'. set (ph := pseudo_header _ _ _) in *.
  rewrite (app_assoc ph (tcp_head s)). subst r. rewrite (app_assoc ph (tcp_head s)).
  apply csum_stored. rewrite length_app. unfold ph. by rewrite pseudo_len.
Qed.

(** The flags word gives its four flags back. *)
Lemma flags_roundtrip h :
  let w := be_val (put_u16 (Z.lor (Z.shiftl 5 12) (Z.land (TcpHeader.flags h) 511))) in
  let flags := Z.land w 511 in
  negb (Z.land flags TCP_FLAG_SYN =? 0) = TcpHeader.syn h ∧
  negb (Z.land flags TCP_FLAG_FIN =? 0) = TcpHeader.fin h ∧
  negb (Z.land flags TCP_FLAG_RST =? 0) = TcpHeader.rst h ∧
  negb (Z.land flags TCP_FLAG_ACK =? 0) = match TcpHeader.ackno h with Some _ => true | None => false end ∧
  Z.shiftr (b2z (z2b (Z.lor (Z.shiftl 5 12) (Z.land (TcpHeader.flags h) 511) / 256))) 4 = 5.
Proof. unfold TcpHeader.flags. by destruct h as [? ? ? [?|] ? [] [] []]. Qed.

Lemma tcp_roundtrip s src dst : wf s →
  ∃ bs, serialize_ipv4 s src dst = Ret bs ∧ parse_ipv4_bytes src dst bs = Ret (Ok s).
Proof.
  intros Hs. destruct (tcp_serialize_eq s src dst Hs) as (c & Hser & Hc). eexists. split; [done|].
  destruct Hs as (Hsp & Hdp & Hsn & Hak & Hw & Hlen). pose proof (blen_nonneg (payload s)).
  set (bs := tcp_head s ++ put_u16 c ++ tcp_tail s) in *.
  assert (Hb : blen bs = 20 + blen (payload s)) by apply tcp_wire_len.
  unfold parse_ipv4_bytes, TCP_HEADER_MIN_LEN. rewrite (proj2 (Z.ltb_ge _ _)) by lia.
  pose proof (tcp_checksum_wp (list4 src) (list4 dst) bs (list4_len _) (list4_len _) ltac:(lia)) as H'.
  wp_inv H'. rewrite Hb, Hc in H'. subst r. rewrite Heq, bind_Ret. cbn [Z.eqb negb].
  destruct (flags_roundtrip (header s)) as (Hsyn & Hfin & Hrst & Hack & Hoff).
  set (w := Z.lor (Z.shiftl 5 12) (Z.land (TcpHeader.flags (header s)) 511)) in *.
  assert (H12 : read_u8 bs 12 = Ret (b2z (z2b (w / 256)))) by done.
  assert (Hsl : slice_from 20 bs = Ret (payload s)).
  { unfold bs, tcp_head, tcp_tail. rewrite !app_assoc. by apply slice_from_app. }
  rewrite H12, bind_Ret, Hoff. change (5 * 4) with 20. rewrite Hb, !(proj2 (Z.ltb_ge _ _)) by lia. cbn [orb].
  assert (Hr : read_u16 bs 0 = Ret (be_val (put_u16 (TcpHeader.src_port (header s)))) ∧
    read_u16 bs 2 = Ret (be_val (put_u16 (TcpHeader.dst_port (header s)))) ∧
    read_u32 bs 4 = Ret (be_val (put_u32 (Wrap32.raw_value (TcpHeader.seqno (header s))))) ∧
    read_u32 bs 8 = Ret (be_val (put_u32 (match TcpHeader.ackno (header s) with Some a => Wrap32.raw_value a | None => 0 end))) ∧
    read_u16 bs 12 = Ret (be_val (put_u16 w)) ∧
    read_u16 bs 14 = Ret (be_val (put_u16 (TcpHeader.window_size (header s))))) by done.
  destruct Hr as (-> & -> & -> & -> & -> & ->). rewrite !bind_Ret, Hsl, bind_Ret.
  rewrite Hsyn, Hfin, Hrst, Hack.
  assert (Hackok : u32 (match TcpHeader.ackno (header s) with Some a => Wrap32.raw_value a | None => 0 end)).
  { destruct (TcpHeader.ackno (header s)) as [a|]; [by apply Hak|ulia]. }
  rewrite !be_val_u16, !be_val_u32 by done.
  destruct s as [[? ? [] [[]|] ? ? ? ?] ?]; done.
Qed.

Lemma tcp_parse_wp src dst (data : bytes) :
  blen data ≤ u16_max →
  parse_ipv4_bytes src dst data ⇓ λ r,
    match r with
    | Ok s => wf s ∧ csum (pseudo_header (list4 src) (list4 dst) (blen data) ++ data) = 0 ∧
              ∃ hl, 20 ≤ hl ≤ 60 ∧ hl ≤ blen data ∧ payload s = drop (Z.to_nat hl) data
    | Err SegmentTooShort => blen data < 20
    | Err InvalidChecksum => 20 ≤ blen data ∧
        csum (pseudo_header (list4 src) (list4 dst) (blen data) ++ data) ≠ 0
    | Err InvalidDataOffset => 20 ≤ blen data ∧
        csum (pseudo_header (list4 src) (list4 dst) (blen data) ++ data) = 0
    end.
Proof.
  intros Hmax. unfold parse_ipv4_bytes, TCP_HEADER_MIN_LEN.
  destruct (Z.ltb_spec (blen data) 20) as [|Hlen]; [by wp_step|].
  wp_step. wp_apply (tcp_checksum_wp (list4 src) (list4 dst) data); [apply list4_len|apply list4_len|done|].
  intros ck ->. destruct (Z.eqb_spec (csum (pseudo_header (list4 src) (list4 dst) (blen data) ++ data)) 0) as [Hz|]; cbn [negb];
    [|by wp_step].
  assert (Hh : ∃ h rest, data = h ++ rest ∧ length h = 20%nat) by by apply split_at.
  destruct Hh as (h & rest & Hdata & Hh). 
  assert (H12 : ∃ b, read_u8 data 12 = Ret (b2z b)).
  { rewrite Hdata. clear - Hh. explode h 20. eauto. }
  destruct H12 as [b12 Hb12]. rewrite Hb12, bind_Ret. rewrite Z.shiftr_div_pow2 by lia. change (2 ^ 4) with 16.
  pose proof (b2z_range b12).
  assert (0 ≤ b2z b12 / 16 < 16) by (split; [apply Z.div_pos|apply Z.div_lt_upper_bound]; lia).
  set (hl := b2z b12 / 16 * 4) in *. 
  destruct (Z.ltb_spec hl 20), (Z.ltb_spec (blen data) hl); cbn [orb]; try by wp_step.
  pose proof (wp_slice_from hl data (λ r, r = drop (Z.to_nat hl) data) ltac:(lia) eq_refl) as Hsl.
  wp_inv Hsl. subst r. assert (20 ≤ hl ≤ 60) by lia. clearbody hl. revert Heq Hlen Hmax. clear Hb12.
  assert (Hr : ∃ sp dp sn ak fl w : Z, read_u16 data 0 = Ret sp ∧ read_u16 data 2 = Ret dp ∧
    read_u32 data 4 = Ret sn ∧ read_u32 data 8 = Ret ak ∧ read_u16 data 12 = Ret fl ∧
    read_u16 data 14 = Ret w ∧ u16 sp ∧ u16 dp ∧ u32 sn ∧ u32 ak ∧ u16 w).
  { rewrite Hdata. clear - Hh. explode h 20. do 6 eexists. split_and!; try reflexivity;
      first [apply be_val_u16_range | apply be_val_u32_range]. }
  destruct Hr as (sp & dp & sn & ak & fl & w & -> & -> & -> & -> & -> & -> & ? & ? & ? & ? & ?).
  rewrite !bind_Ret. intros -> Hlen Hmax. rewrite bind_Ret. wp_step.
  split_and!; [|done|exists hl; split_and!; (lia || done)].
  unfold wf. cbn -[blen u16]. rewrite blen_drop by lia. split_and!; try done; [|lia].
  intros a. case_match; [|done]. by intros [= <-].
Qed.

(** The messages a segment was built from. *)
Lemma from_messages_sender sp dp m r :
  TcpSenderMessage.rst m = false → TcpReceiverMessage.rst r = false →
  to_sender_message (from_messages sp dp m (Some r)) = m ∧
  to_receiver_message (from_messages sp dp m (Some r)) = r.
Proof. destruct m, r. simpl. by intros -> ->. Qed.
End facts.

(** C27: A TCP segment survives the wire. A segment whose fields fit serialises to its
    header and payload; parsing with the same addresses gives it back; and after
    any one byte of it is changed the parser reports an invalid checksum. *)
Theorem tcp_segment_codec s src dst :
  TcpSegment.wf s →
  ∃ bs, TcpSegment.serialize_ipv4 s src dst = Ret bs ∧
    blen bs = 20 + blen (TcpSegment.payload s) ∧
    TcpSegment.parse_ipv4_bytes src dst bs = Ret (Ok s) ∧
    ∀ pre x y post, bs = pre ++ x :: post → x ≠ y →
      TcpSegment.parse_ipv4_bytes src dst (pre ++ y :: post) = Ret (Err InvalidChecksum).
Proof.
  intros Hs. destruct (tcp_serialize_eq s src dst Hs) as (c & Hser & Hc).
  destruct (tcp_roundtrip s src dst Hs) as (bs & Hser' & Hp). exists bs.
  assert (Hbs : bs = tcp_head s ++ put_u16 c ++ tcp_tail s) by congruence.
  assert (Hb : blen bs = 20 + blen (TcpSegment.payload s)) by (rewrite Hbs; apply tcp_wire_len).
  rewrite <- Hbs, <- Hb in Hc. split_and!; try done. intros pre x y post Heq Hxy.
  assert (Hb' : blen (pre ++ y :: post) = blen bs) by by rewrite Heq, !blen_app, !blen_cons.
  destruct Hs as (_ & _ & _ & _ & _ & Hlen).
  pose proof (blen_nonneg (TcpSegment.payload s)).
  pose proof (tcp_parse_wp src dst (pre ++ y :: post) ltac:(lia)) as H'. wp_inv H'. rewrite Heq0.
  assert (Hne : csum (pseudo_header (list4 src) (list4 dst) (blen (pre ++ y :: post)) ++ pre ++ y :: post) ≠ 0).
  { intros Hz. apply Hxy. rewrite Hb' in Hz. rewrite Heq in Hc at 2. rewrite app_assoc in Hz, Hc.
    by eapply csum_replace. }
  destruct r as [s'|[| |]]; [by destruct H' as (_ & Hz & _)|lia|by destruct H' as (_ & Hz)|done].
Qed.

Lemma tcp_segment_codec_witness :
  let s := TcpSegment.mk (TcpHeader.mk 80 12345 (Wrap32.new 4294967295) (Some (Wrap32.new 7)) 1000 true false true)
             [x61; x62; x63] in
  ∃ bs, TcpSegment.serialize_ipv4 s (A4 x0a x00 x00 x01) (A4 x0a x00 x00 x02) = Ret bs ∧
    blen bs = 20 + blen (TcpSegment.payload s) ∧
    TcpSegment.parse_ipv4_bytes (A4 x0a x00 x00 x01) (A4 x0a x00 x00 x02) bs = Ret (Ok s) ∧
    ∀ pre x y post, bs = pre ++ x :: post → x ≠ y →
      TcpSegment.parse_ipv4_bytes (A4 x0a x00 x00 x01) (A4 x0a x00 x00 x02) (pre ++ y :: post)
        = Ret (Err InvalidChecksum).
Proof.
  intros s. apply tcp_segment_codec. unfold TcpSegment.wf, Wrap32.ok, u16, u32, blen. simpl.
  split_and!; try lia. intros a [= <-]. simpl. lia.
Defined.

(** Parsing TCP never panics on what IPv4 can carry. On any payload of at most 65535
    bytes [parse_ipv4_bytes] returns; the three errors mean a short segment, a wrong
    checksum and a bad data offset, in that order of precedence; what it accepts
    has fields that fit and a payload that is everything after the header. *)
Theorem tcp_parse_total src dst (data : bytes) :
  blen data ≤ u16_max →
  ∃ r, TcpSegment.parse_ipv4_bytes src dst data = Ret r ∧
    (r = Err SegmentTooShort ↔ blen data < 20) ∧
    (r = Err InvalidChecksum ↔ 20 ≤ blen data ∧
       csum (pseudo_header (list4 src) (list4 dst) (blen data) ++ data) ≠ 0) ∧
    ∀ s, r = Ok s → TcpSegment.wf s ∧
      ∃ hl, 20 ≤ hl ≤ 60 ∧ hl ≤ blen data ∧ TcpSegment.payload s = drop (Z.to_nat hl) data.
Proof.
  intros Hmax. pose proof (tcp_parse_wp src dst data Hmax) as H. wp_inv H. exists r. split; [done|].
  destruct r as [s|[| |]]; split_and!; try (split; intros; try done; try lia; intuition congruence || lia).
  - destruct H as (_ & _ & hl & ? & ? & _). split; [done|lia].
  - intros s' [= <-]. tauto.
Qed.

Lemma tcp_parse_total_witness :
  ∃ r, TcpSegment.parse_ipv4_bytes (A4 x0a x00 x00 x01) (A4 x0a x00 x00 x02) [x00; x01] = Ret r ∧
    (r = Err SegmentTooShort ↔ blen [x00; x01] < 20) ∧
    (r = Err InvalidChecksum ↔ 20 ≤ blen [x00; x01] ∧
       csum (pseudo_header (list4 (A4 x0a x00 x00 x01)) (list4 (A4 x0a x00 x00 x02)) (blen [x00; x01])
             ++ [x00; x01]) ≠ 0) ∧
    ∀ s, r = Ok s → TcpSegment.wf s ∧
      ∃ hl, 20 ≤ hl ≤ 60 ∧ hl ≤ blen [x00; x01] ∧
        TcpSegment.payload s = drop (Z.to_nat hl) [x00; x01].
Proof. apply tcp_parse_total. vm_compute. discriminate. Defined.
