(* ===== verification/tcp_receiver.v ===== *)
(** * The TCP receiver ([src/tcp_receiver.rs])

    Turns the segments of the peer's sender into fragments for the reassembler and
    produces the acknowledgement number and window to advertise.  The theorems
    say that receiving never panics, that the receiver delivers a prefix of the
    peer's stream whatever order its segments arrive in, and that what it
    acknowledges is exactly the first sequence number it misses. *)

From S2P Require Import prelude wrapping_integers byte_stream btree_map tcp_message stream.
From S2P Require Import reassembler.

Module TcpReceiver.

Record t := mk {
  reassembler : Reassembler.t;
  isn : option Wrap32.t;
}.

Definition new (capacity : Z) : exec t :=
  r ← Reassembler.new capacity; mret (mk r None).

Definition output (self : t) : ByteStream.t := Reassembler.output (reassembler self).

Definition with_reassembler (self : t) (r : Reassembler.t) : t := mk r (isn self).
(** Assigning through [output_mut()]. *)
Definition with_output (self : t) (o : ByteStream.t) : t :=
  with_reassembler self (Reassembler.with_output (reassembler self) o).

(** The tail of [receive], once the initial sequence number is known. *)
Definition receive_at (self : t) (isn : Wrap32.t) (message : TcpSenderMessage.t)
  : exec (result unit ReassemblerError * t) :=
  let checkpoint := saturating_add u64_max (ByteStream.bytes_pushed (output self)) 1 in
  absolute_seqno ← Wrap32.unwrap (TcpSenderMessage.seqno message) isn checkpoint;
  let stream_index :=
    if TcpSenderMessage.syn message then Some absolute_seqno else checked_sub absolute_seqno 1 in
  match stream_index with
  | None => mret (Ok tt, self)
  | Some stream_index =>
      '(r, reassembler') ←
        Reassembler.try_insert (reassembler self) stream_index
          (TcpSenderMessage.payload message) (TcpSenderMessage.fin message);
      mret (r, with_reassembler self reassembler')
  end.

Definition receive (self : t) (message : TcpSenderMessage.t)
  : exec (result unit ReassemblerError * t) :=
  if TcpSenderMessage.rst message then
    mret (Ok tt, with_output self (ByteStream.set_error (output self)))
  else
    match isn self with
    | Some isn =>
        if TcpSenderMessage.syn message && negb (bool_decide (TcpSenderMessage.seqno message = isn))
        then mret (Ok tt, self)
        else receive_at self isn message
    | None =>
        if negb (TcpSenderMessage.syn message) then mret (Ok tt, self)
        else
          let self := mk (reassembler self) (Some (TcpSenderMessage.seqno message)) in
          receive_at self (TcpSenderMessage.seqno message) message
    end.

Definition send (self : t) : exec TcpReceiverMessage.t :=
  let ackno :=
    match isn self with
    | None => None
    | Some isn =>
        let absolute_ackno := saturating_add u64_max (ByteStream.bytes_pushed (output self)) 1 in
        let absolute_ackno :=
          if ByteStream.is_closed (output self)
          then saturating_add u64_max absolute_ackno 1 else absolute_ackno in
        Some (Wrap32.wrap absolute_ackno isn)
    end in
  available_capacity ← ByteStream.available_capacity (output self);
  let window_size := Z.min available_capacity u16_max in
  mret (TcpReceiverMessage.mk ackno (cast u16_max window_size) (ByteStream.has_error (output self))).

(** What happens to a receiver, as data: segments arrive and the application reads. *)
Inductive op := Receive (message : TcpSenderMessage.t) | PopOutput (len : Z).

Fixpoint run (self : t) (ops : list op)
  : exec (bytes * list (result unit ReassemblerError) * t) :=
  match ops with
  | [] => mret ([], [], self)
  | Receive m :: ops =>
      '(r, self) ← receive self m;
      '(popped, rs, self) ← run self ops;
      mret (popped, r :: rs, self)
  | PopOutput len :: ops =>
      '(b, o) ← ByteStream.pop (output self) len;
      '(popped, rs, self) ← run (with_output self o) ops;
      mret (b ++ popped, rs, self)
  end.

End TcpReceiver.

Section facts.
Import TcpReceiver.
Implicit Types (self : TcpReceiver.t) (m : TcpSenderMessage.t).

(** The state invariant; a message has a 32-bit sequence number and a payload that fits. *)
Definition TRInv self : Prop :=
  RInv (reassembler self) ∧ ∀ i, isn self = Some i → Wrap32.ok i.
Definition msg_ok m : Prop :=
  Wrap32.ok (TcpSenderMessage.seqno m) ∧ blen (TcpSenderMessage.payload m) ≤ u64_max.

Lemma tcp_receiver_new_wp cap : u64 cap →
  TcpReceiver.new cap ⇓ λ self, TRInv self ∧
    self = mk (Reassembler.mk (ByteStream.new cap) [] None) None.
Proof.
  intros Hc. unfold new. wp_step. wp_apply (reassembler_new_wp cap Hc). intros r [HR ->].
  wp_step. by split.
Qed.

(** The stream index a message is given when it starts at absolute number [n]. *)
Definition stream_index m (n : Z) : option Z :=
  if TcpSenderMessage.syn m then Some n else checked_sub n 1.

Lemma receive_at_wp self i m :
  RInv (reassembler self) → Wrap32.ok i → msg_ok m →
  receive_at self i m ⇓ λ '(res, self'), isn self' = isn self ∧ RInv (reassembler self') ∧
    ByteStream.capacity (output self') = ByteStream.capacity (output self) ∧ ∃ n, u64 n ∧ Wrap32.wrap n i = TcpSenderMessage.seqno m ∧
      (∀ n', u64 n' → Wrap32.wrap n' i = TcpSenderMessage.seqno m →
         Z.abs (n - (ByteStream.bytes_pushed (output self) + 1))
         ≤ Z.abs (n' - (ByteStream.bytes_pushed (output self) + 1)) ∨
         ByteStream.bytes_pushed (output self) = u64_max) ∧
      match stream_index m n with
      | None => res = Ok tt ∧ self' = self
      | Some k => u64 k ∧
          Reassembler.try_insert (reassembler self) k (TcpSenderMessage.payload m)
            (TcpSenderMessage.fin m) = Ret (res, reassembler self')
      end.
Proof.
  intros HR Hi [Hs Hl]. unfold receive_at.
  destruct (window_le _ (ri_output _ HR)) as ([H0 H1] & H2 & _). unfold Reassembler.first_unassembled in *.
  fold (output self) in H0, H1.
  wp_step. wp_apply (unwrap_wp (TcpSenderMessage.seqno m) i); [done|done|ulia|].
  intros n (Hn & Hw & Hmin).
  assert (Hmin' : ∀ n', u64 n' → Wrap32.wrap n' i = TcpSenderMessage.seqno m →
         Z.abs (n - (ByteStream.bytes_pushed (output self) + 1))
         ≤ Z.abs (n' - (ByteStream.bytes_pushed (output self) + 1)) ∨
         ByteStream.bytes_pushed (output self) = u64_max).
  { intros n' Hn' Hw'. specialize (Hmin n' Hn' Hw').
    destruct (decide (ByteStream.bytes_pushed (output self) = u64_max)); [by right|left].
    unfold saturating_add in Hmin. rewrite Z.min_r in Hmin by lia. done. }
  fold (stream_index m n). destruct (stream_index m n) as [k|] eqn:Hk.
  2:{ wp_step. split_and!; try done. exists n. rewrite Hk. by split_and!. }
  assert (u64 k).
  { unfold stream_index in Hk. destruct (TcpSenderMessage.syn m); [by simplify_eq|].
    unfold checked_sub in Hk. destruct (Z.leb_spec 1 n); [|done]. injection Hk as <-. ulia. }
  wp_step. pose proof (try_insert_wp (reassembler self) k (TcpSenderMessage.payload m)
    (TcpSenderMessage.fin m) HR ltac:(done) Hl) as Ht. wp_inv Ht. destruct r as [res r'].
  rewrite Heq. wp_step. wp_step. simpl. split_and!; [done| | |].
  - destruct res; [destruct Ht as (_ & new & []); done|by destruct Ht as [-> _]].
  - unfold output. simpl. destruct res; [destruct Ht as (_ & new & Hin)|by destruct Ht as [-> _]].
    rewrite (in_capacity _ _ _ _ _ Hin). by destruct (TcpSenderMessage.fin m).
  - exists n. rewrite Hk. by split_and!.
Qed.

Lemma receive_wp self m : TRInv self → msg_ok m →
  receive self m ⇓ λ '(res, self'), TRInv self' ∧
    ByteStream.capacity (output self') = ByteStream.capacity (output self) ∧
    (res = Ok tt ∨ reassembler self' = reassembler self).
Proof.
  intros [HR Hi] Hm. unfold receive. destruct (TcpSenderMessage.rst m).
  { wp_step. split_and!; [|done|by left]. split; [by apply fail_output_inv|done]. }
  assert (Hat : ∀ self i, RInv (reassembler self) → Wrap32.ok i → isn self = Some i →
    receive_at self i m ⇓ λ '(res, self'), TRInv self' ∧
      ByteStream.capacity (output self') = ByteStream.capacity (output self) ∧ (res = Ok tt ∨ reassembler self' = reassembler self)).
  { clear - Hm. intros self i HR Hi Hisn. wp_apply (receive_at_wp self i m HR Hi Hm).
    intros [res self'] (Hisn' & HR' & Hc & n & _ & _ & _ & Hres). split; [split; [done|congruence]|]. split; [done|].
    destruct (stream_index m n) as [k|] eqn:Ek; [|by left; destruct Hres].
    destruct res as [[]|e]; [by left|right].
    destruct Hres as [Hk Hres].
    pose proof (try_insert_wp (reassembler self) k (TcpSenderMessage.payload m)
      (TcpSenderMessage.fin m) HR Hk (proj2 Hm)) as Ht.
    rewrite Hres in Ht. by destruct Ht. }
  destruct (isn self) as [i|] eqn:Ei.
  - case_match; [wp_step; split_and!; [by split; [|rewrite Ei]|done|by left]|].
    apply Hat; [done|by apply Hi|done].
  - destruct (TcpSenderMessage.syn m); simpl; [|wp_step; split_and!; [by split; [|rewrite Ei]|done|by left]].
    by apply (Hat (mk (reassembler self) (Some (TcpSenderMessage.seqno m)))); [..|apply Hm|].
Qed.

Lemma send_wp self : TRInv self →
  send self ⇓ λ r, TcpReceiverMessage.ok r ∧
    TcpReceiverMessage.rst r = ByteStream.error (output self) ∧
    TcpReceiverMessage.window_size r =
      Z.min u16_max (ByteStream.capacity (output self) - ByteStream.bytes_buffered (output self)) ∧
    TcpReceiverMessage.ackno r =
      (λ i, Wrap32.wrap (Z.min u64_max (ByteStream.bytes_pushed (output self) + 1
               + of_bool (ByteStream.closed (output self)))) i) <$> isn self.
Proof.
  intros [HR Hi]. pose proof (ri_output _ HR) as []. fold (output self) in *.
  pose proof (blen_nonneg (ByteStream.content (output self))).
  unfold send, ByteStream.available_capacity. wp_step. wp_step; [lia|]. wp_step.
  assert (Hw : cast u16_max (Z.min (ByteStream.capacity (output self) - ByteStream.bytes_buffered (output self)) u16_max)
    = Z.min u16_max (ByteStream.capacity (output self) - ByteStream.bytes_buffered (output self))).
  { unfold cast. rewrite Z.mod_small by lia. lia. }
  assert (Ha : match isn self with None => None | Some i => Some (Wrap32.wrap
    (if ByteStream.is_closed (output self)
     then saturating_add u64_max (saturating_add u64_max (ByteStream.bytes_pushed (output self)) 1) 1
     else saturating_add u64_max (ByteStream.bytes_pushed (output self)) 1) i) end
    = (λ i, Wrap32.wrap (Z.min u64_max (ByteStream.bytes_pushed (output self) + 1
               + of_bool (ByteStream.closed (output self)))) i) <$> isn self).
  { destruct (isn self); simpl; [|done]. do 2 f_equal. unfold ByteStream.is_closed, saturating_add.
    destruct (ByteStream.closed (output self)); simpl; lia. }
  rewrite Hw, Ha. split_and!; simpl; try done. unfold TcpReceiverMessage.ok. simpl. split; [ulia|].
  destruct (isn self); simpl; [apply wrap_ok|done].
Qed.

(** *** Segments of one stream *)

(** [m] is a segment of the peer whose stream is [S] and whose initial sequence
    number is [z]; [n] is its absolute number. *)
Definition segment_of (S : bytes) (z : Wrap32.t) (m : TcpSenderMessage.t) (n : Z) : Prop :=
  TcpSenderMessage.rst m = false ∧ carries S z m n.

(** The receiver and its reader agree with [S]; the stream has started. *)
Definition receiving (S : bytes) (z : Wrap32.t) (popped : bytes) self : Prop :=
  agrees S popped (reassembler self) ∧
  (isn self = Some z ∨ isn self = None ∧ popped = [] ∧
    reassembler self = Reassembler.mk (ByteStream.new (ByteStream.capacity (output self))) [] None).

Lemma wrap_0 z : Wrap32.ok z → Wrap32.wrap 0 z = z.
Proof.
  intros Hz. apply wrap_eq_iff; [done|done|]. rewrite Z.sub_diag. done.
Qed.

(** One segment, less than half the sequence space away from the next byte. *)
Lemma receive_segment S z popped self m n :
  receiving S z popped self → Wrap32.ok z → blen S ≤ u64_max - 2 → segment_of S z m n →
  (isn self = None → TcpSenderMessage.syn m = true) →
  Z.abs (n - (ByteStream.bytes_pushed (output self) + 1)) < 2 ^ 31 →
  receive self m ⇓ λ '(res, self'), res = Ok tt ∧ receiving S z popped self' ∧ isn self' = Some z ∧
    Reassembler.try_insert (reassembler self) (if TcpSenderMessage.syn m then 0 else n - 1)
      (TcpSenderMessage.payload m) (TcpSenderMessage.fin m) = Ret (Ok tt, reassembler self').
Proof.
  intros [Ha Hisn] Hz HS (Hrst & Hseq & Hsyn & Hn & Hp) Hfirst Hnear. unfold receive. rewrite Hrst.
  pose proof Hp as (? & ? & _ & _). pose proof (blen_nonneg (TcpSenderMessage.payload m)).
  assert (Hat : ∀ self0, reassembler self0 = reassembler self → isn self0 = Some z →
    receive_at self0 z m ⇓ λ '(res, self'), res = Ok tt ∧ receiving S z popped self' ∧ isn self' = Some z ∧
      Reassembler.try_insert (reassembler self) (if TcpSenderMessage.syn m then 0 else n - 1)
      (TcpSenderMessage.payload m) (TcpSenderMessage.fin m) = Ret (Ok tt, reassembler self')).
  { intros self0 Hr0 Hi0. unfold receive_at, output. rewrite Hr0. fold (output self).
    pose proof (ag_bound _ _ _ Ha) as Hb. pose proof (ag_inv _ _ _ Ha) as HR.
    destruct (window_le _ (ri_output _ HR)) as ([H0' _] & _).
    unfold Reassembler.first_unassembled in *. fold (output self) in *.
    unfold saturating_add. rewrite Z.min_r by lia. rewrite Hseq.
    assert (Hn64 : u64 n).
    { destruct (TcpSenderMessage.syn m); [rewrite (proj1 Hsyn eq_refl)|]; ulia. }
    rewrite unwrap_wrap_near by (done || ulia). wp_step. wp_step.
    assert (Hk : (if TcpSenderMessage.syn m then Some n else checked_sub n 1)
                 = Some (if TcpSenderMessage.syn m then 0 else n - 1)).
    { destruct (TcpSenderMessage.syn m); [by rewrite (proj1 Hsyn eq_refl)|].
      apply checked_sub_Some. destruct (decide (n = 0)) as [E|]; [by apply Hsyn in E|lia]. }
    rewrite Hk. wp_step.
    pose proof (with_last_inserted S popped _ _ _ _ Ha Hp ltac:(lia)) as Ht. wp_inv Ht.
    destruct r as [res r']. destruct Ht as (-> & new & _ & _ & Ha'). rewrite Heq. wp_step. wp_step.
    split_and!; try done. split; [done|]. by left. }
  destruct Hisn as [Hi|(Hi & Hpop & Hnew)]; rewrite Hi.
  - assert (Hok : TcpSenderMessage.syn m && negb (bool_decide (TcpSenderMessage.seqno m = z)) = false).
    { destruct (TcpSenderMessage.syn m); [simpl|done].
      rewrite Hseq, (proj1 Hsyn eq_refl), wrap_0 by done. by rewrite bool_decide_eq_true_2. }
    rewrite Hok. by apply Hat.
  - rewrite (Hfirst Hi) in *. simpl. rewrite Hseq, (proj1 Hsyn eq_refl), wrap_0 by done.
    by apply (Hat (mk (reassembler self) (Some z))).
Qed.

Definition op_wf (o : op) : Prop :=
  match o with Receive m => msg_ok m | PopOutput len => 0 ≤ len end.

Lemma receiver_run_wp self ops : TRInv self → Forall op_wf ops →
  run self ops ⇓ λ '(_, _, self'), TRInv self' ∧
    ByteStream.capacity (output self') = ByteStream.capacity (output self).
Proof.
  intros HT Hops. revert self HT. induction Hops as [|o ops Ho _ IH]; intros self HT; simpl.
  { by wp_step. }
  destruct o as [m|len]; simpl in Ho.
  - wp_step. wp_apply (receive_wp self m HT Ho). intros [res self1] (HT1 & Hc1 & _). wp_step. wp_apply (IH self1 HT1).
    intros [[p rs] self2] [HT2 Hc2]. wp_step. split; [done|congruence].
  - destruct HT as [HR Hi]. wp_step. wp_apply (pop_output_wp (reassembler self) len HR Ho).
    intros [b o] (HR1 & _ & (Hc & _) & _). wp_step. wp_apply (IH (with_output self o)); [by split|].
    intros [[p rs] self2] [HT2 Hc2]. wp_step. split; [done|]. rewrite Hc2. exact Hc.
Qed.

(** The operations the peer with stream [S] and initial number [z] can cause. *)
Definition op_from (S : bytes) (z : Wrap32.t) (o : op) : Prop :=
  match o with
  | Receive m => ∃ n, segment_of S z m n
  | PopOutput len => 0 ≤ len
  end.

Lemma pop_new cap len : ByteStream.pop (ByteStream.new cap) len = Ret ([], ByteStream.new cap).
Proof. done. Qed.

(** Reading keeps the agreement. *)
Lemma receiving_pop S z popped self len : receiving S z popped self → 0 ≤ len →
  ByteStream.pop (output self) len ⇓ λ '(b, o), receiving S z (popped ++ b) (with_output self o).
Proof.
  intros [Ha Hi] Ho.
  destruct Hi as [Hi|(Hi & -> & Hnew)].
      - wp_apply (pop_agrees S popped (reassembler self) len Ha Ho). intros [b o] Ha'. split; [done|by left].
      - assert (Ho' : output self = ByteStream.new (ByteStream.capacity (output self)))
          by (unfold output at 1; by rewrite Hnew).
        rewrite Ho', pop_new. wp_step.
        assert (Hsame : with_output self (ByteStream.new (ByteStream.capacity (output self))) = self).
        { rewrite <- Ho'. unfold with_output, with_reassembler, Reassembler.with_output, output.
          by destruct self as [[] ?]. }
        rewrite Hsame. split; [done|]. by right.
Qed.

Lemma run_receiving S z popped self ops :
  receiving S z popped self → Wrap32.ok z → blen S < 2 ^ 31 - 1 → Forall (op_from S z) ops →
  run self ops ⇓ λ '(p, rs, self'), Forall (λ x, x = Ok tt) rs ∧ receiving S z (popped ++ p) self'.
Proof.
  intros Hr Hz HS Hops. revert popped self Hr.
  induction Hops as [|o ops Ho _ IH]; intros popped self Hr; simpl.
  { wp_step. by rewrite app_nil_r. }
  destruct o as [m|len]; simpl in Ho.
  - destruct Ho as [n Hm]. wp_step.
    assert (Hcase : receive self m ⇓ λ '(res, self'), res = Ok tt ∧ receiving S z popped self').
    { destruct (isn self) as [i|] eqn:Ei; [|destruct (TcpSenderMessage.syn m) eqn:Esyn].
      3:{ unfold receive. rewrite Ei, Esyn. destruct Hm as (-> & _). simpl. by wp_step. }
      all: wp_apply (receive_segment S z popped self m n);
        [done|done|lia|done|intros; congruence| |intros [res self'] (-> & Hr' & _); done].
      all: destruct Hr as [Ha _]; pose proof (ag_bound _ _ _ Ha); destruct Hm as (_ & _ & Hsyn & Hn & (Hf & Hle & _));
        destruct (window_le _ (ri_output _ (ag_inv _ _ _ Ha))) as ([H0 _] & _);
        unfold Reassembler.first_unassembled in *; fold (output self) in *;
        pose proof (blen_nonneg (TcpSenderMessage.payload m));
        (destruct (TcpSenderMessage.syn m); [rewrite (proj1 Hsyn eq_refl)|]; lia). }
    wp_apply Hcase. intros [res self1] [-> Hr1]. wp_step. wp_apply (IH popped self1 Hr1).
    intros [[p rs] self2] [? ?]. wp_step. split; [by constructor|done].
  - wp_step. wp_apply (receiving_pop S z popped self len Hr Ho). intros [b o] Hr1. wp_step. wp_apply (IH _ _ Hr1).
    intros [[p rs] self2] [? ?]. wp_step. by rewrite app_assoc.
Qed.
End facts.

(** C36: The receiver is panic-free and stays within its window. Whatever well-typed
    messages arrive, interleaved with reads, [receive] returns, the invariant holds,
    and [send] returns a message whose window is exactly the free space of the
    output (at most 65535) and which acknowledges the byte after the last one
    assembled, counting the SYN and, once the output is closed, the FIN. *)
Theorem tcp_receiver_never_panics cap ops :
  u64 cap → Forall op_wf ops →
  ∃ popped results self msg,
    (self ← TcpReceiver.new cap; TcpReceiver.run self ops) = Ret (popped, results, self) ∧
    TcpReceiver.send self = Ret msg ∧ TRInv self ∧ TcpReceiverMessage.ok msg ∧
    TcpReceiverMessage.rst msg = ByteStream.error (TcpReceiver.output self) ∧
    TcpReceiverMessage.window_size msg
      = Z.min u16_max (cap - blen (ByteStream.content (TcpReceiver.output self))) ∧
    TcpReceiverMessage.ackno msg =
      (λ i, Wrap32.wrap (Z.min u64_max (ByteStream.bytes_pushed (TcpReceiver.output self) + 1
              + of_bool (ByteStream.closed (TcpReceiver.output self)))) i) <$> TcpReceiver.isn self.
Proof.
  intros Hcap Hops. pose proof (tcp_receiver_new_wp cap Hcap) as H. wp_inv H. destruct H as [HT ->].
  pose proof (receiver_run_wp _ ops HT Hops) as H. wp_inv H. destruct r as [[popped results] self].
  destruct H as [HT' Hc]. pose proof (send_wp self HT') as H. wp_inv H.
  destruct H as (Hok & Hrst & Hw & Hack). exists popped, results, self, r.
  rewrite Heq, bind_Ret. split_and!; try done. destruct HT' as [HR _].
  rewrite Hw, Hc. simpl. pose proof (ByteStream.inv_buffered _ (ri_output _ HR)) as Hb.
  unfold TcpReceiver.output in *. by rewrite Hb.
Qed.

Lemma tcp_receiver_never_panics_witness :
  let ops := [TcpReceiver.Receive (TcpSenderMessage.mk (Wrap32.new 4294967295) true [x61] false false);
              TcpReceiver.Receive (TcpSenderMessage.mk (Wrap32.new 3) false [x62; x63] true false);
              TcpReceiver.PopOutput 1;
              TcpReceiver.Receive (TcpSenderMessage.mk (Wrap32.new 5) false [x62; x63] true false);
              TcpReceiver.Receive (TcpSenderMessage.mk (Wrap32.new 1) false [x64] false true)] in
  ∃ popped results self msg,
    (self ← TcpReceiver.new 3; TcpReceiver.run self ops) = Ret (popped, results, self) ∧
    TcpReceiver.send self = Ret msg ∧ TRInv self ∧ TcpReceiverMessage.ok msg ∧
    TcpReceiverMessage.rst msg = ByteStream.error (TcpReceiver.output self) ∧
    TcpReceiverMessage.window_size msg
      = Z.min u16_max (3 - blen (ByteStream.content (TcpReceiver.output self))) ∧
    TcpReceiverMessage.ackno msg =
      (λ i, Wrap32.wrap (Z.min u64_max (ByteStream.bytes_pushed (TcpReceiver.output self) + 1
              + of_bool (ByteStream.closed (TcpReceiver.output self)))) i) <$> TcpReceiver.isn self.
Proof.
  intros ops. apply tcp_receiver_never_panics; [unfold u64; lia|].
  repeat constructor; unfold Wrap32.ok, u32, blen; simpl; lia.
Defined.

(** C15: Reliable delivery. If every message is a segment of one peer, with stream [S]
    shorter than half the sequence space and initial number [z] (lost, duplicated,
    reordered, overlapping at will, interleaved with reads), then every one is accepted,
    the application has read and can read exactly a prefix of [S], the output is
    closed only at the end of [S], and the acknowledgement is the number of the first
    byte (or FIN) not yet assembled. *)
Theorem tcp_receiver_delivers S z cap ops :
  u64 cap → Wrap32.ok z → blen S < 2 ^ 31 - 1 → Forall (op_from S z) ops →
  ∃ popped results self msg n,
    (self ← TcpReceiver.new cap; TcpReceiver.run self ops) = Ret (popped, results, self) ∧
    Forall (λ x, x = Ok tt) results ∧ 0 ≤ n ≤ blen S ∧
    popped ++ ByteStream.content (TcpReceiver.output self) = sub 0 n S ∧
    (ByteStream.closed (TcpReceiver.output self) = true → n = blen S) ∧
    TcpReceiver.send self = Ret msg ∧
    (TcpReceiver.isn self = None ∧ TcpReceiverMessage.ackno msg = None ∨
     TcpReceiverMessage.ackno msg =
       Some (Wrap32.wrap (n + 1 + of_bool (ByteStream.closed (TcpReceiver.output self))) z)).
Proof.
  intros Hcap Hz HS Hops. pose proof (tcp_receiver_new_wp cap Hcap) as H. wp_inv H. destruct H as [HT ->].
  assert (Hr0 : receiving S z [] (TcpReceiver.mk (Reassembler.mk (ByteStream.new cap) [] None) None)).
  { pose proof (new_agrees S cap Hcap) as H. wp_inv H. destruct H as [Ha ->]. split; [done|]. by right. }
  pose proof (run_receiving S z [] _ ops Hr0 Hz HS Hops) as H. wp_inv H.
  destruct r as [[popped results] self]. destruct H as [Hres [Ha Hi]]. simpl in Ha.
  assert (HT' : TRInv self).
  { split; [apply Ha|]. intros i Hi'. destruct Hi as [Hi|(Hi & _)]; congruence. }
  pose proof (send_wp self HT') as H. wp_inv H. destruct H as (_ & _ & _ & Hack).
  pose proof Ha as [Hinv Heof _ Hout Hb _]. destruct (window_le _ (ri_output _ Hinv)) as ([H0 _] & _).
  exists popped, results, self, r, (Reassembler.first_unassembled (TcpReceiver.reassembler self)).
  rewrite Heq, bind_Ret. split_and!; try done.
  - intros Hcl. by apply Heof, (ri_closed _ Hinv).
  - destruct Hi as [Hi|(Hi & _)]; rewrite Hi in Hack; [right|by left].
    rewrite Hack. simpl. unfold Reassembler.first_unassembled in *.
    fold (TcpReceiver.output self) in *. rewrite Z.min_r; [done|].
    pose proof (of_bool_range (ByteStream.closed (TcpReceiver.output self))). lia.
Qed.

Lemma tcp_receiver_delivers_witness :
  let ops := [TcpReceiver.Receive (TcpSenderMessage.mk (Wrap32.new 1) false [x62; x63] true false);
              TcpReceiver.Receive (TcpSenderMessage.mk (Wrap32.new 4294967295) true [] false false);
              TcpReceiver.Receive (TcpSenderMessage.mk (Wrap32.new 1) false [x62; x63] true false);
              TcpReceiver.Receive (TcpSenderMessage.mk (Wrap32.new 0) false [x61; x62] false false);
              TcpReceiver.PopOutput 2] in
  ∃ popped results self msg n,
    (self ← TcpReceiver.new 100; TcpReceiver.run self ops) = Ret (popped, results, self) ∧
    Forall (λ x, x = Ok tt) results ∧ 0 ≤ n ≤ blen [x61; x62; x63] ∧
    popped ++ ByteStream.content (TcpReceiver.output self) = sub 0 n [x61; x62; x63] ∧
    (ByteStream.closed (TcpReceiver.output self) = true → n = blen [x61; x62; x63]) ∧
    TcpReceiver.send self = Ret msg ∧
    (TcpReceiver.isn self = None ∧ TcpReceiverMessage.ackno msg = None ∨
     TcpReceiverMessage.ackno msg =
       Some (Wrap32.wrap (n + 1 + of_bool (ByteStream.closed (TcpReceiver.output self))) (Wrap32.new 4294967295))).
Proof.
  intros ops. apply tcp_receiver_delivers; [unfold u64; lia|unfold Wrap32.ok, u32; simpl; lia|by vm_compute|].
  repeat constructor; try (simpl; lia).
  - exists 2. unfold segment_of, piece_of, blen. simpl. split_and!; try done; lia.
  - exists 0. unfold segment_of, piece_of, blen. simpl. split_and!; try done; lia.
  - exists 2. unfold segment_of, piece_of, blen. simpl. split_and!; try done; lia.
  - exists 1. unfold segment_of, piece_of, blen. simpl. split_and!; try done; lia.
Defined.

(** A late duplicate of the SYN is misplaced. [receive] unwraps the number of a SYN
    relative to the bytes already assembled, although a SYN is always number 0: once
    more than 2^31 bytes have arrived, the data of a retransmitted SYN segment is
    offered to the reassembler at stream index 2^32 instead of 0. *)
Theorem duplicate_syn_misplaced self i m :
  TRInv self → TcpReceiver.isn self = Some i →
  TcpSenderMessage.rst m = false → TcpSenderMessage.syn m = true → TcpSenderMessage.seqno m = i →
  2 ^ 31 ≤ ByteStream.bytes_pushed (TcpReceiver.output self) < 2 ^ 32 + 2 ^ 31 - 1 →
  TcpReceiver.receive self m =
    ('(r, reassembler') ←
       Reassembler.try_insert (TcpReceiver.reassembler self) (2 ^ 32)
         (TcpSenderMessage.payload m) (TcpSenderMessage.fin m);
     mret (r, TcpReceiver.with_reassembler self reassembler')).
Proof.
  intros [HR Hi] Hisn Hrst Hsyn Hseq Hp. specialize (Hi _ Hisn).
  unfold TcpReceiver.receive. rewrite Hrst, Hisn, Hsyn, Hseq.
  rewrite bool_decide_eq_true_2 by done. cbn [andb negb]. unfold TcpReceiver.receive_at.
  rewrite Hseq, Hsyn. unfold saturating_add. rewrite Z.min_r by lia.
  assert (Hw : i = Wrap32.wrap (2 ^ 32) i).
  { symmetry. apply wrap_eq_iff; [done|done|]. by rewrite Z.sub_diag. }
  rewrite Hw at 1. rewrite unwrap_wrap_near, bind_Ret by (done || ulia). done.
Qed.

Lemma duplicate_syn_misplaced_witness :
  let self := TcpReceiver.mk
    (Reassembler.mk (ByteStream.mk 65536 [] 0 false false (2 ^ 31) (2 ^ 31)) [] None) (Some (Wrap32.new 7)) in
  let m := TcpSenderMessage.mk (Wrap32.new 7) true [x61] false false in
  TcpReceiver.receive self m =
    ('(r, reassembler') ←
       Reassembler.try_insert (TcpReceiver.reassembler self) (2 ^ 32)
         (TcpSenderMessage.payload m) (TcpSenderMessage.fin m);
     mret (r, TcpReceiver.with_reassembler self reassembler')).
Proof.
  intros self m. apply (duplicate_syn_misplaced self (Wrap32.new 7)); try done.
  split.
  - by split.
  - intros j [= <-]. unfold Wrap32.ok, u32. simpl. lia.
Defined.
