(* ===== verification/tcp_sender.v ===== *)
(** * The TCP sender ([src/tcp_sender.rs])

    Segments the application's bytes into the peer's window, keeps what is not yet
    acknowledged, and retransmits the oldest segment when its timer expires, with
    separate back-off for loss and for zero-window probes.  The messages handed to
    the [transmit] callback are returned as a list, in order. *)

From S2P Require Import prelude wrapping_integers byte_stream tcp_message stream.

Module TcpSenderConfig.

Record t := mk {
  initial_rto_ms : Z;
  max_timer_interval_ms : Z;
  max_payload_size : Z;
}.

Definition default : t := mk 1000 60000 1000.

(** What [TcpSender::new] asserts, and the types of the fields. *)
Definition ok (c : t) : Prop :=
  0 < initial_rto_ms c ≤ max_timer_interval_ms c ∧ u64 (max_timer_interval_ms c) ∧
  0 < max_payload_size c ∧ u64 (max_payload_size c).

End TcpSenderConfig.

Inductive TimerMode := Retransmission | Persist.

#[global] Instance TimerMode_eq_dec : EqDecision TimerMode.
Proof. solve_decision. Defined.

Module Timer.

Record t := mk {
  running : bool;
  elapsed_ms : Z;
  timeout_ms : Z;
  mode : option TimerMode;
}.

Definition default : t := mk false 0 0 None.

Definition restart (timeout_ms : Z) (mode : TimerMode) : exec t :=
  _ ← assert (0 <? timeout_ms);
  mret (mk true 0 timeout_ms (Some mode)).

Definition stop : t := mk false 0 0 None.

Definition tick (self : t) (elapsed_ms' : Z) : bool * t :=
  if negb (running self) then (false, self)
  else
    let self := mk (running self) (saturating_add u64_max (elapsed_ms self) elapsed_ms')
                   (timeout_ms self) (mode self) in
    (timeout_ms self <=? elapsed_ms self, self).

End Timer.

Module OutstandingSegment.

Record t := mk { absolute_start : Z; message : TcpSenderMessage.t }.

Definition sequence_length (self : t) : Z := TcpSenderMessage.sequence_length (message self).

Definition absolute_end (self : t) : exec Z :=
  expect (checked_add u64_max (absolute_start self) (sequence_length self)).

Definition trim_prefix (self : t) (acknowledged_length : Z) (isn : Wrap32.t) : exec t :=
  _ ← assert (0 <? acknowledged_length);
  _ ← assert (acknowledged_length <? sequence_length self);
  let '(TcpSenderMessage.mk seqno syn payload fin rst) := message self in
  let remaining := acknowledged_length in
  '(syn, remaining) ←
    (if syn && (0 <? remaining)
     then remaining ← sub_u remaining 1; mret (false, remaining) else mret (syn, remaining));
  let payload_to_drop := Z.min remaining (blen payload) in
  '(payload, remaining) ←
    (if 0 <? payload_to_drop
     then payload' ← slice_from payload_to_drop payload;
          remaining ← sub_u remaining payload_to_drop;
          mret (payload', remaining)
     else mret (payload, remaining));
  '(fin, remaining) ←
    (if fin && (0 <? remaining)
     then _ ← assert (remaining =? 1);
          remaining ← sub_u remaining 1;
          mret (false, remaining)
     else mret (fin, remaining));
  _ ← assert (remaining =? 0);
  absolute_start' ← expect (checked_add u64_max (absolute_start self) acknowledged_length);
  let message' := TcpSenderMessage.mk (Wrap32.wrap absolute_start' isn) syn payload fin rst in
  _ ← assert (negb (TcpSenderMessage.is_empty_in_sequence_space message'));
  mret (mk absolute_start' message').

End OutstandingSegment.

Module TcpSender.

Record t := mk {
  outbound : ByteStream.t;
  isn : Wrap32.t;
  snd_una : Z;
  snd_nxt : Z;
  advertised_window : Z;
  outstanding : list OutstandingSegment.t;
  syn_sent : bool;
  fin_sent : bool;
  config : TcpSenderConfig.t;
  current_rto_ms : Z;
  persist_interval_ms : Z;
  timer : Timer.t;
  consecutive_retransmissions : Z;
}.

(** Assignments to one field. *)
Definition with_outbound (self : t) x : t :=
  mk x (isn self) (snd_una self) (snd_nxt self) (advertised_window self) (outstanding self)
    (syn_sent self) (fin_sent self) (config self) (current_rto_ms self) (persist_interval_ms self)
    (timer self) (consecutive_retransmissions self).
Definition with_snd_una (self : t) x : t :=
  mk (outbound self) (isn self) x (snd_nxt self) (advertised_window self) (outstanding self)
    (syn_sent self) (fin_sent self) (config self) (current_rto_ms self) (persist_interval_ms self)
    (timer self) (consecutive_retransmissions self).
Definition with_snd_nxt (self : t) x : t :=
  mk (outbound self) (isn self) (snd_una self) x (advertised_window self) (outstanding self)
    (syn_sent self) (fin_sent self) (config self) (current_rto_ms self) (persist_interval_ms self)
    (timer self) (consecutive_retransmissions self).
Definition with_advertised_window (self : t) x : t :=
  mk (outbound self) (isn self) (snd_una self) (snd_nxt self) x (outstanding self)
    (syn_sent self) (fin_sent self) (config self) (current_rto_ms self) (persist_interval_ms self)
    (timer self) (consecutive_retransmissions self).
Definition with_outstanding (self : t) x : t :=
  mk (outbound self) (isn self) (snd_una self) (snd_nxt self) (advertised_window self) x
    (syn_sent self) (fin_sent self) (config self) (current_rto_ms self) (persist_interval_ms self)
    (timer self) (consecutive_retransmissions self).
Definition with_syn_sent (self : t) x : t :=
  mk (outbound self) (isn self) (snd_una self) (snd_nxt self) (advertised_window self) (outstanding self)
    x (fin_sent self) (config self) (current_rto_ms self) (persist_interval_ms self)
    (timer self) (consecutive_retransmissions self).
Definition with_fin_sent (self : t) x : t :=
  mk (outbound self) (isn self) (snd_una self) (snd_nxt self) (advertised_window self) (outstanding self)
    (syn_sent self) x (config self) (current_rto_ms self) (persist_interval_ms self)
    (timer self) (consecutive_retransmissions self).
(** The retransmission state, as one assignment. *)
Definition with_backoff (self : t) (rto persist consecutive : Z) : t :=
  mk (outbound self) (isn self) (snd_una self) (snd_nxt self) (advertised_window self) (outstanding self)
    (syn_sent self) (fin_sent self) (config self) rto persist (timer self) consecutive.
Definition with_timer (self : t) x : t :=
  mk (outbound self) (isn self) (snd_una self) (snd_nxt self) (advertised_window self) (outstanding self)
    (syn_sent self) (fin_sent self) (config self) (current_rto_ms self) (persist_interval_ms self)
    x (consecutive_retransmissions self).

Definition new (capacity : Z) (isn : Wrap32.t) (config : TcpSenderConfig.t) : exec t :=
  _ ← assert (0 <? TcpSenderConfig.initial_rto_ms config);
  _ ← assert (TcpSenderConfig.initial_rto_ms config <=? TcpSenderConfig.max_timer_interval_ms config);
  _ ← assert (0 <? TcpSenderConfig.max_payload_size config);
  mret (mk (ByteStream.new capacity) isn 0 0 1 [] false false config
          (TcpSenderConfig.initial_rto_ms config) (TcpSenderConfig.initial_rto_ms config)
          Timer.default 0).

Definition bytes_in_flight (self : t) : exec Z := expect (checked_sub (snd_nxt self) (snd_una self)).

Definition timer_timeout_ms (self : t) : option Z :=
  if Timer.running (timer self) then Some (Timer.timeout_ms (timer self)) else None.

Definition is_finished (self : t) : bool :=
  fin_sent self && match outstanding self with [] => true | _ => false end.

Definition make_empty_message (self : t) : TcpSenderMessage.t :=
  TcpSenderMessage.mk (Wrap32.wrap (snd_nxt self) (isn self)) false [] false
    (ByteStream.has_error (outbound self)).

Definition backed_off (self : t) (timeout_ms : Z) : Z :=
  Z.min (saturating_mul u64_max timeout_ms 2) (TcpSenderConfig.max_timer_interval_ms (config self)).

Definition read_outbound_payload (self : t) (max_len : Z) : exec (bytes * t) :=
  if max_len =? 0 then mret ([], self)
  else
    let target_len := Z.min max_len (ByteStream.bytes_buffered (outbound self)) in
    '(b, o) ← ByteStream.pop (outbound self) target_len;
    mret (b, with_outbound self o).

Definition restart_timer_for_current_window (self : t) : exec t :=
  match outstanding self with
  | [] => mret (with_timer self Timer.stop)
  | _ =>
      if advertised_window self =? 0
      then tm ← Timer.restart (persist_interval_ms self) Persist; mret (with_timer self tm)
      else tm ← Timer.restart (current_rto_ms self) Retransmission; mret (with_timer self tm)
  end.

Definition track_and_transmit (self : t) (message : TcpSenderMessage.t)
  : exec (TcpSenderMessage.t * t) :=
  let sequence_length := TcpSenderMessage.sequence_length message in
  _ ← assert (0 <? sequence_length);
  let absolute_start := snd_nxt self in
  snd_nxt' ← expect (checked_add u64_max (snd_nxt self) sequence_length);
  let self := with_snd_nxt self snd_nxt' in
  let should_start_timer := match outstanding self with [] => true | _ => false end in
  let self := with_outstanding self
                (outstanding self ++ [OutstandingSegment.mk absolute_start message]) in
  self ← (if should_start_timer then restart_timer_for_current_window self else mret self);
  mret (message, self).

(** The [for] loop of [debug_check_invariants]. *)
Fixpoint check_segments (previous_end : Z) (segments : list OutstandingSegment.t) : exec unit :=
  match segments with
  | [] => mret tt
  | segment :: segments =>
      _ ← assert (negb (TcpSenderMessage.is_empty_in_sequence_space (OutstandingSegment.message segment)));
      _ ← assert (previous_end <=? OutstandingSegment.absolute_start segment);
      previous_end ← OutstandingSegment.absolute_end segment;
      check_segments previous_end segments
  end.

Definition debug_check_invariants (self : t) : exec unit :=
  _ ← assert (snd_una self <=? snd_nxt self);
  _ ← check_segments (snd_una self) (outstanding self);
  _ ← match outstanding self with
      | first :: _ => assert (OutstandingSegment.absolute_start first =? snd_una self)
      | [] => assert (snd_una self =? snd_nxt self)
      end;
  in_flight ← bytes_in_flight self;
  difference ← sub_u (snd_nxt self) (snd_una self);
  assert (in_flight =? difference).

(** One turn of [push]'s loop, up to the test for an empty message. *)
Definition next_message (self : t) (available_sequence_space : Z)
  : exec (TcpSenderMessage.t * t) :=
  let message := make_empty_message self in
  let remaining_sequence_space := available_sequence_space in
  '(syn, self, remaining_sequence_space) ←
    (if negb (syn_sent self) && (0 <? remaining_sequence_space)
     then remaining ← sub_u remaining_sequence_space 1; mret (true, with_syn_sent self true, remaining)
     else mret (false, self, remaining_sequence_space));
  let payload_budget :=
    Z.min (cast usize_max remaining_sequence_space)
          (TcpSenderConfig.max_payload_size (config self)) in
  '(payload, self) ← read_outbound_payload self payload_budget;
  remaining_sequence_space ← sub_u remaining_sequence_space (blen payload);
  let send_fin :=
    negb (fin_sent self) && ByteStream.is_closed (outbound self)
    && (ByteStream.bytes_buffered (outbound self) =? 0) && (0 <? remaining_sequence_space) in
  let self := if send_fin then with_fin_sent self true else self in
  mret (TcpSenderMessage.mk (TcpSenderMessage.seqno message) syn payload send_fin
          (TcpSenderMessage.rst message), self).

(** The [while] loop of [push]. *)
Fixpoint push_loop (fuel : nat) (self : t) (effective_window : Z)
  : exec (list TcpSenderMessage.t * t) :=
  match fuel with
  | O => Fault OutOfFuel
  | S fuel =>
      in_flight ← bytes_in_flight self;
      if in_flight <? effective_window then
        available_sequence_space ← sub_u effective_window in_flight;
        '(message, self) ← next_message self available_sequence_space;
        if TcpSenderMessage.is_empty_in_sequence_space message then mret ([], self)
        else
          '(message, self) ← track_and_transmit self message;
          '(messages, self) ← push_loop fuel self effective_window;
          mret (message :: messages, self)
      else mret ([], self)
  end.

Definition push (self : t) : exec (list TcpSenderMessage.t * t) :=
  let effective_window := Z.max (advertised_window self) 1 in
  '(messages, self) ← push_loop (S (Z.to_nat effective_window)) self effective_window;
  _ ← debug_check_invariants self;
  mret (messages, self).

(** The [while] loop of [discard_acknowledged_prefix]. *)
Fixpoint pop_acknowledged (una : Z) (segments : list OutstandingSegment.t)
  : exec (list OutstandingSegment.t) :=
  match segments with
  | [] => mret []
  | segment :: rest =>
      e ← OutstandingSegment.absolute_end segment;
      if e <=? una then pop_acknowledged una rest else mret segments
  end.

Definition discard_acknowledged_prefix (self : t) : exec t :=
  segments ← pop_acknowledged (snd_una self) (outstanding self);
  match segments with
  | front :: rest =>
      if OutstandingSegment.absolute_start front <? snd_una self then
        acknowledged_prefix ← sub_u (snd_una self) (OutstandingSegment.absolute_start front);
        front ← OutstandingSegment.trim_prefix front acknowledged_prefix (isn self);
        mret (with_outstanding self (front :: rest))
      else mret (with_outstanding self segments)
  | [] => mret (with_outstanding self [])
  end.

Definition abort (self : t) : t :=
  let self := with_outbound self (ByteStream.set_error (outbound self)) in
  let self := with_outstanding self [] in
  let self := with_snd_una self (snd_nxt self) in
  with_timer self Timer.stop.

Definition receive (self : t) (message : TcpReceiverMessage.t) : exec t :=
  if TcpReceiverMessage.rst message then mret (abort self)
  else
    let new_window := TcpReceiverMessage.window_size message in
    match TcpReceiverMessage.ackno message with
    | None =>
        let window_changed := negb (advertised_window self =? new_window) in
        let self := with_advertised_window self new_window in
        self ← (if window_changed && match outstanding self with [] => false | _ => true end
                then restart_timer_for_current_window self else mret self);
        _ ← debug_check_invariants self;
        mret self
    | Some wrapped_ackno =>
        absolute_ackno ← Wrap32.unwrap wrapped_ackno (isn self) (snd_nxt self);
        if snd_nxt self <? absolute_ackno then mret self
        else
          let window_changed := negb (advertised_window self =? new_window) in
          let self := with_advertised_window self new_window in
          let ack_advanced := snd_una self <? absolute_ackno in
          self ←
            (if ack_advanced then
               self ← discard_acknowledged_prefix (with_snd_una self absolute_ackno);
               mret (with_backoff self (TcpSenderConfig.initial_rto_ms (config self))
                       (TcpSenderConfig.initial_rto_ms (config self)) 0)
             else mret self);
          self ←
            match outstanding self with
            | [] => mret (with_timer self Timer.stop)
            | _ => if ack_advanced || window_changed
                   then restart_timer_for_current_window self else mret self
            end;
          _ ← debug_check_invariants self;
          mret self
    end.

Definition tick (self : t) (elapsed_ms : Z) : exec (list TcpSenderMessage.t * t) :=
  let '(expired, tm) := Timer.tick (timer self) elapsed_ms in
  let self := with_timer self tm in
  if negb expired then mret ([], self)
  else
    match outstanding self with
    | [] => mret ([], with_timer self Timer.stop)
    | oldest :: _ =>
        let message := OutstandingSegment.message oldest in
        let self :=
          if advertised_window self =? 0 then
            with_backoff self (current_rto_ms self) (backed_off self (persist_interval_ms self))
              (consecutive_retransmissions self)
          else
            with_backoff self (backed_off self (current_rto_ms self)) (persist_interval_ms self)
              (saturating_add u64_max (consecutive_retransmissions self) 1) in
        self ← restart_timer_for_current_window self;
        _ ← debug_check_invariants self;
        mret ([message], self)
    end.

(** What happens to a sender, as data: the application writes to and closes
    [outbound_mut()], the owner calls [push], feedback arrives, time passes.  A run
    returns the bytes the stream accepted and the messages transmitted. *)
Inductive op :=
| Write (data : bytes)
| CloseOutbound
| Push
| Receive (message : TcpReceiverMessage.t)
| Tick (elapsed_ms : Z).

Fixpoint run (self : t) (ops : list op) : exec (bytes * list TcpSenderMessage.t * t) :=
  match ops with
  | [] => mret ([], [], self)
  | Write data :: ops =>
      '(n, o) ← ByteStream.push (outbound self) data;
      '(ins, ms, self) ← run (with_outbound self o) ops;
      mret (take (Z.to_nat n) data ++ ins, ms, self)
  | CloseOutbound :: ops => run (with_outbound self (ByteStream.close (outbound self))) ops
  | Push :: ops =>
      '(ms, self) ← push self;
      '(ins, ms', self) ← run self ops;
      mret (ins, ms ++ ms', self)
  | Receive m :: ops => self ← receive self m; run self ops
  | Tick elapsed_ms :: ops =>
      '(ms, self) ← tick self elapsed_ms;
      '(ins, ms', self) ← run self ops;
      mret (ins, ms ++ ms', self)
  end.

(** The bytes a run offers to the outbound stream. *)
Fixpoint offered (ops : list op) : Z :=
  match ops with
  | [] => 0
  | Write data :: ops => blen data + offered ops
  | _ :: ops => offered ops
  end.

End TcpSender.

(** ** Outstanding segments *)

Section segments.
Import OutstandingSegment.
Implicit Types (s : OutstandingSegment.t) (P : bytes) (z : Wrap32.t).

(** [segs] carry exactly the sequence numbers [a, b) of the stream [P], in order. *)
Fixpoint segs_ok P z (a b : Z) (segs : list OutstandingSegment.t) : Prop :=
  match segs with
  | [] => a = b
  | s :: segs => absolute_start s = a ∧ 0 < sequence_length s ∧ carries P z (message s) a ∧
                 segs_ok P z (a + sequence_length s) b segs
  end.

Lemma segs_le P z a b segs : segs_ok P z a b segs → a ≤ b.
Proof.
  revert a. induction segs as [|s segs IH]; simpl; intros a H; [lia|].
  destruct H as (_ & ? & _ & H%IH). lia.
Qed.

Lemma segs_empty P z a b segs : segs_ok P z a b segs → a = b ↔ segs = [].
Proof.
  destruct segs as [|s segs]; simpl; [done|]. intros (_ & ? & _ & H%segs_le). split; [lia|done].
Qed.

Lemma segs_app P z a b c segs segs' :
  segs_ok P z a b segs → segs_ok P z b c segs' → segs_ok P z a c (segs ++ segs').
Proof.
  revert a. induction segs as [|s segs IH]; simpl; intros a H H'; [by subst|].
  destruct H as (? & ? & ? & H). eauto.
Qed.

(** The stream may grow while no segment carries its end. *)
Lemma segs_grow P Q z a b segs :
  segs_ok P z a b segs → Forall (λ s, TcpSenderMessage.fin (message s) = false) segs →
  segs_ok (P ++ Q) z a b segs.
Proof.
  intros H Hf. revert a H. induction Hf as [|s segs Hs _ IH]; simpl; intros a H; [done|].
  destruct H as (? & ? & ? & H). split_and!; try done; [by apply carries_app|by apply IH].
Qed.

Lemma absolute_end_wp s a b : absolute_start s = a → a + sequence_length s ≤ b → b ≤ u64_max →
  absolute_end s ⇓ λ e, e = a + sequence_length s.
Proof. intros <- ??. unfold absolute_end. by wp_step; [apply checked_add_Some; lia|]. Qed.

(** Trimming keeps exactly the sequence numbers from [n + k]. *)
Lemma trim_prefix_wp P z s n k :
  absolute_start s = n → carries P z (message s) n → 0 < k < sequence_length s →
  n + sequence_length s ≤ u64_max →
  trim_prefix s k z ⇓ λ s',
    absolute_start s' = n + k ∧ sequence_length s' = sequence_length s - k ∧
    carries P z (message s') (n + k) ∧
    TcpSenderMessage.fin (message s') = TcpSenderMessage.fin (message s) ∧
    TcpSenderMessage.rst (message s') = TcpSenderMessage.rst (message s) ∧
    blen (TcpSenderMessage.payload (message s')) ≤ blen (TcpSenderMessage.payload (message s)).
Proof.
  destruct s as [n' [seqno syn payload fin rst]]. unfold sequence_length, TcpSenderMessage.sequence_length.
  cbn [absolute_start message TcpSenderMessage.syn TcpSenderMessage.payload TcpSenderMessage.fin TcpSenderMessage.rst].
  intros -> (Hseq & Hsyn & Hn & Hp) Hk Hmax. cbn in Hseq, Hsyn, Hp.
  pose proof (blen_nonneg payload). pose proof (of_bool_range fin). pose proof (of_bool_range syn).
  unfold trim_prefix. unfold sequence_length, TcpSenderMessage.sequence_length.
  cbn [absolute_start message TcpSenderMessage.syn TcpSenderMessage.payload TcpSenderMessage.fin TcpSenderMessage.rst].
  wp_step. wp_step; [by apply Z.ltb_lt; lia|]. wp_step. wp_step; [by apply Z.ltb_lt; lia|]. wp_step.
  assert (Hs : (if syn && (0 <? k) then remaining ← sub_u k 1; mret (false, remaining) else mret (syn, k))
    ⇓ λ r, r = (false, k - of_bool syn)).
  { rewrite (proj2 (Z.ltb_lt 0 k)), andb_true_r by lia. destruct syn; simpl.
    - wp_step. wp_step; [lia|]. by wp_step.
    - wp_step. f_equal. lia. }
  wp_apply Hs. intros ? ->. clear Hs. set (r := k - of_bool syn).
  assert (Hr : 0 ≤ r ≤ blen payload) by lia.
  rewrite Z.min_l by lia. wp_step.
  assert (Hd : (if 0 <? r then payload' ← slice_from r payload; remaining ← sub_u r r; mret (payload', remaining)
                else mret (payload, r)) ⇓ λ x, x = (drop (Z.to_nat r) payload, 0)).
  { destruct (Z.ltb_spec 0 r).
    - wp_step. wp_step; [lia|]. wp_step. wp_step; [lia|]. wp_step. f_equal. lia.
    - wp_step. replace r with 0 by lia. done. }
  wp_apply Hd. intros ? ->. clear Hd. rewrite andb_false_r. wp_step. wp_step. wp_step. wp_step; [done|].
  wp_step. wp_step; [by apply checked_add_Some; lia|]. wp_step.
  assert (Hl : of_bool false + blen (drop (Z.to_nat r) payload) + of_bool fin
               = of_bool syn + blen payload + of_bool fin - k) by (rewrite blen_drop by lia; simpl; lia).
  wp_step.
  { unfold TcpSenderMessage.is_empty_in_sequence_space, TcpSenderMessage.sequence_length.
    cbn [TcpSenderMessage.syn TcpSenderMessage.payload TcpSenderMessage.fin].
    rewrite Hl, (proj2 (Z.eqb_neq _ _)) by lia. done. }
  wp_step. cbn [absolute_start message TcpSenderMessage.syn TcpSenderMessage.payload TcpSenderMessage.fin TcpSenderMessage.rst].
  split_and!; try done; [|rewrite blen_drop by lia; lia].
  split; [done|]. cbn. split_and!; [split; [done|lia]|lia|].
  pose proof (piece_of_drop _ _ _ _ r Hp ltac:(lia)) as Hp'.
  replace (n + k - 1) with ((if syn then 0 else n - 1) + r); [done|].
  unfold r. destruct syn; simpl; [rewrite (proj1 Hsyn eq_refl)|]; lia.
Qed.

Lemma pop_acknowledged_wp P z a b una segs :
  segs_ok P z a b segs → a ≤ una ≤ b → b ≤ u64_max →
  TcpSender.pop_acknowledged una segs ⇓ λ segs', ∃ a', segs_ok P z a' b segs' ∧ suffix segs' segs ∧ a' ≤ una ∧
    match segs' with [] => a' = una | s :: _ => una < a' + sequence_length s end.
Proof.
  revert a. induction segs as [|s segs IH]; simpl; intros a H Hu Hmax.
  { wp_step. exists a. split_and!; try done; lia. }
  pose proof H as (Hs & Hl & Hc & H'). pose proof (segs_le _ _ _ _ _ H').
  wp_step. wp_apply (absolute_end_wp s a b); [done|lia|done|]. intros e ->.
  destruct (Z.leb_spec (a + sequence_length s) una).
  - wp_apply (IH (a + sequence_length s)); [done|lia|done|]. intros segs' (a' & ? & ? & ? & ?).
    exists a'. split_and!; try done. by apply suffix_cons_r.
  - wp_step. exists a. split_and!; try done; lia.
Qed.

Lemma check_segments_wp P z a b segs :
  segs_ok P z a b segs → b ≤ u64_max → TcpSender.check_segments a segs ⇓ λ _, True.
Proof.
  revert a. induction segs as [|s segs IH]; simpl; intros a H Hmax; [by wp_step|].
  destruct H as (Hs & Hl & Hc & H). pose proof (segs_le _ _ _ _ _ H).
  wp_step. wp_step.
  { unfold TcpSenderMessage.is_empty_in_sequence_space. unfold sequence_length in Hl.
    by rewrite (proj2 (Z.eqb_neq _ _)) by lia. }
  wp_step. wp_step; [by apply Z.leb_le; lia|]. wp_step.
  wp_apply (absolute_end_wp s a b); [done|lia|done|]. intros e ->. by apply IH.
Qed.
End segments.

(** ** The sender's invariant *)

Section sender.
Import TcpSender.
Implicit Types (self : TcpSender.t) (P : bytes).

Abbreviation content self := (ByteStream.content (outbound self)).
Abbreviation out_closed self := (ByteStream.closed (outbound self)).
Abbreviation out_error self := (ByteStream.error (outbound self)).

(** The interval the timer must run with, and why. *)
Definition current_interval self : Z :=
  if advertised_window self =? 0 then persist_interval_ms self else current_rto_ms self.
Definition current_mode self : TimerMode :=
  if advertised_window self =? 0 then Persist else Retransmission.

Definition timer_ok self : Prop :=
  match outstanding self with
  | [] => timer self = Timer.stop
  | _ => ∃ elapsed, timer self = Timer.mk true elapsed (current_interval self) (Some (current_mode self)) ∧
           0 ≤ elapsed < current_interval self
  end.

(** The timer after a decision to restart it or not: it is stopped when nothing is outstanding. *)
Definition settled self (restart : bool) : Timer.t :=
  match outstanding self with
  | [] => Timer.stop
  | _ => if restart then Timer.mk true 0 (current_interval self) (Some (current_mode self)) else timer self
  end.

(** [P] is everything the sender has taken out of its outbound stream. *)
Record SInv P self : Prop := {
  si_outbound : ByteStream.Inv (outbound self);
  si_popped : ByteStream.bytes_popped (outbound self) = blen P;
  si_isn : Wrap32.ok (isn self);
  si_config : TcpSenderConfig.ok (config self);
  si_nxt : snd_nxt self = of_bool (syn_sent self) + blen P + of_bool (fin_sent self);
  si_max : snd_nxt self ≤ u64_max;
  si_una : 0 ≤ snd_una self;
  si_syn : syn_sent self = false → P = [] ∧ fin_sent self = false;
  si_fin : fin_sent self = true → out_closed self = true ∧ content self = [];
  si_segs : segs_ok P (isn self) (snd_una self) (snd_nxt self) (outstanding self);
  si_nofin : fin_sent self = false →
    Forall (λ s, TcpSenderMessage.fin (OutstandingSegment.message s) = false) (outstanding self);
  si_norst : out_error self = false →
    Forall (λ s, TcpSenderMessage.rst (OutstandingSegment.message s) = false) (outstanding self);
  si_mss : Forall (λ s, blen (TcpSenderMessage.payload (OutstandingSegment.message s))
                        ≤ TcpSenderConfig.max_payload_size (config self)) (outstanding self);
  si_window : u16 (advertised_window self);
  si_rto : TcpSenderConfig.initial_rto_ms (config self) ≤ current_rto_ms self
           ≤ TcpSenderConfig.max_timer_interval_ms (config self);
  si_persist : TcpSenderConfig.initial_rto_ms (config self) ≤ persist_interval_ms self
           ≤ TcpSenderConfig.max_timer_interval_ms (config self);
  si_timer : timer_ok self;
}.

Lemma bytes_in_flight_wp P self : SInv P self →
  bytes_in_flight self ⇓ λ n, n = snd_nxt self - snd_una self ∧ 0 ≤ n.
Proof.
  intros []. pose proof (segs_le _ _ _ _ _ si_segs0). unfold bytes_in_flight.
  wp_step; [by apply checked_sub_Some|]. split; [done|lia].
Qed.

Lemma sender_debug_check_wp P self : SInv P self → debug_check_invariants self ⇓ λ _, True.
Proof.
  intros HI. pose proof HI as []. pose proof (segs_le _ _ _ _ _ si_segs0).
  unfold debug_check_invariants. wp_step. wp_step; [by apply Z.leb_le|]. wp_step.
  wp_apply (check_segments_wp P (isn self) (snd_una self) (snd_nxt self)); [done|done|]. intros _ _.
  wp_step.
  assert (Hf : match outstanding self with
    | [] => assert (snd_una self =? snd_nxt self)
    | first :: _ => assert (OutstandingSegment.absolute_start first =? snd_una self) end ⇓ λ _, True).
  { destruct (outstanding self) as [|s segs]; simpl in si_segs0; wp_step; try done; apply Z.eqb_eq; [done|].
    by destruct si_segs0. }
  wp_apply Hf. intros _ _. wp_step. wp_apply (bytes_in_flight_wp P self HI). intros n [-> _].
  wp_step. wp_step; [lia|]. by wp_step; [apply Z.eqb_refl|].
Qed.

(** [restart_timer_for_current_window] establishes the timer's part of the invariant. *)
Lemma restart_settled self : 0 < current_interval self →
  restart_timer_for_current_window self ⇓ λ s', s' = with_timer self (settled self true) ∧ timer_ok s'.
Proof.
  intros Hpos. unfold restart_timer_for_current_window, settled, timer_ok, current_interval, current_mode in *.
  destruct (outstanding self) as [|s segs] eqn:E.
  { wp_step. split; [done|]. simpl. by rewrite E. }
  unfold Timer.restart. destruct (advertised_window self =? 0) eqn:Hz.
  all: wp_step; wp_step; wp_step; [by apply Z.ltb_lt|]; wp_step; wp_step; split; [done|]; cbn; rewrite E, Hz.
  all: exists 0; split; [done|lia].
Qed.

Lemma restart_timer_wp self : 0 < current_interval self →
  restart_timer_for_current_window self ⇓ λ s', ∃ tm, s' = with_timer self tm ∧ timer_ok s'.
Proof. intros Hpos. wp_apply (restart_settled self Hpos). intros s' [-> Hok]. eauto. Qed.

Lemma interval_range P self : SInv P self →
  0 < TcpSenderConfig.initial_rto_ms (config self) ≤ current_interval self.
Proof.
  intros [? ? ? [? _] ? ? ? ? ? ? ? ? ? ? ? ? ?]. unfold current_interval. case_match; lia.
Qed.

Lemma tcp_sender_new_wp cap i c : u64 cap → Wrap32.ok i → TcpSenderConfig.ok c →
  TcpSender.new cap i c ⇓ λ self, SInv [] self ∧ outbound self = ByteStream.new cap ∧
    isn self = i ∧ config self = c ∧ snd_nxt self = 0.
Proof.
  intros Hcap Hi Hc. pose proof Hc as (? & ? & ? & ?). unfold new.
  wp_step. wp_step; [by apply Z.ltb_lt; lia|]. wp_step. wp_step; [by apply Z.leb_le; lia|].
  wp_step. wp_step; [by apply Z.ltb_lt; lia|]. wp_step. split; [|done].
  split; simpl; try done; try lia; first [by apply byte_stream_new_inv | ulia].
Qed.

(** *** [push] *)

Lemma read_outbound_wp P self budget :
  SInv P self → 0 ≤ budget →
  read_outbound_payload self budget ⇓ λ '(b, self'), ∃ o, self' = with_outbound self o ∧
    content self = b ++ ByteStream.content o ∧ blen b ≤ budget ∧
    ByteStream.Inv o ∧ ByteStream.same_flags (outbound self) o ∧
    ByteStream.bytes_popped o = blen P + blen b ∧
    ByteStream.bytes_pushed o = ByteStream.bytes_pushed (outbound self) ∧
    (b = [] → self' = self ∧ (0 < budget → content self = [])).
Proof.
  intros [] Hb. unfold read_outbound_payload. destruct (Z.eqb_spec budget 0) as [->|].
  { wp_step. exists (outbound self). change (@blen byte []) with 0. rewrite Z.add_0_r.
    split_and!; try done; try lia; first [by destruct self|intros _; split; [done|lia]]. }
  pose proof si_outbound0 as []. pose proof (blen_nonneg (content self)).
  set (len := Z.min budget (ByteStream.bytes_buffered (outbound self))).
  wp_step.
  destruct (decide (ByteStream.bytes_buffered (outbound self) = 0)) as [Hz|Hnz].
  - assert (Hc : content self = []) by (apply blen_0; lia).
    assert (Hpop : ByteStream.pop (outbound self) len = Ret ([], outbound self)).
    { unfold ByteStream.pop. destruct (ByteStream.chunks (outbound self)) as [|front rest] eqn:Ec; [done|].
      unfold ByteStream.content in Hc. rewrite Ec in Hc. simpl in Hc. apply app_eq_nil in Hc as [-> _].
      inversion inv_chunks as [|?? Hne]. done. }
    rewrite Hpop. wp_step. wp_step. exists (outbound self). change (@blen byte []) with 0.
    split_and!; try done; try lia. intros _. split; [by destruct self|done].
  - wp_apply (wp_and _ _ _ (pop_wp (outbound self) len si_outbound0 ltac:(lia))
               (pop_progress (outbound self) len si_outbound0 ltac:(lia) ltac:(lia))).
    intros [b o] [(Hcon & Hbe & HI & Hfl & Hpu & Hpo) Hne]. simpl in *. wp_step.
    exists o. split_and!; try done; [|lia].
    rewrite Hbe. pose proof (blen_nonneg (ByteStream.peek (outbound self))).
    rewrite blen_sub by lia. lia.
Qed.

(** The part of the invariant a message being built does not touch yet. *)
Record building P self (m : TcpSenderMessage.t) self' : Prop := {
  bu_len : 0 ≤ TcpSenderMessage.sequence_length m;
  bu_carries : 0 < TcpSenderMessage.sequence_length m →
    carries (P ++ TcpSenderMessage.payload m) (isn self) m (snd_nxt self);
  bu_rst : TcpSenderMessage.rst m = out_error self;
  bu_mss : blen (TcpSenderMessage.payload m) ≤ TcpSenderConfig.max_payload_size (config self);
  bu_outbound : ByteStream.Inv (outbound self');
  bu_popped : ByteStream.bytes_popped (outbound self') = blen P + blen (TcpSenderMessage.payload m);
  bu_flags : ByteStream.same_flags (outbound self) (outbound self');
  bu_content : content self = TcpSenderMessage.payload m ++ content self';
  bu_same : self' = with_outbound (with_fin_sent (with_syn_sent self (syn_sent self'))
                      (fin_sent self')) (outbound self');
  bu_syn : syn_sent self' = true;
  bu_syn_m : syn_sent self = negb (TcpSenderMessage.syn m);
  bu_fin : fin_sent self' = fin_sent self || TcpSenderMessage.fin m;
  bu_fin_m : TcpSenderMessage.fin m = true → fin_sent self = false ∧ out_closed self = true ∧ content self' = [];
  bu_empty : TcpSenderMessage.sequence_length m = 0 →
    self' = self ∧ content self = [] ∧ (out_closed self = true → fin_sent self = true);
}.

(** The SYN goes out first, and takes one number of the window. *)
Lemma flag_syn_wp self avail : 0 < avail ≤ u64_max →
  (if negb (syn_sent self) && (0 <? avail)
   then remaining ← sub_u avail 1; mret (true, with_syn_sent self true, remaining)
   else mret (false, self, avail)) ⇓ λ r,
    r = (negb (syn_sent self), with_syn_sent self true, avail - of_bool (negb (syn_sent self))).
Proof.
  intros Hav. rewrite (proj2 (Z.ltb_lt 0 avail)), andb_true_r by lia. destruct (syn_sent self) eqn:Es; simpl.
  - wp_step. f_equal; [f_equal|lia]. destruct self; simpl in *. by subst.
  - wp_step. wp_step; [lia|]. by wp_step.
Qed.

(** Reading the payload does not look at the flag of the SYN. *)
Lemma read_outbound_started_wp P self budget : SInv P self → 0 ≤ budget →
  read_outbound_payload (with_syn_sent self true) budget ⇓ λ '(b, self'),
    ∃ o, self' = with_outbound (with_syn_sent self true) o ∧
    content self = b ++ ByteStream.content o ∧ blen b ≤ budget ∧
    ByteStream.Inv o ∧ ByteStream.same_flags (outbound self) o ∧
    ByteStream.bytes_popped o = blen P + blen b ∧
    (b = [] → o = outbound self ∧ (0 < budget → content self = [])).
Proof.
  intros HI Hb. pose proof (read_outbound_wp P self budget HI Hb) as Hr. unfold read_outbound_payload in *.
  destruct (budget =? 0).
  - wp_step. unfold wp, mret, exec_mret in Hr. destruct Hr as (o & Hs & Hr). exists o.
    assert (o = outbound self) as -> by (rewrite Hs; done). split; [by destruct self|]. tauto.
  - change (outbound (with_syn_sent self true)) with (outbound self).
    apply wp_bind in Hr. wp_step. eapply wp_mono; [exact Hr|]. intros [b o] Hr'. wp_step.
    unfold wp, mret, exec_mret in Hr'. destruct Hr' as (o' & Hs & Hr').
    assert (o' = o) as -> by (apply (f_equal outbound) in Hs; done).
    exists o. split; [done|]. destruct Hr' as (? & ? & ? & ? & ? & ? & He). split_and!; try done.
    intros Hb0. destruct (He Hb0) as [Hself ?]. split; [|done]. by rewrite <- Hself.
Qed.

Section next_message.
Context (P : list byte) (self : t) (b : list byte) (o : ByteStream.t) (fin : bool).
Context (HI : SInv P self) (Hcon : content self = b ++ ByteStream.content o).
Context (Hfin : fin = true → fin_sent self = false ∧ out_closed self = true ∧ ByteStream.content o = []).
Local Abbreviation built := (TcpSenderMessage.mk (TcpSenderMessage.seqno (make_empty_message self))
  (negb (syn_sent self)) b fin (TcpSenderMessage.rst (make_empty_message self))).

(** Nothing is sent after the FIN. *)
Lemma next_message_open :
  0 < TcpSenderMessage.sequence_length built → syn_sent self = true → fin_sent self = false.
Proof using HI Hcon Hfin.
  intros Hpos Es. unfold TcpSenderMessage.sequence_length in Hpos. cbn in Hpos. rewrite Es in Hpos.
  destruct fin eqn:Ef; [by apply Hfin|]. destruct (fin_sent self) eqn:Efs; [|done].
  destruct (si_fin _ _ HI Efs) as [_ Hc]. rewrite Hcon in Hc.
  apply app_eq_nil in Hc as [-> _]. done.
Qed.

(** The message is the slice of the connection that starts at [snd_nxt]. *)
Lemma next_message_carries :
  0 < TcpSenderMessage.sequence_length built → carries (P ++ b) (isn self) built (snd_nxt self).
Proof using HI Hcon Hfin.
  intros Hpos. pose proof (next_message_open Hpos) as Hopen. pose proof HI as [].
  pose proof (of_bool_range (syn_sent self)). pose proof (of_bool_range (fin_sent self)).
  pose proof (blen_nonneg P). pose proof (blen_nonneg b).
  assert (Hfirst : (if negb (syn_sent self) then 0 else snd_nxt self - 1) = blen P).
  { rewrite si_nxt0. destruct (syn_sent self) eqn:Es; simpl.
    - rewrite Hopen by done. simpl. lia.
    - by destruct (si_syn0 eq_refl) as [-> _]. }
  split; [done|]. split.
  { simpl. rewrite si_nxt0. destruct (syn_sent self) eqn:Es; simpl; [split; [done|lia]|].
    destruct (si_syn0 eq_refl) as [-> ->]. done. }
  split; [rewrite si_nxt0; lia|]. cbn. rewrite Hfirst.
  split_and!; [done|rewrite blen_app; lia| |intros _; by rewrite blen_app].
  unfold sub. unfold blen. rewrite Nat2Z.id, drop_app_length, take_ge; [done|lia].
Qed.

(** An empty message means that there is nothing to send. *)
Lemma next_message_empty avail : 0 < avail →
  fin = negb (fin_sent self) && out_closed self && (ByteStream.bytes_buffered o =? 0)
          && (0 <? avail - of_bool (negb (syn_sent self)) - blen b) →
  (b = [] → o = outbound self ∧
    (0 < Z.min (avail - of_bool (negb (syn_sent self))) (TcpSenderConfig.max_payload_size (config self)) →
     content self = [])) →
  TcpSenderMessage.sequence_length built = 0 →
  b = [] ∧ fin = false ∧ syn_sent self = true ∧ o = outbound self ∧ content self = [] ∧
  (out_closed self = true → fin_sent self = true).
Proof using HI Hcon Hfin.
  intros Hav Hf Hemp Hz. pose proof HI as []. destruct si_config0 as (_ & _ & Hmp & _).
  unfold TcpSenderMessage.sequence_length in Hz. cbn in Hz.
  pose proof (blen_nonneg b). pose proof (of_bool_range fin).
  destruct (syn_sent self) eqn:Es; simpl in *; [|lia].
  assert (Hff : fin = false) by (clear Hf; destruct fin; simpl in Hz; [lia|done]).
  assert (Hb : b = []) by (apply blen_0; lia). destruct (Hemp Hb) as [-> Hc]. rewrite Hb in Hf, Hz |- *.
  split_and!; try done; [apply Hc; lia|]. intros Hclo. rewrite Hff, Hclo in Hf.
  rewrite (ByteStream.inv_buffered _ si_outbound0), (Hc ltac:(lia) : ByteStream.content _ = []),
    (proj2 (Z.ltb_lt 0 _)), !andb_true_r in Hf by (change (@blen byte []) with 0; lia).
  by destruct (fin_sent self).
Qed.
End next_message.

Lemma next_message_wp P self avail :
  SInv P self → 0 < avail ≤ u64_max →
  next_message self avail ⇓ λ '(m, self'),
    building P self m self' ∧ TcpSenderMessage.sequence_length m ≤ avail.
Proof.
  intros HI Hav. pose proof HI as []. unfold next_message. wp_step.
  wp_apply (flag_syn_wp self avail Hav). intros ? ->. pose proof (of_bool_range (negb (syn_sent self))).
  set (rem := avail - of_bool (negb (syn_sent self))). unfold cast. rewrite Z.mod_small by lia.
  change (config (with_syn_sent self true)) with (config self).
  set (budget := Z.min rem (TcpSenderConfig.max_payload_size (config self))).
  destruct si_config0 as (_ & _ & Hmp & _). wp_step.
  wp_apply (read_outbound_started_wp P self budget HI ltac:(lia)).
  intros [b self1] (o & -> & Hcon & Hbl & HIo & Hfl & Hpo & Hemp).
  pose proof (blen_nonneg b). wp_step. wp_step; [lia|]. wp_step.
  set (self1 := with_outbound (with_syn_sent self true) o).
  change (fin_sent self1) with (fin_sent self). change (outbound self1) with o.
  pose proof Hfl as (_ & Hcl & _). unfold ByteStream.is_closed. rewrite Hcl.
  set (fin := negb (fin_sent self) && out_closed self && (ByteStream.bytes_buffered o =? 0)
              && (0 <? rem - blen b)).
  assert (Hfin : fin = true → fin_sent self = false ∧ out_closed self = true ∧ ByteStream.content o = [] ∧ 0 < rem - blen b).
  { unfold fin. rewrite !andb_true_iff, negb_true_iff, Z.eqb_eq, Z.ltb_lt.
    intros (((? & ?) & Hb0) & ?). split_and!; try done. apply blen_0. by destruct HIo; lia. }
  assert (Hfin' : fin = true → fin_sent self = false ∧ out_closed self = true ∧ ByteStream.content o = [])
    by (intros Hf; by destruct (Hfin Hf) as (? & ? & ? & _)).
  pose proof (of_bool_range fin). split.
  2:{ change (of_bool (negb (syn_sent self)) + blen b + of_bool fin ≤ avail). destruct fin eqn:Ef; simpl; [destruct (Hfin eq_refl) as (_ & _ & _ & ?)|]; lia. }
  split; try done; try (by destruct fin).
  - change (0 ≤ of_bool (negb (syn_sent self)) + blen b + of_bool fin). lia.
  - by apply next_message_carries with o.
  - cbn. lia.
  - cbn. by destruct (syn_sent self).
  - cbn. destruct fin; simpl; by rewrite ?orb_true_r, ?orb_false_r.
  - intros Hz. destruct (next_message_empty P self b o fin HI Hcon Hfin' avail ltac:(lia) eq_refl Hemp Hz) as (-> & Hf & Hs & Ho & ? & ?).
    split_and!; try done. rewrite Hf. subst self1. rewrite Ho, <- Hs. by destruct self.
Qed.

(** What sending new segments leaves alone. *)
Record kept self self' : Prop := {
  ke_isn : isn self' = isn self;
  ke_una : snd_una self' = snd_una self;
  ke_window : advertised_window self' = advertised_window self;
  ke_config : config self' = config self;
  ke_rto : current_rto_ms self' = current_rto_ms self;
  ke_persist : persist_interval_ms self' = persist_interval_ms self;
  ke_count : consecutive_retransmissions self' = consecutive_retransmissions self;
  ke_flags : ByteStream.same_flags (outbound self) (outbound self');
  ke_pushed : ByteStream.bytes_pushed (outbound self') = ByteStream.bytes_pushed (outbound self);
}.

Lemma kept_trans s1 s2 s3 : kept s1 s2 → kept s2 s3 → kept s1 s3.
Proof. intros [] []. unfold ByteStream.same_flags in *.
  destruct_and?. split; try congruence. split_and!; congruence. Qed.

Lemma same_flags_refl o : ByteStream.same_flags o o.
Proof. done. Qed.

(** The bytes not yet sent bound the sequence numbers still to come. *)
Lemma snd_nxt_bound P self : SInv P self →
  snd_nxt self + blen (content self) ≤
    ByteStream.bytes_pushed (outbound self) + of_bool (syn_sent self) + of_bool (fin_sent self).
Proof. intros []. destruct si_outbound0. lia. Qed.

(** A new segment continues the outstanding ones. *)
Lemma building_segs P self m self1 :
  SInv P self → building P self m self1 → 0 < TcpSenderMessage.sequence_length m →
  segs_ok (P ++ TcpSenderMessage.payload m) (isn self) (snd_una self)
    (snd_nxt self + TcpSenderMessage.sequence_length m)
    (outstanding self ++ [OutstandingSegment.mk (snd_nxt self) m]).
Proof.
  intros [] [] Hpos. apply (segs_app _ _ _ (snd_nxt self)); [|simpl; split_and!; [done|exact Hpos|auto|done]].
  destruct (fin_sent self) eqn:Ef; [|apply segs_grow; auto].
  destruct (si_fin0 eq_refl) as [_ Hc]. rewrite Hc in bu_content0.
  symmetry in bu_content0. apply app_eq_nil in bu_content0 as [-> _]. by rewrite app_nil_r.
Qed.

(** The first outstanding segment starts the timer, and the others leave it. *)
Lemma track_timer_wp P self s2 s :
  SInv P self → timer s2 = timer self → outstanding s2 = outstanding self ++ [s] →
  current_interval s2 = current_interval self → current_mode s2 = current_mode self →
  (if match outstanding self with [] => true | _ => false end
   then restart_timer_for_current_window s2 else mret s2) ⇓ λ s3, ∃ tm, s3 = with_timer s2 tm ∧ timer_ok s3.
Proof.
  intros HI Ht Ho Hi Hm. destruct (outstanding self) as [|s0 segs] eqn:E.
  - apply restart_timer_wp. rewrite Hi. pose proof (interval_range P self HI). lia.
  - wp_step. exists (timer s2). split; [by destruct s2|]. pose proof (si_timer _ _ HI) as Hok.
    unfold timer_ok in Hok |- *. rewrite E in Hok. by rewrite Ht, Ho, Hi, Hm.
Qed.

Lemma track_wp P self m self1 :
  SInv P self → building P self m self1 → 0 < TcpSenderMessage.sequence_length m →
  ByteStream.bytes_pushed (outbound self) + 2 ≤ u64_max →
  track_and_transmit self1 m ⇓ λ '(m', self'), m' = m ∧
    SInv (P ++ TcpSenderMessage.payload m) self' ∧ kept self self' ∧ outbound self' = outbound self1 ∧
    snd_nxt self' = snd_nxt self + TcpSenderMessage.sequence_length m ∧ syn_sent self' = true ∧
    outstanding self' = outstanding self ++ [OutstandingSegment.mk (snd_nxt self) m].
Proof.
  intros HI Hbu Hpos Hmax. pose proof (building_segs P self m self1 HI Hbu Hpos) as Hsegs.
  destruct Hbu. pose proof HI as []. pose proof (snd_nxt_bound P self HI) as Hb.
  set (o := outbound self1) in *. set (f := fin_sent self1) in *.
  assert (Hs1 : self1 = with_outbound (with_fin_sent (with_syn_sent self true) f) o)
    by (rewrite bu_same0 at 1; by rewrite bu_syn0).
  clearbody o f. clear bu_same0 bu_syn0. subst self1.
  destruct bu_flags0 as (Hcap & Hcl & Her).
  assert (Hlen : snd_nxt self + TcpSenderMessage.sequence_length m
     = 1 + blen (P ++ TcpSenderMessage.payload m) + of_bool f).
  { rewrite si_nxt0, blen_app, bu_fin0, bu_syn_m0. unfold TcpSenderMessage.sequence_length.
    destruct (TcpSenderMessage.fin m) eqn:Ef; [destruct (bu_fin_m0 eq_refl) as (-> & _)|rewrite orb_false_r];
      destruct (TcpSenderMessage.syn m); simpl; lia. }
  assert (Hsum : blen (content self) = blen (TcpSenderMessage.payload m) + blen (ByteStream.content o))
    by by rewrite bu_content0, blen_app.
  pose proof (blen_nonneg (ByteStream.content o)). pose proof (of_bool_range f).
  assert (Hmax' : snd_nxt self + TcpSenderMessage.sequence_length m ≤ u64_max).
  { rewrite Hlen, blen_app. destruct si_outbound0. lia. }
  unfold track_and_transmit. wp_step. wp_step; [by apply Z.ltb_lt|].
  wp_step. wp_step; [by apply checked_add_Some|]. wp_step.
  set (s2 := with_outstanding _ _).
  assert (Hs2 : outstanding s2 = outstanding self ++ [OutstandingSegment.mk (snd_nxt self) m]) by done.
  wp_apply (track_timer_wp P self s2 _ HI eq_refl Hs2 eq_refl eq_refl).
  intros s3 (tm & -> & Htok). wp_step. split; [done|]. rewrite <- Hs2 in Hsegs.
  split_and!; try done.
  - split; try done; cbn.
    + rewrite blen_app. lia.
    + intros Hf. rewrite bu_fin0 in Hf. apply orb_true_iff in Hf as [Hf|Hf].
      * destruct (si_fin0 Hf) as [? Hc]. split; [congruence|]. rewrite Hc in bu_content0.
        symmetry in bu_content0. by apply app_eq_nil in bu_content0 as [_ ?].
      * destruct (bu_fin_m0 Hf) as (_ & ? & ?). split; [congruence|done].
    + intros Hf. rewrite bu_fin0 in Hf. apply orb_false_iff in Hf as [Hf Hm].
      apply Forall_app. split; [auto|]. by constructor.
    + intros He. rewrite Her in He. apply Forall_app. split; [auto|]. constructor; [|done].
      simpl. congruence.
    + apply Forall_app. split; [done|]. by constructor.
  - split; try done. cbn. destruct bu_outbound0, si_outbound0. lia.
Qed.

(** Nothing is left to send: the SYN is out, the stream is drained, and the FIN is
    out if the stream is closed. *)
Definition idle self : Prop :=
  syn_sent self = true ∧ content self = [] ∧ (out_closed self = true → fin_sent self = true).

(** The effect of [push]: [Q] left the outbound stream, in the new segments [segs]. *)
Record filled (w : Z) P self (ms : list TcpSenderMessage.t) self' (Q : bytes)
    (segs : list OutstandingSegment.t) : Prop := {
  fi_inv : SInv (P ++ Q) self';
  fi_kept : kept self self';
  fi_content : content self = Q ++ content self';
  fi_outstanding : outstanding self' = outstanding self ++ segs;
  fi_messages : ms = OutstandingSegment.message <$> segs;
  fi_segs : segs_ok (P ++ Q) (isn self) (snd_nxt self) (snd_nxt self') segs;
  fi_rst : Forall (λ m, TcpSenderMessage.rst m = out_error self) ms;
  fi_window : snd_nxt self' - snd_una self ≤ Z.max w (snd_nxt self - snd_una self);
  fi_full : w ≤ snd_nxt self' - snd_una self ∨ idle self';
}.

Lemma push_loop_wp fuel P self w :
  SInv P self → w ≤ u64_max → ByteStream.bytes_pushed (outbound self) + 2 ≤ u64_max →
  Z.max 0 (w - (snd_nxt self - snd_una self)) < Z.of_nat fuel →
  push_loop fuel self w ⇓ λ '(ms, self'), ∃ Q segs, filled w P self ms self' Q segs.
Proof.
  revert P self. induction fuel as [|fuel IH]; intros P self HI Hw Hmax Hfuel; [lia|].
  assert (Hstop : w ≤ snd_nxt self - snd_una self ∨ idle self → filled w P self [] self [] []).
  { intros Hi. split; rewrite ?app_nil_r; try done; lia. }
  cbn [push_loop]. wp_step. wp_apply (bytes_in_flight_wp P self HI). intros n [-> Hn0].
  destruct (Z.ltb_spec (snd_nxt self - snd_una self) w) as [Hlt|].
  2:{ wp_step. exists [], []. apply Hstop. by left. }
  wp_step. wp_step; [lia|]. wp_step.
  wp_apply (next_message_wp P self); [done|lia|]. intros [m self1] [Hbu Hav].
  unfold TcpSenderMessage.is_empty_in_sequence_space.
  destruct (Z.eqb_spec (TcpSenderMessage.sequence_length m) 0) as [Hz|Hnz].
  { wp_step. destruct (bu_empty _ _ _ _ Hbu Hz) as (-> & Hc & Hf). exists [], []. apply Hstop. right.
    split; [apply (bu_syn _ _ _ _ Hbu)|done]. }
  pose proof (bu_len _ _ _ _ Hbu). wp_step.
  wp_apply (track_wp P self m self1); [done|done|lia|done|].
  intros [m' s2] (-> & HI2 & Hk & Hout & Hnx & Hsy & Hos). wp_step.
  assert (Hpu : ByteStream.bytes_pushed (outbound s2) = ByteStream.bytes_pushed (outbound self)) by apply Hk.
  wp_apply (IH (P ++ TcpSenderMessage.payload m) s2); [done|done|lia|rewrite Hnx, (ke_una _ _ Hk); lia|].
  intros [ms self'] (Q & segs & []). wp_step.
  exists (TcpSenderMessage.payload m ++ Q), (OutstandingSegment.mk (snd_nxt self) m :: segs).
  pose proof Hk as []. rewrite <- app_assoc in *.
  assert (Hcm : carries (P ++ TcpSenderMessage.payload m ++ Q) (isn self) m (snd_nxt self)).
  { pose proof (bu_carries _ _ _ _ Hbu ltac:(lia)) as Hc. destruct (TcpSenderMessage.fin m) eqn:Ef.
    - destruct (bu_fin_m _ _ _ _ Hbu Ef) as (_ & _ & Hce). rewrite Hout, Hce in fi_content0.
      symmetry in fi_content0. apply app_eq_nil in fi_content0 as [-> _]. by rewrite app_nil_r.
    - rewrite app_assoc. by apply carries_app. }
  split; try done.
  - by eapply kept_trans.
  - by rewrite (bu_content _ _ _ _ Hbu), <- Hout, fi_content0, app_assoc.
  - by rewrite fi_outstanding0, Hos, <- app_assoc.
  - simpl. by rewrite fi_messages0.
  - simpl. split_and!; [done|unfold OutstandingSegment.sequence_length; simpl; lia|done|].
    rewrite ke_isn0, Hnx in fi_segs0. exact fi_segs0.
  - constructor; [apply Hbu|]. destruct ke_flags0 as (_ & _ & He). by rewrite He in fi_rst0.
  - rewrite ke_una0, Hnx in *. lia.
  - by rewrite <- ke_una0.
Qed.

Lemma sender_push_wp P self :
  SInv P self → ByteStream.bytes_pushed (outbound self) + 2 ≤ u64_max →
  push self ⇓ λ '(ms, self'), ∃ Q segs, filled (Z.max (advertised_window self) 1) P self ms self' Q segs.
Proof.
  intros HI Hmax. unfold push. pose proof (si_window _ _ HI) as Hwin.
  pose proof (segs_le _ _ _ _ _ (si_segs _ _ HI)).
  wp_step. wp_apply (push_loop_wp _ P self (Z.max (advertised_window self) 1)); [done|ulia|done|ulia|].
  intros [ms self'] (Q & segs & Hf). wp_step.
  wp_apply (sender_debug_check_wp _ _ (fi_inv _ _ _ _ _ _ _ Hf)). intros _ _. wp_step. by exists Q, segs.
Qed.

(** *** [receive] *)

Lemma discard_wp P self a :
  let nxt := snd_nxt self in let una := snd_una self in
  segs_ok P (isn self) a nxt (outstanding self) → a ≤ una ≤ nxt → nxt ≤ u64_max →
  discard_acknowledged_prefix self ⇓ λ self', ∃ segs, self' = with_outstanding self segs ∧
    segs_ok P (isn self) una nxt segs ∧
    (Forall (λ s, TcpSenderMessage.fin (OutstandingSegment.message s) = false) (outstanding self) →
     Forall (λ s, TcpSenderMessage.fin (OutstandingSegment.message s) = false) segs) ∧
    (Forall (λ s, TcpSenderMessage.rst (OutstandingSegment.message s) = false) (outstanding self) →
     Forall (λ s, TcpSenderMessage.rst (OutstandingSegment.message s) = false) segs) ∧
    (∀ mss, Forall (λ s, blen (TcpSenderMessage.payload (OutstandingSegment.message s)) ≤ mss) (outstanding self) →
     Forall (λ s, blen (TcpSenderMessage.payload (OutstandingSegment.message s)) ≤ mss) segs).
Proof.
  intros nxt una H Hu Hmax.
  unfold discard_acknowledged_prefix. fold una. wp_step.
  wp_apply (pop_acknowledged_wp P (isn self) a nxt una (outstanding self)); [done|done|done|].
  intros segs' (a' & Hok & [pre Hsuf] & Ha & Hlast).
  assert (Hsub : ∀ Q : OutstandingSegment.t → Prop, Forall Q (outstanding self) → Forall Q segs').
  { intros Q. rewrite Hsuf, Forall_app. tauto. }
  destruct segs' as [|s rest].
  { wp_step. exists []. subst a'. split_and!; try done. }
  pose proof Hok as (Hs & Hl & Hc & Hrest). pose proof (segs_le _ _ _ _ _ Hrest). rewrite Hs.
  destruct (Z.ltb_spec a' una) as [Hlt|].
  - wp_step. wp_step; [lia|]. wp_step.
    wp_apply (trim_prefix_wp P (isn self) s a' (una - a')); [done|done|lia|lia|].
    intros s' (Hs' & Hl' & Hc' & Hf' & Hr' & Hm'). wp_step. exists (s' :: rest). split_and!; [done| | | |].
    + simpl. replace (a' + (una - a')) with una in * by lia. split_and!; [done|lia|done|].
      rewrite Hl'. by replace (una + (OutstandingSegment.sequence_length s - (una - a')))
        with (a' + OutstandingSegment.sequence_length s) by lia.
    + intros Hf%Hsub. inversion Hf; subst. constructor; [congruence|done].
    + intros Hf%Hsub. inversion Hf; subst. constructor; [congruence|done].
    + intros mss Hf%Hsub. inversion Hf; subst. constructor; [lia|done].
  - wp_step. exists (s :: rest). replace una with a' by lia. split_and!; [done|done|apply Hsub|apply Hsub|].
    intros mss. apply Hsub.
Qed.

(** What feedback from the peer leaves alone. *)
Definition same_stream self self' : Prop :=
  isn self' = isn self ∧ config self' = config self ∧ snd_nxt self' = snd_nxt self ∧
  syn_sent self' = syn_sent self ∧ fin_sent self' = fin_sent self.

(** The exact effect of a receiver message. *)
Definition received self (msg : TcpReceiverMessage.t) self' : Prop :=
  let s0 := with_advertised_window self (TcpReceiverMessage.window_size msg) in
  let changed := negb (advertised_window self =? TcpReceiverMessage.window_size msg) in
  let initial := TcpSenderConfig.initial_rto_ms (config self) in
  if TcpReceiverMessage.rst msg then self' = abort self
  else
    match TcpReceiverMessage.ackno msg with
    | None => self' = with_timer s0 (settled s0 changed)
    | Some w =>
        ∃ n, Wrap32.unwrap w (isn self) (snd_nxt self) = Ret n ∧
        if snd_nxt self <? n then self' = self
        else if snd_una self <? n then
          ∃ rest, let s1 := with_backoff (with_outstanding (with_snd_una s0 n) rest) initial initial 0 in
          self' = with_timer s1 (settled s1 true)
        else self' = with_timer s0 (settled s0 changed)
    end.

(** What the conversation of two endpoints needs of it. *)
Definition heeded self (msg : TcpReceiverMessage.t) self' : Prop :=
  outbound self' = outbound self ∧
  match TcpReceiverMessage.ackno msg with
  | None => snd_una self' = snd_una self
  | Some w =>
      ∃ n, Wrap32.unwrap w (isn self) (snd_nxt self) = Ret n ∧
      if snd_nxt self <? n then self' = self else snd_una self' = Z.max (snd_una self) n
  end.

Lemma received_heeded self msg self' : received self msg self' → TcpReceiverMessage.rst msg = false → heeded self msg self'.
Proof.
  unfold received, heeded. intros H Hr. rewrite Hr in H. destruct (TcpReceiverMessage.ackno msg) as [w|]; [|by subst].
  destruct H as (n & Hn & H). destruct (snd_nxt self <? n) eqn:Eg; [by subst; split; [|exists n; rewrite Eg]|].
  destruct (Z.ltb_spec (snd_una self) n); [destruct H as [rest ->]|subst]; (split; [done|]); exists n; rewrite Eg; cbn; (split; [done|lia]).
Qed.

Lemma abort_inv P self : SInv P self → SInv P (abort self).
Proof.
  intros []. pose proof (segs_le _ _ _ _ _ si_segs0). split; try done; cbn; [by apply set_error_inv|lia].
Qed.

(** The timer is still right when nothing it depends on has changed. *)
Lemma timer_ok_same self s' : timer_ok self →
  timer s' = timer self → outstanding s' = outstanding self → advertised_window s' = advertised_window self →
  current_rto_ms s' = current_rto_ms self → persist_interval_ms s' = persist_interval_ms self → timer_ok s'.
Proof.
  intros Ht H1 H2 H3 H4 H5. unfold timer_ok, current_interval, current_mode in *.
  by rewrite H1, H2, H3, H4, H5.
Qed.

(** A timer that is right is settled. *)
Lemma settled_false self : timer_ok self → settled self false = timer self.
Proof. unfold settled, timer_ok. by destruct (outstanding self). Qed.

(** Changing the window and restarting the timer when that matters. *)
Lemma restart_inv P self (b : bool) :
  (∀ tm, timer_ok (with_timer self tm) → SInv P (with_timer self tm)) →
  0 < current_interval self → (b = false → timer_ok self) →
  (if b then restart_timer_for_current_window self else mret self) ⇓ λ s',
    s' = with_timer self (settled self b) ∧ SInv P s'.
Proof.
  intros HI Hpos Hok. destruct b.
  - wp_apply (restart_settled self Hpos). intros s' [-> Ht]. auto.
  - wp_step. specialize (Hok eq_refl). rewrite settled_false by done.
    assert (Hs : with_timer self (timer self) = self) by by destruct self.
    split; [done|]. rewrite <- Hs. apply HI. by rewrite Hs.
Qed.

(** The acknowledged prefix goes away, and an acknowledgement of new data ends the backoff. *)
Lemma acknowledge_wp P self w n : SInv P self → u16 w → n ≤ snd_nxt self →
  let adv := snd_una self <? n in
  (if adv then
      self0 ← discard_acknowledged_prefix (with_snd_una (with_advertised_window self w) n);
      mret (with_backoff self0 (TcpSenderConfig.initial_rto_ms (config self0))
              (TcpSenderConfig.initial_rto_ms (config self0)) 0)
    else mret (with_advertised_window self w)) ⇓ λ s1,
    (∀ tm, timer_ok (with_timer s1 tm) → SInv P (with_timer s1 tm)) ∧ same_stream self s1 ∧
    outbound s1 = outbound self ∧ advertised_window s1 = w ∧ snd_una s1 = Z.max (snd_una self) n ∧
    0 < current_interval s1 ∧ timer s1 = timer self ∧
    if adv then ∃ rest, s1 = with_backoff (with_outstanding (with_snd_una (with_advertised_window self w) n) rest)
      (TcpSenderConfig.initial_rto_ms (config self)) (TcpSenderConfig.initial_rto_ms (config self)) 0
    else s1 = with_advertised_window self w.
Proof.
  intros HI Hw Hn adv. pose proof (interval_range P self HI) as Hint. pose proof HI as [].
  assert (Hconf := si_config0). destruct Hconf as (Hc1 & Hc2 & _).
  pose proof (segs_le _ _ _ _ _ si_segs0).
  subst adv. destruct (Z.ltb_spec (snd_una self) n).
  - wp_step. wp_apply (discard_wp P (with_snd_una (with_advertised_window self w) n) (snd_una self));
      [done|cbn; lia|done|].
    intros s1 (segs & -> & Hok & Hf & Hr & Hm). cbn in Hok, Hf, Hr, Hm. wp_step. split.
    + intros tm Ht. split; try done; cbn; try lia; auto.
    + split_and!; try done; cbn; [lia|unfold current_interval; cbn; case_match; lia|by exists segs].
  - wp_step. split; [intros tm Ht; by split|].
    split_and!; try done; cbn; [lia|unfold current_interval; cbn; case_match; lia].
Qed.

(** The timer stops when nothing is outstanding, and else follows the window. *)
Lemma settle_timer_wp P s1 (b : bool) :
  (∀ tm, timer_ok (with_timer s1 tm) → SInv P (with_timer s1 tm)) →
  0 < current_interval s1 → (b = false → timer_ok s1) →
  match outstanding s1 with [] => mret (with_timer s1 Timer.stop)
  | _ => if b then restart_timer_for_current_window s1 else mret s1 end
  ⇓ λ s2, s2 = with_timer s1 (settled s1 b) ∧ SInv P s2.
Proof.
  intros HI1 Hpos Hok. destruct (outstanding s1) as [|s segs] eqn:E; [|by apply restart_inv].
  wp_step. unfold settled. rewrite E. split; [done|]. apply HI1. unfold timer_ok. cbn. by rewrite E.
Qed.

Lemma sender_receive_wp P self msg :
  SInv P self → TcpReceiverMessage.ok msg →
  receive self msg ⇓ λ self', SInv P self' ∧ same_stream self self' ∧ received self msg self'.
Proof.
  intros HI [Hw Hack]. pose proof HI as []. pose proof (segs_le _ _ _ _ _ si_segs0) as Hle.
  pose proof (interval_range P self HI) as Hint.
  unfold receive, received. destruct (TcpReceiverMessage.rst msg).
  { wp_step. split; [by apply abort_inv|done]. }
  set (w := TcpReceiverMessage.window_size msg) in *.
  assert (Hconf := si_config0). destruct Hconf as (Hc1 & Hc2 & _).
  destruct (TcpReceiverMessage.ackno msg) as [a|].
  2:{ wp_step. set (b := negb (advertised_window self =? w) && _).
      wp_apply (restart_inv P (with_advertised_window self w) b).
      - intros tm Ht. by split.
      - unfold current_interval. cbn. case_match; lia.
      - intros Hb. subst b. apply andb_false_iff in Hb as [Hb|Hb].
        + apply negb_false_iff, Z.eqb_eq in Hb. by apply (timer_ok_same self).
        + unfold timer_ok in si_timer0 |- *. cbn in Hb |- *. by destruct (outstanding self).
      - intros s' [-> HI']. wp_step. wp_apply (sender_debug_check_wp P _ HI'). intros _ _.
        wp_step. split_and!; [done..|]. subst b. unfold settled. cbn. destruct (outstanding self); [done|].
        by rewrite andb_true_r. }
  wp_step. pose proof (unwrap_wp a (isn self) (snd_nxt self) Hack si_isn0 ltac:(ulia)) as Hun.
  wp_inv Hun. destruct Hun as (Hn & _ & _). rename r into n. rewrite Heq. wp_step.
  destruct (Z.ltb_spec (snd_nxt self) n) as [Hgt|Hlen].
  { wp_step. split_and!; try done. exists n. split; [done|]. by rewrite (proj2 (Z.ltb_lt _ _)). }
  (* the acknowledged prefix goes away *)
  change (snd_una (with_advertised_window self w)) with (snd_una self).
  wp_step. set (adv := snd_una self <? n).
  wp_apply (acknowledge_wp P self w n HI Hw Hlen).
  intros s1 (HI1 & Hss & Hob & Hwin & Huna & Hpos & Htm & Hadv). wp_step.
  fold adv in Hadv. set (b := adv || negb (advertised_window self =? w)).
  wp_apply (settle_timer_wp P s1 b HI1 Hpos).
  { intros Hb. apply orb_false_iff in Hb as [Ha Hb]. apply negb_false_iff, Z.eqb_eq in Hb.
    rewrite Ha in Hadv. subst s1. by apply (timer_ok_same self). }
  intros s2 [-> HI2]. wp_step.
  wp_apply (sender_debug_check_wp P _ HI2). intros _ _. wp_step. split_and!; [done|done|].
  exists n. split; [done|]. rewrite (proj2 (Z.ltb_ge _ _)) by lia.
  fold adv. subst b. destruct adv; [destruct Hadv as [rest ->]; by exists rest|by subst s1].
Qed.

(** *** [tick] *)

Definition doubled self (interval : Z) : Z :=
  Z.min (2 * interval) (TcpSenderConfig.max_timer_interval_ms (config self)).

Lemma backed_off_eq P self i : SInv P self → backed_off self i = doubled self i.
Proof.
  intros []. destruct si_config0 as (_ & [_ ?] & _). unfold backed_off, doubled, saturating_mul. lia.
Qed.

(** The exact effect of the passage of time. *)
Definition ticked self (elapsed : Z) (ms : list TcpSenderMessage.t) self' : Prop :=
  same_stream self self' ∧ outbound self' = outbound self ∧ snd_una self' = snd_una self ∧
  advertised_window self' = advertised_window self ∧ outstanding self' = outstanding self ∧
  match outstanding self with
  | [] => ms = [] ∧ self' = self
  | oldest :: _ =>
      if Timer.elapsed_ms (timer self) + elapsed <? current_interval self then
        ms = [] ∧ current_rto_ms self' = current_rto_ms self ∧
        persist_interval_ms self' = persist_interval_ms self ∧
        consecutive_retransmissions self' = consecutive_retransmissions self ∧
        Timer.elapsed_ms (timer self') = Timer.elapsed_ms (timer self) + elapsed
      else
        ms = [OutstandingSegment.message oldest] ∧ Timer.elapsed_ms (timer self') = 0 ∧
        if advertised_window self =? 0 then
          persist_interval_ms self' = doubled self (persist_interval_ms self) ∧
          current_rto_ms self' = current_rto_ms self ∧
          consecutive_retransmissions self' = consecutive_retransmissions self
        else
          current_rto_ms self' = doubled self (current_rto_ms self) ∧
          persist_interval_ms self' = persist_interval_ms self ∧
          consecutive_retransmissions self' = Z.min u64_max (consecutive_retransmissions self + 1)
  end.

Lemma sender_tick_wp P self elapsed :
  SInv P self → 0 ≤ elapsed →
  tick self elapsed ⇓ λ '(ms, self'), SInv P self' ∧ ticked self elapsed ms self'.
Proof.
  intros HI He. pose proof HI as []. unfold tick, ticked.
  pose proof (interval_range P self HI) as Hint. pose proof si_config0 as (Hc1 & Hc2 & _).
  unfold timer_ok in si_timer0. destruct (outstanding self) as [|oldest segs] eqn:E.
  { rewrite si_timer0. cbn. wp_step. assert (Hs : with_timer self Timer.stop = self) by (rewrite <- si_timer0; by destruct self).
    rewrite Hs. by split_and!. }
  destruct si_timer0 as (el & Ht & Hel). rewrite Ht. cbn [Timer.tick Timer.running negb Timer.elapsed_ms Timer.timeout_ms].
  unfold saturating_add.
  destruct (Z.ltb_spec (el + elapsed) (current_interval self)) as [Hlt|Hge].
  - assert (current_interval self ≤ u64_max) by (unfold current_interval; case_match; ulia).
    rewrite (proj2 (Z.leb_gt _ _)) by (cbn; lia). cbn [negb]. wp_step. split_and!; try done; [|cbn; lia].
    split; try done; cbn; try (by rewrite E).
    unfold timer_ok. cbn. rewrite E. exists (el + elapsed). split; [f_equal; cbn; lia|]. unfold current_interval in *. cbn. lia.
  - assert (current_interval self ≤ u64_max) by (unfold current_interval; case_match; ulia).
    rewrite (proj2 (Z.leb_le _ _)) by (cbn; lia). cbn [negb]. cbn [outstanding with_timer]. rewrite E.
    set (tm := Timer.mk _ _ _ _). 
    change (backed_off (with_timer self tm)) with (backed_off self). 
    cbn [advertised_window with_timer current_rto_ms persist_interval_ms consecutive_retransmissions].
    rewrite !(backed_off_eq P self) by done.
    wp_step.
    assert (Hmid : ∀ r p c,
      TcpSenderConfig.initial_rto_ms (config self) ≤ r ≤ TcpSenderConfig.max_timer_interval_ms (config self) →
      TcpSenderConfig.initial_rto_ms (config self) ≤ p ≤ TcpSenderConfig.max_timer_interval_ms (config self) →
      restart_timer_for_current_window (with_backoff (with_timer self tm) r p c) ⇓ λ s', SInv P s' ∧
        (∃ tm', s' = with_timer (with_backoff (with_timer self tm) r p c) tm') ∧ Timer.elapsed_ms (timer s') = 0).
    { intros r p c Hr Hp. unfold restart_timer_for_current_window.
      cbn [outstanding with_timer with_backoff advertised_window persist_interval_ms current_rto_ms]. rewrite E.
      unfold Timer.restart. destruct (Z.eqb_spec (advertised_window self) 0) as [Hz|Hz].
      all: wp_step; wp_step; wp_step; [by apply Z.ltb_lt; lia|]; wp_step; wp_step; split; [|split; [by eexists|done]].
      all: split; try done; cbn; rewrite ?E; try done.
      all: unfold timer_ok, current_interval, current_mode; cbn; rewrite E.
      all: first [rewrite (proj2 (Z.eqb_eq _ _) Hz) | rewrite (proj2 (Z.eqb_neq _ _) Hz)].
      all: exists 0; split; [done|lia]. }
    unfold saturating_add, doubled in *.
    destruct (advertised_window self =? 0);
      (wp_apply Hmid; [lia|lia|]; intros s' (HI' & (tm' & ->) & Hel0); wp_step;
       wp_apply (sender_debug_check_wp P _ HI'); intros _ _; wp_step; split_and!; try done).
Qed.

(** *** Writing to the stream *)

Lemma write_wp P self data :
  SInv P self → ByteStream.bytes_pushed (outbound self) + blen data ≤ u64_max →
  ByteStream.push (outbound self) data ⇓ λ '(n, o),
    SInv P (with_outbound self o) ∧ 0 ≤ n ≤ blen data ∧
    ByteStream.content o = content self ++ take (Z.to_nat n) data ∧
    ByteStream.same_flags (outbound self) o ∧
    ByteStream.bytes_pushed o = ByteStream.bytes_pushed (outbound self) + n ∧
    (out_closed self = true → n = 0).
Proof.
  intros [] Hmax. pose proof (accepts_range _ data si_outbound0) as Hr.
  wp_apply (push_wp (outbound self) data); [done|lia|].
  intros [n o] (Hn & HI & (Hc & Hcl & He) & Hpu & Hpo & Hcon). simpl in *. subst n.
  assert (Hz : out_closed self = true → ByteStream.accepts (outbound self) data = 0)
    by (intros Hcl'; unfold ByteStream.accepts; by rewrite Hcl').
  rewrite take_sub. split_and!; try done; try lia. split; try done; cbn; try congruence.
  - intros Hf. destruct (si_fin0 Hf) as [Hcl' Hcc]. split; [congruence|].
    rewrite Hcon, Hcc, Hz by done. done.
  - by rewrite He.
Qed.

Lemma close_outbound_inv P self :
  SInv P self → SInv P (with_outbound self (ByteStream.close (outbound self))).
Proof.
  intros []. split; try done; cbn; [by apply close_inv|]. intros Hf. by destruct (si_fin0 Hf).
Qed.

(** *** Runs *)

(** [m] is some message of the stream [W]. *)
Definition emits (W : bytes) (z : Wrap32.t) (m : TcpSenderMessage.t) : Prop :=
  ∃ n, carries W z m n.

Lemma emits_app W X z m :
  emits W z m → (TcpSenderMessage.fin m = true → X = []) → emits (W ++ X) z m.
Proof.
  intros [n Hc] Hf. exists n. destruct (TcpSenderMessage.fin m) eqn:E.
  - by rewrite (Hf eq_refl), app_nil_r.
  - by apply carries_app.
Qed.

Lemma segs_emits P z a b segs : segs_ok P z a b segs →
  Forall (λ s, emits P z (OutstandingSegment.message s)) segs.
Proof.
  revert a. induction segs as [|s segs IH]; simpl; intros a H; [by constructor|].
  destruct H as (_ & _ & Hc & H). constructor; [by exists a|eauto].
Qed.

(** Every outstanding segment is a message of everything written; one that carries
    the FIN is there only once the stream is closed. *)
Lemma outstanding_emits P self : SInv P self →
  Forall (λ s, emits (P ++ content self) (isn self) (OutstandingSegment.message s) ∧
               (TcpSenderMessage.fin (OutstandingSegment.message s) = true → out_closed self = true))
    (outstanding self).
Proof.
  intros []. pose proof (segs_emits _ _ _ _ _ si_segs0) as He.
  destruct (fin_sent self) eqn:Ef.
  - destruct (si_fin0 eq_refl) as [Hcl ->]. rewrite app_nil_r. eapply Forall_impl; [exact He|]. by intros s.
  - specialize (si_nofin0 eq_refl). apply Forall_and. split; [|eapply Forall_impl; [exact si_nofin0|]; by intros s ->].
    rewrite Forall_forall in *. intros s Hs. apply emits_app; [auto|]. rewrite si_nofin0 by done. done.
Qed.

Definition sop_ok (o : op) : Prop :=
  match o with
  | Receive m => TcpReceiverMessage.ok m
  | Tick elapsed => 0 ≤ elapsed
  | _ => True
  end.

Lemma sender_offered_nonneg ops : 0 ≤ offered ops.
Proof. induction ops as [|[d| | | |] ops]; simpl; [lia|pose proof (blen_nonneg d)| | | |]; lia. Qed.

Lemma filled_emits w P self ms self' Q segs : filled w P self ms self' Q segs →
  Forall (λ m, emits (P ++ content self) (isn self) m ∧
               (TcpSenderMessage.fin m = true → out_closed self = true)) ms.
Proof.
  intros []. subst ms. apply Forall_fmap. pose proof (outstanding_emits _ _ fi_inv0) as He.
  rewrite fi_outstanding0 in He. apply Forall_app in He as [_ He].
  rewrite fi_content0, app_assoc. destruct fi_kept0 as [Hisn ? ? ? ? ? ? (_ & Hcl & _) ?].
  rewrite Hisn, Hcl in He. exact He.
Qed.

Lemma received_outbound self msg self' : received self msg self' →
  content self' = content self ∧ out_closed self' = out_closed self ∧
  ByteStream.bytes_pushed (outbound self') = ByteStream.bytes_pushed (outbound self).
Proof.
  intros H. destruct (TcpReceiverMessage.rst msg) eqn:Er; [unfold received in H; rewrite Er in H; by subst|].
  by destruct (received_heeded _ _ _ H Er) as [-> _].
Qed.

(** The ghost [W] is everything written so far. *)
Lemma sender_run_wp P self ops :
  SInv P self → Forall sop_ok ops → ByteStream.bytes_pushed (outbound self) + offered ops + 2 ≤ u64_max →
  run self ops ⇓ λ '(ins, ms, self'), ∃ P', SInv P' self' ∧ isn self' = isn self ∧
    P' ++ content self' = (P ++ content self) ++ ins ∧ (out_closed self = true → ins = []) ∧
    Forall (emits ((P ++ content self) ++ ins) (isn self)) ms.
Proof.
  intros HI Hops. revert P self HI. induction Hops as [|o ops Ho _ IH]; intros P self HI Hmax; simpl.
  { wp_step. exists P. rewrite app_nil_r. by split_and!. }
  pose proof (sender_offered_nonneg ops).
  destruct o as [data| | |m|elapsed]; simpl in *.
  - pose proof (blen_nonneg data). wp_step. wp_apply (write_wp P self data HI); [lia|].
    intros [n o] (HI1 & Hn & Hcon & (_ & Hcl & _) & Hpu & Hz). wp_step.
    wp_apply (IH P (with_outbound self o) HI1); [cbn; lia|].
    intros [[ins ms] self'] (P' & HI' & Hisn & Hcc & Hclo & Hms). cbn in *. wp_step.
    exists P'. rewrite Hcon in *. rewrite !app_assoc in *. split_and!; try done.
    intros Hc. rewrite Hclo, Hz by congruence. done.
  - wp_apply (IH P _ (close_outbound_inv P self HI)); [done|].
    intros [[ins ms] self'] (P' & HI' & Hisn & Hcc & Hclo & Hms). cbn in *. exists P'. split_and!; try done. auto.
  - wp_step. wp_apply (sender_push_wp P self HI); [lia|]. intros [ms0 self1] (Q & segs & Hf).
    pose proof (filled_emits _ _ _ _ _ _ _ Hf) as Hem. destruct Hf. destruct fi_kept0 as [Hk1 ? ? ? ? ? ? (_ & Hk2 & _) Hk3].
    wp_step. wp_apply (IH _ _ fi_inv0); [lia|].
    intros [[ins ms] self'] (P' & HI' & Hisn & Hcc & Hclo & Hms). wp_step.
    replace ((P ++ Q) ++ content self1) with (P ++ content self) in * by (rewrite fi_content0; by rewrite app_assoc).
    exists P'. split_and!; try congruence.
    { intros Hc. apply Hclo. congruence. }
    rewrite Hk1 in Hms. apply Forall_app. split; [|done]. eapply Forall_impl; [exact Hem|].
    intros m [He Hfin]. apply emits_app; [done|]. intros Hm. apply Hclo. rewrite Hk2. auto.
  - wp_step. wp_apply (sender_receive_wp P self m HI Ho). intros self1 (HI1 & (Hisn1 & _) & Hr).
    destruct (received_outbound _ _ _ Hr) as (Hc1 & Hcl1 & Hp1).
    wp_apply (IH P self1 HI1); [lia|]. intros [[ins ms] self'] (P' & HI' & Hisn & Hcc & Hclo & Hms).
    rewrite Hc1, Hcl1, Hisn1 in *. eauto 10.
  - wp_step. wp_apply (sender_tick_wp P self elapsed HI Ho).
    intros [ms0 self1] (HI1 & (Hisn1 & _) & Hout1 & _ & _ & _ & Hms0). wp_step.
    wp_apply (IH P self1 HI1); [rewrite Hout1; lia|]. intros [[ins ms] self'] (P' & HI' & Hisn & Hcc & Hclo & Hms).
    rewrite Hout1, Hisn1 in *. wp_step. exists P'. split_and!; try done. apply Forall_app. split; [|done].
    pose proof (outstanding_emits P self HI) as Hem. destruct (outstanding self) as [|s segs]; [by destruct Hms0 as [-> _]|].
    apply Forall_cons in Hem as [[He Hf] _]. case_match; destruct Hms0 as (-> & _); [done|].
    constructor; [|done]. apply emits_app; [done|]. intros Hm. auto.
Qed.
End sender.

(** C20: What a sender transmits is its stream. Whatever the application writes, the
    peer answers (any acknowledgement, window or reset) and however time passes, a new
    sender runs without a panic while fewer than 2^64 - 2 bytes are offered, keeps
    its invariant, and every message it ever transmits, first time or again, carries
    a range of the sequence space of exactly the bytes its stream accepted. *)
Theorem tcp_sender_streams cap isn config ops :
  u64 cap → Wrap32.ok isn → TcpSenderConfig.ok config → Forall sop_ok ops →
  TcpSender.offered ops + 2 ≤ u64_max →
  ∃ ins ms self P,
    (self ← TcpSender.new cap isn config; TcpSender.run self ops) = Ret (ins, ms, self) ∧
    Forall (λ m, ∃ n, carries ins isn m n) ms ∧
    SInv P self ∧ P ++ ByteStream.content (TcpSender.outbound self) = ins ∧
    (Timer.running (TcpSender.timer self) = true ↔ TcpSender.outstanding self ≠ []).
Proof.
  intros Hcap Hi Hc Hops Hmax. pose proof (tcp_sender_new_wp cap isn config Hcap Hi Hc) as H.
  wp_inv H. destruct H as (HI & Hout & Hisn & _).
  pose proof (sender_run_wp [] r ops HI Hops) as H. rewrite Hout in H. specialize (H ltac:(simpl; lia)).
  wp_inv H. destruct r0 as [[ins ms] self]. destruct H as (P & HI' & Hisn' & Hcon & _ & Hms).
  exists ins, ms, self, P. rewrite Heq, bind_Ret. rewrite Hisn in Hms. split_and!; try done.
  pose proof (si_timer _ _ HI') as Ht. unfold timer_ok in Ht. destruct (TcpSender.outstanding self).
  - rewrite Ht. done.
  - by destruct Ht as (el & -> & _).
Qed.

Lemma tcp_sender_streams_witness :
  let ops := [TcpSender.Write [x61; x62; x63]; TcpSender.Push; TcpSender.Receive (TcpReceiverMessage.mk (Some (Wrap32.new 0)) 2 false);
              TcpSender.Push; TcpSender.Tick 1000; TcpSender.CloseOutbound; TcpSender.Receive (TcpReceiverMessage.mk (Some (Wrap32.new 1)) 0 false);
              TcpSender.Push; TcpSender.Tick 5000] in
  ∃ ins ms self P,
    (self ← TcpSender.new 10 (Wrap32.new u32_max) TcpSenderConfig.default; TcpSender.run self ops) = Ret (ins, ms, self) ∧
    Forall (λ m, ∃ n, carries ins (Wrap32.new u32_max) m n) ms ∧
    SInv P self ∧ P ++ ByteStream.content (TcpSender.outbound self) = ins ∧
    (Timer.running (TcpSender.timer self) = true ↔ TcpSender.outstanding self ≠ []).
Proof.
  intros ops. apply tcp_sender_streams; [unfold u64; lia|unfold Wrap32.ok, u32; simpl; lia| | |vm_compute; discriminate].
  - unfold TcpSenderConfig.ok, u64. simpl. lia.
  - repeat constructor; unfold TcpReceiverMessage.ok, Wrap32.ok, u16, u32; simpl; lia.
Defined.

(** C16: [push] fills the window and nothing more. It terminates; the new segments are the
    next sequence numbers in order, taken from the front of the stream; the bytes in
    flight do not exceed the advertised window (one byte when it is zero) unless they did
    before; and [push] stops only when the window is full or nothing is left to send. *)
Theorem tcp_sender_push_fills_window P self :
  SInv P self → ByteStream.bytes_pushed (TcpSender.outbound self) + 2 ≤ u64_max →
  ∃ ms self' Q segs, TcpSender.push self = Ret (ms, self') ∧ SInv (P ++ Q) self' ∧
    ByteStream.content (TcpSender.outbound self) = Q ++ ByteStream.content (TcpSender.outbound self') ∧
    ms = OutstandingSegment.message <$> segs ∧
    TcpSender.outstanding self' = TcpSender.outstanding self ++ segs ∧
    segs_ok (P ++ Q) (TcpSender.isn self) (TcpSender.snd_nxt self) (TcpSender.snd_nxt self') segs ∧
    (let w := Z.max (TcpSender.advertised_window self) 1 in
     let flight s := TcpSender.snd_nxt s - TcpSender.snd_una s in
     flight self' ≤ Z.max w (flight self) ∧
     (w ≤ flight self' ∨
      TcpSender.syn_sent self' = true ∧ ByteStream.content (TcpSender.outbound self') = [] ∧
      (ByteStream.closed (TcpSender.outbound self') = true → TcpSender.fin_sent self' = true))).
Proof.
  intros HI Hmax. pose proof (sender_push_wp P self HI Hmax) as H. wp_inv H.
  destruct r as [ms self']. destruct H as (Q & segs & []). destruct fi_kept0.
  exists ms, self', Q, segs. cbv beta zeta. rewrite ke_una0. split_and!; try done; lia.
Qed.

(** A sender that wrote four bytes and has not sent anything. *)
Example fresh_sender : TcpSender.t :=
  TcpSender.mk (ByteStream.mk 10 [[x61; x62; x63; x64]] 4 false false 4 0) (Wrap32.new 7) 0 0 3 [] false false
    TcpSenderConfig.default 1000 1000 Timer.default 0.

Lemma fresh_sender_inv : SInv [] fresh_sender.
Proof.
  split; try done; cbn. split; try done. by repeat constructor.
Qed.

Lemma tcp_sender_push_fills_window_witness :
  ∃ ms self' Q segs, TcpSender.push fresh_sender = Ret (ms, self') ∧ SInv ([] ++ Q) self' ∧
    ByteStream.content (TcpSender.outbound fresh_sender) = Q ++ ByteStream.content (TcpSender.outbound self') ∧
    ms = OutstandingSegment.message <$> segs ∧
    TcpSender.outstanding self' = TcpSender.outstanding fresh_sender ++ segs ∧
    segs_ok ([] ++ Q) (TcpSender.isn fresh_sender) (TcpSender.snd_nxt fresh_sender) (TcpSender.snd_nxt self') segs ∧
    (let w := Z.max (TcpSender.advertised_window fresh_sender) 1 in
     let flight s := TcpSender.snd_nxt s - TcpSender.snd_una s in
     flight self' ≤ Z.max w (flight fresh_sender) ∧
     (w ≤ flight self' ∨
      TcpSender.syn_sent self' = true ∧ ByteStream.content (TcpSender.outbound self') = [] ∧
      (ByteStream.closed (TcpSender.outbound self') = true → TcpSender.fin_sent self' = true))).
Proof. apply tcp_sender_push_fills_window; [apply fresh_sender_inv|vm_compute; discriminate]. Defined.


(** A sender with two bytes in flight. *)
Example flying_sender : TcpSender.t :=
  TcpSender.mk (ByteStream.mk 10 [] 0 false false 2 2) (Wrap32.new 7) 1 3 5
    [OutstandingSegment.mk 1 (TcpSenderMessage.mk (Wrap32.new 8) false [x61; x62] false false)] true false
    TcpSenderConfig.default 1000 1000 (Timer.mk true 10 1000 (Some Retransmission)) 0.

Lemma flying_sender_inv : SInv [x61; x62] flying_sender.
Proof. split; try done; cbn; first [by exists 10 | intros _; constructor; [done|by constructor] | by repeat constructor]. Qed.


(** C26: The retransmission timer. [tick] never panics. Before the interval has elapsed it
    transmits nothing and only the clock moves; when it elapses exactly the oldest
    outstanding segment is sent again, the clock restarts, and the interval doubles up
    to the configured maximum: the persist interval when the window is zero, otherwise
    the RTO, counting a retransmission. With nothing outstanding, nothing happens. *)
Theorem tcp_sender_tick_exact P self elapsed :
  SInv P self → 0 ≤ elapsed →
  ∃ ms self', TcpSender.tick self elapsed = Ret (ms, self') ∧ SInv P self' ∧ ticked self elapsed ms self'.
Proof.
  intros HI He. pose proof (sender_tick_wp P self elapsed HI He) as H. wp_inv H.
  destruct r as [ms self']. eauto.
Qed.

Lemma tcp_sender_tick_exact_witness :
  ∃ ms self', TcpSender.tick flying_sender 990 = Ret (ms, self') ∧ SInv [x61; x62] self' ∧
    ticked flying_sender 990 ms self'.
Proof. apply tcp_sender_tick_exact; [apply flying_sender_inv|done]. Defined.

(** Ticks of the given lengths. *)
Fixpoint ticks (self : TcpSender.t) (times : list Z) : exec (list TcpSenderMessage.t * TcpSender.t) :=
  match times with
  | [] => mret ([], self)
  | elapsed :: times =>
      '(ms, self) ← TcpSender.tick self elapsed;
      '(ms', self) ← ticks self times;
      mret (ms ++ ms', self)
  end.

(** The interval after [k] expirations. *)
Definition backoff_interval (c : TcpSenderConfig.t) (k : nat) : Z :=
  Z.min (TcpSenderConfig.initial_rto_ms c * 2 ^ Z.of_nat k) (TcpSenderConfig.max_timer_interval_ms c).

(** How often a clock that shows [elapsed] after [k] expirations has expired after these ticks: an expiration
    sets it back to zero, whatever the tick was beyond it. *)
Fixpoint expirations (c : TcpSenderConfig.t) (k : nat) (elapsed : Z) (times : list Z) : nat :=
  match times with
  | [] => k
  | ms :: times =>
      if backoff_interval c k <=? elapsed + ms then expirations c (S k) 0 times
      else expirations c k (elapsed + ms) times
  end.

Lemma backoff_double c k : TcpSenderConfig.ok c →
  Z.min (2 * backoff_interval c k) (TcpSenderConfig.max_timer_interval_ms c) = backoff_interval c (S k).
Proof.
  intros (Hc1 & Hc2 & _). unfold backoff_interval. rewrite Nat2Z.inj_succ, Z.pow_succ_r by lia.
  pose proof (Z.pow_pos_nonneg 2 (Z.of_nat k) ltac:(lia) ltac:(lia)). nia.
Qed.

Lemma expirations_mono c k elapsed times : (k ≤ expirations c k elapsed times)%nat.
Proof.
  revert k elapsed. induction times as [|ms times IH]; intros k el; cbn [expirations]; [lia|].
  destruct (_ <=? _); [etransitivity; [|apply IH]; lia|apply IH].
Qed.

Lemma ticks_wp P self times oldest segs (k : nat) :
  SInv P self → TcpSender.outstanding self = oldest :: segs → TcpSender.advertised_window self ≠ 0 →
  Forall (λ ms, 0 ≤ ms) times → TcpSender.current_rto_ms self = backoff_interval (TcpSender.config self) k →
  TcpSender.consecutive_retransmissions self = Z.min u64_max (Z.of_nat k) →
  ticks self times ⇓ λ '(ms, self'),
    let n := expirations (TcpSender.config self) k (Timer.elapsed_ms (TcpSender.timer self)) times in
    ms = replicate (n - k) (OutstandingSegment.message oldest) ∧
    TcpSender.outstanding self' = oldest :: segs ∧
    TcpSender.current_rto_ms self' = backoff_interval (TcpSender.config self) n ∧
    TcpSender.consecutive_retransmissions self' = Z.min u64_max (Z.of_nat n).
Proof.
  intros HI Hos Hw Ht. revert self k HI Hos Hw. induction Ht as [|elapsed times He _ IH]; intros self k HI Hos Hw Hr Hc.
  { cbn. wp_step. by rewrite Nat.sub_diag. }
  cbn [ticks expirations]. pose proof (si_config _ _ HI) as Hok.
  wp_step. wp_apply (sender_tick_wp P self elapsed HI He).
  intros [ms0 self1] (HI1 & (_ & Hcfg & _) & _ & _ & Hwin & Hos1 & Hms). rewrite Hos in Hms, Hos1.
  assert (Hci : current_interval self = backoff_interval (TcpSender.config self) k)
    by (unfold current_interval; by rewrite (proj2 (Z.eqb_neq _ _) Hw)).
  rewrite Hci, (proj2 (Z.eqb_neq _ _) Hw), Z.ltb_antisym in Hms. wp_step. destruct (_ <=? _); cbn [negb] in Hms.
  - destruct Hms as (-> & Hel & Hrto & _ & Hcr). unfold doubled in Hrto. rewrite Hr, backoff_double in Hrto by done.
    wp_apply (IH self1 (S k)); [done|done|congruence|congruence|rewrite Hcr, Hc; lia|].
    rewrite Hcfg, Hel. intros [ms self'] (-> & ? & ? & ?). wp_step. split; [|done].
    pose proof (expirations_mono (TcpSender.config self) (S k) 0 times). by rewrite <- (Nat.succ_pred_pos (_ - k)) by lia;
      replace (pred (_ - k)) with (expirations (TcpSender.config self) (S k) 0 times - S k)%nat by lia.
  - destruct Hms as (-> & Hrto & _ & Hcr & Hel).
    wp_apply (IH self1 k); [done|done|congruence|congruence|congruence|].
    rewrite Hcfg, Hel. intros [ms self'] H. by wp_step.
Qed.

(** C37: Exponential back-off. While no acknowledgement arrives and the window is open, let time
    pass in ticks of any lengths, however short. The clock expires when the ticks since
    its last restart reach the interval, and [expirations] counts how often; if that is [n] times,
    then exactly [n] messages are sent, each the oldest segment, [n] retransmissions are
    counted (as far as a 64-bit integer counts), and the RTO, from its initial value, has become
    min(initial * 2^n, max). *)
Theorem tcp_sender_backoff P self times oldest segs :
  SInv P self → TcpSender.outstanding self = oldest :: segs → TcpSender.advertised_window self ≠ 0 →
  Forall (λ ms, 0 ≤ ms) times →
  TcpSender.current_rto_ms self = TcpSenderConfig.initial_rto_ms (TcpSender.config self) →
  TcpSender.consecutive_retransmissions self = 0 →
  let n := expirations (TcpSender.config self) 0 (Timer.elapsed_ms (TcpSender.timer self)) times in
  ∃ self', ticks self times = Ret (replicate n (OutstandingSegment.message oldest), self') ∧
    TcpSender.current_rto_ms self' =
      Z.min (TcpSenderConfig.initial_rto_ms (TcpSender.config self) * 2 ^ Z.of_nat n)
            (TcpSenderConfig.max_timer_interval_ms (TcpSender.config self)) ∧
    TcpSender.consecutive_retransmissions self' = Z.min u64_max (Z.of_nat n) ∧
    TcpSender.outstanding self' = TcpSender.outstanding self.
Proof.
  intros HI Hos Hw He Hr Hc n. pose proof (si_config _ _ HI) as (Hc1 & _).
  pose proof (ticks_wp P self times oldest segs 0 HI Hos Hw He) as H.
  specialize (H ltac:(unfold backoff_interval; rewrite Hr; lia) ltac:(rewrite Hc; lia)). wp_inv H.
  destruct r as [ms self']. cbn zeta in H. rewrite Nat.sub_0_r in H. destruct H as (-> & Ho & Hrto & Hcr). exists self'.
  rewrite Hos. by split_and!.
Qed.

(** The clock of [flying_sender] shows 10: it expires in the fourth tick, in the sixth and in the last. *)
Lemma tcp_sender_backoff_witness :
  let times := [10; 0; 970; 10; 1999; 1; 3000; 5000] in
  expirations (TcpSender.config flying_sender) 0 (Timer.elapsed_ms (TcpSender.timer flying_sender)) times = 3%nat ∧
  ∃ self', ticks flying_sender times =
      Ret (replicate 3 (TcpSenderMessage.mk (Wrap32.new 8) false [x61; x62] false false), self') ∧
    TcpSender.current_rto_ms self' = Z.min (1000 * 2 ^ Z.of_nat 3) 60000 ∧
    TcpSender.consecutive_retransmissions self' = Z.min u64_max (Z.of_nat 3) ∧
    TcpSender.outstanding self' = TcpSender.outstanding flying_sender.
Proof.
  intros times. split; [reflexivity|].
  apply (tcp_sender_backoff [x61; x62] flying_sender times
    (OutstandingSegment.mk 1 (TcpSenderMessage.mk (Wrap32.new 8) false [x61; x62] false false)) []);
    [apply flying_sender_inv|done|done|by repeat constructor|done|done].
Defined.

(** A reset counts as finished. [is_finished] is documented to be true once the FIN
    has been sent and fully acknowledged, but a reset clears the outstanding segments:
    a sender whose FIN is unacknowledged reports that it is finished as soon as the
    peer resets the connection. *)
Theorem reset_sender_reports_finished P self msg :
  SInv P self → TcpSender.fin_sent self = true → TcpSender.snd_una self < TcpSender.snd_nxt self →
  TcpReceiverMessage.rst msg = true →
  TcpSender.is_finished self = false ∧
  ∃ self', TcpSender.receive self msg = Ret self' ∧ TcpSender.is_finished self' = true.
Proof.
  intros HI Hf Hlt Hr. split.
  - pose proof (segs_empty _ _ _ _ _ (si_segs _ _ HI)) as He. unfold TcpSender.is_finished. rewrite Hf.
    destruct (TcpSender.outstanding self); [|done]. exfalso. assert (TcpSender.snd_una self = TcpSender.snd_nxt self) by by apply He. lia.
  - exists (TcpSender.abort self). unfold TcpSender.receive. rewrite Hr. split; [done|].
    unfold TcpSender.is_finished. cbn. by rewrite Hf.
Qed.

(** The same sender after [close]: the FIN is in flight too. *)
Example closing_sender : TcpSender.t :=
  TcpSender.mk (ByteStream.mk 10 [] 0 true false 2 2) (Wrap32.new 7) 3 4 5
    [OutstandingSegment.mk 3 (TcpSenderMessage.mk (Wrap32.new 10) false [] true false)] true true
    TcpSenderConfig.default 1000 1000 (Timer.mk true 10 1000 (Some Retransmission)) 0.

Lemma closing_sender_inv : SInv [x61; x62] closing_sender.
Proof. split; try done; cbn; first [by exists 10 | intros _; constructor; [done|by constructor] | by repeat constructor]. Qed.

Lemma reset_sender_reports_finished_witness :
  TcpSender.is_finished closing_sender = false ∧
  ∃ self', TcpSender.receive closing_sender (TcpReceiverMessage.mk None 0 true) = Ret self' ∧
    TcpSender.is_finished self' = true.
Proof. by apply (reset_sender_reports_finished [x61; x62]); [apply closing_sender_inv|..]. Defined.
