(* ===== verification/tcp_link.v ===== *)
(** * One direction of a connection over an unreliable network

    A [TcpSender] and a [TcpReceiver] joined by a network that may lose, duplicate,
    delay and reorder: every message ever sent stays available, and a step delivers any
    of them, any number of times.  The theorem is the end-to-end promise of the two
    components together; it is proved from their interfaces. *)

From S2P Require Import prelude wrapping_integers byte_stream btree_map tcp_message stream.
From S2P Require Import reassembler tcp_receiver tcp_sender.

Module Link.

Record t := mk {
  sender : TcpSender.t;
  receiver : TcpReceiver.t;
  data_net : list TcpSenderMessage.t;
  ack_net : list TcpReceiverMessage.t;
  written : bytes;
  read : bytes;
}.

Definition new (send_capacity recv_capacity : Z) (isn : Wrap32.t) (config : TcpSenderConfig.t) : exec t :=
  s ← TcpSender.new send_capacity isn config;
  r ← TcpReceiver.new recv_capacity;
  mret (mk s r [] [] [] []).

Inductive op :=
| Write (data : bytes)
| Close
| Push
| Tick (elapsed_ms : Z)
| DeliverData (i : nat)
| SendAck
| DeliverAck (i : nat)
| Read (len : Z).

Definition step (self : t) (o : op) : exec t :=
  let '(mk s r data acks w rd) := self in
  match o with
  | Write bs =>
      '(n, out) ← ByteStream.push (TcpSender.outbound s) bs;
      mret (mk (TcpSender.with_outbound s out) r data acks (w ++ take (Z.to_nat n) bs) rd)
  | Close => mret (mk (TcpSender.with_outbound s (ByteStream.close (TcpSender.outbound s))) r data acks w rd)
  | Push => '(ms, s) ← TcpSender.push s; mret (mk s r (data ++ ms) acks w rd)
  | Tick ms => '(ms, s) ← TcpSender.tick s ms; mret (mk s r (data ++ ms) acks w rd)
  | DeliverData i =>
      match data !! i with
      | Some m => '(_, r) ← TcpReceiver.receive r m; mret (mk s r data acks w rd)
      | None => mret self
      end
  | SendAck => a ← TcpReceiver.send r; mret (mk s r data (acks ++ [a]) w rd)
  | DeliverAck i =>
      match acks !! i with
      | Some a => s ← TcpSender.receive s a; mret (mk s r data acks w rd)
      | None => mret self
      end
  | Read len =>
      '(b, out) ← ByteStream.pop (TcpReceiver.output r) len;
      mret (mk s (TcpReceiver.with_output r out) data acks w (rd ++ b))
  end.

Fixpoint run (self : t) (ops : list op) : exec t :=
  match ops with
  | [] => mret self
  | o :: ops => self ← step self o; run self ops
  end.

Fixpoint offered (ops : list op) : Z :=
  match ops with
  | [] => 0
  | Write data :: ops => blen data + offered ops
  | _ :: ops => offered ops
  end.

Definition op_ok (o : op) : Prop :=
  match o with Tick ms => 0 ≤ ms | Read len => 0 ≤ len | _ => True end.

End Link.

Section link.
Import Link.
Implicit Types (self : Link.t) (s : TcpSender.t) (r : TcpReceiver.t) (P : bytes).

(** The next sequence number the receiver expects. *)
Definition rcv_nxt r : Z :=
  match TcpReceiver.isn r with
  | None => 0
  | Some _ => ByteStream.bytes_pushed (TcpReceiver.output r) + 1
              + of_bool (ByteStream.closed (TcpReceiver.output r))
  end.

(** A data message in the network is a message of what was sent so far. *)
Definition data_ok P s (m : TcpSenderMessage.t) : Prop :=
  TcpSenderMessage.rst m = false ∧ emits P (TcpSender.isn s) m ∧
  (TcpSenderMessage.fin m = true → TcpSender.fin_sent s = true) ∧ TcpSender.syn_sent s = true.

(** An acknowledgement in the network is no more than what the receiver expects now. *)
Definition ack_ok s (nxt : Z) (a : TcpReceiverMessage.t) : Prop :=
  TcpReceiverMessage.ok a ∧ TcpReceiverMessage.rst a = false ∧
  ∀ w, TcpReceiverMessage.ackno a = Some w → ∃ k, w = Wrap32.wrap k (TcpSender.isn s) ∧ 0 ≤ k ≤ nxt.

Record LInv P self : Prop := {
  li_sender : SInv P (sender self);
  li_no_error : ByteStream.error (TcpSender.outbound (sender self)) = false;
  li_written : written self = P ++ ByteStream.content (TcpSender.outbound (sender self));
  li_pushed : ByteStream.bytes_pushed (TcpSender.outbound (sender self)) = blen (written self);
  li_bound : blen (written self) < 2 ^ 31 - 2;
  li_data : Forall (data_ok P (sender self)) (data_net self);
  li_receiving : receiving P (TcpSender.isn (sender self)) (read self) (receiver self);
  li_eof : is_Some (Reassembler.eof_index (TcpReceiver.reassembler (receiver self))) →
           TcpSender.fin_sent (sender self) = true;
  li_syn : is_Some (TcpReceiver.isn (receiver self)) → TcpSender.syn_sent (sender self) = true;
  li_rcv_error : ByteStream.error (TcpReceiver.output (receiver self)) = false;
  li_acks : Forall (ack_ok (sender self) (rcv_nxt (receiver self))) (ack_net self);
  li_una : TcpSender.snd_una (sender self) ≤ rcv_nxt (receiver self);
}.

(** The receiver never expects more than the sender has sent. *)
Lemma rcv_nxt_bound P self : LInv P self →
  0 ≤ rcv_nxt (receiver self) ≤ TcpSender.snd_nxt (sender self) ∧
  TcpSender.snd_nxt (sender self) ≤ 2 ^ 31 - 1.
Proof.
  intros []. destruct li_receiving0 as [Ha _]. pose proof (ag_inv _ _ _ Ha) as HR.
  destruct (window_le _ (ri_output _ HR)) as ([H0 _] & _). pose proof (ag_bound _ _ _ Ha).
  pose proof (si_nxt _ _ li_sender0) as Hn.
  assert (Hw : blen P ≤ blen (written self)).
  { rewrite li_written0, blen_app. pose proof (blen_nonneg (ByteStream.content (TcpSender.outbound (sender self)))). lia. }
  pose proof (of_bool_range (TcpSender.syn_sent (sender self))).
  pose proof (of_bool_range (TcpSender.fin_sent (sender self))). pose proof (blen_nonneg P).
  unfold Reassembler.first_unassembled in *. fold (TcpReceiver.output (receiver self)) in *.
  split; [|lia]. unfold rcv_nxt. destruct (TcpReceiver.isn (receiver self)) as [i|]; [|lia].
  rewrite Hn, li_syn0 by done. cbn [of_bool].
  destruct (ByteStream.closed (TcpReceiver.output (receiver self))) eqn:Ec; cbn [of_bool]; [|lia].
  rewrite li_eof0; cbn [of_bool]; [lia|]. rewrite (ri_closed _ HR) by done. eauto.
Qed.

(** When the sender sends more, what the receiver knows stays true. *)
Lemma receiving_grow P Q z popped r :
  receiving P z popped r → (is_Some (Reassembler.eof_index (TcpReceiver.reassembler r)) → Q = []) →
  receiving (P ++ Q) z popped r.
Proof.
  intros [Ha Hi] Hq. split; [|done]. destruct Ha. pose proof (blen_nonneg Q). destruct (window_le _ (ri_output _ ag_inv)) as ([? _] & _).
  split; try done.
  - intros e He. rewrite Hq, app_nil_r by by rewrite He. auto.
  - rewrite ag_output. symmetry. apply sub_app_l; lia.
  - rewrite blen_app. lia.
  - intros i b Hb%ag_stored. rewrite at_z_app. pose proof (at_z_is_Some _ _ _ Hb).
    by rewrite (proj2 (Z.ltb_lt _ _)) by lia.
Qed.

Lemma data_grow P Q s s' m :
  data_ok P s m → TcpSender.isn s' = TcpSender.isn s → TcpSender.syn_sent s' = true →
  (TcpSender.fin_sent s = true → Q = [] ∧ TcpSender.fin_sent s' = true) → data_ok (P ++ Q) s' m.
Proof.
  intros (Hr & He & Hf & Hs) Hi Hs' Hfin. split_and!; [done| | |done].
  - rewrite Hi. apply emits_app; [done|]. intros Hm. by apply Hfin, Hf.
  - intros Hm. by apply Hfin, Hf.
Qed.

Lemma ack_mono s s' n n' a : ack_ok s n a → TcpSender.isn s' = TcpSender.isn s → n ≤ n' → ack_ok s' n' a.
Proof.
  intros (Hok & Hr & Hk) Hi Hn. split_and!; [done|done|]. intros w Hw.
  destruct (Hk w Hw) as (k & -> & ?). exists k. rewrite Hi. split; [done|lia].
Qed.

(** A delivered segment goes to the reassembler at the index it was cut from. *)
Lemma segment_inserted P z popped r m n :
  receiving P z popped r → Wrap32.ok z → blen P < 2 ^ 31 - 1 → segment_of P z m n →
  (TcpReceiver.isn r = None → TcpSenderMessage.syn m = true) →
  TcpReceiver.receive r m ⇓ λ '(res, r'), res = Ok tt ∧ receiving P z popped r' ∧ TcpReceiver.isn r' = Some z ∧
    let k := if TcpSenderMessage.syn m then 0 else n - 1 in
    ∃ new, inserted (with_last (TcpReceiver.reassembler r) (k + blen (TcpSenderMessage.payload m)) (TcpSenderMessage.fin m))
      k (TcpSenderMessage.payload m) (TcpReceiver.reassembler r') new.
Proof.
  intros Hr Hz HP Hm Hfirst. pose proof Hr as [Ha _]. pose proof (ag_inv _ _ _ Ha) as HR. pose proof (ag_bound _ _ _ Ha).
  destruct (window_le _ (ri_output _ HR)) as ([H0 _] & _).
  unfold Reassembler.first_unassembled in *. fold (TcpReceiver.output r) in *.
  pose proof Hm as (_ & _ & Hsyn & Hn & (Hf & Hle & _)).
  pose proof (blen_nonneg (TcpSenderMessage.payload m)).
  wp_apply (receive_segment P z popped r m n); [done|done|lia|done|done| |].
  { destruct (TcpSenderMessage.syn m); [rewrite (proj1 Hsyn eq_refl)|]; lia. }
  intros [res r'] (-> & Hr' & Hi' & Hins). split_and!; try done.
  set (k := if TcpSenderMessage.syn m then 0 else n - 1) in *.
  pose proof (try_insert_wp (TcpReceiver.reassembler r) k (TcpSenderMessage.payload m)
    (TcpSenderMessage.fin m) HR ltac:(ulia) ltac:(ulia)) as Ht.
  rewrite Hins in Ht. destruct Ht as (_ & new & Hin). by exists new.
Qed.

Lemma with_last_output (x : Reassembler.t) e b : Reassembler.output (with_last x e b) = Reassembler.output x.
Proof. by destruct b. Qed.

(** What a delivered segment does to the rest of the receiver's state. *)
Lemma receive_segment_effect P z popped r m n :
  receiving P z popped r → Wrap32.ok z → blen P < 2 ^ 31 - 1 → segment_of P z m n →
  TcpReceiver.receive r m ⇓ λ '(res, r'), receiving P z popped r' ∧ rcv_nxt r ≤ rcv_nxt r' ∧
    ByteStream.error (TcpReceiver.output r') = ByteStream.error (TcpReceiver.output r) ∧
    (is_Some (Reassembler.eof_index (TcpReceiver.reassembler r')) →
     is_Some (Reassembler.eof_index (TcpReceiver.reassembler r)) ∨ TcpSenderMessage.fin m = true).
Proof.
  intros Hr Hz HP Hm.
  destruct (decide (TcpReceiver.isn r = None ∧ TcpSenderMessage.syn m = false)) as [[Hi Hs]|Hcase].
  { unfold TcpReceiver.receive. rewrite Hi, Hs, (proj1 Hm). cbn [negb]. wp_step. split_and!; try done. by left. }
  wp_apply (segment_inserted P z popped r m n Hr Hz HP Hm).
  { intros Hi. destruct (TcpSenderMessage.syn m); [done|]. by destruct Hcase. }
  intros [res r'] (_ & Hr' & Hi' & new & []). pose proof (blen_nonneg new).
  destruct (window_le _ (ri_output _ (ag_inv _ _ _ (proj1 Hr)))) as ([H0 _] & _).
  unfold Reassembler.first_unassembled in *. rewrite with_last_output in *.
  fold (TcpReceiver.output r') (TcpReceiver.output r) in *. split_and!; [done| |done|].
  - unfold rcv_nxt. rewrite Hi', in_closed.
    destruct (TcpReceiver.isn r); [|destruct (orb _ _); cbn [of_bool]; lia].
    destruct (ByteStream.closed (TcpReceiver.output r)); cbn [orb of_bool] in *; [lia|].
    pose proof (of_bool_range (bool_decide (Reassembler.eof_index (with_last (TcpReceiver.reassembler r)
      ((if TcpSenderMessage.syn m then 0 else n - 1) + blen (TcpSenderMessage.payload m)) (TcpSenderMessage.fin m))
      = Some (ByteStream.bytes_pushed (TcpReceiver.output r'))))). lia.
  - rewrite in_eof. destruct (TcpSenderMessage.fin m); [by right|by left].
Qed.

(** Writing, closing and feedback change nothing that was sent. *)
Lemma data_same P s s' m :
  data_ok P s m → TcpSender.isn s' = TcpSender.isn s → TcpSender.syn_sent s' = TcpSender.syn_sent s →
  TcpSender.fin_sent s' = TcpSender.fin_sent s → data_ok P s' m.
Proof. intros (Hr & He & Hf & Hs) H1 H2 H3. unfold data_ok. by rewrite H1, H2, H3. Qed.

Lemma step_write P s r data acks w rd bs :
  LInv P (mk s r data acks w rd) → blen w + blen bs < 2 ^ 31 - 2 →
  step (mk s r data acks w rd) (Write bs) ⇓ λ self', LInv P self' ∧ blen (written self') ≤ blen w + blen bs.
Proof.
  intros [] Hb. cbn in *. wp_step. wp_apply (write_wp P s bs); [done|lia|].
  intros [n o] (HI & Hn & Hcon & (_ & Hcl & He) & Hpu & _). wp_step.
  assert (Hlen : blen (w ++ take (Z.to_nat n) bs) = blen w + n) by (rewrite blen_app, blen_take; lia).
  split; [|cbn; lia]. split; try done; cbn; try congruence; try lia.
  by rewrite Hcon, li_written0, app_assoc.
Qed.

Lemma step_close P s r data acks w rd :
  LInv P (mk s r data acks w rd) →
  step (mk s r data acks w rd) Close ⇓ λ self', LInv P self' ∧ written self' = w.
Proof.
  intros []. cbn in *. wp_step. split; [|done]. split; try done; cbn; by apply close_outbound_inv.
Qed.

(** A [push] that has sent something has sent the SYN. *)
Lemma filled_syn w P s ms s' Q segs : filled w P s ms s' Q segs → SInv P s →
  ms ≠ [] ∨ TcpSender.syn_sent s = true → TcpSender.syn_sent s' = true.
Proof.
  intros [] HI Hd. pose proof (segs_le _ _ _ _ _ fi_segs) as Hle.
  pose proof (si_nxt _ _ HI) as Hn0. pose proof (si_nxt _ _ fi_inv) as Hn.
  destruct (TcpSender.syn_sent s') eqn:Es; [done|]. exfalso.
  destruct (si_syn _ _ fi_inv Es) as [HPQ Hf']. apply app_eq_nil in HPQ as [-> ->].
  rewrite Hf' in Hn. rewrite blen_nil in Hn, Hn0. pose proof (of_bool_range (TcpSender.fin_sent s)).
  destruct (TcpSender.syn_sent s) eqn:Es0; [cbn in Hn0, Hn; lia|]. destruct Hd as [Hd|Hd]; [|done].
  rewrite (proj2 (si_syn _ _ HI Es0)) in Hn0. cbn in Hn0, Hn. rewrite Hn0, Hn in fi_segs.
  pose proof (proj1 (segs_empty _ _ _ _ _ fi_segs) eq_refl) as ->. by subst ms.
Qed.

(** Nothing more leaves the stream once the FIN is out, and it stays out. *)
Lemma filled_fin w P s ms s' Q segs : filled w P s ms s' Q segs → SInv P s →
  TcpSender.fin_sent s = true → Q = [] ∧ TcpSender.fin_sent s' = true.
Proof.
  intros [] HI Hf. assert (Q = []) as ->.
  { destruct (si_fin _ _ HI Hf) as [_ Hc]. rewrite Hc in fi_content.
    symmetry in fi_content. by apply app_eq_nil in fi_content as [-> _]. }
  split; [done|]. rewrite app_nil_r in fi_inv. destruct (TcpSender.fin_sent s') eqn:Ef; [done|].
  pose proof (si_nxt _ _ fi_inv) as Hn. pose proof (si_nxt _ _ HI) as Hn0.
  pose proof (segs_le _ _ _ _ _ fi_segs). rewrite Ef in Hn. rewrite Hf in Hn0. cbn in *.
  destruct (TcpSender.syn_sent s) eqn:Es; [|destruct (si_syn _ _ HI Es); congruence].
  pose proof (of_bool_range (TcpSender.syn_sent s')). cbn in *. lia.
Qed.

Lemma step_push P s r data acks w rd :
  LInv P (mk s r data acks w rd) →
  step (mk s r data acks w rd) Push ⇓ λ self', ∃ P', LInv P' self' ∧ written self' = w.
Proof.
  intros []. cbn in *. wp_step. wp_apply (sender_push_wp P s); [done|lia|].
  intros [ms s'] (Q & segs & Hfill). wp_step.
  pose proof (filled_syn _ _ _ _ _ _ _ Hfill li_sender0) as Hsyn.
  pose proof (filled_fin _ _ _ _ _ _ _ Hfill li_sender0) as Hfin. destruct Hfill.
  destruct fi_kept as [Hisn Huna ? ? ? ? ? (_ & Hcl & Herr) Hpu].
  exists (P ++ Q). split; [|done].
  assert (Hq : TcpSender.fin_sent s = true → Q = []) by (intros Hf; by apply Hfin).
  assert (Hfin' : TcpSender.fin_sent s = true → TcpSender.fin_sent s' = true) by (intros Hf; by apply Hfin).
  assert (Hsyn' : data ++ ms ≠ [] ∨ is_Some (TcpReceiver.isn r) → TcpSender.syn_sent s' = true).
  { intros [Hd|Hd]; apply Hsyn; [|auto]. destruct data as [|d data]; [by left|right].
    apply Forall_cons in li_data0 as [(_ & _ & _ & Hx) _]. exact Hx. }
  split; cbn; rewrite ?Hisn; try done; try congruence; try lia.
  - by rewrite li_written0, fi_content, app_assoc.
  - apply Forall_app. split.
    + destruct data as [|d0 data0]; [by constructor|].
      eapply Forall_impl; [exact li_data0|]. intros m Hm. eapply data_grow; [done|done| |auto].
      apply Hsyn'. by left.
    + pose proof (outstanding_emits _ _ fi_inv) as Hem. rewrite fi_outstanding in Hem.
      apply Forall_app in Hem as [_ _]. subst ms. rewrite Forall_fmap. apply Forall_forall. intros sg Hsg.
      pose proof (segs_emits _ _ _ _ _ fi_segs) as Hse. rewrite Forall_forall in Hse.
      rewrite Forall_fmap, Forall_forall in fi_rst. split_and!.
      * cbn. rewrite fi_rst by done. done.
      * rewrite Hisn. by apply Hse.
      * cbn. intros Hm. destruct (TcpSender.fin_sent s') eqn:Ef; [done|].
        pose proof (si_nofin _ _ fi_inv Ef) as Hnf. rewrite fi_outstanding in Hnf. apply Forall_app in Hnf as [_ Hnf].
        rewrite Forall_forall in Hnf. rewrite Hnf in Hm; done.
      * apply Hsyn'. left. destruct data; [|done]. destruct segs; [by apply not_elem_of_nil in Hsg|done].
  - apply receiving_grow; [done|]. intros He. auto.
  - intros He. auto.
  - intros Hi. apply Hsyn'. by right.
  - eapply Forall_impl; [exact li_acks0|]. intros a Ha. by eapply ack_mono.
Qed.

Lemma step_tick P s r data acks w rd ms :
  LInv P (mk s r data acks w rd) → 0 ≤ ms →
  step (mk s r data acks w rd) (Tick ms) ⇓ λ self', LInv P self' ∧ written self' = w.
Proof.
  intros [] Hms. cbn in *. wp_step. wp_apply (sender_tick_wp P s ms); [done|done|].
  intros [out s'] (HI & (Hisn & _ & _ & Hsyn & Hfin) & Hout & Huna & _ & _ & Hsent). wp_step. split; [|done].
  split; cbn; rewrite ?Hisn, ?Hout; try done; try congruence.
  - apply Forall_app. split; [eapply Forall_impl; [exact li_data0|]; intros m Hm; by eapply data_same|].
    pose proof li_sender0 as []. destruct (TcpSender.outstanding s) as [|sg segs] eqn:E; [by destruct Hsent as [-> _]|].
    assert (Hor : out = [] ∨ out = [OutstandingSegment.message sg]) by (case_match; tauto).
    destruct Hor as [-> | ->]; [done|]. constructor; [|done].
    pose proof si_segs as (Hst & Hl & Hc & _). apply Forall_cons in si_norst as [Hr _]; [|done].
    split_and!; [done|rewrite Hisn; by exists (TcpSender.snd_una s)| |].
    + intros Hm. rewrite Hfin. destruct (TcpSender.fin_sent s) eqn:Ef; [done|].
      apply Forall_cons in si_nofin as [Hf _]; [|done]. congruence.
    + rewrite Hsyn. destruct (TcpSender.syn_sent s) eqn:Es; [done|]. destruct (si_syn eq_refl) as [-> Hf].
      rewrite Hf in si_nxt. change (@blen byte []) with 0 in si_nxt. cbn in si_nxt.
      cbn in si_segs. destruct si_segs as (_ & ? & _ & Hs2). apply segs_le in Hs2. lia.
  - intros He. rewrite Hfin. auto.
  - intros Hi. rewrite Hsyn. auto.
  - eapply Forall_impl; [exact li_acks0|]. intros a Ha. by eapply ack_mono.
Qed.

Lemma step_data P s r data acks w rd i :
  LInv P (mk s r data acks w rd) →
  step (mk s r data acks w rd) (DeliverData i) ⇓ λ self', LInv P self' ∧ written self' = w.
Proof.
  intros HL. cbn [step]. destruct (data !! i) as [m|] eqn:E; [|by wp_step].
  pose proof HL as []. cbn in *. pose proof li_data0 as Hd. rewrite Forall_lookup in Hd.
  destruct (Hd i m E) as (Hr & [n Hc] & Hf & Hs).
  assert (HP : blen P < 2 ^ 31 - 1).
  { rewrite li_written0, blen_app in li_bound0. pose proof (blen_nonneg (ByteStream.content (TcpSender.outbound s))). lia. }
  wp_step. wp_apply (receive_segment_effect P (TcpSender.isn s) rd r m n);
    [done|by apply (si_isn _ _ li_sender0)|done|by split|].
  intros [res r'] (Hr' & Hmono & Herr & Heof). wp_step. split; [|done].
  split; cbn; try done; try congruence; try lia.
  - intros He. destruct (Heof He); auto.
  - eapply Forall_impl; [exact li_acks0|]. intros a Ha. by eapply ack_mono.
Qed.

Lemma step_send_ack P s r data acks w rd :
  LInv P (mk s r data acks w rd) →
  step (mk s r data acks w rd) SendAck ⇓ λ self', LInv P self' ∧ written self' = w.
Proof.
  intros HL. pose proof (rcv_nxt_bound P _ HL) as [Hb1 Hb2]. destruct HL. cbn in *.
  destruct li_receiving0 as [Ha Hi].
  assert (HT : TRInv r).
  { split; [apply Ha|]. intros j Hj. pose proof (si_isn _ _ li_sender0). destruct Hi as [Hi|(Hi & _)]; congruence. }
  wp_step. wp_apply (send_wp r HT). intros a (Hok & Hrst & _ & Hack). wp_step. split; [|done].
  split; cbn; try done. apply Forall_app. split; [done|]. constructor; [|done].
  split_and!; [done|congruence|]. intros wk Hw. rewrite Hw in Hack. unfold rcv_nxt in *.
  destruct Hi as [Hi|(Hi & _)]; rewrite Hi in Hack, Hb1 |- *; [|done]. injection Hack as ->.
  eexists. split; [done|]. lia.
Qed.

Lemma step_ack P s r data acks w rd i :
  LInv P (mk s r data acks w rd) →
  step (mk s r data acks w rd) (DeliverAck i) ⇓ λ self', LInv P self' ∧ written self' = w.
Proof.
  intros HL. pose proof (rcv_nxt_bound P _ HL) as [Hb1 Hb2]. cbn [step].
  destruct (acks !! i) as [a|] eqn:E; [|by wp_step].
  destruct HL. cbn in *. pose proof li_acks0 as Hd. rewrite Forall_lookup in Hd.
  destruct (Hd i a E) as (Hok & Hr & Hk).
  wp_step. wp_apply (sender_receive_wp P s a); [done|done|].
  intros s' (HI & (Hisn & _ & Hnx & Hsyn & Hfin) & Hrec). wp_step. split; [|done].
  apply received_heeded in Hrec as [Hout Hrec]; [|done].
  assert (Huna : TcpSender.snd_una s' ≤ rcv_nxt r).
  { destruct (TcpReceiverMessage.ackno a) as [wk|] eqn:Ea; [|by rewrite Hrec].
    destruct (Hk wk eq_refl) as (k & -> & Hk1). destruct Hrec as (n & Hn & Hrec).
    rewrite unwrap_wrap_near in Hn; [|apply (si_isn _ _ li_sender0)|ulia|ulia|lia]. injection Hn as <-.
    rewrite (proj2 (Z.ltb_ge _ _)) in Hrec by lia. rewrite Hrec. lia. }
  split; cbn; rewrite ?Hisn, ?Hout; try done.
  - eapply Forall_impl; [exact li_data0|]. intros m Hm. by eapply data_same.
  - intros He. rewrite Hfin. auto.
  - intros Hi. rewrite Hsyn. auto.
  - eapply Forall_impl; [exact li_acks0|]. intros a' Ha. by eapply ack_mono.
Qed.

Lemma step_read P s r data acks w rd len :
  LInv P (mk s r data acks w rd) → 0 ≤ len →
  step (mk s r data acks w rd) (Read len) ⇓ λ self', LInv P self' ∧ written self' = w.
Proof.
  intros [] Hlen. cbn in *. wp_step.
  wp_apply (wp_and _ _ _ (receiving_pop P (TcpSender.isn s) rd r len li_receiving0 Hlen)
    (pop_output_wp (TcpReceiver.reassembler r) len (ag_inv _ _ _ (proj1 li_receiving0)) Hlen)).
  intros [b o] [Hr' (_ & _ & (_ & Hcl & Herr) & Hpu & _)]. wp_step. split; [|done].
  fold (TcpReceiver.output r) in *.
  assert (Hn : rcv_nxt (TcpReceiver.with_output r o) = rcv_nxt r).
  { unfold rcv_nxt. cbn. destruct (TcpReceiver.isn r); [|done]. unfold TcpReceiver.output in *. cbn.
    by rewrite Hpu, Hcl. }
  split; cbn; rewrite ?Hn; try done. unfold TcpReceiver.output in *. cbn. congruence.
Qed.

Lemma link_step_wp P self o :
  LInv P self → op_ok o → blen (written self) + offered [o] < 2 ^ 31 - 2 →
  step self o ⇓ λ self', ∃ P', LInv P' self' ∧ blen (written self') ≤ blen (written self) + offered [o].
Proof.
  intros HL Ho Hb. destruct self as [s r data acks w rd]. cbn [written] in *.
  assert (Hsame : ∀ self', LInv P self' ∧ written self' = w →
    ∃ P', LInv P' self' ∧ blen (written self') ≤ blen w + offered [o]).
  { intros self' [HL' Hw]. exists P. split; [done|]. rewrite Hw. destruct o; cbn; try lia.
    pose proof (blen_nonneg data0). lia. }
  destruct o as [bs| | |ms|i| |i|len]; cbn in Ho, Hb.
  - eapply wp_mono; [apply (step_write P); [done|lia]|]. intros self' [HL' Hw]. exists P. split; [done|cbn; lia].
  - eapply wp_mono; [by apply (step_close P)|]. auto.
  - eapply wp_mono; [by apply (step_push P)|]. intros self' (P' & HL' & Hw). exists P'. split; [done|]. rewrite Hw. cbn. lia.
  - eapply wp_mono; [by apply (step_tick P)|]. auto.
  - eapply wp_mono; [by apply (step_data P)|]. auto.
  - eapply wp_mono; [by apply (step_send_ack P)|]. auto.
  - eapply wp_mono; [by apply (step_ack P)|]. auto.
  - eapply wp_mono; [by apply (step_read P)|]. auto.
Qed.

Lemma link_offered_nonneg ops : 0 ≤ offered ops.
Proof. induction ops as [|[d| | | | | | |] ops IH]; cbn; try lia. pose proof (blen_nonneg d). lia. Qed.

Lemma link_offered_cons o ops : offered (o :: ops) = offered [o] + offered ops.
Proof. destruct o; cbn; lia. Qed.

Lemma link_run_wp P self ops :
  LInv P self → Forall op_ok ops → blen (written self) + offered ops < 2 ^ 31 - 2 →
  run self ops ⇓ λ self', ∃ P', LInv P' self' ∧ blen (written self') ≤ blen (written self) + offered ops.
Proof.
  intros HL Hops. revert P self HL. induction Hops as [|o ops Ho _ IH]; intros P self HL Hb.
  { cbn [run]. wp_step. exists P. split; [done|cbn; lia]. }
  rewrite link_offered_cons in Hb. pose proof (link_offered_nonneg ops).
  cbn [run]. wp_step. wp_apply (link_step_wp P self o HL Ho); [lia|]. intros self1 (P1 & HL1 & Hw1).
  wp_apply (IH P1 self1 HL1); [lia|]. intros self2 (P2 & HL2 & Hw2). exists P2. split; [done|].
  rewrite link_offered_cons. lia.
Qed.
End link.

Section theorems.
Import Link.

Lemma link_new_wp sc rc isn config :
  u64 sc → u64 rc → Wrap32.ok isn → TcpSenderConfig.ok config →
  Link.new sc rc isn config ⇓ λ self, LInv [] self ∧ written self = [] ∧
    ByteStream.capacity (TcpReceiver.output (receiver self)) = rc.
Proof.
  intros Hsc Hrc Hi Hc. unfold Link.new. wp_step. wp_apply (tcp_sender_new_wp sc isn config Hsc Hi Hc).
  intros s (HI & Hout & Hisn & _ & Hnx). wp_step. wp_apply (tcp_receiver_new_wp rc Hrc). intros r [HT ->].
  wp_step. split; [|done]. pose proof (si_una _ _ HI) as Hu. pose proof (segs_le _ _ _ _ _ (si_segs _ _ HI)).
  split; cbn; rewrite ?Hout; try done; try by intros [].
  - split; [|by right]. pose proof (new_agrees [] rc Hrc) as Ha. wp_inv Ha. destruct Ha as [Ha ->]. done.
  - unfold rcv_nxt. cbn. lia.
Qed.

Lemma prefix_of_sub {A} n (W P l rest : list A) :
  W = P ++ rest → l = sub 0 n P → 0 ≤ n ≤ blen P → ∃ rest', W = l ++ rest'.
Proof.
  intros -> -> Hn. exists (drop (Z.to_nat n) P ++ rest). unfold sub. rewrite drop_0, Z.sub_0_r, app_assoc, take_drop.
  done.
Qed.
(** What the invariant says of the two applications. *)
Lemma link_delivers P self : LInv P self →
    let arrived := Link.read self ++ ByteStream.content (TcpReceiver.output (Link.receiver self)) in
    let ended := ByteStream.closed (TcpReceiver.output (Link.receiver self)) in
    (∃ rest, Link.written self = arrived ++ rest) ∧
    TcpSender.snd_una (Link.sender self) ≤ rcv_nxt (Link.receiver self) ≤ TcpSender.snd_nxt (Link.sender self) ∧
    (ended = true → Link.written self = arrived ∧ ByteStream.closed (TcpSender.outbound (Link.sender self)) = true) ∧
    (TcpSender.is_finished (Link.sender self) = true → ended = true ∧ Link.written self = arrived).
Proof.
  intros HL. cbv zeta. pose proof (rcv_nxt_bound _ _ HL) as [Hb _]. destruct HL. destruct li_receiving0 as [Ha Hisn].
  pose proof Ha as [Hinv Heof _ Hout Hbd _]. destruct (window_le _ (ri_output _ Hinv)) as ([H0 _] & _).
  fold (TcpReceiver.output (Link.receiver self)) in Hout.
  assert (Hend : ByteStream.closed (TcpReceiver.output (Link.receiver self)) = true →
    Link.written self = Link.read self ++ ByteStream.content (TcpReceiver.output (Link.receiver self)) ∧
    ByteStream.closed (TcpSender.outbound (Link.sender self)) = true).
  { intros Hcl. pose proof (ri_closed _ Hinv Hcl) as He.
    destruct (si_fin _ _ li_sender0) as [Hc1 Hc2]; [apply li_eof0; by rewrite He|].
    split; [|done]. apply Heof in He. rewrite li_written0, Hc2, app_nil_r, Hout, He. by rewrite sub_all. }
  split_and!; [|done|lia|done|].
  - by eapply prefix_of_sub.
  - intros [Hf Hos]%andb_true_iff. destruct (TcpSender.outstanding (Link.sender self)) eqn:E; [|done].
    pose proof (si_segs _ _ li_sender0) as Hsg. rewrite E in Hsg. cbn in Hsg.
    pose proof (si_nxt _ _ li_sender0) as Hn. rewrite Hf in Hn.
    assert (Hs : TcpSender.syn_sent (Link.sender self) = true).
    { destruct (TcpSender.syn_sent (Link.sender self)) eqn:Es; [done|]. destruct (si_syn _ _ li_sender0 Es). congruence. }
    rewrite Hs in Hn. cbn in Hn. unfold rcv_nxt, Reassembler.first_unassembled in *.
    fold (TcpReceiver.output (Link.receiver self)) in *.
    destruct (TcpReceiver.isn (Link.receiver self)); [|pose proof (blen_nonneg P); lia].
    destruct (ByteStream.closed (TcpReceiver.output (Link.receiver self))) eqn:Ecl; cbn in li_una0; [|lia].
    split; [done|]. by apply Hend.
Qed.
End theorems.

(** C1: Reliable, ordered, exactly-once delivery. Join a sender and a receiver by a network
    that loses, duplicates, delays and reorders at will, and let both applications act
    in any order (fewer than 2^31 - 2 bytes written). No operation panics. At every
    moment what the receiving application has read and can read is a prefix of what the
    sending application wrote; the sender's SND.UNA never passes what the receiver
    expects next; when the receiver's stream ends, all of it has arrived and the writer
    had closed; and when the sender reports that it is finished, the receiver holds
    everything written. *)
Theorem tcp_reliable_delivery sc rc isn config ops :
  u64 sc → u64 rc → Wrap32.ok isn → TcpSenderConfig.ok config →
  Forall Link.op_ok ops → Link.offered ops < 2 ^ 31 - 2 →
  ∃ self, (l ← Link.new sc rc isn config; Link.run l ops) = Ret self ∧
    let arrived := Link.read self ++ ByteStream.content (TcpReceiver.output (Link.receiver self)) in
    let ended := ByteStream.closed (TcpReceiver.output (Link.receiver self)) in
    (∃ rest, Link.written self = arrived ++ rest) ∧
    TcpSender.snd_una (Link.sender self) ≤ rcv_nxt (Link.receiver self) ≤ TcpSender.snd_nxt (Link.sender self) ∧
    (ended = true → Link.written self = arrived ∧ ByteStream.closed (TcpSender.outbound (Link.sender self)) = true) ∧
    (TcpSender.is_finished (Link.sender self) = true → ended = true ∧ Link.written self = arrived).
Proof.
  intros Hsc Hrc Hi Hc Hops Hmax.
  pose proof (link_new_wp sc rc isn config Hsc Hrc Hi Hc) as H. wp_inv H. destruct H as (HL & Hw & _).
  pose proof (link_run_wp [] r ops HL Hops) as H. rewrite Hw in H. specialize (H Hmax). wp_inv H.
  destruct H as (P & HL' & _). exists r0. rewrite Heq, bind_Ret. split; [done|]. by apply (link_delivers P).
Qed.

Lemma tcp_reliable_delivery_witness :
  let ops := [Link.Write [x61; x62; x63]; Link.Push; Link.Tick 1000; Link.DeliverData 1; Link.SendAck;
              Link.DeliverAck 0; Link.Push; Link.Close; Link.DeliverData 0; Link.DeliverData 2; Link.Read 2;
              Link.SendAck; Link.DeliverAck 1; Link.DeliverAck 0; Link.Push; Link.DeliverData 3] in
  ∃ self, (l ← Link.new 10 10 (Wrap32.new u32_max) TcpSenderConfig.default; Link.run l ops) = Ret self ∧
    let arrived := Link.read self ++ ByteStream.content (TcpReceiver.output (Link.receiver self)) in
    let ended := ByteStream.closed (TcpReceiver.output (Link.receiver self)) in
    (∃ rest, Link.written self = arrived ++ rest) ∧
    TcpSender.snd_una (Link.sender self) ≤ rcv_nxt (Link.receiver self) ≤ TcpSender.snd_nxt (Link.sender self) ∧
    (ended = true → Link.written self = arrived ∧ ByteStream.closed (TcpSender.outbound (Link.sender self)) = true) ∧
    (TcpSender.is_finished (Link.sender self) = true → ended = true ∧ Link.written self = arrived).
Proof.
  intros ops. apply tcp_reliable_delivery; [unfold u64; lia|unfold u64; lia| | | |by vm_compute].
  - unfold Wrap32.ok, u32. simpl. lia.
  - unfold TcpSenderConfig.ok, u64. simpl. lia.
  - repeat constructor; simpl; lia.
Defined.
