(* ===== verification/tcp_progress.v ===== *)
(** * Progress over an unreliable network

    [tcp_link.v] says that nothing wrong arrives; this file says that everything does.  A
    network may misbehave as it likes, but if again and again one retransmission and one
    acknowledgement get through, the transfer completes: each such round moves the
    sender's SND.UNA, which nothing ever moves back, and SND.UNA has a last value. *)

From S2P Require Import prelude wrapping_integers byte_stream btree_map tcp_message stream.
From S2P Require Import reassembler tcp_receiver tcp_sender tcp_link.

Module Progress.
Import Link.

(** The milliseconds until the sender's timer expires. *)
Definition time_left (s : TcpSender.t) : Z :=
  Timer.timeout_ms (TcpSender.timer s) - Timer.elapsed_ms (TcpSender.timer s).

(** The reading application empties the receiver's buffer. *)
Definition drain (self : t) : exec t :=
  run self (replicate (length (ByteStream.chunks (TcpReceiver.output (receiver self)))) (Read u64_max)).

(** A round in which the network behaves: the timer expires, the retransmission arrives,
    the application reads, and the acknowledgement arrives. *)
Definition round (self : t) : exec t :=
  self ← step self Push;
  self ← step self (Tick (time_left (sender self)));
  self ← drain self;
  self ← step self (DeliverData (pred (length (data_net self))));
  self ← drain self;
  self ← step self SendAck;
  step self (DeliverAck (pred (length (ack_net self)))).

(** Rounds, each after a misbehaviour of the network. *)
Fixpoint play (self : t) (noises : list (list op)) : exec t :=
  match noises with
  | [] => mret self
  | noise :: noises =>
      self ← run self noise;
      self ← round self;
      play self noises
  end.

(** What may happen between the rounds: anything but new requests of the writing application. *)
Definition quiet (o : op) : Prop :=
  op_ok o ∧ match o with Write _ | Close => False | _ => True end.

End Progress.

Section progress.
Import Link Progress.
Implicit Types (self : Link.t) (s : TcpSender.t) (r : TcpReceiver.t) (P : bytes).

(** What no quiet step undoes. *)
Record later self self' : Prop := {
  la_written : written self' = written self;
  la_closed : ByteStream.closed (TcpSender.outbound (sender self'))
              = ByteStream.closed (TcpSender.outbound (sender self));
  la_capacity : ByteStream.capacity (TcpReceiver.output (receiver self'))
                = ByteStream.capacity (TcpReceiver.output (receiver self));
  la_una : TcpSender.snd_una (sender self) ≤ TcpSender.snd_una (sender self');
  la_rcv : rcv_nxt (receiver self) ≤ rcv_nxt (receiver self');
}.

#[local] Instance later_preorder : PreOrder later.
Proof.
  split; [by split|]. intros l1 l2 l3 [] []. split; congruence || lia.
Qed.

Lemma received_una s msg s' : received s msg s' → TcpReceiverMessage.rst msg = false →
  TcpSender.snd_una s ≤ TcpSender.snd_una s' ∧ TcpSender.outbound s' = TcpSender.outbound s.
Proof.
  intros H Hr. destruct (received_heeded _ _ _ H Hr) as [-> Hu]. split; [|done].
  destruct (TcpReceiverMessage.ackno msg); [|by rewrite Hu].
  destruct Hu as (n & _ & Hu). case_match; [by subst|]. rewrite Hu. lia.
Qed.

Lemma rcv_nxt_pop r o :
  ByteStream.bytes_pushed o = ByteStream.bytes_pushed (TcpReceiver.output r) →
  ByteStream.closed o = ByteStream.closed (TcpReceiver.output r) →
  rcv_nxt (TcpReceiver.with_output r o) = rcv_nxt r.
Proof.
  intros Hp Hc. unfold rcv_nxt. cbn. destruct (TcpReceiver.isn r); [|done].
  change (TcpReceiver.output (TcpReceiver.with_output r o)) with o. by rewrite Hp, Hc.
Qed.

Lemma linv_trinv P self : LInv P self → TRInv (receiver self).
Proof.
  intros []. destruct li_receiving as [Ha Hi]. split; [apply Ha|].
  intros i Hi'. pose proof (si_isn _ _ li_sender). destruct Hi as [Hi|(Hi & _)]; congruence.
Qed.

Lemma quiet_step P self o : LInv P self → quiet o →
  step self o ⇓ λ self', (∃ P', LInv P' self') ∧ later self self'.
Proof.
  intros HL [Ho Hq]. apply wp_and.
  { eapply wp_mono; [apply (link_step_wp P self o HL Ho)|].
    - destruct o; try done; cbn; pose proof (li_bound _ _ HL); lia.
    - intros self' (P' & ? & _). by exists P'. }
  destruct self as [s r data acks w rd]. pose proof (linv_trinv _ _ HL) as HT. pose proof HL as []. cbn in *.
  destruct o as [bs| | |ms|i| |i|len]; try done; cbn [step].
  - wp_step. wp_apply (sender_push_wp P s); [done|lia|]. intros [ms s'] (Q & segs & []). wp_step.
    destruct fi_kept as [_ Huna ? ? ? ? ? (_ & Hcl & _) ?]. split; cbn; try done; lia.
  - wp_step. wp_apply (sender_tick_wp P s ms); [done|done|]. intros [out s'] (_ & _ & Hout & Huna & _). wp_step.
    split; cbn; rewrite ?Hout; try done; lia.
  - destruct (data !! i) as [m|] eqn:E; [|by wp_step]. rewrite Forall_lookup in li_data.
    destruct (li_data i m E) as (Hr & [n Hc] & _).
    assert (HP : blen P < 2 ^ 31 - 1).
    { rewrite li_written, blen_app in li_bound. pose proof (blen_nonneg (ByteStream.content (TcpSender.outbound s))). lia. }
    assert (Hmok : msg_ok m).
    { destruct Hc as (Hseq & _ & _ & Hf & Hle & _). split; [rewrite Hseq; apply wrap_ok|]. ulia. }
    wp_step. wp_apply (wp_and _ _ _ (receive_segment_effect P (TcpSender.isn s) rd r m n li_receiving (si_isn _ _ li_sender) HP
      ltac:(by split)) (receive_wp r m HT Hmok)).
    intros [res r'] [(_ & Hmono & _) (_ & Hcap & _)]. wp_step. split; cbn; try done; lia.
  - wp_step. wp_apply (send_wp r HT). intros a _. by wp_step.
  - destruct (acks !! i) as [a|] eqn:E; [|by wp_step]. rewrite Forall_lookup in li_acks.
    destruct (li_acks i a E) as (Hok & Hr & _). wp_step. wp_apply (sender_receive_wp P s a); [done|done|].
    intros s' (_ & _ & Hrec). wp_step. destruct (received_una _ _ _ Hrec Hr) as [? Hout].
    split; cbn; rewrite ?Hout; try done; lia.
  - wp_step. wp_apply (pop_output_wp (TcpReceiver.reassembler r) len (proj1 HT) Ho).
    intros [b o] (_ & _ & (Hcap & Hcl & _) & Hpu & _). wp_step.
    split; cbn; rewrite ?rcv_nxt_pop by done; try done; lia.
Qed.

(** The capacity of the receiver's buffer never changes. *)
Lemma run_capacity P self ops :
  LInv P self → Forall op_ok ops → blen (written self) + offered ops < 2 ^ 31 - 2 →
  run self ops ⇓ λ self', ByteStream.capacity (TcpReceiver.output (receiver self'))
                          = ByteStream.capacity (TcpReceiver.output (receiver self)).
Proof.
  intros HL Hops. revert P self HL. induction Hops as [|o ops Ho _ IH]; intros P self HL Hb; cbn [run]; [by wp_step|].
  rewrite link_offered_cons in Hb. pose proof (link_offered_nonneg ops).
  assert (Hone : step self o ⇓ λ self', ByteStream.capacity (TcpReceiver.output (receiver self'))
    = ByteStream.capacity (TcpReceiver.output (receiver self))).
  { pose proof (link_step_wp P self o HL Ho ltac:(lia)) as Hs.
    assert (Hq : quiet o → step self o ⇓ λ self', ByteStream.capacity (TcpReceiver.output (receiver self'))
      = ByteStream.capacity (TcpReceiver.output (receiver self))).
    { intros Hq. wp_apply (quiet_step P self o HL Hq). by intros self' [_ []]. }
    destruct o; try (by apply Hq); destruct self; [|done]. cbn in Hs |- *.
    wp_inv Hs. destruct (ByteStream.push _ _) as [[n out]|]; [|done]. by wp_step. }
  wp_step. wp_apply (wp_and _ _ _ (link_step_wp P self o HL Ho ltac:(lia)) Hone). intros self1 [(P1 & HL1 & Hw1) Hc1].
  rewrite <- Hc1. apply (IH P1 self1 HL1). lia.
Qed.

Lemma quiet_run P self ops : LInv P self → Forall quiet ops →
  run self ops ⇓ λ self', (∃ P', LInv P' self') ∧ later self self'.
Proof.
  intros HL Hops. revert P self HL. induction Hops as [|o ops Ho _ IH]; intros P self HL; cbn [run].
  { wp_step. split; [by exists P|done]. }
  wp_step. wp_apply (quiet_step P self o HL Ho). intros self1 [[P1 HL1] H1].
  wp_apply (IH P1 self1 HL1). intros self2 [? ?]. split; [done|]. by transitivity self1.
Qed.

(** ** The application reads *)

(** Reading touches nothing but the receiver's buffer. *)
Definition only_read self self' : Prop :=
  sender self' = sender self ∧ data_net self' = data_net self.

Lemma read_front P self : LInv P self →
  step self (Read u64_max) ⇓ λ self', LInv P self' ∧ only_read self self' ∧
    ByteStream.chunks (TcpReceiver.output (receiver self')) = tail (ByteStream.chunks (TcpReceiver.output (receiver self))).
Proof.
  intros HL. destruct (linv_trinv _ _ HL) as [HR _]. destruct self as [s r data acks w rd].
  pose proof (step_read P s r data acks w rd u64_max HL ltac:(lia)) as Hstep. cbn in *.
  wp_step. apply wp_bind in Hstep. wp_apply (wp_and _ _ _ Hstep (pop_front _ (ri_output _ HR))). intros [b o] [Hs Hc].
  wp_step. unfold wp, mret, exec_mret in Hs. by destruct Hs.
Qed.

Lemma reads_wp P self k : LInv P self →
  (length (ByteStream.chunks (TcpReceiver.output (receiver self))) ≤ k)%nat →
  run self (replicate k (Read u64_max)) ⇓ λ self', LInv P self' ∧ later self self' ∧ only_read self self' ∧
    ByteStream.content (TcpReceiver.output (receiver self')) = [].
Proof.
  revert self. induction k as [|k IH]; intros self HL Hk; cbn [replicate run].
  - wp_step. split; [done|]. split; [done|]. split; [done|]. unfold ByteStream.content.
    destruct (ByteStream.chunks _); [done|cbn in Hk; lia].
  - assert (Hq : quiet (Read u64_max)) by (split; [cbn; lia|done]).
    wp_step. wp_apply (wp_and _ _ _ (quiet_step P self _ HL Hq) (read_front P self HL)).
    intros self1 [[_ H1] (HL1 & [Hs1 Hd1] & Hc)]. wp_apply (IH self1 HL1); [rewrite Hc; destruct (ByteStream.chunks _); cbn in *; lia|].
    intros self2 (HL2 & H2 & [Hs2 Hd2] & Hc2). split_and!; [done|by transitivity self1|split; congruence|done].
Qed.

Lemma drain_wp P self : LInv P self →
  drain self ⇓ λ self', LInv P self' ∧ later self self' ∧ only_read self self' ∧
    ByteStream.content (TcpReceiver.output (receiver self')) = [].
Proof. intros HL. by apply (reads_wp P). Qed.

(** ** Sending and retransmitting *)

(** The sequence numbers there are in all: the SYN, the bytes, and the FIN once asked for. *)
Definition target self : Z :=
  1 + blen (written self) + of_bool (ByteStream.closed (TcpSender.outbound (sender self))).

Lemma later_target self self' : later self self' → target self' = target self.
Proof. intros []. unfold target. congruence. Qed.

Lemma una_target P self : LInv P self → TcpSender.snd_una (sender self) ≤ target self.
Proof.
  intros []. pose proof (si_nxt _ _ li_sender) as Hn. pose proof (segs_le _ _ _ _ _ (si_segs _ _ li_sender)).
  unfold target. rewrite li_written, blen_app. pose proof (blen_nonneg (ByteStream.content (TcpSender.outbound (sender self)))).
  pose proof (of_bool_range (TcpSender.syn_sent (sender self))).
  destruct (TcpSender.fin_sent (sender self)) eqn:E; [destruct (si_fin _ _ li_sender E) as [-> _]|];
    cbn [of_bool] in *; pose proof (of_bool_range (ByteStream.closed (TcpSender.outbound (sender self)))); lia.
Qed.

(** Nothing in flight and nothing to send: everything is acknowledged. *)
Lemma idle_target P self : LInv P self → idle (sender self) →
  TcpSender.outstanding (sender self) = [] → TcpSender.snd_una (sender self) = target self.
Proof.
  intros [] (Hsyn & Hc & Hfin) Ho. pose proof (si_segs _ _ li_sender) as Hs. rewrite Ho in Hs. cbn in Hs.
  pose proof (si_nxt _ _ li_sender) as Hn. rewrite Hsyn in Hn. unfold target.
  rewrite li_written, Hc, app_nil_r. rewrite Hs, Hn. cbn [of_bool]. do 2 f_equal.
  destruct (TcpSender.fin_sent (sender self)) eqn:E; [by destruct (si_fin _ _ li_sender E) as [-> _]|].
  destruct (ByteStream.closed (TcpSender.outbound (sender self))); [|done]. by specialize (Hfin eq_refl).
Qed.

(** After filling the window something is in flight, unless everything is acknowledged. *)
Lemma push_ready P self : LInv P self →
  step self Push ⇓ λ self', (∃ P', LInv P' self') ∧ later self self' ∧
    (TcpSender.outstanding (sender self') = [] → TcpSender.snd_una (sender self') = target self').
Proof.
  intros HL. assert (Hq : quiet Push) by done.
  assert (Hidle : step self Push ⇓ λ self', TcpSender.outstanding (sender self') = [] →
    TcpSender.snd_nxt (sender self') = TcpSender.snd_una (sender self') → idle (sender self')).
  { destruct self as [s r data acks w rd]. pose proof HL as []. cbn in *. wp_step.
    wp_apply (sender_push_wp P s); [done|lia|]. intros [ms s'] (Q & segs & []). wp_step. cbn. intros _ Hn.
    rewrite (ke_una _ _ fi_kept) in Hn. destruct fi_full as [Hf|]; [lia|done]. }
  wp_apply (wp_and _ _ _ (quiet_step P self Push HL Hq) Hidle). intros self' [[[P' HL'] Hl] Hi].
  split_and!; [by exists P'|done|]. intros Ho. eapply idle_target; [done| |done]. apply Hi; [done|].
  pose proof (si_segs _ _ (li_sender _ _ HL')) as Hs. rewrite Ho in Hs. by cbn in Hs.
Qed.

(** The newest message in the network is the oldest segment not yet acknowledged. *)
Definition resent P self (m : TcpSenderMessage.t) : Prop :=
  data_net self !! pred (length (data_net self)) = Some m ∧
  segment_of P (TcpSender.isn (sender self)) m (TcpSender.snd_una (sender self)) ∧
  0 < TcpSenderMessage.sequence_length m.

Lemma time_left_nonneg P s : SInv P s → 0 ≤ time_left s.
Proof.
  intros HI. pose proof (si_timer _ _ HI) as Ht. unfold timer_ok in Ht. unfold time_left.
  destruct (TcpSender.outstanding s); [by rewrite Ht|]. destruct Ht as (el & -> & Hel). cbn. lia.
Qed.

(** When the timer expires the oldest segment goes out again. *)
Lemma tick_first P s sg segs : SInv P s → TcpSender.outstanding s = sg :: segs →
  TcpSender.tick s (time_left s) ⇓ λ '(ms, s'), ms = [OutstandingSegment.message sg] ∧
    TcpSender.isn s' = TcpSender.isn s ∧ TcpSender.snd_una s' = TcpSender.snd_una s.
Proof.
  intros HI E. pose proof (si_timer _ _ HI) as Ht. unfold timer_ok in Ht. rewrite E in Ht. destruct Ht as (el & Ht & Hel).
  assert (Hleft : time_left s = current_interval s - el) by (unfold time_left; by rewrite Ht).
  wp_apply (sender_tick_wp P s _ HI); [lia|]. intros [ms s'] (_ & (Hisn & _) & _ & Huna & _ & _ & Hms).
  rewrite E, Ht in Hms. cbn [Timer.elapsed_ms] in Hms. rewrite (proj2 (Z.ltb_ge _ _)) in Hms by lia.
  by destruct Hms as [-> _].
Qed.

Lemma first_segment P s sg segs : SInv P s → TcpSender.outstanding s = sg :: segs →
  ByteStream.error (TcpSender.outbound s) = false →
  segment_of P (TcpSender.isn s) (OutstandingSegment.message sg) (TcpSender.snd_una s) ∧
  0 < TcpSenderMessage.sequence_length (OutstandingSegment.message sg).
Proof.
  intros HI E He. pose proof (si_segs _ _ HI) as Hs. rewrite E in Hs. cbn in Hs. destruct Hs as (_ & Hpos & Hc & _).
  pose proof (si_norst _ _ HI He) as Hr. rewrite E in Hr. apply Forall_cons in Hr as [Hr _]. by split.
Qed.

Lemma tick_resends P self : LInv P self → TcpSender.outstanding (sender self) ≠ [] →
  step self (Tick (time_left (sender self))) ⇓ λ self', ∃ P' m, LInv P' self' ∧ later self self' ∧ resent P' self' m.
Proof.
  intros HL Ho. pose proof (time_left_nonneg P _ (li_sender _ _ HL)) as Hleft.
  destruct (TcpSender.outstanding (sender self)) as [|sg segs] eqn:E; [done|].
  assert (Hq : quiet (Tick (time_left (sender self)))) by (by split).
  assert (Hkeep : step self (Tick (time_left (sender self))) ⇓ λ self', LInv P self' ∧ written self' = written self).
  { destruct self. by apply step_tick. }
  assert (Hsent : step self (Tick (time_left (sender self))) ⇓ λ self',
    data_net self' = data_net self ++ [OutstandingSegment.message sg] ∧
    TcpSender.isn (sender self') = TcpSender.isn (sender self) ∧
    TcpSender.snd_una (sender self') = TcpSender.snd_una (sender self)).
  { pose proof (tick_first P _ _ _ (li_sender _ _ HL) E) as Ht. destruct self as [s r data acks w rd]. cbn in *.
    wp_step. wp_apply Ht. intros [ms s'] (-> & ? & ?). by wp_step. }
  wp_apply (wp_and _ _ _ (quiet_step P self _ HL Hq) (wp_and _ _ _ Hkeep Hsent)).
  intros self' [[_ Hl] [[HL' _] (Hd & Hisn & Huna)]]. exists P, (OutstandingSegment.message sg). split_and!; [done|done|].
  destruct (first_segment P _ _ _ (li_sender _ _ HL) E (li_no_error _ _ HL)) as [Hseg Hpos].
  split_and!; [|by rewrite Hisn, Huna|done].
  rewrite Hd, length_app. cbn. rewrite Nat.add_1_r. cbn. by rewrite lookup_app_r, Nat.sub_diag by done.
Qed.

(** ** The receiver *)

(** With room in the buffer, the next byte of the stream goes to the output. *)
Lemma inserted_front x data x' new :
  inserted x (Reassembler.first_unassembled x) data x' new → ByteStream.Inv (Reassembler.output x) → alive x = true →
  ByteStream.content (Reassembler.output x) = [] → 0 < ByteStream.capacity (Reassembler.output x) →
  Reassembler.first_unassembled x < u64_max → data ≠ [] → 0 < blen new.
Proof.
  intros Hins [] Ha Hcon Hcap Hmax Hd. apply blen_pos. intros ->.
  pose proof (in_pushed _ _ _ _ _ Hins) as Hpu. pose proof (in_maximal _ _ _ _ _ Hins Ha) as Hm.
  change (@blen byte []) with 0 in Hpu. rewrite Hpu, Z.add_0_r in Hm. rewrite Hcon in *. change (@blen byte []) with 0 in *.
  unfold merged, fresh in Hm. unfold Reassembler.first_unassembled, Reassembler.first_unacceptable, saturating_add in *.
  rewrite Z.leb_refl, (proj2 (Z.ltb_lt _ (Z.min _ _))), Z.sub_diag in Hm by lia. by destruct data.
Qed.

(** A receiver with room in its buffer that lacks the first number of a segment takes it. *)
Lemma receive_next P z popped r m :
  receiving P z popped r → Wrap32.ok z → blen P < 2 ^ 31 - 1 → segment_of P z m (rcv_nxt r) →
  0 < TcpSenderMessage.sequence_length m → ByteStream.error (TcpReceiver.output r) = false →
  ByteStream.content (TcpReceiver.output r) = [] → 0 < ByteStream.capacity (TcpReceiver.output r) →
  TcpReceiver.receive r m ⇓ λ '(_, r'), rcv_nxt r < rcv_nxt r'.
Proof.
  intros Hr Hz HP Hm Hlen Herr Hcon Hcap. pose proof Hm as (_ & _ & Hsyn & _ & (_ & Hle & _)).
  pose proof Hr as [[HR He _ _ Hbd _] _]. destruct (window_le _ (ri_output _ HR)) as ([H0 _] & _).
  pose proof (of_bool_range (ByteStream.closed (TcpReceiver.output r))). pose proof (blen_nonneg (TcpSenderMessage.payload m)).
  assert (Hfirst : TcpReceiver.isn r = None → TcpSenderMessage.syn m = true).
  { intros Hi. unfold rcv_nxt in Hsyn. rewrite Hi in Hsyn. by apply Hsyn. }
  wp_apply (segment_inserted P z popped r m (rcv_nxt r) Hr Hz HP Hm Hfirst).
  intros [res r'] (_ & _ & Hi' & new & Hins). pose proof (in_closed _ _ _ _ _ Hins) as Hcl'.
  pose proof (in_pushed _ _ _ _ _ Hins) as Hpu. pose proof (blen_nonneg new).
  pose proof (of_bool_range (ByteStream.closed (TcpReceiver.output r'))).
  unfold rcv_nxt at 2. rewrite Hi'. destruct (TcpReceiver.isn r) as [i|] eqn:Ei; unfold Reassembler.first_unassembled in *;
    rewrite with_last_output in *; fold (TcpReceiver.output r') (TcpReceiver.output r) in *.
  2:{ unfold rcv_nxt. rewrite Ei. lia. }
  assert (Hrn : rcv_nxt r = ByteStream.bytes_pushed (TcpReceiver.output r) + 1 + of_bool (ByteStream.closed (TcpReceiver.output r)))
    by (unfold rcv_nxt; by rewrite Ei).
  assert (Hns : TcpSenderMessage.syn m = false).
  { destruct (TcpSenderMessage.syn m); [pose proof (proj1 Hsyn eq_refl); lia|done]. }
  assert (Hopen : ByteStream.closed (TcpReceiver.output r) = false).
  { destruct (ByteStream.closed (TcpReceiver.output r)) eqn:E; [|done]. rewrite Hns in *. cbn [of_bool] in *.
    apply (ri_closed _ HR), He in E. unfold Reassembler.first_unassembled in E. fold (TcpReceiver.output r) in E. lia. }
  rewrite Hns, Hopen in *. cbn [of_bool orb] in *.
  replace (rcv_nxt r - 1) with (ByteStream.bytes_pushed (TcpReceiver.output r)) in * by lia.
  destruct (decide (TcpSenderMessage.payload m = [])) as [Ep|Ep].
  - assert (Hfin : TcpSenderMessage.fin m = true).
    { unfold TcpSenderMessage.sequence_length in Hlen. rewrite Ep, Hns in Hlen. cbn in Hlen. by destruct (TcpSenderMessage.fin m). }
    rewrite Hfin, Ep in Hcl'. cbn in Hcl'. change (@blen byte []) with 0 in Hcl'. rewrite Z.add_0_r in Hcl'.
    destruct (decide (blen new = 0)) as [Hz0|]; [|lia]. rewrite Hcl', bool_decide_eq_true_2; [cbn; lia|]. f_equal. lia.
  - assert (Ha : alive (with_last (TcpReceiver.reassembler r) (ByteStream.bytes_pushed (TcpReceiver.output r)
      + blen (TcpSenderMessage.payload m)) (TcpSenderMessage.fin m)) = true).
    { unfold alive. rewrite with_last_output. fold (TcpReceiver.output r). by rewrite Hopen, Herr. }
    assert (Hx : ∀ e b, Reassembler.first_unassembled (with_last (TcpReceiver.reassembler r) e b)
      = ByteStream.bytes_pushed (TcpReceiver.output r)) by by intros e [].
    assert (0 < blen new); [|lia]. eapply inserted_front; try exact Ha; rewrite ?Hx, ?with_last_output; [exact Hins|apply HR|done|done| |done].
    fold (TcpReceiver.output r). ulia.
Qed.

(** ** A round *)

(** The oldest unacknowledged segment, received with room in the buffer, moves the receiver past it. *)
Lemma resent_received P self m : LInv P self →
  segment_of P (TcpSender.isn (sender self)) m (TcpSender.snd_una (sender self)) → 0 < TcpSenderMessage.sequence_length m →
  ByteStream.content (TcpReceiver.output (receiver self)) = [] → 0 < ByteStream.capacity (TcpReceiver.output (receiver self)) →
  TcpReceiver.receive (receiver self) m ⇓ λ '(_, r), TcpSender.snd_una (sender self) < rcv_nxt r.
Proof.
  intros HL Hseg Hlen Hcon Hcap. pose proof HL as []. rewrite li_written, blen_app in li_bound.
  pose proof (blen_nonneg (ByteStream.content (TcpSender.outbound (sender self)))).
  destruct (decide (TcpSender.snd_una (sender self) = rcv_nxt (receiver self))) as [E|].
  - rewrite E in *. by apply (receive_next P _ _ _ m li_receiving (si_isn _ _ li_sender)); [lia|..].
  - wp_apply (receive_segment_effect P _ _ _ m _ li_receiving (si_isn _ _ li_sender) ltac:(lia) Hseg).
    intros [res r'] (_ & ? & _). lia.
Qed.

Lemma deliver_resent P self m : LInv P self → resent P self m →
  ByteStream.content (TcpReceiver.output (receiver self)) = [] → 0 < ByteStream.capacity (TcpReceiver.output (receiver self)) →
  step self (DeliverData (pred (length (data_net self)))) ⇓ λ self', (∃ P', LInv P' self') ∧ later self self' ∧
    TcpSender.snd_una (sender self) < rcv_nxt (receiver self').
Proof.
  intros HL (Hm & Hseg & Hlen) Hcon Hcap.
  assert (Hq : quiet (DeliverData (pred (length (data_net self))))) by done.
  pose proof (resent_received P self m HL Hseg Hlen Hcon Hcap) as Hrec.
  assert (Hnext : step self (DeliverData (pred (length (data_net self)))) ⇓ λ self', TcpSender.snd_una (sender self) < rcv_nxt (receiver self')).
  { destruct self as [s r data acks w rd]. cbn in *. rewrite Hm. wp_step. wp_apply Hrec. intros [res r'] ?. by wp_step. }
  wp_apply (wp_and _ _ _ (quiet_step P self _ HL Hq) Hnext). by intros self' [[? ?] ?].
Qed.

(** A receiver acknowledges the first number it misses. *)
Lemma feedback_ackno P self a : LInv P self → TcpReceiver.send (receiver self) = Ret a →
  TcpReceiverMessage.ok a ∧ TcpReceiverMessage.rst a = false ∧
  (0 < rcv_nxt (receiver self) →
   TcpReceiverMessage.ackno a = Some (Wrap32.wrap (rcv_nxt (receiver self)) (TcpSender.isn (sender self)))).
Proof.
  intros HL Ha. pose proof (send_wp _ (linv_trinv _ _ HL)) as Hs. rewrite Ha in Hs. destruct Hs as (Hok & Hrst & _ & Hack).
  rewrite (li_rcv_error _ _ HL) in Hrst. split; [done|]. split; [done|]. intros Hpos.
  pose proof (rcv_nxt_bound P _ HL) as [Hb1 Hb2]. pose proof (li_receiving _ _ HL) as [_ Hi]. unfold rcv_nxt in *.
  destruct Hi as [Hi|(Hi & _)]; rewrite Hi in *; [|lia]. rewrite Hack. cbn. by rewrite Z.min_r by lia.
Qed.

(** An acknowledgement of [n] moves SND.UNA to [n]. *)
Lemma ack_received P self a n : LInv P self → TcpReceiverMessage.ok a → TcpReceiverMessage.rst a = false →
  TcpReceiverMessage.ackno a = Some (Wrap32.wrap n (TcpSender.isn (sender self))) → 0 ≤ n ≤ rcv_nxt (receiver self) →
  TcpSender.receive (sender self) a ⇓ λ s, n ≤ TcpSender.snd_una s.
Proof.
  intros HL Hok Hrst Hack Hn. pose proof (rcv_nxt_bound P _ HL) as [Hb1 Hb2]. pose proof (li_sender _ _ HL) as HS.
  wp_apply (sender_receive_wp P _ a HS Hok). intros s' (HI & _ & Hrec).
  apply received_heeded in Hrec as [_ Hrec]; [|done]. rewrite Hack in Hrec. destruct Hrec as (k & Hk & Hrec).
  rewrite unwrap_wrap_near in Hk; [|apply (si_isn _ _ HS)|ulia|ulia|pose proof (si_una _ _ HS); lia]. injection Hk as <-.
  rewrite (proj2 (Z.ltb_ge _ _)) in Hrec by lia. rewrite Hrec. lia.
Qed.

(** The receiver's current acknowledgement reaches the sender. *)
Lemma ack_arrives P self : LInv P self →
  (self ← step self SendAck; step self (DeliverAck (pred (length (ack_net self))))) ⇓ λ self',
    (∃ P', LInv P' self') ∧ later self self' ∧ receiver self' = receiver self ∧
    rcv_nxt (receiver self) ≤ TcpSender.snd_una (sender self').
Proof.
  intros HL. wp_step.
  assert (Hsend : step self SendAck ⇓ λ self1, sender self1 = sender self ∧ receiver self1 = receiver self ∧
    ∃ a, TcpReceiver.send (receiver self) = Ret a ∧ ack_net self1 !! pred (length (ack_net self1)) = Some a).
  { destruct self as [s r data acks w rd]. pose proof (send_wp r (linv_trinv _ _ HL)) as Ha. wp_inv Ha. cbn. rewrite Heq. wp_step. wp_step.
    split_and!; [done|done|]. exists r0. split; [done|]. cbn.
    rewrite length_app. cbn. rewrite Nat.add_1_r. cbn. by rewrite lookup_app_r, Nat.sub_diag by done. }
  wp_apply (wp_and _ _ _ (quiet_step P self SendAck HL ltac:(done)) Hsend).
  intros self1 [[[P1 HL1] Hl1] (Hs1 & Hr1 & a & Ha & Hlast)].
  assert (Hrecv : step self1 (DeliverAck (pred (length (ack_net self1)))) ⇓ λ self2, receiver self2 = receiver self1 ∧
    rcv_nxt (receiver self) ≤ TcpSender.snd_una (sender self2)).
  { rewrite <- Hr1 in Ha |- *. destruct (feedback_ackno P1 self1 a HL1 Ha) as (Hok & Hrst & Hack).
    pose proof (rcv_nxt_bound P1 _ HL1) as [Hb1 _]. pose proof (ack_received P1 self1 a (rcv_nxt (receiver self1)) HL1 Hok Hrst) as Hrec.
    pose proof (sender_receive_wp P1 (sender self1) a (li_sender _ _ HL1) Hok) as Hany.
    destruct self1 as [s r data acks w rd]. cbn in *. rewrite Hlast. wp_step.
    destruct (decide (rcv_nxt r = 0)) as [E|].
    - wp_apply Hany. intros s' (HI & _). wp_step. split; [done|]. rewrite E. apply (si_una _ _ HI).
    - wp_apply Hrec; [apply Hack; lia|lia|]. intros s' ?. by wp_step. }
  wp_apply (wp_and _ _ _ (quiet_step P1 self1 (DeliverAck _) HL1 ltac:(done)) Hrecv).
  intros self2 [[HL2 Hl2] [Hr2 Hu2]]. split_and!; [done|by transitivity self1|congruence|done].
Qed.

(** A round after its timer: once the delivery has made the receiver expect [k], so does the sender. *)
Lemma round_ends P self k : LInv P self →
  (∀ self', LInv P self' → later self self' → only_read self self' →
    ByteStream.content (TcpReceiver.output (receiver self')) = [] →
    step self' (DeliverData (pred (length (data_net self')))) ⇓ λ self'', (∃ P', LInv P' self'') ∧ later self' self'' ∧
      k ≤ rcv_nxt (receiver self'')) →
  (self ← drain self; self ← step self (DeliverData (pred (length (data_net self)))); self ← drain self;
   self ← step self SendAck; step self (DeliverAck (pred (length (ack_net self))))) ⇓ λ self',
    (∃ P', LInv P' self') ∧ later self self' ∧
    ByteStream.content (TcpReceiver.output (receiver self')) = [] ∧ k ≤ TcpSender.snd_una (sender self').
Proof.
  intros HL Hdel. wp_step. wp_apply (drain_wp P self HL). intros self3 (HL3 & Hl3 & Ho3 & Hc3).
  wp_step. wp_apply (Hdel self3 HL3 Hl3 Ho3 Hc3). intros self4 ([P4 HL4] & Hl4 & Hk4).
  wp_step. wp_apply (drain_wp P4 self4 HL4). intros self5 (HL5 & Hl5 & _ & Hc5).
  wp_apply (ack_arrives P4 self5 HL5). intros self6 (HL6 & Hl6 & Hr6 & Hu6). pose proof (la_rcv _ _ Hl5).
  split_and!; [done| |congruence|lia]. transitivity self3; [done|]. transitivity self4; [done|]. by transitivity self5.
Qed.

Lemma round_wp P self : LInv P self → 0 < ByteStream.capacity (TcpReceiver.output (receiver self)) →
  round self ⇓ λ self', (∃ P', LInv P' self') ∧ later self self' ∧
    ByteStream.content (TcpReceiver.output (receiver self')) = [] ∧
    Z.min (target self) (TcpSender.snd_una (sender self) + 1) ≤ TcpSender.snd_una (sender self').
Proof.
  intros HL Hcap. unfold round. wp_step. wp_apply (push_ready P self HL). intros self1 ([P1 HL1] & Hl1 & Hdone). wp_step.
  pose proof (la_una _ _ Hl1). destruct (decide (TcpSender.outstanding (sender self1) = [])) as [Ho|Ho].
  - assert (Hq : quiet (Tick (time_left (sender self1)))).
    { split; [|done]. by eapply time_left_nonneg, li_sender. }
    wp_apply (quiet_step P1 self1 _ HL1 Hq). intros self2 [[P2 HL2] Hl2].
    eapply wp_mono; [apply (round_ends P2 self2 (rcv_nxt (receiver self2)) HL2)|].
    { intros self3 HL3 Hl3 _ _. eapply wp_mono; [by apply (quiet_step P2 self3 _ HL3)|].
      intros self4 [? Hl4]. split_and!; [done..|]. pose proof (la_rcv _ _ Hl3). pose proof (la_rcv _ _ Hl4). lia. }
    intros self' (HL' & Hl' & Hc' & Hu'). split_and!; [done|transitivity self1; [done|by transitivity self2]|done|].
    rewrite <- (later_target _ _ Hl1), <- Hdone by done. pose proof (li_una _ _ HL2). pose proof (la_una _ _ Hl2). lia.
  - wp_apply (tick_resends P1 self1 HL1 Ho). intros self2 (P2 & m & HL2 & Hl2 & Hre).
    eapply wp_mono; [apply (round_ends P2 self2 (TcpSender.snd_una (sender self2) + 1) HL2)|].
    { intros self3 HL3 Hl3 [Hs3 Hd3] Hc3. unfold resent in Hre. rewrite <- Hs3, <- Hd3 in Hre.
      wp_apply (deliver_resent P2 self3 m HL3 Hre Hc3).
      - by rewrite (la_capacity _ _ Hl3), (la_capacity _ _ Hl2), (la_capacity _ _ Hl1).
      - intros self4 (? & ? & ?). split_and!; [done..|]. rewrite <- Hs3. lia. }
    intros self' (HL' & Hl' & Hc' & Hu'). pose proof (la_una _ _ Hl2).
    split_and!; [done|transitivity self1; [done|by transitivity self2]|done|lia].
Qed.

(** After [n] rounds SND.UNA has moved by [n], or is at the end. *)
Lemma play_wp P self noises : LInv P self → 0 < ByteStream.capacity (TcpReceiver.output (receiver self)) →
  Forall (Forall quiet) noises →
  play self noises ⇓ λ self', (∃ P', LInv P' self') ∧ later self self' ∧
    Z.min (target self) (TcpSender.snd_una (sender self) + blen noises) ≤ TcpSender.snd_una (sender self') ∧
    (noises ≠ [] ∨ ByteStream.content (TcpReceiver.output (receiver self)) = [] →
     ByteStream.content (TcpReceiver.output (receiver self')) = []).
Proof.
  intros HL Hcap Hn. revert P self HL Hcap. induction Hn as [|noise noises Hq _ IH]; intros P self HL Hcap; cbn [play].
  { wp_step. split_and!; [by exists P|done|rewrite blen_nil; lia|by intros []]. }
  wp_step. wp_apply (quiet_run P self noise HL Hq). intros self1 [[P1 HL1] Hl1]. wp_step.
  wp_apply (round_wp P1 self1 HL1); [by rewrite (la_capacity _ _ Hl1)|]. intros self2 ([P2 HL2] & Hl2 & Hc2 & Hu2).
  wp_apply (IH P2 self2 HL2); [by rewrite (la_capacity _ _ Hl2), (la_capacity _ _ Hl1)|].
  intros self3 (HL3 & Hl3 & Hu3 & Hc3). rewrite blen_cons. pose proof (la_una _ _ Hl1). pose proof (la_una _ _ Hl3).
  rewrite (later_target _ _ Hl2), (later_target _ _ Hl1) in Hu3. rewrite (later_target _ _ Hl1) in Hu2.
  pose proof (blen_nonneg noises). split_and!; [done|transitivity self1; [done|by transitivity self2]|lia|].
  intros _. apply Hc3. by right.
Qed.

(** At the target everything has been delivered. *)
Lemma at_target P self : LInv P self → TcpSender.snd_una (sender self) = target self →
  ByteStream.content (TcpReceiver.output (receiver self)) = [] →
  read self = written self ∧ TcpSender.outstanding (sender self) = [] ∧
  (ByteStream.closed (TcpSender.outbound (sender self)) = true →
   TcpSender.is_finished (sender self) = true ∧ ByteStream.is_finished (TcpReceiver.output (receiver self)) = true).
Proof.
  intros HL Hu Hcon. pose proof (rcv_nxt_bound P self HL) as [Hb1 Hb2]. pose proof HL as [].
  destruct li_receiving as [[HR Heof _ Hout Hbd _] Hi]. unfold Reassembler.first_unassembled in *.
  fold (TcpReceiver.output (receiver self)) in *. rewrite Hcon, app_nil_r in Hout.
  pose proof (si_nxt _ _ li_sender) as Hn. pose proof (blen_nonneg (ByteStream.content (TcpSender.outbound (sender self)))).
  assert (Hw : blen (written self) = blen P + blen (ByteStream.content (TcpSender.outbound (sender self)))) by by rewrite li_written, blen_app.
  pose proof (of_bool_range (TcpSender.syn_sent (sender self))). unfold target in Hu.
  assert (Hfc : of_bool (TcpSender.fin_sent (sender self)) ≤ of_bool (ByteStream.closed (TcpSender.outbound (sender self)))).
  { destruct (TcpSender.fin_sent (sender self)) eqn:E; [|cbn; apply of_bool_range]. by destruct (si_fin _ _ li_sender E) as [-> _]. }
  assert (Hrc : of_bool (ByteStream.closed (TcpReceiver.output (receiver self))) ≤ of_bool (TcpSender.fin_sent (sender self))).
  { destruct (ByteStream.closed (TcpReceiver.output (receiver self))) eqn:E; [|cbn; apply of_bool_range].
    rewrite li_eof; [done|]. apply (ri_closed _ HR) in E. eauto. }
  pose proof (of_bool_range (ByteStream.closed (TcpSender.outbound (sender self)))). pose proof (blen_nonneg P).
  unfold rcv_nxt in *. destruct (TcpReceiver.isn (receiver self)); [|lia].
  assert (Hall : written self = P).
  { rewrite li_written, (blen_0 (ByteStream.content _)); [by rewrite app_nil_r|lia]. }
  assert (Hpu : ByteStream.bytes_pushed (TcpReceiver.output (receiver self)) = blen P) by lia.
  assert (Ho : TcpSender.outstanding (sender self) = []).
  { apply (segs_empty _ _ _ _ _ (si_segs _ _ li_sender)). lia. }
  split_and!; [by rewrite Hout, Hpu, sub_all, Hall|done|]. intros Hcl. rewrite Hcl in *. cbn [of_bool] in *.
  unfold TcpSender.is_finished, ByteStream.is_finished. rewrite Ho.
  pose proof (ByteStream.inv_buffered _ (ri_output _ HR)) as Hbuf. fold (TcpReceiver.output (receiver self)) in Hbuf.
  rewrite Hcon in Hbuf. rewrite Hbuf.
  destruct (TcpSender.fin_sent (sender self)), (ByteStream.closed (TcpReceiver.output (receiver self))); cbn [of_bool] in *; split; done || lia.
Qed.

End progress.

(** C6: Everything arrives. Start from any state that a sender, a receiver with room for at least one byte and their
    applications reach over any network, the writer having been offered fewer than 2^31 - 2 bytes. From then on let the network lose, delay, duplicate and reorder
    at will, with any timing, except that again and again one timeout's retransmission
    arrives, the application reads, and the acknowledgement sent then arrives. After at most
    as many such rounds as there are sequence numbers, the application has read exactly what was
    written, nothing is left in flight, and if the writer has closed its stream both ends report the end.
    Zero windows, lost probes and buffers of any size but zero are included. *)
Theorem tcp_link_completes sc rc isn config ops noises :
  u64 sc → u64 rc → 0 < rc → Wrap32.ok isn → TcpSenderConfig.ok config →
  Forall Link.op_ok ops → Link.offered ops < 2 ^ 31 - 2 →
  Forall (Forall Progress.quiet) noises → Link.offered ops + 2 ≤ blen noises →
  ∃ self self', (l ← Link.new sc rc isn config; Link.run l ops) = Ret self ∧
    Progress.play self noises = Ret self' ∧
    Link.written self' = Link.written self ∧ Link.read self' = Link.written self ∧
    TcpSender.outstanding (Link.sender self') = [] ∧
    (ByteStream.closed (TcpSender.outbound (Link.sender self)) = true →
     TcpSender.is_finished (Link.sender self') = true ∧
     ByteStream.is_finished (TcpReceiver.output (Link.receiver self')) = true).
Proof.
  intros Hsc Hrc Hpos Hi Hc Hops Hmax Hn Hlen.
  pose proof (link_new_wp sc rc isn config Hsc Hrc Hi Hc) as H. wp_inv H. destruct H as (HL & Hw & Hcap0).
  pose proof (wp_and _ _ _ (link_run_wp [] r ops HL Hops ltac:(by rewrite Hw)) (run_capacity [] r ops HL Hops ltac:(by rewrite Hw))) as H.
  wp_inv H. destruct H as [(P & HL' & Hb) Hcap]. rewrite Hcap0 in Hcap. rewrite Hw, blen_nil in Hb. exists r0.
  pose proof (play_wp P r0 noises HL' ltac:(lia) Hn) as H. wp_inv H. destruct H as ([P1 HL1] & Hl & Hu & Hcon).
  exists r1. rewrite Heq, bind_Ret. split; [done|]. split; [done|].
  assert (Hun : TcpSender.snd_una (Link.sender r1) = target r1).
  { pose proof (una_target P1 r1 HL1). rewrite (later_target _ _ Hl) in *. pose proof (si_una _ _ (li_sender _ _ HL')).
    pose proof (of_bool_range (ByteStream.closed (TcpSender.outbound (Link.sender r0)))). unfold target in *. lia. }
  destruct (at_target P1 r1 HL1 Hun) as (Hr & Ho & Hf).
  { apply Hcon. left. intros ->. pose proof (link_offered_nonneg ops). rewrite blen_nil in Hlen. lia. }
  rewrite <- (la_closed _ _ Hl), <- (la_written _ _ Hl). done.
Qed.

Lemma tcp_link_completes_witness :
  let ops := [Link.Write [x61; x62; x63]; Link.Push; Link.Close] in
  let noises := [[Link.Tick 70]; []; [Link.DeliverData 0; Link.SendAck]; []; [Link.DeliverAck 0; Link.Tick 5000]; []] in
  ∃ self self', (l ← Link.new 10 1 (Wrap32.new u32_max) TcpSenderConfig.default; Link.run l ops) = Ret self ∧
    Progress.play self noises = Ret self' ∧
    Link.written self' = Link.written self ∧ Link.read self' = Link.written self ∧
    TcpSender.outstanding (Link.sender self') = [] ∧
    (ByteStream.closed (TcpSender.outbound (Link.sender self)) = true →
     TcpSender.is_finished (Link.sender self') = true ∧
     ByteStream.is_finished (TcpReceiver.output (Link.receiver self')) = true).
Proof.
  intros ops noises. apply tcp_link_completes; [unfold u64; lia|unfold u64; lia|lia| | | |by vm_compute| |by vm_compute].
  - unfold Wrap32.ok, u32. simpl. lia.
  - unfold TcpSenderConfig.ok, u64. simpl. lia.
  - repeat constructor; simpl; lia.
  - repeat constructor; simpl; lia.
Defined.
