(* ===== verification/tcp_connection.v ===== *)
(** * A full-duplex TCP endpoint ([src/tcp_connection.rs])

    One sender and one receiver behind a pair of ports.  Segments come in and go out;
    every outgoing segment carries the receiver's current acknowledgement and window. *)

From S2P Require Import prelude wrapping_integers byte_stream btree_map tcp_message stream.
From S2P Require Import reassembler checksum tcp_segment tcp_receiver tcp_sender.

Module TcpConnectionConfig.

Record t := mk {
  local_port : Z;
  peer_port : Z;
  sender_capacity : Z;
  receiver_capacity : Z;
  isn : Wrap32.t;
  sender_config : TcpSenderConfig.t;
}.

Definition ok (c : t) : Prop :=
  u16 (local_port c) ∧ local_port c ≠ 0 ∧ u16 (peer_port c) ∧ peer_port c ≠ 0 ∧
  u64 (sender_capacity c) ∧ u64 (receiver_capacity c) ∧
  Wrap32.ok (isn c) ∧ TcpSenderConfig.ok (sender_config c).

End TcpConnectionConfig.

Module TcpConnection.

Record t := mk {
  local_port : Z;
  peer_port : Z;
  sender : TcpSender.t;
  receiver : TcpReceiver.t;
}.

Definition with_sender (self : t) s : t := mk (local_port self) (peer_port self) s (receiver self).
Definition with_receiver (self : t) r : t := mk (local_port self) (peer_port self) (sender self) r.

Definition new (config : TcpConnectionConfig.t) : exec t :=
  _ ← assert (negb (TcpConnectionConfig.local_port config =? 0));
  _ ← assert (negb (TcpConnectionConfig.peer_port config =? 0));
  sender ← TcpSender.new (TcpConnectionConfig.sender_capacity config)
             (TcpConnectionConfig.isn config) (TcpConnectionConfig.sender_config config);
  receiver ← TcpReceiver.new (TcpConnectionConfig.receiver_capacity config);
  mret (mk (TcpConnectionConfig.local_port config) (TcpConnectionConfig.peer_port config) sender receiver).

Definition receiver_message (self : t) : exec TcpReceiverMessage.t := TcpReceiver.send (receiver self).

Definition empty_sender_message (self : t) : TcpSenderMessage.t :=
  TcpSender.make_empty_message (sender self).

Definition is_established (self : t) : exec bool :=
  if TcpSender.syn_sent (sender self) && (0 <? TcpSender.snd_una (sender self)) then
    message ← TcpReceiver.send (receiver self);
    mret (match TcpReceiverMessage.ackno message with Some _ => true | None => false end)
  else mret false.

Definition bytes_in_flight (self : t) : exec Z := TcpSender.bytes_in_flight (sender self).
Definition outstanding_segments (self : t) : Z := blen (TcpSender.outstanding (sender self)).
Definition is_finished (self : t) : bool := TcpSender.is_finished (sender self).

Definition build_segment (local_port peer_port : Z) (sender_message : TcpSenderMessage.t)
    (receiver_feedback : TcpReceiverMessage.t) : TcpSegment.t :=
  TcpSegment.from_messages local_port peer_port sender_message (Some receiver_feedback).

Definition flush_sender (self : t) : exec (list TcpSegment.t * t) :=
  receiver_feedback ← TcpReceiver.send (receiver self);
  '(messages, sender) ← TcpSender.push (sender self);
  mret (map (λ m, build_segment (local_port self) (peer_port self) m receiver_feedback) messages,
        with_sender self sender).

Definition connect (self : t) : exec (list TcpSegment.t * t) := flush_sender self.

Definition write (self : t) (data : bytes) : exec (Z * list TcpSegment.t * t) :=
  '(bytes_written, outbound) ← ByteStream.push (TcpSender.outbound (sender self)) data;
  let self := with_sender self (TcpSender.with_outbound (sender self) outbound) in
  '(segments, self) ← flush_sender self;
  mret (bytes_written, segments, self).

Definition close (self : t) : exec (list TcpSegment.t * t) :=
  flush_sender (with_sender self
    (TcpSender.with_outbound (sender self) (ByteStream.close (TcpSender.outbound (sender self))))).

Definition belongs_to_this_connection (self : t) (segment : TcpSegment.t) : bool :=
  (TcpHeader.src_port (TcpSegment.header segment) =? peer_port self)
  && (TcpHeader.dst_port (TcpSegment.header segment) =? local_port self).

Definition make_pure_ack_segment (self : t) : exec (option TcpSegment.t) :=
  receiver_feedback ← TcpReceiver.send (receiver self);
  if match TcpReceiverMessage.ackno receiver_feedback with None => true | Some _ => false end
     && negb (TcpReceiverMessage.rst receiver_feedback)
  then mret None
  else
    let sender_message := TcpSender.make_empty_message (sender self) in
    mret (Some (build_segment (local_port self) (peer_port self) sender_message receiver_feedback)).

Definition receive_segment (self : t) (segment : TcpSegment.t) : exec (list TcpSegment.t * t) :=
  if negb (belongs_to_this_connection self segment) then mret ([], self)
  else
    let incoming_sender_message := TcpSegment.to_sender_message segment in
    let incoming_receiver_message := TcpSegment.to_receiver_message segment in
    let incoming_sequence_len := TcpSenderMessage.sequence_length incoming_sender_message in
    sender ← TcpSender.receive (sender self) incoming_receiver_message;
    let self := with_sender self sender in
    self ←
      (if (0 <? incoming_sequence_len) || TcpSenderMessage.rst incoming_sender_message then
         '(r, receiver) ← TcpReceiver.receive (receiver self) incoming_sender_message;
         match r with
         | Ok _ => mret (with_receiver self receiver)
         | Err _ => mret (with_receiver self (TcpReceiver.with_output receiver
                            (ByteStream.set_error (TcpReceiver.output receiver))))
         end
       else mret self);
    '(outgoing, self) ← flush_sender self;
    if (0 <? incoming_sequence_len) && match outgoing with [] => true | _ => false end then
      ack ← make_pure_ack_segment self;
      mret (match ack with Some ack => outgoing ++ [ack] | None => outgoing end, self)
    else mret (outgoing, self).

Definition tick (self : t) (elapsed_ms : Z) : exec (list TcpSegment.t * t) :=
  receiver_feedback ← TcpReceiver.send (receiver self);
  '(messages, sender) ← TcpSender.tick (sender self) elapsed_ms;
  mret (map (λ m, build_segment (local_port self) (peer_port self) m receiver_feedback) messages,
        with_sender self sender).

(** What happens to an endpoint, as data; a run returns the segments it sends. *)
Inductive op :=
| Connect
| Write (data : bytes)
| Close
| ReceiveSegment (segment : TcpSegment.t)
| Tick (elapsed_ms : Z)
| ReadInbound (len : Z).

Definition step (self : t) (o : op) : exec (list TcpSegment.t * t) :=
  match o with
  | Connect => connect self
  | Write data => '(_, segments, self) ← write self data; mret (segments, self)
  | Close => close self
  | ReceiveSegment segment => receive_segment self segment
  | Tick elapsed_ms => tick self elapsed_ms
  | ReadInbound len =>
      '(_, o) ← ByteStream.pop (TcpReceiver.output (receiver self)) len;
      mret ([], with_receiver self (TcpReceiver.with_output (receiver self) o))
  end.

Fixpoint run (self : t) (ops : list op) : exec (list TcpSegment.t * t) :=
  match ops with
  | [] => mret ([], self)
  | o :: ops =>
      '(segments, self) ← step self o;
      '(segments', self) ← run self ops;
      mret (segments ++ segments', self)
  end.

Fixpoint offered (ops : list op) : Z :=
  match ops with
  | [] => 0
  | Write data :: ops => blen data + offered ops
  | _ :: ops => offered ops
  end.

End TcpConnection.

Section connection.
Import TcpConnection.
Implicit Types (c : TcpConnection.t) (P : bytes).

Record CInv P c : Prop := {
  ci_local : u16 (local_port c);
  ci_peer : u16 (peer_port c);
  ci_sender : SInv P (sender c);
  ci_receiver : TRInv (receiver c);
}.

(** The bytes the application has handed to the sender. *)
Abbreviation pushed c := (ByteStream.bytes_pushed (TcpSender.outbound (sender c))).
Abbreviation max_payload c := (TcpSenderConfig.max_payload_size (TcpSender.config (sender c))).

(** [segs] come from this endpoint and carry the feedback [fb] of its receiver. *)
Definition from_here c (fb : TcpReceiverMessage.t) (segs : list TcpSegment.t) : Prop :=
  Forall (λ s, TcpHeader.src_port (TcpSegment.header s) = local_port c ∧
               TcpHeader.dst_port (TcpSegment.header s) = peer_port c ∧
               TcpHeader.ackno (TcpSegment.header s) = TcpReceiverMessage.ackno fb ∧
               TcpHeader.window_size (TcpSegment.header s) = TcpReceiverMessage.window_size fb ∧
               Wrap32.ok (TcpHeader.seqno (TcpSegment.header s)) ∧
               blen (TcpSegment.payload s) ≤ max_payload c) segs.

(** A message the sender may transmit. *)
Definition sendable c (m : TcpSenderMessage.t) : Prop :=
  Wrap32.ok (TcpSenderMessage.seqno m) ∧ blen (TcpSenderMessage.payload m) ≤ max_payload c.

Lemma from_here_build c fb ms : Forall (sendable c) ms →
  from_here c fb (map (λ m, build_segment (local_port c) (peer_port c) m fb) ms).
Proof. intros Hm. apply Forall_map. eapply Forall_impl; [exact Hm|]. by intros m []. Qed.

(** Every outstanding segment may be transmitted. *)
Lemma outstanding_sendable P c : SInv P (sender c) →
  Forall (λ s, sendable c (OutstandingSegment.message s)) (TcpSender.outstanding (sender c)).
Proof.
  intros HI. pose proof (segs_emits _ _ _ _ _ (si_segs _ _ HI)) as He. pose proof (si_mss _ _ HI) as Hm.
  rewrite Forall_forall in *. intros s Hs. split; [|by apply Hm].
  destruct (He s Hs) as (n & -> & _). apply wrap_ok.
Qed.

Lemma filled_sendable w P c ms s' Q segs : filled w P (sender c) ms s' Q segs → Forall (sendable c) ms.
Proof.
  intros []. subst ms. apply Forall_fmap. pose proof (outstanding_sendable (P ++ Q) (with_sender c s') fi_inv) as Ho.
  cbn in Ho. rewrite fi_outstanding in Ho. apply Forall_app in Ho as [_ Ho].
  eapply Forall_impl; [exact Ho|]. intros sg [H1 H2]. split; [done|]. cbn in H2.
  by rewrite (ke_config _ _ fi_kept) in H2.
Qed.

(** With a payload limit that fits IPv4, what is sent can be serialised. *)
Lemma from_here_wf P c fb segs :
  CInv P c → TcpReceiverMessage.ok fb → from_here c fb segs → max_payload c ≤ 65515 →
  Forall TcpSegment.wf segs.
Proof.
  intros [] [Hw Ha] Hf Hmax. eapply Forall_impl; [exact Hf|]. intros s (Hs & Hd & Hk & Hwin & Hq & Hp).
  unfold TcpSegment.wf. rewrite Hs, Hd, Hk, Hwin. split_and!; try done; [|lia].
  intros a Hak. by rewrite Hak in Ha.
Qed.

Lemma new_wp config : TcpConnectionConfig.ok config →
  TcpConnection.new config ⇓ λ c, CInv [] c ∧ pushed c = 0 ∧
    local_port c = TcpConnectionConfig.local_port config ∧ peer_port c = TcpConnectionConfig.peer_port config ∧
    max_payload c = TcpSenderConfig.max_payload_size (TcpConnectionConfig.sender_config config).
Proof.
  intros (Hl & Hl0 & Hp & Hp0 & Hsc & Hrc & Hi & Hc). unfold new.
  wp_step. wp_step; [by rewrite (proj2 (Z.eqb_neq _ _))|]. wp_step. wp_step; [by rewrite (proj2 (Z.eqb_neq _ _))|].
  wp_step. wp_apply (tcp_sender_new_wp _ _ _ Hsc Hi Hc). intros s (HS & Ho & _ & Hcf & _).
  wp_step. wp_apply (tcp_receiver_new_wp _ Hrc). intros r [HR _]. wp_step. split; [by split|]. cbn. by rewrite Ho, Hcf.
Qed.

(** The constants of a connection. *)
Definition same_peer c c' : Prop :=
  local_port c' = local_port c ∧ peer_port c' = peer_port c ∧ max_payload c' = max_payload c.

(** Sending does not touch the receiver. *)
Lemma flush_keeps c segs c' : TcpConnection.flush_sender c = Ret (segs, c') → TcpConnection.receiver c' = TcpConnection.receiver c.
Proof.
  unfold TcpConnection.flush_sender. destruct (TcpReceiver.send _); [|done]. rewrite bind_Ret.
  destruct (TcpSender.push _) as [[]|]; [|done]. by intros [= _ <-].
Qed.

Lemma flush_sender_wp P c : CInv P c → pushed c + 2 ≤ u64_max →
  flush_sender c ⇓ λ '(segs, c'), ∃ P' fb, CInv P' c' ∧ pushed c' = pushed c ∧
    receiver c' = receiver c ∧ same_peer c c' ∧
    TcpReceiver.send (receiver c) = Ret fb ∧ TcpReceiverMessage.ok fb ∧ from_here c fb segs.
Proof.
  intros [] Hmax. unfold flush_sender. pose proof (send_wp (receiver c) ci_receiver0) as Hs. wp_inv Hs.
  rewrite Heq. wp_step. wp_step. wp_step. wp_apply (sender_push_wp P (sender c) ci_sender0 Hmax).
  intros [ms s'] (Q & sg & Hf). pose proof (filled_sendable _ _ _ _ _ _ _ Hf) as Hse. destruct Hf.
  wp_step. exists (P ++ Q), r. destruct fi_kept. split_and!; try done; [|by apply Hs|by apply from_here_build].
  split_and!; [done|done|]. cbn. by rewrite ke_config.
Qed.

(** A segment whose header fits its fields. *)
Definition seg_ok (s : TcpSegment.t) : Prop :=
  Wrap32.ok (TcpHeader.seqno (TcpSegment.header s)) ∧
  (∀ a, TcpHeader.ackno (TcpSegment.header s) = Some a → Wrap32.ok a) ∧
  u16 (TcpHeader.window_size (TcpSegment.header s)) ∧ blen (TcpSegment.payload s) ≤ u64_max.

(** The receiver's half of [receive_segment]: an error of the receiver becomes one of its stream. *)
Lemma deliver_segment_wp c sm : TRInv (receiver c) →
  Wrap32.ok (TcpSenderMessage.seqno sm) → blen (TcpSenderMessage.payload sm) ≤ u64_max →
  (if (0 <? TcpSenderMessage.sequence_length sm) || TcpSenderMessage.rst sm then
     '(r, receiver) ← TcpReceiver.receive (receiver c) sm;
     match r with
     | Ok _ => mret (with_receiver c receiver)
     | Err _ => mret (with_receiver c (TcpReceiver.with_output receiver
                        (ByteStream.set_error (TcpReceiver.output receiver))))
     end
   else mret c) ⇓ λ c1, ∃ r1, c1 = with_receiver c r1 ∧ TRInv r1.
Proof.
  intros HT Hsq Hpl. destruct (_ || _); [|wp_step; exists (receiver c); split; [by destruct c|done]].
  wp_step. wp_apply (receive_wp (receiver c) sm HT); [by split|].
  intros [res r1] (HT1 & _). destruct res; wp_step; [by exists r1|]. eexists. split; [done|].
  destruct HT1. split; [by apply fail_output_inv|done].
Qed.

Lemma receive_segment_wp P c seg : CInv P c → seg_ok seg → pushed c + 2 ≤ u64_max →
  receive_segment c seg ⇓ λ '(out, c'), ∃ P' fb, CInv P' c' ∧ pushed c' = pushed c ∧
    same_peer c c' ∧
    TcpReceiver.send (receiver c') = Ret fb ∧ TcpReceiverMessage.ok fb ∧ from_here c fb out ∧
    if belongs_to_this_connection c seg then
      0 < TcpSenderMessage.sequence_length (TcpSegment.to_sender_message seg) →
      out = [] → TcpReceiverMessage.ackno fb = None ∧ TcpReceiverMessage.rst fb = false
    else c' = c ∧ out = [].
Proof.
  intros [] (Hsq & Hak & Hwi & Hpl) Hmax. unfold receive_segment.
  destruct (belongs_to_this_connection c seg); cbn [negb].
  2:{ pose proof (send_wp (receiver c) ci_receiver0) as Hs. wp_inv Hs. wp_step.
      exists P, r. split_and!; try done; [apply Hs|by constructor]. }
  set (sm := TcpSegment.to_sender_message seg). set (rm := TcpSegment.to_receiver_message seg).
  assert (Hrm : TcpReceiverMessage.ok rm).
  { split; [done|]. cbn. destruct (TcpHeader.ackno (TcpSegment.header seg)); [by apply Hak|done]. }
  wp_step. wp_apply (sender_receive_wp P (sender c) rm ci_sender0 Hrm). intros s (HS & (_ & Hcf & _) & Hrec).
  destruct (received_outbound _ _ _ Hrec) as (_ & _ & Hpu).
  wp_step.
  wp_apply (deliver_segment_wp (with_sender c s) sm ci_receiver0 Hsq Hpl). intros c1 (r1 & -> & HT1). wp_step.
  wp_apply (flush_sender_wp P (with_receiver (with_sender c s) r1)); [by split|cbn; lia|].
  intros [out c2] (P' & fb & HC2 & Hp2 & Hr2 & (Hl2 & Hpp2 & Hm2) & Hfb & Hok & Hfrom).
  cbn in Hp2, Hr2, Hl2, Hpp2, Hfb, Hm2. unfold from_here in Hfrom. cbn in Hfrom. rewrite Hcf in *.
  assert (Hfrom' : from_here c fb out) by exact Hfrom.
  assert (Hsp : same_peer c c2) by by split_and!.
  assert (Hemp : sendable c (TcpSender.make_empty_message (sender c2))).
  { split; [apply wrap_ok|]. cbn. change (@blen byte []) with 0. destruct (si_config _ _ ci_sender0) as (_ & _ & ? & _). lia. }
  assert (Hsend : TcpReceiver.send (receiver c2) = Ret fb) by by rewrite Hr2.
  destruct (Z.ltb_spec 0 (TcpSenderMessage.sequence_length sm)) as [Hpos|]; cbn [andb].
  2:{ wp_step. exists P', fb. split_and!; try done; [congruence|]. lia. }
  destruct out as [|s0 out].
  2:{ wp_step. exists P', fb. split_and!; try done. congruence. }
  wp_step. unfold make_pure_ack_segment. rewrite Hsend. wp_step. wp_step.
  destruct (TcpReceiverMessage.ackno fb) as [a|] eqn:Ea; cbn [andb negb].
  - wp_step. wp_step. exists P', fb. split_and!; try done; [congruence|].
    constructor; [|done]. cbn. rewrite Hl2, Hpp2, Ea. destruct Hemp. by split_and!.
  - destruct (TcpReceiverMessage.rst fb) eqn:Er; cbn [negb].
    + wp_step. wp_step. exists P', fb. split_and!; try done; [congruence|].
      constructor; [|done]. cbn. rewrite Hl2, Hpp2, Ea. destruct Hemp. by split_and!.
    + wp_step. wp_step. exists P', fb. split_and!; try done. congruence.
Qed.

Lemma tick_wp P c elapsed : CInv P c → 0 ≤ elapsed →
  tick c elapsed ⇓ λ '(segs, c'), CInv P c' ∧ pushed c' = pushed c ∧ same_peer c c' ∧
    ∃ fb, TcpReceiverMessage.ok fb ∧ from_here c fb segs.
Proof.
  intros [] He. unfold tick. pose proof (send_wp (receiver c) ci_receiver0) as Hs. wp_inv Hs.
  rewrite Heq. wp_step. wp_step. wp_step. wp_apply (sender_tick_wp P (sender c) elapsed ci_sender0 He).
  intros [ms s'] (HS & ((_ & Hcf & _) & Ho & _ & _ & _ & Hms)). wp_step.
  split_and!; [by split|cbn; by rewrite Ho|split_and!; [done|done|cbn; by rewrite Hcf]|].
  exists r. split; [apply Hs|]. apply from_here_build.
  pose proof (outstanding_sendable P c ci_sender0) as Hse.
  destruct (TcpSender.outstanding (sender c)) as [|o os]; [by destruct Hms as [-> _]|].
  apply Forall_cons in Hse as [Hse _]. case_match; destruct Hms as (-> & _); [done|by constructor].
Qed.

Definition cop_ok (o : op) : Prop :=
  match o with
  | ReceiveSegment s => seg_ok s
  | Tick elapsed => 0 ≤ elapsed
  | ReadInbound len => 0 ≤ len
  | _ => True
  end.

(** One step of an endpoint, whatever it is. *)
Lemma step_wp P c o : CInv P c → cop_ok o → pushed c + offered [o] + 2 ≤ u64_max →
  step c o ⇓ λ '(segs, c'), ∃ P', CInv P' c' ∧ same_peer c c' ∧ pushed c' ≤ pushed c + offered [o] ∧
    ∃ fb, TcpReceiverMessage.ok fb ∧ from_here c fb segs.
Proof.
  intros HC Ho Hmax. pose proof HC as []. destruct o as [|data| |seg|elapsed|len]; cbn in Ho, Hmax |- *.
  - unfold connect. wp_apply (flush_sender_wp P c HC); [lia|].
    intros [segs c'] (P' & fb & HC' & Hp & _ & Hs & _ & Hok & Hf). exists P'. split_and!; try done; [lia|eauto].
  - pose proof (blen_nonneg data). unfold write. wp_step. wp_step.
    wp_apply (write_wp P (sender c) data ci_sender0); [lia|].
    intros [n o] (HS & Hn & _ & _ & Hpu & _). wp_step.
    wp_apply (flush_sender_wp P (with_sender c (TcpSender.with_outbound (sender c) o))); [by split|cbn; lia|].
    intros [segs c'] (P' & fb & HC' & Hp & _ & Hs & _ & Hok & Hf). cbn in Hp. wp_step. wp_step.
    exists P'. split_and!; try done; [lia|by exists fb].
  - unfold close. wp_apply (flush_sender_wp P); [by split; [..|apply close_outbound_inv|]|cbn; lia|].
    intros [segs c'] (P' & fb & HC' & Hp & _ & Hs & _ & Hok & Hf). cbn in Hp.
    exists P'. split_and!; try done; [lia|by exists fb].
  - wp_apply (receive_segment_wp P c seg HC Ho); [lia|].
    intros [segs c'] (P' & fb & HC' & Hp & Hs & _ & Hok & Hf & _). exists P'. split_and!; try done; [lia|eauto].
  - wp_apply (tick_wp P c elapsed HC Ho). intros [segs c'] (HC' & Hp & Hs & Hf).
    exists P. split_and!; try done. lia.
  - destruct ci_receiver0 as [HR Hi]. wp_step.
    wp_apply (pop_output_wp (TcpReceiver.reassembler (receiver c)) len HR Ho).
    intros [b o] (HR' & _). wp_step. exists P. split; [by split; [..|by split]|]. split; [done|]. split; [cbn; lia|].
    exists (TcpReceiverMessage.mk None 0 false). split; [by split; cbn; [unfold u16; lia|]|by constructor].
Qed.

(** ** The outbound stream *)

Abbreviation outbound c := (TcpSender.outbound (sender c)).

Definition closes (o : op) : bool := match o with Close => true | _ => false end.

(** What a step that is offered [grow] bytes does to the outbound stream: nobody but [close] closes it, an
    error stays, and an open stream with enough capacity left takes everything. *)
Record stream_step (grow : Z) (closing : bool) (s s' : ByteStream.t) : Prop := {
  ss_capacity : ByteStream.capacity s' = ByteStream.capacity s;
  ss_closed : ByteStream.closed s' = ByteStream.closed s || closing;
  ss_error : ByteStream.error s' = false → ByteStream.error s = false;
  ss_pushed : ByteStream.bytes_pushed s ≤ ByteStream.bytes_pushed s' ≤ ByteStream.bytes_pushed s + grow;
  ss_taken : ByteStream.error s' = false → ByteStream.closed s = false →
    ByteStream.bytes_pushed s + grow ≤ ByteStream.capacity s →
    ByteStream.bytes_pushed s' = ByteStream.bytes_pushed s + grow;
}.

Lemma stream_same s : stream_step 0 false s s.
Proof. split; try done; [by rewrite orb_false_r|lia|lia]. Qed.

Lemma stream_then grow closing s s1 s2 : stream_step grow closing s s1 → stream_step 0 false s1 s2 → stream_step grow closing s s2.
Proof.
  intros [] []. split; [congruence|by rewrite ss_closed1, ss_closed0, orb_false_r|auto|lia|].
  intros He Hc Hcap. specialize (ss_taken0 (ss_error1 He) Hc Hcap). lia.
Qed.

Lemma flush_stream P c : CInv P c → pushed c + 2 ≤ u64_max →
  flush_sender c ⇓ λ '(_, c'), stream_step 0 false (outbound c) (outbound c').
Proof.
  intros [] Hmax. unfold flush_sender. wp_step. wp_apply (send_wp (receiver c) ci_receiver0). intros fb _.
  wp_step. wp_apply (sender_push_wp P (sender c) ci_sender0 Hmax). intros [ms s'] (Q & sg & [? ? ? ? ? ? ? ?]).
  wp_step. cbn. destruct fi_kept as [? ? ? ? ? ? ? (Hc & Hcl & He) Hpu]. split; [done|by rewrite Hcl, orb_false_r|congruence|lia|lia].
Qed.

Lemma step_stream P c o : CInv P c → cop_ok o → pushed c + offered [o] + 2 ≤ u64_max →
  step c o ⇓ λ '(_, c'), stream_step (offered [o]) (closes o) (outbound c) (outbound c').
Proof.
  intros HC Ho Hmax. pose proof HC as []. destruct o as [|data| |seg|elapsed|len]; cbn in Ho, Hmax |- *.
  - apply (flush_stream P c HC). lia.
  - pose proof (blen_nonneg data). pose proof (accepts_range (outbound c) data (si_outbound _ _ ci_sender0)). unfold write. wp_step. wp_step.
    wp_apply (wp_and _ _ _ (write_wp P (sender c) data ci_sender0 ltac:(lia)) (push_wp (outbound c) data (si_outbound _ _ ci_sender0) ltac:(lia))).
    intros [n o] [(HS & Hn & _ & (Hc & Hcl & He) & Hpu & _) (Hacc & _)]. cbn [fst] in Hacc. wp_step.
    wp_apply (flush_stream P (with_sender c (TcpSender.with_outbound (sender c) o))); [by split|cbn; lia|].
    intros [segs c'] Hf. wp_step. wp_step. cbn in Hf. eapply stream_then; [|exact Hf].
    split; [done|by rewrite Hcl, orb_false_r|congruence|lia|]. intros He' Hcl' Hcap. rewrite Hpu, Hacc. unfold ByteStream.accepts.
    rewrite Hcl', <- He, He'. cbn [orb]. destruct (si_outbound _ _ ci_sender0). lia.
  - unfold close. wp_apply (flush_stream P); [by split; [..|apply close_outbound_inv|]|cbn; lia|].
    intros [segs c'] Hf. eapply stream_then; [|exact Hf]. cbn. split; try done; cbn; [by rewrite orb_true_r|lia|lia].
  - unfold receive_segment. destruct (belongs_to_this_connection c seg); cbn [negb]; [|wp_step; apply stream_same].
    destruct Ho as (Hsq & Hak & Hwi & Hpl).
    set (sm := TcpSegment.to_sender_message seg). set (rm := TcpSegment.to_receiver_message seg).
    assert (Hrm : TcpReceiverMessage.ok rm).
    { split; [done|]. cbn. destruct (TcpHeader.ackno (TcpSegment.header seg)); [by apply Hak|done]. }
    wp_step. wp_apply (sender_receive_wp P (sender c) rm ci_sender0 Hrm). intros s (HS & _ & Hrec).
    assert (Hs : stream_step 0 false (outbound c) (TcpSender.outbound s)).
    { destruct (TcpReceiverMessage.rst rm) eqn:Er.
      - unfold received in Hrec. rewrite Er in Hrec. subst s. cbn. split; try done; cbn; [by rewrite orb_false_r|lia].
      - destruct (received_heeded _ _ _ Hrec Er) as [-> _]. apply stream_same. }
    destruct (received_outbound _ _ _ Hrec) as (_ & _ & Hpu). wp_step.
    wp_apply (deliver_segment_wp (with_sender c s) sm ci_receiver0 Hsq Hpl). intros c1 (r1 & -> & HT1). wp_step.
    assert (HC1 : CInv P (with_receiver (with_sender c s) r1)) by by split.
    wp_apply (wp_and _ _ _ (flush_stream P _ HC1 ltac:(cbn; lia)) (flush_sender_wp P _ HC1 ltac:(cbn; lia))).
    intros [out c2] [Hf (P' & fb & HC2 & _)]. cbn in Hf.
    assert (Hs2 : stream_step 0 false (outbound c) (outbound c2)) by (eapply stream_then; [exact Hs|exact Hf]).
    destruct (_ && _); [|by wp_step]. unfold make_pure_ack_segment. wp_step. wp_step.
    wp_apply (send_wp (receiver c2) (ci_receiver _ _ HC2)). intros fb2 _. destruct (_ && _); wp_step; by wp_step.
  - unfold tick. wp_step. wp_apply (send_wp (receiver c) ci_receiver0). intros fb _. wp_step.
    wp_apply (sender_tick_wp P (sender c) elapsed ci_sender0 Ho). intros [ms s'] (_ & _ & Hout & _). wp_step. cbn. rewrite Hout. apply stream_same.
  - destruct ci_receiver0 as [HR Hi]. wp_step.
    wp_apply (pop_output_wp (TcpReceiver.reassembler (receiver c)) len HR Ho). intros [b o] _. wp_step. apply stream_same.
Qed.

Lemma connection_run_wp P c ops : CInv P c → Forall cop_ok ops → pushed c + offered ops + 2 ≤ u64_max → max_payload c ≤ 65515 →
  run c ops ⇓ λ '(segs, c'), ∃ P', CInv P' c' ∧
    Forall (λ s, TcpSegment.wf s ∧ TcpHeader.src_port (TcpSegment.header s) = local_port c ∧
                 TcpHeader.dst_port (TcpSegment.header s) = peer_port c) segs.
Proof.
  intros HC Hops. revert P c HC. induction Hops as [|o ops Ho _ IH]; intros P c HC Hmax Hmss; cbn [run].
  { wp_step. exists P. split; [done|by constructor]. }
  assert (Hoff : offered (o :: ops) = offered [o] + offered ops ∧ 0 ≤ offered ops).
  { split; [destruct o; cbn; lia|]. clear. induction ops as [|[|d| | | |] ops IH]; cbn; try lia. pose proof (blen_nonneg d). lia. }
  destruct Hoff as [Hoff Hnn]. wp_step. wp_apply (step_wp P c o HC Ho); [lia|].
  intros [segs c1] (P1 & HC1 & (Hl & Hp & Hm) & Hpu & fb & Hfb & Hf). wp_step.
  wp_apply (IH P1 c1 HC1); [lia|lia|]. intros [segs' c2] (P2 & HC2 & Hf2). wp_step. exists P2. split; [done|].
  apply Forall_app. split; [|by rewrite Hl, Hp in Hf2].
  pose proof (from_here_wf P c fb segs HC Hfb Hf Hmss) as Hwf. unfold from_here in Hf. rewrite Forall_forall in Hwf, Hf |- *.
  intros s Hs. destruct (Hf s Hs) as (Hsp & Hdp & _). split_and!; [by apply Hwf|done|done].
Qed.
End connection.

(** An endpoint never panics and never sends what it cannot serialise. Whatever segments
    arrive (any flags, numbers and ports), whatever the application does, and however
    time passes, a new connection whose payload limit fits an IPv4 datagram keeps its
    invariant, and every segment it sends is between its own ports and fits the wire
    format. *)
Theorem tcp_connection_safe config ops :
  TcpConnectionConfig.ok config → Forall cop_ok ops → TcpConnection.offered ops + 2 ≤ u64_max →
  TcpSenderConfig.max_payload_size (TcpConnectionConfig.sender_config config) ≤ 65515 →
  ∃ segs c P, (c ← TcpConnection.new config; TcpConnection.run c ops) = Ret (segs, c) ∧ CInv P c ∧
    Forall (λ s, TcpSegment.wf s ∧
      TcpHeader.src_port (TcpSegment.header s) = TcpConnectionConfig.local_port config ∧
      TcpHeader.dst_port (TcpSegment.header s) = TcpConnectionConfig.peer_port config) segs.
Proof.
  intros Hc Hops Hmax Hmss. pose proof (new_wp config Hc) as H. wp_inv H.
  destruct H as (HC & Hp & Hl & Hpp & Hm).
  pose proof (connection_run_wp [] r ops HC Hops) as H. rewrite Hp, Hm in H. specialize (H ltac:(lia) Hmss). wp_inv H.
  destruct r0 as [segs c]. destruct H as (P & HC' & Hf). exists segs, c, P.
  rewrite Heq, bind_Ret. rewrite Hl, Hpp in Hf. done.
Qed.

Lemma tcp_connection_safe_witness :
  let config := TcpConnectionConfig.mk 1234 80 100 100 (Wrap32.new 0) TcpSenderConfig.default in
  let ops := [TcpConnection.ReceiveSegment
                (TcpSegment.mk (TcpHeader.mk 80 1234 (Wrap32.new 5) None 1000 true false false) []);
              TcpConnection.Write [x61; x62]; TcpConnection.Tick 1000;
              TcpConnection.ReceiveSegment
                (TcpSegment.mk (TcpHeader.mk 80 1234 (Wrap32.new 6) (Some (Wrap32.new 1)) 1000 false true false) [x63]);
              TcpConnection.Close; TcpConnection.ReadInbound 1] in
  ∃ segs c P, (c ← TcpConnection.new config; TcpConnection.run c ops) = Ret (segs, c) ∧ CInv P c ∧
    Forall (λ s, TcpSegment.wf s ∧
      TcpHeader.src_port (TcpSegment.header s) = TcpConnectionConfig.local_port config ∧
      TcpHeader.dst_port (TcpSegment.header s) = TcpConnectionConfig.peer_port config) segs.
Proof.
  intros config ops. apply tcp_connection_safe.
  - unfold TcpConnectionConfig.ok, TcpSenderConfig.ok, Wrap32.ok, u16, u32, u64. simpl. lia.
  - subst ops. rewrite !Forall_cons, Forall_nil. simpl. unfold seg_ok, Wrap32.ok, u16, u32, u64, blen. simpl.
    split_and!; try lia; try done. intros a [= <-]. simpl. lia.
  - vm_compute. discriminate.
  - vm_compute. discriminate.
Defined.

(** C13: Every segment that carries something is answered. A segment for this connection
    that occupies sequence space makes the endpoint send at least one segment, unless
    its receiver still has nothing to acknowledge and no reset to report; and whatever it
    sends carries the acknowledgement and window its receiver holds after the segment.
    A segment from another port than the peer's or for another than the local one changes nothing and
    gets no answer. (As long as the application has written fewer than 2^64 - 2 bytes.) *)
Theorem tcp_connection_acknowledges P c seg :
  CInv P c → seg_ok seg → ByteStream.bytes_pushed (TcpSender.outbound (TcpConnection.sender c)) + 2 ≤ u64_max →
  ∃ out c' fb, TcpConnection.receive_segment c seg = Ret (out, c') ∧
    TcpReceiver.send (TcpConnection.receiver c') = Ret fb ∧
    Forall (λ s, TcpHeader.ackno (TcpSegment.header s) = TcpReceiverMessage.ackno fb ∧
                 TcpHeader.window_size (TcpSegment.header s) = TcpReceiverMessage.window_size fb) out ∧
    if decide (TcpHeader.src_port (TcpSegment.header seg) = TcpConnection.peer_port c ∧
               TcpHeader.dst_port (TcpSegment.header seg) = TcpConnection.local_port c) then
      0 < TcpSenderMessage.sequence_length (TcpSegment.to_sender_message seg) →
      TcpReceiverMessage.ackno fb ≠ None ∨ TcpReceiverMessage.rst fb = true → out ≠ []
    else out = [] ∧ c' = c.
Proof.
  intros HC Hs Hmax. pose proof (receive_segment_wp P c seg HC Hs Hmax) as H. wp_inv H.
  destruct r as [out c']. destruct H as (P' & fb & _ & _ & _ & Hfb & _ & Hf & Hout).
  exists out, c', fb. split_and!; [done|done| |].
  - eapply Forall_impl; [exact Hf|]. intros s (_ & _ & ? & ? & _). done.
  - unfold TcpConnection.belongs_to_this_connection in Hout.
    destruct (decide _) as [[H1 H2]|Hn]; [rewrite H1, H2, !Z.eqb_refl in Hout; cbn [andb] in Hout|].
    2:{ destruct (andb _ _) eqn:Eb; [|tauto]. apply andb_true_iff in Eb as [?%Z.eqb_eq ?%Z.eqb_eq]. tauto. }
    intros Hl Hne ->. destruct (Hout Hl eq_refl) as [Ha Hr]. rewrite Ha, Hr in Hne. by destruct Hne.
Qed.

(** An endpoint that has just been created. *)
Example fresh_connection : TcpConnection.t :=
  TcpConnection.mk 1234 80 fresh_sender (TcpReceiver.mk (Reassembler.mk (ByteStream.new 100) [] None) None).

Lemma fresh_connection_inv : CInv [] fresh_connection.
Proof.
  split; cbn; [ulia|ulia|apply fresh_sender_inv|].
  pose proof (tcp_receiver_new_wp 100 ltac:(unfold u64; lia)) as H. wp_inv H. by destruct H as [H ->].
Qed.

Lemma tcp_connection_acknowledges_witness :
  let seg := TcpSegment.mk (TcpHeader.mk 80 1234 (Wrap32.new 5) None 1000 true false false) [] in
  ∃ out c' fb, TcpConnection.receive_segment fresh_connection seg = Ret (out, c') ∧
    TcpReceiver.send (TcpConnection.receiver c') = Ret fb ∧
    Forall (λ s, TcpHeader.ackno (TcpSegment.header s) = TcpReceiverMessage.ackno fb ∧
                 TcpHeader.window_size (TcpSegment.header s) = TcpReceiverMessage.window_size fb) out ∧
    if decide (TcpHeader.src_port (TcpSegment.header seg) = TcpConnection.peer_port fresh_connection ∧
               TcpHeader.dst_port (TcpSegment.header seg) = TcpConnection.local_port fresh_connection) then
      0 < TcpSenderMessage.sequence_length (TcpSegment.to_sender_message seg) →
      TcpReceiverMessage.ackno fb ≠ None ∨ TcpReceiverMessage.rst fb = true → out ≠ []
    else out = [] ∧ c' = fresh_connection.
Proof.
  intros seg. apply (tcp_connection_acknowledges []); [apply fresh_connection_inv| |vm_compute; discriminate].
  unfold seg_ok, Wrap32.ok, u16, u32, u64, blen. simpl. split_and!; try lia; done.
Defined.
