(* ===== verification/tcp_duplex.v ===== *)
(** * Two endpoints over an unreliable network

    Two [TcpConnection]s whose segments cross a network that loses, duplicates, delays and
    reorders.  Each direction of the conversation is a link of [tcp_link.v]: the data of a
    segment travels on the link of the endpoint that sent it, its acknowledgement on the
    other.  The invariants of the two links carry the theorem over to both directions. *)

From S2P Require Import prelude wrapping_integers byte_stream btree_map tcp_message stream.
From S2P Require Import reassembler tcp_segment tcp_receiver tcp_sender tcp_link tcp_connection.

(** An endpoint with its application: every segment it has sent, what the application has
    written (and the endpoint has accepted), and what it has read. *)
Module Side.

Record t := mk {
  conn : TcpConnection.t;
  sent : list TcpSegment.t;
  written : bytes;
  read : bytes;
}.

Definition new (config : TcpConnectionConfig.t) : exec t :=
  conn ← TcpConnection.new config;
  mret (mk conn [] [] []).

Inductive action :=
| Connect
| Write (data : bytes)
| Close
| Tick (elapsed_ms : Z)
| Deliver (i : nat)
| Read (len : Z).

(** One step of an endpoint; [net] is what its peer has sent. *)
Definition act (self : t) (net : list TcpSegment.t) (o : action) : exec t :=
  let '(mk c out w rd) := self in
  match o with
  | Connect => '(segs, c) ← TcpConnection.connect c; mret (mk c (out ++ segs) w rd)
  | Write data =>
      '(n, segs, c) ← TcpConnection.write c data;
      mret (mk c (out ++ segs) (w ++ take (Z.to_nat n) data) rd)
  | Close => '(segs, c) ← TcpConnection.close c; mret (mk c (out ++ segs) w rd)
  | Tick ms => '(segs, c) ← TcpConnection.tick c ms; mret (mk c (out ++ segs) w rd)
  | Deliver i =>
      match net !! i with
      | Some seg => '(segs, c) ← TcpConnection.receive_segment c seg; mret (mk c (out ++ segs) w rd)
      | None => mret self
      end
  | Read len =>
      '(b, o) ← ByteStream.pop (TcpReceiver.output (TcpConnection.receiver c)) len;
      mret (mk (TcpConnection.with_receiver c (TcpReceiver.with_output (TcpConnection.receiver c) o))
              out w (rd ++ b))
  end.

Definition action_ok (o : action) : Prop :=
  match o with Tick ms => 0 ≤ ms | Read len => 0 ≤ len | _ => True end.

Definition offered (o : action) : Z :=
  match o with Write data => blen data | _ => 0 end.

(** What has arrived at the application's end of a side: read, or waiting to be read. *)
Definition arrived (self : t) : bytes :=
  read self ++ ByteStream.content (TcpReceiver.output (TcpConnection.receiver (conn self))).

End Side.

Module Duplex.

Record t := mk {
  here : Side.t;
  there : Side.t;
}.

Definition new (config_here config_there : TcpConnectionConfig.t) : exec t :=
  here ← Side.new config_here;
  there ← Side.new config_there;
  mret (mk here there).

Inductive op :=
| Here (o : Side.action)
| There (o : Side.action).

Definition step (self : t) (o : op) : exec t :=
  match o with
  | Here o => a ← Side.act (here self) (Side.sent (there self)) o; mret (mk a (there self))
  | There o => b ← Side.act (there self) (Side.sent (here self)) o; mret (mk (here self) b)
  end.

Fixpoint run (self : t) (ops : list op) : exec t :=
  match ops with
  | [] => mret self
  | o :: ops => self ← step self o; run self ops
  end.

(** One direction works: what arrived at [y] is a prefix of what [x] wrote; when [y]'s stream
    ends or [x] reports itself finished, it is all of it. *)
Definition delivers (x y : Side.t) : Prop :=
  let ended := ByteStream.is_closed (TcpReceiver.output (TcpConnection.receiver (Side.conn y))) in
  (∃ rest, Side.written x = Side.arrived y ++ rest) ∧
  (ended = true → Side.written x = Side.arrived y ∧
     ByteStream.is_closed (TcpSender.outbound (TcpConnection.sender (Side.conn x))) = true) ∧
  (TcpConnection.is_finished (Side.conn x) = true → ended = true ∧ Side.written x = Side.arrived y) ∧
  Forall (λ seg, TcpHeader.rst (TcpSegment.header seg) = false) (Side.sent x).

Definition op_ok (o : op) : Prop :=
  match o with Here o | There o => Side.action_ok o end.

(** The bytes each application offers. *)
Fixpoint offered (ops : list op) : Z * Z :=
  match ops with
  | [] => (0, 0)
  | o :: ops =>
      let '(x, y) := offered ops in
      match o with
      | Here o => (Side.offered o + x, y)
      | There o => (x, Side.offered o + y)
      end
  end.

(** Configurations of the two ends of one connection. *)
Definition mirrored (ca cb : TcpConnectionConfig.t) : Prop :=
  TcpConnectionConfig.local_port ca = TcpConnectionConfig.peer_port cb ∧
  TcpConnectionConfig.peer_port ca = TcpConnectionConfig.local_port cb.

End Duplex.

Section duplex.
Import Side.
Implicit Types (a b : Side.t) (c : TcpConnection.t) (D : list TcpSenderMessage.t) (K : list TcpReceiverMessage.t).

Abbreviation sender_of a := (TcpConnection.sender (conn a)).
Abbreviation receiver_of a := (TcpConnection.receiver (conn a)).

(** The link on which the data of [a] travels to [b]. *)
Definition link_of a b D K : Link.t :=
  Link.mk (sender_of a) (receiver_of b) D K (written a) (read b).

(** A segment of [a]: its data is in flight on one link, its acknowledgement on the other. *)
Definition travels lp pp D K (seg : TcpSegment.t) : Prop :=
  TcpHeader.src_port (TcpSegment.header seg) = lp ∧ TcpHeader.dst_port (TcpSegment.header seg) = pp ∧
  TcpHeader.rst (TcpSegment.header seg) = false ∧
  (0 < TcpSenderMessage.sequence_length (TcpSegment.to_sender_message seg) →
   TcpSegment.to_sender_message seg ∈ D) ∧
  TcpSegment.to_receiver_message seg ∈ K.

Definition links P Q D D' K K' lp pp a b : Prop :=
  LInv P (link_of a b D K) ∧ LInv Q (link_of b a D' K') ∧
  TcpConnection.local_port (conn a) = lp ∧ TcpConnection.peer_port (conn a) = pp ∧
  TcpConnection.local_port (conn b) = pp ∧ TcpConnection.peer_port (conn b) = lp ∧
  Forall (travels lp pp D K') (sent a) ∧ Forall (travels pp lp D' K) (sent b) ∧ u16 lp ∧ u16 pp.

Definition joined a b : Prop := ∃ P Q D D' K K' lp pp, links P Q D D' K K' lp pp a b.

Lemma joined_sym a b : joined a b → joined b a.
Proof.
  intros (P & Q & D & D' & K & K' & lp & pp & H). exists Q, P, D', D, K', K, pp, lp. unfold links in *. tauto.
Qed.

Lemma travels_mono lp pp D D1 K K1 segs :
  Forall (travels lp pp D K) segs → Forall (travels lp pp (D ++ D1) (K ++ K1)) segs.
Proof.
  intros H. eapply Forall_impl; [exact H|]. intros seg (? & ? & ? & Hd & ?).
  split_and!; try done; [|apply elem_of_app; by left]. intros Hl. apply elem_of_app. left. auto.
Qed.

Lemma travels_data lp pp D D1 K segs :
  Forall (travels lp pp D K) segs → Forall (travels lp pp (D ++ D1) K) segs.
Proof. intros H. by apply (travels_mono _ _ _ D1 _ []) in H; rewrite app_nil_r in H. Qed.

Lemma travels_acks lp pp D K K1 segs :
  Forall (travels lp pp D K) segs → Forall (travels lp pp D (K ++ K1)) segs.
Proof. intros H. by apply (travels_mono _ _ _ [] _ K1) in H; rewrite app_nil_r in H. Qed.

(** Segments built from messages in flight and the feedback in flight. *)
Lemma travels_build lp pp D K fb ms :
  Forall (λ m, TcpSenderMessage.rst m = false ∧ (0 < TcpSenderMessage.sequence_length m → m ∈ D)) ms →
  TcpReceiverMessage.rst fb = false → fb ∈ K →
  Forall (travels lp pp D K) (map (λ m, TcpConnection.build_segment lp pp m fb) ms).
Proof.
  intros Hm Hr Hk. apply Forall_map. eapply Forall_impl; [exact Hm|]. intros m [Hmr Hd]. unfold TcpConnection.build_segment.
  destruct (from_messages_sender lp pp m fb Hmr Hr) as [Hsm Hrm]. unfold travels.
  cbn -[TcpSegment.to_sender_message TcpSegment.to_receiver_message TcpSegment.from_messages].
  rewrite Hsm, Hrm. cbn. by rewrite Hmr, Hr.
Qed.

(** The feedback of a receiver joins the acknowledgements in flight. *)
Lemma feedback_wp P a b D K : LInv P (link_of b a D K) →
  TcpReceiver.send (receiver_of a) ⇓ λ fb, TcpReceiverMessage.rst fb = false ∧ LInv P (link_of b a D (K ++ [fb])).
Proof.
  intros HL. pose proof (step_send_ack P _ _ _ _ _ _ HL) as Hs. cbn [Link.step] in Hs. apply wp_bind in Hs.
  eapply wp_mono; [exact Hs|]. intros fb [H _]. split; [|done].
  pose proof (li_acks _ _ H) as Ha. cbn in Ha. apply Forall_app in Ha as [_ Ha]. apply Forall_cons in Ha as [Ha _]. apply Ha.
Qed.

(** A step of the sender that puts messages in flight, as segments with the current feedback. *)
Definition transmission (lo : Link.t) (f : TcpSender.t → exec (list TcpSenderMessage.t * TcpSender.t)) : Prop :=
  f (Link.sender lo) ⇓ λ '(ms, s), ∃ P, LInv P (Link.mk s (Link.receiver lo) (Link.data_net lo ++ ms)
                                                   (Link.ack_net lo) (Link.written lo) (Link.read lo)).

Lemma transmit_wp a b f : joined a b → (∀ P D K, LInv P (link_of a b D K) → transmission (link_of a b D K) f) →
  (fb ← TcpReceiver.send (receiver_of a);
   '(ms, s) ← f (sender_of a);
   mret (map (λ m, TcpConnection.build_segment (TcpConnection.local_port (conn a)) (TcpConnection.peer_port (conn a)) m fb) ms,
         TcpConnection.with_sender (conn a) s)) ⇓
  λ '(segs, c), joined (mk c (sent a ++ segs) (written a) (read a)) b.
Proof.
  intros (P & Q & D & D' & K & K' & lp & pp & HP & HQ & <- & <- & Hlb & Hpb & Ha & Hb & Hu & Hu') Hf.
  wp_step. wp_apply (feedback_wp Q a b D' K' HQ). intros fb [Hr HQ'].
  wp_step. wp_apply (Hf P D K HP). intros [ms s] [P' HP']. wp_step.
  exists P', Q, (D ++ ms), D', K, (K' ++ [fb]), (TcpConnection.local_port (conn a)), (TcpConnection.peer_port (conn a)).
  split_and!; try done.
  apply Forall_app. split; [by apply travels_mono|]. apply travels_build; [|done|apply elem_of_app; right; by left].
  pose proof (li_data _ _ HP') as Hd. cbn in Hd. apply Forall_app in Hd as [_ Hd]. rewrite Forall_forall in Hd |- *.
  intros m Hm. split; [by apply (Hd m)|]. intros _. apply elem_of_app. by right.
Qed.

Lemma push_transmission P lo : LInv P lo → transmission lo TcpSender.push.
Proof.
  destruct lo as [s r D K w rd]. intros HL. pose proof (step_push P _ _ _ _ _ _ HL) as Hs.
  cbn [Link.step] in Hs. apply wp_bind in Hs. eapply wp_mono; [exact Hs|]. intros [ms s'] (P' & H & _). by exists P'.
Qed.

Lemma tick_transmission P lo ms : LInv P lo → 0 ≤ ms → transmission lo (λ s, TcpSender.tick s ms).
Proof.
  destruct lo as [s r D K w rd]. intros HL Hms. pose proof (step_tick P _ _ _ _ _ _ ms HL Hms) as Hs.
  cbn [Link.step] in Hs. apply wp_bind in Hs. eapply wp_mono; [exact Hs|]. intros [out s'] [H _]. by exists P.
Qed.

Lemma flush_joined a b : joined a b →
  TcpConnection.flush_sender (conn a) ⇓ λ '(segs, c), joined (mk c (sent a ++ segs) (written a) (read a)) b.
Proof. intros H. apply (transmit_wp a b TcpSender.push H). intros. by eapply push_transmission. Qed.

(** A step of the sender alone: it leaves what is in flight as it was. *)
Lemma sender_step {A} a b (m : exec A) (f : A → TcpSender.t) (w : A → bytes) (Φ : A → Prop) :
  joined a b →
  (∀ P D K, LInv P (link_of a b D K) → Forall (λ seg, TcpSegment.to_receiver_message seg ∈ K) (sent b) →
     m ⇓ λ x, Φ x ∧ LInv P (Link.mk (f x) (receiver_of b) D K (w x) (read b))) →
  m ⇓ λ x, Φ x ∧ joined (mk (TcpConnection.with_sender (conn a) (f x)) (sent a) (w x) (read a)) b.
Proof.
  intros (P & Q & D & D' & K & K' & lp & pp & HP & HQ & Hrest) Hs.
  pose proof Hrest as (_ & _ & _ & _ & _ & Hb & _).
  eapply wp_mono; [apply (Hs P D K HP)|].
  - eapply Forall_impl; [exact Hb|]. by intros seg (_ & _ & _ & _ & ?).
  - intros x [Hx HP']. split; [done|]. by exists P, Q, D, D', K, K', lp, pp.
Qed.

(** A step of the receiver alone. *)
Lemma receiver_step {A} a b (m : exec A) (f : A → TcpReceiver.t) (rd : A → bytes) (Φ : A → Prop) :
  joined a b →
  (∀ Q D K, LInv Q (link_of b a D K) →
     Forall (λ seg, 0 < TcpSenderMessage.sequence_length (TcpSegment.to_sender_message seg) →
                    TcpSegment.to_sender_message seg ∈ D) (sent b) →
     m ⇓ λ x, Φ x ∧ LInv Q (Link.mk (sender_of b) (f x) D K (written b) (rd x))) →
  m ⇓ λ x, Φ x ∧ joined (mk (TcpConnection.with_receiver (conn a) (f x)) (sent a) (written a) (rd x)) b.
Proof.
  intros (P & Q & D & D' & K & K' & lp & pp & HP & HQ & Hrest) Hs.
  pose proof Hrest as (_ & _ & _ & _ & _ & Hb & _).
  eapply wp_mono; [apply (Hs Q D' K' HQ)|].
  - eapply Forall_impl; [exact Hb|]. by intros seg (_ & _ & _ & ? & _).
  - intros x [Hx HQ']. split; [done|]. by exists P, Q, D, D', K, K', lp, pp.
Qed.

(** What the sender does with an acknowledgement in flight. *)
Lemma receive_ack_wp a b seg : joined a b → seg ∈ sent b →
  TcpSender.receive (sender_of a) (TcpSegment.to_receiver_message seg) ⇓
  λ s, joined (mk (TcpConnection.with_sender (conn a) s) (sent a) (written a) (read a)) b.
Proof.
  intros Hj Hseg. eapply wp_mono; [apply (sender_step a b _ id (λ _, written a) (λ _, True) Hj)|by intros s [_ ?]].
  intros P D K HL Hk. rewrite Forall_forall in Hk. specialize (Hk seg Hseg). apply list_elem_of_lookup in Hk as [i Hi].
  pose proof (step_ack P _ _ _ _ _ _ i HL) as Hs. cbn [Link.step] in Hs. rewrite Hi in Hs.
  apply wp_bind in Hs. eapply wp_mono; [exact Hs|]. by intros s [H _].
Qed.

(** A receiver whose peer behaves never refuses a segment. *)
Lemma receive_ok P self m : LInv P self → m ∈ Link.data_net self →
  TcpReceiver.receive (Link.receiver self) m ⇓ λ '(res, _), res = Ok tt.
Proof.
  intros [] Hm. rewrite Forall_forall in li_data. destruct (li_data m Hm) as (Hr & [n Hc] & _).
  assert (blen P < 2 ^ 31 - 1).
  { rewrite li_written, blen_app in li_bound. pose proof (blen_nonneg (ByteStream.content (TcpSender.outbound (Link.sender self)))). lia. }
  destruct (TcpReceiver.isn (Link.receiver self)) eqn:Ei.
  2: destruct (TcpSenderMessage.syn m) eqn:Es; [|unfold TcpReceiver.receive; rewrite Hr, Ei, Es; cbn [negb]; by wp_step].
  all: eapply wp_mono; [apply (segment_inserted P (TcpSender.isn (Link.sender self)) (Link.read self) _ m n li_receiving);
    [apply (si_isn _ _ li_sender)|lia|by split|congruence]|]; by intros [res r'] (-> & _).
Qed.

(** What the receiver does with data in flight. *)
Lemma receive_data_wp a b seg : joined a b → seg ∈ sent b →
  0 < TcpSenderMessage.sequence_length (TcpSegment.to_sender_message seg) →
  TcpReceiver.receive (receiver_of a) (TcpSegment.to_sender_message seg) ⇓
  λ '(res, r), res = Ok tt ∧ joined (mk (TcpConnection.with_receiver (conn a) r) (sent a) (written a) (read a)) b.
Proof.
  intros Hj Hseg Hlen. eapply wp_mono.
  { apply (receiver_step a b _ snd (λ _, read a) (λ x, fst x = Ok tt) Hj). intros Q D K HL Hd.
    rewrite Forall_forall in Hd. pose proof (Hd seg Hseg Hlen) as Hm. pose proof Hm as [i Hi]%list_elem_of_lookup.
    pose proof (step_data Q _ _ _ _ _ _ i HL) as Hs. cbn [Link.step] in Hs. rewrite Hi in Hs. apply wp_bind in Hs.
    eapply wp_mono; [apply (wp_and _ _ _ (receive_ok Q _ _ HL Hm) Hs)|]. intros [res r'] [-> [H _]]. done. }
  intros [res r'] [H1 H2]. cbn in H1. by subst res.
Qed.

(** A segment of the peer is for this connection and resets nothing. *)
Lemma belongs_joined a b seg : joined a b → seg ∈ sent b →
  TcpConnection.belongs_to_this_connection (conn a) seg = true ∧ TcpHeader.rst (TcpSegment.header seg) = false.
Proof.
  intros (P & Q & D & D' & K & K' & lp & pp & _ & _ & Hl & Hp & _ & _ & _ & Hb & _) Hseg.
  rewrite Forall_forall in Hb. destruct (Hb seg Hseg) as (Hs & Hd & Hr & _). split; [|done].
  unfold TcpConnection.belongs_to_this_connection. by rewrite Hs, Hd, Hl, Hp, !Z.eqb_refl.
Qed.

(** A pure acknowledgement puts only the feedback in flight. *)
Lemma pure_ack_joined a b : joined a b →
  TcpConnection.make_pure_ack_segment (conn a) ⇓ λ ack,
    joined (mk (conn a) (sent a ++ option_list ack) (written a) (read a)) b.
Proof.
  intros Hj. pose proof Hj as (P & Q & D & D' & K & K' & lp & pp & HP & HQ & <- & <- & Hlb & Hpb & Ha & Hb & Hu & Hu').
  unfold TcpConnection.make_pure_ack_segment. wp_step. wp_apply (feedback_wp Q a b D' K' HQ). intros fb [Hr HQ'].
  destruct (_ && _); wp_step; cbn [option_list].
  { rewrite app_nil_r. by destruct a. }
  exists P, Q, D, D', K, (K' ++ [fb]), (TcpConnection.local_port (conn a)), (TcpConnection.peer_port (conn a)).
  split_and!; try done. apply Forall_app. split; [by apply travels_acks|].
  apply (travels_build _ _ _ _ fb [TcpSender.make_empty_message (sender_of a)]); [|done|apply elem_of_app; right; by left].
  constructor; [|done]. split; [apply (li_no_error _ _ HP)|]. intros H. by vm_compute in H.
Qed.

(** The three parts of [receive_segment]: sender, receiver, and the flush with its answer. *)
Lemma receive_parts a b seg (Φ : TcpSender.t → Prop) (Ψ : TcpReceiver.t → Prop) (Ω : TcpConnection.t → TcpConnection.t → Prop) :
  joined a b → seg ∈ sent b →
  TcpSender.receive (sender_of a) (TcpSegment.to_receiver_message seg) ⇓ Φ →
  (if 0 <? TcpSenderMessage.sequence_length (TcpSegment.to_sender_message seg)
   then TcpReceiver.receive (receiver_of a) (TcpSegment.to_sender_message seg) ⇓ λ '(_, r), Ψ r
   else Ψ (receiver_of a)) →
  (∀ a', joined a' b → TcpConnection.flush_sender (conn a') ⇓ λ '(_, c), Ω (conn a') c) →
  TcpConnection.receive_segment (conn a) seg ⇓ λ '(segs, c), joined (mk c (sent a ++ segs) (written a) (read a)) b ∧
    ∃ s r, Φ s ∧ Ψ r ∧ Ω (TcpConnection.with_receiver (TcpConnection.with_sender (conn a) s) r) c.
Proof.
  intros Hj Hseg HΦ HΨ HΩ. destruct (belongs_joined a b seg Hj Hseg) as [Hbe Hr].
  unfold TcpConnection.receive_segment. rewrite Hbe. cbn [negb]. wp_step.
  wp_apply (wp_and _ _ _ HΦ (receive_ack_wp a b seg Hj Hseg)). intros s [Hs Hj1]. wp_step.
  set (a1 := mk _ (sent a) _ _) in Hj1. set (seglen := TcpSenderMessage.sequence_length _) in *.
  assert (Hmid : (if (0 <? seglen) || TcpSenderMessage.rst (TcpSegment.to_sender_message seg) then
       '(r, receiver) ← TcpReceiver.receive (receiver_of a1) (TcpSegment.to_sender_message seg);
       match r with
       | Ok _ => mret (TcpConnection.with_receiver (conn a1) receiver)
       | Err _ => mret (TcpConnection.with_receiver (conn a1) (TcpReceiver.with_output receiver
                          (ByteStream.set_error (TcpReceiver.output receiver))))
       end
     else mret (conn a1)) ⇓ λ c, joined (mk c (sent a) (written a) (read a)) b ∧
       ∃ r, Ψ r ∧ c = TcpConnection.with_receiver (conn a1) r).
  { cbn [TcpSegment.to_sender_message TcpSenderMessage.rst]. rewrite Hr, orb_false_r.
    destruct (Z.ltb_spec 0 seglen) as [Hlen|]; [|wp_step; split; [done|by exists (receiver_of a)]].
    wp_step. wp_apply (wp_and _ _ _ HΨ (receive_data_wp a1 b seg Hj1 Hseg Hlen)). intros [res r] [? [-> Hj2]].
    wp_step. split; [done|by exists r]. }
  wp_apply Hmid. clear Hmid. intros c2 [Hj2 (r & Hpsi & ->)]. wp_step.
  wp_apply (wp_and _ _ _ (HΩ _ Hj2) (flush_joined _ b Hj2)). intros [segs c3] [Hw Hj3].
  cbn [Side.sent Side.written Side.read] in Hj3. destruct (_ && _) eqn:E; [|wp_step; split; [done|by exists s, r]].
  destruct segs; [|by rewrite andb_false_r in E]. rewrite app_nil_r in Hj3.
  wp_step. wp_apply (pure_ack_joined _ b Hj3). intros [ack|] Hj4; wp_step; (split; [exact Hj4|by exists s, r]).
Qed.

Lemma receive_joined a b seg : joined a b → seg ∈ sent b →
  TcpConnection.receive_segment (conn a) seg ⇓ λ '(segs, c), joined (mk c (sent a ++ segs) (written a) (read a)) b.
Proof.
  intros Hj Hseg. eapply wp_mono; [apply (receive_parts a b seg (λ _, True) (λ _, True) (λ _ _, True) Hj Hseg)|].
  - eapply wp_mono; [by apply (receive_ack_wp a b)|done].
  - destruct (Z.ltb_spec 0 (TcpSenderMessage.sequence_length (TcpSegment.to_sender_message seg))); [|done].
    eapply wp_mono; [by apply (receive_data_wp a b)|by intros []].
  - intros a' Hj'. eapply wp_mono; [by apply (flush_joined a' b)|by intros []].
  - by intros [segs c] [? _].
Qed.

(** A step of one side keeps both links. *)
Lemma act_wp a b o : joined a b → action_ok o → blen (written a) + offered o < 2 ^ 31 - 2 →
  act a (sent b) o ⇓ λ a', joined a' b ∧ blen (written a') ≤ blen (written a) + offered o.
Proof.
  intros Hj Ho Hmax. pose proof Hj as Hj0. destruct a as [c out w rd]. unfold written in Hmax. cbn [act written].
  destruct o as [|bs| |ms|i|len]; cbn [offered action_ok] in *.
  - wp_step. wp_apply (flush_joined _ b Hj). intros [segs c'] Hj'. wp_step. split; [done|cbn; lia].
  - unfold TcpConnection.write. wp_step. wp_step.
    eapply wp_mono; [apply (sender_step _ b (ByteStream.push (TcpSender.outbound (TcpConnection.sender c)) bs)
      (λ x, TcpSender.with_outbound (TcpConnection.sender c) (snd x)) (λ x, w ++ take (Z.to_nat (fst x)) bs)
      (λ x, 0 ≤ fst x ≤ blen bs) Hj)|].
    { intros P D K HL _. pose proof HL as []. cbn in *. pose proof (step_write P _ _ _ _ _ _ bs HL Hmax) as Hs.
      cbn [Link.step] in Hs. apply wp_bind in Hs.
      wp_apply (wp_and _ _ _ (write_wp P _ bs li_sender ltac:(lia)) Hs).
      intros [n o] [(_ & Hn & _) [H _]]. cbn. split; [lia|done]. }
    intros [n o] [Hn Hj1]. cbn [fst snd conn sent read] in *. wp_step. wp_apply (flush_joined _ b Hj1).
    intros [segs c'] Hj'. wp_step. wp_step. split; [done|]. cbn. rewrite blen_app, blen_take; lia.
  - unfold TcpConnection.close. wp_step.
    pose proof (sender_step _ b (mret tt) (λ _, TcpSender.with_outbound (TcpConnection.sender c)
      (ByteStream.close (TcpSender.outbound (TcpConnection.sender c)))) (λ _, w) (λ _, True) Hj) as Hs.
    destruct Hs as [_ Hj1]; [|wp_apply (flush_joined _ b Hj1); intros [segs c'] Hj'; wp_step; split; [done|cbn; lia]].
    intros P D K HL _. split; [done|]. pose proof (step_close P _ _ _ _ _ _ HL) as Hs. by destruct Hs.
  - wp_step. wp_apply (transmit_wp _ b (λ s, TcpSender.tick s ms) Hj); [intros; by eapply tick_transmission|].
    intros [segs c'] Hj'. wp_step. split; [done|cbn; lia].
  - destruct (sent b !! i) as [seg|] eqn:E; [|wp_step; split; [done|cbn; lia]].
    wp_step. wp_apply (receive_joined _ b seg Hj); [by eapply list_elem_of_lookup_2|].
    intros [segs c'] Hj'. wp_step. split; [done|cbn; lia].
  - wp_step. eapply wp_mono; [apply (receiver_step _ b (ByteStream.pop (TcpReceiver.output (TcpConnection.receiver c)) len)
      (λ x, TcpReceiver.with_output (TcpConnection.receiver c) (snd x)) (λ x, rd ++ fst x) (λ _, True) Hj)|].
    { intros Q D K HL _. pose proof (step_read Q _ _ _ _ _ _ len HL Ho) as Hs. cbn [Link.step] in Hs. apply wp_bind in Hs.
      eapply wp_mono; [exact Hs|]. by intros [x o] [H _]. }
    intros [x o] [_ Hj']. wp_step. split; [done|cbn; lia].
Qed.

Lemma side_offered_nonneg o : 0 ≤ offered o.
Proof. destruct o; cbn; try lia. apply blen_nonneg. Qed.

Lemma duplex_offered_nonneg ops : 0 ≤ fst (Duplex.offered ops) ∧ 0 ≤ snd (Duplex.offered ops).
Proof.
  induction ops as [|o ops IH]; cbn; [lia|]. destruct (Duplex.offered ops) as [x y]. cbn in IH.
  destruct o as [o|o]; pose proof (side_offered_nonneg o); cbn; lia.
Qed.

Lemma duplex_run_wp d ops :
  joined (Duplex.here d) (Duplex.there d) → Forall Duplex.op_ok ops →
  blen (written (Duplex.here d)) + fst (Duplex.offered ops) < 2 ^ 31 - 2 →
  blen (written (Duplex.there d)) + snd (Duplex.offered ops) < 2 ^ 31 - 2 →
  Duplex.run d ops ⇓ λ d', joined (Duplex.here d') (Duplex.there d').
Proof.
  intros Hj Hops. revert d Hj. induction Hops as [|o ops Ho _ IH]; intros d Hj Ha Hb; cbn [Duplex.run]; [by wp_step|].
  destruct d as [a b]. cbn in Hj, Ha, Hb. pose proof (duplex_offered_nonneg ops) as [Hx Hy].
  destruct (Duplex.offered ops) as [x y] eqn:Eo. cbn [fst snd] in *.
  destruct o as [o|o]; cbn [Duplex.step Duplex.here Duplex.there fst snd] in *; pose proof (side_offered_nonneg o).
  - wp_step. wp_step. wp_apply (act_wp a b o Hj Ho ltac:(lia)). intros a' [Hj' Hw]. wp_step.
    apply IH; cbn; [done|lia|lia].
  - wp_step. wp_step. wp_apply (act_wp b a o (joined_sym _ _ Hj) Ho ltac:(lia)). intros b' [Hj' Hw]. wp_step.
    apply IH; cbn; [by apply joined_sym|lia|lia].
Qed.

Lemma joined_delivers a b : joined a b → Duplex.delivers a b.
Proof.
  intros (P & Q & D & D' & K & K' & lp & pp & HP & _ & _ & _ & _ & _ & Ha & _).
  destruct (link_delivers P _ HP) as (H1 & _ & H2 & H3). split_and!; try done.
  eapply Forall_impl; [exact Ha|]. by intros seg (_ & _ & ? & _).
Qed.

Lemma joined_no_error a b : joined a b → ByteStream.error (TcpSender.outbound (sender_of a)) = false.
Proof. intros (P & Q & D & D' & K & K' & lp & pp & HP & _). apply (li_no_error _ _ HP). Qed.

Lemma duplex_new_wp ca cb : TcpConnectionConfig.ok ca → TcpConnectionConfig.ok cb → Duplex.mirrored ca cb →
  Duplex.new ca cb ⇓ λ d, joined (Duplex.here d) (Duplex.there d) ∧
    written (Duplex.here d) = [] ∧ written (Duplex.there d) = [] ∧
    ByteStream.capacity (TcpReceiver.output (receiver_of (Duplex.here d))) = TcpConnectionConfig.receiver_capacity ca ∧
    ByteStream.capacity (TcpReceiver.output (receiver_of (Duplex.there d))) = TcpConnectionConfig.receiver_capacity cb.
Proof.
  intros (Hl & Hl0 & Hp & Hp0 & Hsc & Hrc & Hi & Hc) (Hl' & Hl0' & Hp' & Hp0' & Hsc' & Hrc' & Hi' & Hc') [Hm1 Hm2].
  pose proof (link_new_wp _ _ _ _ Hsc Hrc' Hi Hc) as H1. unfold Link.new in H1. apply wp_bind in H1. wp_inv H1.
  apply wp_bind in H1. wp_inv H1. destruct H1 as (HL1 & _ & Hcap1).
  pose proof (link_new_wp _ _ _ _ Hsc' Hrc Hi' Hc') as H2. unfold Link.new in H2. apply wp_bind in H2. wp_inv H2.
  apply wp_bind in H2. wp_inv H2. destruct H2 as (HL2 & _ & Hcap2).
  pose proof (proj2 (Z.eqb_neq _ _) Hl0) as Hl1. pose proof (proj2 (Z.eqb_neq _ _) Hp0) as Hp1.
  apply Z.eqb_neq in Hl0', Hp0'.
  unfold Duplex.new, Side.new, TcpConnection.new. rewrite Hl1, Hp1, Hl0', Hp0', Heq, Heq0, Heq1, Heq2.
  cbn [negb assert]. rewrite !bind_mret. wp_step. split; [|done]. eexists [], [], [], [], [], [], _, _.
  split_and!; first [done|by constructor].
Qed.
End duplex.

(** C8: Two connected endpoints deliver in both directions. Join two connections with
    mirrored ports by a network that loses, duplicates, delays and reorders their segments,
    and let both applications connect, write, read and close and time pass, in any order
    (fewer than 2^31 - 2 bytes written on each side). No operation panics. At every moment
    and in both directions, what has arrived is a prefix of what was written, it is all of
    it when the stream has ended, and an endpoint reports itself finished only when its
    peer's application has everything; no segment ever carries a reset. *)
Theorem tcp_duplex_delivery ca cb ops :
  TcpConnectionConfig.ok ca → TcpConnectionConfig.ok cb → Duplex.mirrored ca cb →
  Forall Duplex.op_ok ops →
  fst (Duplex.offered ops) < 2 ^ 31 - 2 → snd (Duplex.offered ops) < 2 ^ 31 - 2 →
  ∃ d, (d ← Duplex.new ca cb; Duplex.run d ops) = Ret d ∧
    Duplex.delivers (Duplex.here d) (Duplex.there d) ∧
    Duplex.delivers (Duplex.there d) (Duplex.here d).
Proof.
  intros Hca Hcb Hm Hops Ha Hb. pose proof (duplex_new_wp ca cb Hca Hcb Hm) as H. wp_inv H.
  destruct H as (Hj & Hwa & Hwb & _).
  pose proof (duplex_run_wp r ops Hj Hops) as H. rewrite Hwa, Hwb in H. specialize (H Ha Hb). wp_inv H.
  exists r0. rewrite Heq, bind_Ret. split; [done|]. split; apply joined_delivers; [done|by apply joined_sym].
Qed.

Lemma tcp_duplex_delivery_witness :
  let ca := TcpConnectionConfig.mk 50000 80 128 128 (Wrap32.new 1000) TcpSenderConfig.default in
  let cb := TcpConnectionConfig.mk 80 50000 128 128 (Wrap32.new u32_max) TcpSenderConfig.default in
  let ops := [Duplex.Here Side.Connect; Duplex.There (Side.Write [x62; x63]); Duplex.There (Side.Deliver 0);
              Duplex.Here (Side.Deliver 0); Duplex.Here (Side.Write [x61]); Duplex.There (Side.Deliver 2);
              Duplex.There (Side.Deliver 1); Duplex.Here (Side.Deliver 1); Duplex.Here Side.Close;
              Duplex.There (Side.Deliver 3); Duplex.There (Side.Read 1); Duplex.Here (Side.Deliver 2);
              Duplex.Here (Side.Deliver 0); Duplex.There (Side.Tick 1000); Duplex.Here (Side.Deliver 4);
              Duplex.Here (Side.Read 2)] in
  ∃ d, (d ← Duplex.new ca cb; Duplex.run d ops) = Ret d ∧
    Duplex.delivers (Duplex.here d) (Duplex.there d) ∧
    Duplex.delivers (Duplex.there d) (Duplex.here d).
Proof.
  intros ca cb ops. apply tcp_duplex_delivery; [| |done|repeat constructor; simpl; lia|by vm_compute|by vm_compute];
    unfold TcpConnectionConfig.ok, TcpSenderConfig.ok, Wrap32.ok, u16, u32, u64; simpl; lia.
Defined.
