(* ===== verification/tcp_duplex_progress.v ===== *)
(** * Progress between two endpoints

    [tcp_progress.v] for both directions at once: two [TcpConnection]s over a network that
    misbehaves as it likes, except that again and again, for each of the two, a
    retransmission arrives at the peer and the peer's answer arrives back.  Both transfers
    complete.  That an answer is sent at all, and that it carries the acknowledgement of what has just
    arrived, is what [receive_segment] is for. *)

From S2P Require Import prelude wrapping_integers byte_stream btree_map tcp_message stream.
From S2P Require Import reassembler tcp_segment tcp_receiver tcp_sender tcp_link tcp_progress.
From S2P Require Import tcp_connection tcp_duplex.

Module DuplexProgress.
Import Side.

Abbreviation sender_of a := (TcpConnection.sender (conn a)).
Abbreviation receiver_of a := (TcpConnection.receiver (conn a)).

Fixpoint acts (self : Side.t) (net : list TcpSegment.t) (os : list action) : exec Side.t :=
  match os with
  | [] => mret self
  | o :: os => self ← act self net o; acts self net os
  end.

(** The application empties the receiver's buffer. *)
Definition drain (self : Side.t) : exec Side.t :=
  acts self [] (replicate (length (ByteStream.chunks (TcpReceiver.output (receiver_of self)))) (Read u64_max)).

(** The network behaves once for [x]: its timer expires, the retransmission arrives at [y]
    after its application has read, and the answer of [y] arrives at [x]. *)
Definition exchange (x y : Side.t) : exec (Side.t * Side.t) :=
  x ← act x (sent y) Connect;
  x ← act x (sent y) (Tick (Progress.time_left (sender_of x)));
  y ← drain y;
  y ← act y (sent x) (Deliver (pred (length (sent x))));
  x ← act x (sent y) (Deliver (pred (length (sent y))));
  mret (x, y).

Definition round (self : Duplex.t) : exec Duplex.t :=
  '(here, there) ← exchange (Duplex.here self) (Duplex.there self);
  '(there, here) ← exchange there here;
  here ← drain here;
  there ← drain there;
  mret (Duplex.mk here there).

(** Rounds, each after a misbehaviour of the network. *)
Fixpoint play (self : Duplex.t) (noises : list (list Duplex.op)) : exec Duplex.t :=
  match noises with
  | [] => mret self
  | noise :: noises =>
      self ← Duplex.run self noise;
      self ← round self;
      play self noises
  end.

(** What may happen between the rounds: anything but new requests of the applications. *)
Definition calm (o : action) : Prop :=
  action_ok o ∧ match o with Write _ | Close => False | _ => True end.

Definition quiet (o : Duplex.op) : Prop :=
  match o with Duplex.Here o | Duplex.There o => calm o end.

(** What [x] wrote before has all been read by [y] and acknowledged to [x'], its stream has
    ended if it was closed, and the handshake is over. *)
Definition completed (x x' y : Side.t) : Prop :=
  written x' = written x ∧ read y = written x ∧ TcpSender.outstanding (sender_of x') = [] ∧
  TcpConnection.is_established (conn x') = Ret true ∧
  (ByteStream.closed (TcpSender.outbound (sender_of x)) = true →
   TcpConnection.is_finished (conn x') = true ∧ ByteStream.is_finished (TcpReceiver.output (receiver_of y)) = true).

End DuplexProgress.

Section duplex_progress.
Import Side DuplexProgress.
Implicit Types (a b x y : Side.t) (c : TcpConnection.t) (D : list TcpSenderMessage.t) (K : list TcpReceiverMessage.t).

(** ** What no calm action undoes *)

Definition sender_ahead (s s' : TcpSender.t) : Prop :=
  ByteStream.closed (TcpSender.outbound s') = ByteStream.closed (TcpSender.outbound s) ∧
  TcpSender.snd_una s ≤ TcpSender.snd_una s'.

Definition receiver_ahead (r r' : TcpReceiver.t) : Prop :=
  ByteStream.capacity (TcpReceiver.output r') = ByteStream.capacity (TcpReceiver.output r) ∧ rcv_nxt r ≤ rcv_nxt r'.

Record moved a a' : Prop := {
  mo_written : written a' = written a;
  mo_sender : sender_ahead (sender_of a) (sender_of a');
  mo_receiver : receiver_ahead (receiver_of a) (receiver_of a');
}.

#[local] Instance sender_ahead_preorder : PreOrder sender_ahead.
Proof. split; [by split|]. intros s1 s2 s3 [] []. split; congruence || lia. Qed.

#[local] Instance receiver_ahead_preorder : PreOrder receiver_ahead.
Proof. split; [by split|]. intros s1 s2 s3 [] []. split; congruence || lia. Qed.

#[local] Instance moved_preorder : PreOrder moved.
Proof. split; [by split|]. intros s1 s2 s3 [] []. split; [congruence|by etransitivity..]. Qed.

(** A calm step of the sender, or of the receiver, is a quiet step of a link. *)
Lemma link_sender_ahead {A} a b P D K o (m : exec A) (f : A → TcpSender.t) (k : A → Link.t) :
  LInv P (link_of a b D K) → Progress.quiet o → Link.step (link_of a b D K) o = (r ← m; mret (k r)) →
  (∀ r, Link.sender (k r) = f r) → m ⇓ λ r, sender_ahead (sender_of a) (f r).
Proof.
  intros HL Hq E Hk. pose proof (quiet_step P _ o HL Hq) as Hs. rewrite E in Hs. apply wp_bind in Hs.
  eapply wp_mono; [exact Hs|]. intros r [_ []]. cbn in *. rewrite Hk in *. by split.
Qed.

Lemma link_receiver_ahead {A} a b P D K o (m : exec A) (f : A → TcpReceiver.t) (k : A → Link.t) :
  LInv P (link_of b a D K) → Progress.quiet o → Link.step (link_of b a D K) o = (r ← m; mret (k r)) →
  (∀ r, Link.receiver (k r) = f r) → m ⇓ λ r, receiver_ahead (receiver_of a) (f r).
Proof.
  intros HL Hq E Hk. pose proof (quiet_step P _ o HL Hq) as Hs. rewrite E in Hs. apply wp_bind in Hs.
  eapply wp_mono; [exact Hs|]. intros r [_ []]. cbn in *. rewrite Hk in *. by split.
Qed.

Lemma ack_ahead a b seg : joined a b → seg ∈ sent b →
  TcpSender.receive (sender_of a) (TcpSegment.to_receiver_message seg) ⇓ sender_ahead (sender_of a).
Proof.
  intros (P & Q & D & D' & K & K' & lp & pp & HP & _ & _ & _ & _ & _ & _ & Hb & _) Hseg.
  rewrite Forall_forall in Hb. destruct (Hb seg Hseg) as (_ & _ & _ & _ & [i Hi]%list_elem_of_lookup).
  apply (link_sender_ahead a b P D K (Link.DeliverAck i) _ id
    (λ s, Link.mk s (receiver_of b) D K (written a) (read b)) HP ltac:(done)); [|done]. cbn [link_of Link.step]. by rewrite Hi.
Qed.

Lemma data_ahead a b seg : joined a b → seg ∈ sent b → 0 < TcpSenderMessage.sequence_length (TcpSegment.to_sender_message seg) →
  TcpReceiver.receive (receiver_of a) (TcpSegment.to_sender_message seg) ⇓ λ '(_, r), receiver_ahead (receiver_of a) r.
Proof.
  intros (P & Q & D & D' & K & K' & lp & pp & _ & HQ & _ & _ & _ & _ & _ & Hb & _) Hseg Hlen.
  rewrite Forall_forall in Hb. destruct (Hb seg Hseg) as (_ & _ & _ & Hd & _). apply Hd, list_elem_of_lookup in Hlen as [i Hi].
  eapply wp_mono; [apply (link_receiver_ahead a b Q D' K' (Link.DeliverData i) _ snd
    (λ z, Link.mk (sender_of b) (snd z) D' K' (written b) (read a)) HQ ltac:(done)); [|done]|by intros []].
  cbn [link_of Link.step]. rewrite Hi. destruct (TcpReceiver.receive _ _) as [[]|]; [by rewrite !bind_Ret|done].
Qed.

Lemma flush_ahead a b : joined a b →
  TcpConnection.flush_sender (conn a) ⇓ λ '(_, c),
    sender_ahead (sender_of a) (TcpConnection.sender c) ∧ TcpConnection.receiver c = receiver_of a.
Proof.
  intros (P & Q & D & D' & K & K' & lp & pp & HP & HQ & _). unfold TcpConnection.flush_sender.
  wp_step. wp_apply (feedback_wp Q a b D' K' HQ). intros fb _. wp_step.
  assert (Hs : TcpSender.push (sender_of a) ⇓ λ z, sender_ahead (sender_of a) (snd z)).
  { apply (link_sender_ahead a b P D K Link.Push _ snd
      (λ z, Link.mk (snd z) (receiver_of b) (D ++ fst z) K (written a) (read b)) HP); [done| |done].
    cbn [link_of Link.step]. by destruct (TcpSender.push _) as [[]|]; [rewrite !bind_Ret|]. }
  wp_apply Hs. intros [ms s] ?. by wp_step.
Qed.

Lemma tick_ahead a b ms : joined a b → 0 ≤ ms → TcpSender.tick (sender_of a) ms ⇓ λ '(_, s), sender_ahead (sender_of a) s.
Proof.
  intros (P & Q & D & D' & K & K' & lp & pp & HP & _) Hms. apply (wp_mono _ (λ z, sender_ahead (sender_of a) (snd z))); [|by intros []].
  apply (link_sender_ahead a b P D K (Link.Tick ms) _ snd
    (λ z, Link.mk (snd z) (receiver_of b) (D ++ fst z) K (written a) (read b)) HP); [done| |done].
  cbn [link_of Link.step]. by destruct (TcpSender.tick _ _) as [[]|]; [rewrite !bind_Ret|].
Qed.

Lemma read_ahead a b len : joined a b → 0 ≤ len →
  ByteStream.pop (TcpReceiver.output (receiver_of a)) len ⇓ λ '(_, o), receiver_ahead (receiver_of a) (TcpReceiver.with_output (receiver_of a) o).
Proof.
  intros (P & Q & D & D' & K & K' & lp & pp & _ & HQ & _) Hlen. apply (wp_mono _ (λ z, receiver_ahead (receiver_of a) (TcpReceiver.with_output (receiver_of a) (snd z)))); [|by intros []].
  apply (link_receiver_ahead a b Q D' K' (Link.Read len) _ (λ z, TcpReceiver.with_output (receiver_of a) (snd z))
    (λ z, Link.mk (sender_of b) (TcpReceiver.with_output (receiver_of a) (snd z)) D' K' (written b) (read a ++ fst z)) HQ); [done| |done].
  cbn [link_of Link.step]. by destruct (ByteStream.pop _ _) as [[]|]; [rewrite !bind_Ret|].
Qed.

(** A received segment takes back nothing. *)
Lemma receive_ahead a b seg : joined a b → seg ∈ sent b →
  TcpConnection.receive_segment (conn a) seg ⇓ λ '(_, c),
    sender_ahead (sender_of a) (TcpConnection.sender c) ∧ receiver_ahead (receiver_of a) (TcpConnection.receiver c).
Proof.
  intros Hj Hseg. eapply wp_mono; [apply (receive_parts a b seg (sender_ahead (sender_of a)) (receiver_ahead (receiver_of a))
    (λ c c', sender_ahead (TcpConnection.sender c) (TcpConnection.sender c') ∧ TcpConnection.receiver c' = TcpConnection.receiver c) Hj Hseg)|].
  - by apply (ack_ahead a b).
  - destruct (Z.ltb_spec 0 (TcpSenderMessage.sequence_length (TcpSegment.to_sender_message seg))); [|done]. by apply (data_ahead a b).
  - intros a' Hj'. by apply (flush_ahead a' b).
  - intros [segs c] (_ & s & r & Hs & Hr & Hf & E). cbn in Hf, E. rewrite E. split; [by transitivity s|done].
Qed.

(** The capacity never changes, and a calm action takes back nothing. *)
Lemma act_ahead a b o : joined a b → action_ok o → blen (written a) + offered o < 2 ^ 31 - 2 →
  act a (sent b) o ⇓ λ a', receiver_ahead (receiver_of a) (receiver_of a') ∧ (calm o → moved a a').
Proof.
  intros Hj Ho Hmax. pose proof Hj as Hj0. destruct a as [c out w rd].
  destruct o as [|bs| |ms|i|len]; cbn [offered action_ok] in *.
  - cbn [act]. wp_step. wp_apply (flush_ahead _ b Hj). intros [segs c'] [Hs E]. wp_step. cbn in *. rewrite E. split; [done|]. split; cbn; by rewrite ?E.
  - pose proof (act_wp _ b (Write bs) Hj0 Ho Hmax) as H. wp_inv H. rewrite Heq. cbn [act] in Heq. unfold TcpConnection.write in Heq.
    destruct (ByteStream.push _ _) as [[n o]|]; [|done]. rewrite bind_Ret in Heq.
    destruct (TcpConnection.flush_sender _) as [[segs c']|] eqn:E; [|done]. injection Heq as <-.
    apply flush_keeps in E. unfold wp. cbn [conn]. rewrite E. split; [done|by intros [_ []]].
  - pose proof (act_wp _ b Close Hj0 Ho Hmax) as H. wp_inv H. rewrite Heq. cbn [act] in Heq. unfold TcpConnection.close in Heq.
    destruct (TcpConnection.flush_sender _) as [[segs c']|] eqn:E; [|done]. injection Heq as <-.
    apply flush_keeps in E. unfold wp. cbn [conn]. rewrite E. split; [done|by intros [_ []]].
  - cbn [act]. unfold TcpConnection.tick. pose proof Hj as (P & Q & D & D' & K & K' & lp & pp & HP & HQ & _).
    wp_step. wp_step. wp_apply (feedback_wp Q _ b D' K' HQ). intros fb _. wp_step. wp_apply (tick_ahead _ b ms Hj Ho).
    intros [out' s] Hs. wp_step. wp_step. by split.
  - cbn [act]. destruct (sent b !! i) as [seg|] eqn:E; [|by wp_step].
    wp_step. wp_apply (receive_ahead _ b seg Hj); [by eapply list_elem_of_lookup_2|].
    intros [segs c'] [Hs Hr]. by wp_step.
  - cbn [act]. wp_step. wp_apply (read_ahead _ b len Hj Ho). intros [z o] Hr. wp_step. by split.
Qed.


(** A calm action, with the invariant. *)
Lemma calm_wp a b o : joined a b → calm o → act a (sent b) o ⇓ λ a', joined a' b ∧ moved a a'.
Proof.
  intros Hj Ho. pose proof Ho as [Hok Hq].
  assert (Hmax : blen (written a) + offered o < 2 ^ 31 - 2).
  { pose proof Hj as (P & Q & D & D' & K & K' & lp & pp & HP & _). pose proof (li_bound _ _ HP). cbn in *. destruct o; try done; cbn; lia. }
  wp_apply (wp_and _ _ _ (act_wp a b o Hj Hok Hmax) (act_ahead a b o Hj Hok Hmax)). intros a' [[? _] [_ Hm]]. auto.
Qed.

(** ** One exchange *)

(** The sequence numbers there are in all. *)
Definition target_of a : Z := 1 + blen (written a) + of_bool (ByteStream.closed (TcpSender.outbound (sender_of a))).

Lemma moved_target a a' : moved a a' → target_of a' = target_of a.
Proof. intros [Hw [Hc _] _]. unfold target_of. by rewrite Hw, Hc. Qed.

Lemma target_positive a : 1 ≤ target_of a.
Proof.
  unfold target_of. pose proof (blen_nonneg (written a)).
  pose proof (of_bool_range (ByteStream.closed (TcpSender.outbound (sender_of a)))). lia.
Qed.

Abbreviation una a := (TcpSender.snd_una (sender_of a)).

(** After a push something is in flight, unless everything is acknowledged. *)
Lemma connect_ready a b : joined a b →
  act a (sent b) Connect ⇓ λ a', (joined a' b ∧ moved a a') ∧
    (TcpSender.outstanding (sender_of a') = [] → una a' = target_of a').
Proof.
  intros Hj. apply wp_and; [by apply calm_wp|]. pose proof Hj as (P & Q & D & D' & K & K' & lp & pp & HP & HQ & _).
  assert (Hp : TcpSender.push (sender_of a) ⇓ λ '(_, s), TcpSender.outstanding s = [] →
    TcpSender.snd_una s = 1 + blen (written a) + of_bool (ByteStream.closed (TcpSender.outbound s))).
  { pose proof (push_ready P _ HP) as Hs. cbn [link_of Link.step] in Hs. apply wp_bind in Hs.
    eapply wp_mono; [exact Hs|]. by intros [ms s] (_ & _ & ?). }
  destruct a as [c out w rd]. cbn [act]. unfold TcpConnection.connect, TcpConnection.flush_sender. wp_step. wp_step.
  wp_apply (feedback_wp Q _ b D' K' HQ). intros fb _. wp_step. wp_apply Hp. intros [ms s] ?. wp_step. by wp_step.
Qed.

(** The newest segment of [a] is the oldest that is not yet acknowledged. *)
Definition fresh a (seg : TcpSegment.t) : Prop :=
  last (sent a) = Some seg ∧ 0 < TcpSenderMessage.sequence_length (TcpSegment.to_sender_message seg) ∧
  ∃ P, written a = P ++ ByteStream.content (TcpSender.outbound (sender_of a)) ∧
    segment_of P (TcpSender.isn (sender_of a)) (TcpSegment.to_sender_message seg) (una a).

Lemma tick_fresh a b : joined a b → TcpSender.outstanding (sender_of a) ≠ [] →
  act a (sent b) (Tick (Progress.time_left (sender_of a))) ⇓ λ a', ∃ seg, fresh a' seg.
Proof.
  intros (P & Q & D & D' & K & K' & lp & pp & HP & HQ & _) Ho. pose proof HP as [HS Hne Hw _ _ _ _ _ _ _ _ _].
  cbn in HS, Hne, Hw. destruct (TcpSender.outstanding (sender_of a)) as [|sg segs] eqn:E; [done|].
  destruct (first_segment P _ sg segs HS E Hne) as [Hseg Hpos].
  pose proof (wp_and _ _ _ (tick_first P _ sg segs HS E) (sender_tick_wp P _ _ HS (time_left_nonneg P _ HS))) as Ht.
  destruct a as [c out w rd]. cbn [act conn] in *. unfold TcpConnection.tick. wp_step. wp_step.
  wp_apply (feedback_wp Q _ b D' K' HQ). intros fb [Hr _]. wp_step. wp_apply Ht.
  intros [ms s] [(-> & Hisn & Huna) (_ & _ & Hout & _)]. wp_step. wp_step. eexists. split; [cbn [sent map]; by rewrite last_snoc|].
  destruct (from_messages_sender (TcpConnection.local_port c) (TcpConnection.peer_port c) (OutstandingSegment.message sg) fb) as [Hsm _].
  { apply Hseg. }
  { done. }
  unfold TcpConnection.build_segment. rewrite Hsm. split; [done|]. exists P. cbn. by rewrite Hout, Hisn, Huna.
Qed.

Abbreviation unread a := (ByteStream.content (TcpReceiver.output (receiver_of a))).
Abbreviation room a := (ByteStream.capacity (TcpReceiver.output (receiver_of a))).

Lemma joined_receiver a b : joined a b → TRInv (receiver_of a).
Proof. intros (P & Q & D & D' & K & K' & lp & pp & _ & HQ & _). apply (linv_trinv _ _ HQ). Qed.

Lemma side_reads_wp a b k : joined a b →
  (length (ByteStream.chunks (TcpReceiver.output (receiver_of a))) ≤ k)%nat →
  acts a [] (replicate k (Read u64_max)) ⇓ λ a', (joined a' b ∧ moved a a') ∧ unread a' = [].
Proof.
  revert a. induction k as [|k IH]; intros a Hj Hk; cbn [replicate acts].
  - wp_step. split; [done|]. unfold ByteStream.content. destruct (ByteStream.chunks _); [done|cbn in Hk; lia].
  - assert (Hc : act a [] (Read u64_max) ⇓ λ a', joined a' b ∧ moved a a').
    { change (act a (sent b) (Read u64_max) ⇓ λ a', joined a' b ∧ moved a a'). apply calm_wp; [done|]. split; [cbn; lia|done]. }
    assert (Hr : act a [] (Read u64_max) ⇓ λ a', ByteStream.chunks (TcpReceiver.output (receiver_of a'))
      = tail (ByteStream.chunks (TcpReceiver.output (receiver_of a)))).
    { destruct (joined_receiver a b Hj) as [HR _]. destruct a as [c out w rd]. cbn [act conn].
      wp_step. wp_apply (pop_front _ (ri_output _ HR)). intros [z o] Ho. by wp_step. }
    wp_step. wp_apply (wp_and _ _ _ Hc Hr). intros a1 [[Hj1 Hm1] Hch].
    wp_apply (IH a1 Hj1); [rewrite Hch; destruct (ByteStream.chunks _); cbn in *; lia|].
    intros a2 [[Hj2 Hm2] Hu2]. split; [|done]. split; [done|by transitivity a1].
Qed.

Lemma side_drain_wp a b : joined a b → drain a ⇓ λ a', (joined a' b ∧ moved a a') ∧ unread a' = [].
Proof. intros Hj. by apply side_reads_wp. Qed.

(** A segment that occupies sequence space is answered, with what the receiver then expects. *)
Lemma answer_wp a b seg : joined b a → seg ∈ sent a → 0 < TcpSenderMessage.sequence_length (TcpSegment.to_sender_message seg) →
  TcpConnection.receive_segment (conn b) seg ⇓ λ '(out, c), ∃ fb, TcpReceiver.send (TcpConnection.receiver c) = Ret fb ∧
    Forall (λ s, TcpHeader.ackno (TcpSegment.header s) = TcpReceiverMessage.ackno fb) out ∧
    (out = [] → TcpReceiverMessage.ackno fb = None).
Proof.
  intros Hj Hseg Hlen. destruct (belongs_joined b a seg Hj Hseg) as [Hbe _]. pose proof (joined_receiver b a Hj) as HT.
  destruct Hj as (P & Q & D & D' & K & K' & lp & pp & HP & HQ & Hl & Hp & _ & _ & _ & Ha & Hu & Hu').
  rewrite Forall_forall in Ha. destruct (Ha seg Hseg) as (_ & _ & _ & Hd & Hk). specialize (Hd Hlen).
  assert (HC : CInv P (conn b)) by (split; [by rewrite Hl|by rewrite Hp|apply (li_sender _ _ HP)|done]).
  assert (Hok : seg_ok seg).
  { pose proof (li_data _ _ HQ) as Hdata. pose proof (li_acks _ _ HP) as Hacks. cbn in Hdata, Hacks.
    rewrite Forall_forall in Hdata. rewrite Forall_forall in Hacks. destruct (Hdata _ Hd) as (_ & [n (Hseq & _ & _ & Hf & Hle & _)] & _).
    destruct (Hacks _ Hk) as ([Hw Hack] & _). pose proof (li_bound _ _ HQ) as Hb. rewrite (li_written _ _ HQ), blen_app in Hb.
    pose proof (blen_nonneg (ByteStream.content (TcpSender.outbound (Link.sender (link_of a b D' K'))))).
    change (TcpSenderMessage.payload _) with (TcpSegment.payload seg) in Hle.
    split_and!; [cbn in Hseq; rewrite Hseq; apply wrap_ok| |done|ulia].
    intros w Hw'. cbn in Hack. by rewrite Hw' in Hack. }
  eapply wp_mono; [apply (receive_segment_wp P (conn b) seg HC Hok)|].
  { pose proof (li_pushed _ _ HP) as Hpu. pose proof (li_bound _ _ HP). cbn in *. rewrite Hpu. lia. }
  intros [out c] (P' & fb & _ & _ & _ & Hfb & _ & Hf & Hout). rewrite Hbe in Hout. exists fb. split; [done|]. split.
  - eapply Forall_impl; [exact Hf|]. by intros s (_ & _ & ? & _).
  - intros E. by apply Hout.
Qed.

(** The oldest unacknowledged segment arrives: the peer moves past it and says so. *)
Lemma deliver_fresh a b seg : joined b a → fresh a seg → unread b = [] → 0 < room b →
  act b (sent a) (Deliver (pred (length (sent a)))) ⇓ λ b', una a < rcv_nxt (receiver_of b') ∧
    ∃ answer, last (sent b') = Some answer ∧
      TcpHeader.ackno (TcpSegment.header answer) = Some (Wrap32.wrap (rcv_nxt (receiver_of b')) (TcpSender.isn (sender_of a))).
Proof.
  intros Hj (Hlast & Hlen & P & Hw & Hseg) Hun Hroom.
  assert (Hin : seg ∈ sent a) by (by apply last_Some_elem_of).
  assert (Hnext : TcpReceiver.receive (receiver_of b) (TcpSegment.to_sender_message seg) ⇓ λ '(_, r), una a < rcv_nxt r).
  { destruct Hj as (P' & Q & D & D' & K & K' & lp & pp & _ & HQ & _). pose proof (li_written _ _ HQ) as HwQ. cbn in HwQ.
    rewrite Hw in HwQ. apply app_inv_tail in HwQ as <-. by apply (resent_received P _ _ HQ). }
  assert (Hparts : TcpConnection.receive_segment (conn b) seg ⇓ λ '(segs, c),
    joined (mk c (sent b ++ segs) (written b) (read b)) a ∧ una a < rcv_nxt (TcpConnection.receiver c)).
  { eapply wp_mono; [apply (receive_parts b a seg (λ _, True) (λ r, una a < rcv_nxt r)
      (λ c c', TcpConnection.receiver c' = TcpConnection.receiver c) Hj Hin)|].
    - eapply wp_mono; [by apply (ack_ahead b a)|done].
    - by rewrite (proj2 (Z.ltb_lt _ _)) by done.
    - intros b' Hj'. eapply wp_mono; [by apply (flush_ahead b' a)|by intros [segs c] [_ ?]].
    - intros [segs c] (Hj' & s & r & _ & Hr & E). cbn in E. by rewrite E. }
  destruct b as [c0 out0 w rd]. cbn [act]. rewrite <- last_lookup, Hlast. wp_step.
  wp_apply (wp_and _ _ _ Hparts (answer_wp a _ seg Hj Hin Hlen)). intros [out c] [[Hj' Hlt] (fb & Hfb & Hf & Hne)].
  wp_step. cbn [conn sent] in *. split; [done|]. destruct Hj' as (P' & Q & D & D' & K & K' & lp & pp & _ & HQ & _).
  destruct (feedback_ackno Q _ fb HQ Hfb) as (_ & _ & Hack). pose proof (si_una _ _ (li_sender _ _ HQ)) as Hu. cbn in Hack, Hu.
  specialize (Hack ltac:(lia)). destruct out as [|s out _] using rev_ind; [by rewrite Hne in Hack|].
  apply Forall_app in Hf as [_ Hf]. apply Forall_cons in Hf as [Hf _].
  exists s. split; [by rewrite app_assoc, last_snoc|]. by rewrite Hf.
Qed.

(** The answer arrives. *)
Lemma deliver_answer a b answer n : joined a b → last (sent b) = Some answer →
  TcpHeader.ackno (TcpSegment.header answer) = Some (Wrap32.wrap n (TcpSender.isn (sender_of a))) → 0 ≤ n ≤ rcv_nxt (receiver_of b) →
  act a (sent b) (Deliver (pred (length (sent b)))) ⇓ λ a', n ≤ una a'.
Proof.
  intros Hj Hlast Hack Hn. assert (Hin : answer ∈ sent b) by (by apply last_Some_elem_of).
  assert (Hrec : TcpSender.receive (sender_of a) (TcpSegment.to_receiver_message answer) ⇓ λ s, n ≤ TcpSender.snd_una s).
  { destruct Hj as (P & Q & D & D' & K & K' & lp & pp & HP & _ & _ & _ & _ & _ & _ & Hb & _).
    rewrite Forall_forall in Hb. destruct (Hb answer Hin) as (_ & _ & _ & _ & Hk).
    pose proof (li_acks _ _ HP) as Hacks. rewrite Forall_forall in Hacks. destruct (Hacks _ Hk) as (Hok & Hr & _).
    by apply (ack_received P _ _ n HP). }
  destruct a as [c out w rd]. cbn [act]. rewrite <- last_lookup, Hlast. wp_step.
  eapply wp_mono; [apply (receive_parts _ b answer (λ s, n ≤ TcpSender.snd_una s) (λ _, True)
    (λ c c', TcpSender.snd_una (TcpConnection.sender c) ≤ TcpSender.snd_una (TcpConnection.sender c')) Hj Hin Hrec)|].
  - destruct (Z.ltb_spec 0 (TcpSenderMessage.sequence_length (TcpSegment.to_sender_message answer))); [|done].
    eapply wp_mono; [by apply (data_ahead _ b answer Hj)|by intros []].
  - intros a' Hj'. eapply wp_mono; [by apply (flush_ahead a' b)|by intros [segs c'] [[_ ?] _]].
  - intros [segs c'] (_ & s & r & Hs & _ & E). wp_step. cbn in *. lia.
Qed.

(** The second half of an exchange. *)
Lemma exchange_back x y : joined x y → unread y = [] → 0 < room y →
  (y ← act y (sent x) (Deliver (pred (length (sent x))));
   x ← act x (sent y) (Deliver (pred (length (sent y))));
   mret (x, y)) ⇓ λ '(x', y'), (joined x' y' ∧ moved x x' ∧ moved y y') ∧ ((∃ seg, fresh x seg) → una x + 1 ≤ una x').
Proof.
  intros Hj Hun Hroom. wp_step.
  eapply wp_mono.
  { apply (wp_imp _ (∃ seg, fresh x seg)); [by apply (calm_wp y x _ (joined_sym _ _ Hj))|].
    intros [seg Hf]. apply (deliver_fresh x y seg (joined_sym _ _ Hj) Hf Hun Hroom). }
  intros y1 [[Hj1 Hm1] Hanswer]. cbn beta in Hanswer. wp_step. apply joined_sym in Hj1.
  assert (0 ≤ una x) by (destruct Hj as (P & Q & D & D' & K & K' & lp & pp & HP & _); apply (si_una _ _ (li_sender _ _ HP))).
  eapply wp_mono.
  { apply (wp_imp _ (∃ seg, fresh x seg)); [by apply (calm_wp x y1 _ Hj1)|].
    intros Hf. destruct (Hanswer Hf) as (Hlt & answer & Hlast & Hack). apply (deliver_answer x y1 answer _ Hj1 Hlast Hack). lia. }
  intros x1 [[Hj2 Hm2] Hu]. cbn beta in Hu. wp_step. split; [done|]. intros Hf. specialize (Hu Hf). destruct (Hanswer Hf) as [? _]. lia.
Qed.

Lemma exchange_wp x y : joined x y → 0 < room y →
  exchange x y ⇓ λ '(x', y'), (joined x' y' ∧ moved x x' ∧ moved y y') ∧ Z.min (target_of x) (una x + 1) ≤ una x'.
Proof.
  intros Hj Hroom. unfold exchange. wp_step. wp_apply (connect_ready x y Hj). intros x1 [[Hj1 Hm1] Hready]. wp_step.
  pose proof Hj1 as (P & Q & D & D' & K & K' & lp & pp & HP & _).
  assert (Hc : calm (Tick (Progress.time_left (sender_of x1)))) by (split; [|done]; eapply time_left_nonneg, (li_sender _ _ HP)).
  eapply wp_mono; [apply (wp_imp _ (TcpSender.outstanding (sender_of x1) ≠ [])); [by apply (calm_wp x1 y)|by apply tick_fresh]|].
  intros x2 [[Hj2 Hm2] Hfresh]. cbn beta in Hfresh. wp_step.
  wp_apply (side_drain_wp y x2 (joined_sym _ _ Hj2)). intros y1 [[Hj3 Hm3] Hun].
  wp_apply (exchange_back x2 y1 (joined_sym _ _ Hj3) Hun); [by destruct Hm3 as [_ _ [-> _]]|].
  intros [x3 y2] [(Hj4 & Hm4 & Hm5) Hu]. pose proof (moved_target _ _ Hm1) as Ht.
  pose proof (mo_sender _ _ Hm1) as [_ Hu1]. pose proof (mo_sender _ _ Hm2) as [_ Hu2]. pose proof (mo_sender _ _ Hm4) as [_ Hu4].
  split_and!; [done|by transitivity x1; [|transitivity x2]|by transitivity y1|].
  destruct (decide (TcpSender.outstanding (sender_of x1) = [])) as [Ho|Ho]; [rewrite (Hready Ho) in *; lia|].
  specialize (Hu (Hfresh Ho)). lia.
Qed.

(** ** Rounds *)

Implicit Types (d : Duplex.t).

Definition moved2 d d' : Prop :=
  moved (Duplex.here d) (Duplex.here d') ∧ moved (Duplex.there d) (Duplex.there d').

#[local] Instance moved2_preorder : PreOrder moved2.
Proof. split; [by split|]. intros d1 d2 d3 [] []. split; by etransitivity. Qed.

Lemma quiet_duplex_run d ops : joined (Duplex.here d) (Duplex.there d) → Forall quiet ops →
  Duplex.run d ops ⇓ λ d', joined (Duplex.here d') (Duplex.there d') ∧ moved2 d d'.
Proof.
  intros Hj Hops. revert d Hj. induction Hops as [|o ops Ho _ IH]; intros d Hj; cbn [Duplex.run]; [by wp_step|].
  assert (Hs : Duplex.step d o ⇓ λ d', joined (Duplex.here d') (Duplex.there d') ∧ moved2 d d').
  { destruct o as [o|o]; cbn [Duplex.step].
    - wp_step. wp_apply (calm_wp _ _ o Hj Ho). intros a' [? ?]. wp_step. by split.
    - wp_step. wp_apply (calm_wp _ _ o (joined_sym _ _ Hj) Ho). intros b' [? ?]. wp_step. split; [by apply joined_sym|by split]. }
  wp_step. wp_apply Hs. intros d1 [Hj1 Hm1]. wp_apply (IH d1 Hj1). intros d2 [Hj2 Hm2]. split; [done|by transitivity d1].
Qed.

(** A round takes each of the two one number further. *)
Definition advances (k : Z) x x' : Prop := Z.min (target_of x) (una x + k) ≤ una x'.

Lemma duplex_round_wp d : joined (Duplex.here d) (Duplex.there d) → 0 < room (Duplex.here d) → 0 < room (Duplex.there d) →
  round d ⇓ λ d', joined (Duplex.here d') (Duplex.there d') ∧ moved2 d d' ∧
    advances 1 (Duplex.here d) (Duplex.here d') ∧ advances 1 (Duplex.there d) (Duplex.there d') ∧
    unread (Duplex.here d') = [] ∧ unread (Duplex.there d') = [].
Proof.
  intros Hj Hr1 Hr2. unfold round. destruct d as [x y]. cbn [Duplex.here Duplex.there] in *.
  wp_step. wp_apply (exchange_wp x y Hj Hr2). intros [x1 y1] [(Hj1 & Hx1 & Hy1) Hu1]. wp_step.
  wp_apply (exchange_wp y1 x1 (joined_sym _ _ Hj1)); [by destruct Hx1 as [_ _ [-> _]]|].
  intros [y2 x2] [(Hj2 & Hy2 & Hx2) Hu2]. wp_step.
  wp_apply (side_drain_wp x2 y2 (joined_sym _ _ Hj2)). intros x3 [[Hj3 Hx3] Hn3]. wp_step.
  wp_apply (side_drain_wp y2 x3 (joined_sym _ _ Hj3)). intros y4 [[Hj4 Hy4] Hn4]. wp_step. unfold advances. cbn [Duplex.here Duplex.there].
  pose proof (mo_sender _ _ Hx2) as [_ ?]. pose proof (mo_sender _ _ Hx3) as [_ ?]. pose proof (mo_sender _ _ Hy1) as [_ ?].
  pose proof (mo_sender _ _ Hy4) as [_ ?]. rewrite (moved_target _ _ Hy1) in Hu2.
  split; [by apply joined_sym|]. split; [split; [by transitivity x1; [|transitivity x2]|by transitivity y1; [|transitivity y2]]|].
  split_and!; [lia|lia|done|done].
Qed.

Lemma advances_trans k x1 x2 x3 : 0 ≤ k → moved x1 x2 → advances 1 x1 x2 → advances k x2 x3 → advances (1 + k) x1 x3.
Proof. intros Hk Hm H1 H2. unfold advances in *. rewrite (moved_target _ _ Hm) in H2. lia. Qed.

Lemma duplex_play_wp d noises : joined (Duplex.here d) (Duplex.there d) →
  0 < room (Duplex.here d) → 0 < room (Duplex.there d) → Forall (Forall quiet) noises → noises ≠ [] →
  play d noises ⇓ λ d', joined (Duplex.here d') (Duplex.there d') ∧ moved2 d d' ∧
    advances (blen noises) (Duplex.here d) (Duplex.here d') ∧ advances (blen noises) (Duplex.there d) (Duplex.there d') ∧
    unread (Duplex.here d') = [] ∧ unread (Duplex.there d') = [].
Proof.
  intros Hj Hr1 Hr2 Hn. revert d Hj Hr1 Hr2. induction Hn as [|noise noises Hq _ IH]; intros d Hj Hr1 Hr2 Hne; [done|]. cbn [play].
  wp_step. wp_apply (quiet_duplex_run d noise Hj Hq). intros d1 [Hj1 [Hx1 Hy1]]. wp_step.
  wp_apply (duplex_round_wp d1 Hj1); [by destruct Hx1 as [_ _ [-> _]]|by destruct Hy1 as [_ _ [-> _]]|].
  intros d2 (Hj2 & [Hx2 Hy2] & Hax & Hay & Hnx & Hny).
  assert (Hx : moved (Duplex.here d) (Duplex.here d2)) by (by transitivity (Duplex.here d1)).
  assert (Hy : moved (Duplex.there d) (Duplex.there d2)) by (by transitivity (Duplex.there d1)).
  assert (Hax' : advances 1 (Duplex.here d) (Duplex.here d2)).
  { unfold advances in *. rewrite (moved_target _ _ Hx1) in Hax. pose proof (mo_sender _ _ Hx1) as [_ ?]. lia. }
  assert (Hay' : advances 1 (Duplex.there d) (Duplex.there d2)).
  { unfold advances in *. rewrite (moved_target _ _ Hy1) in Hay. pose proof (mo_sender _ _ Hy1) as [_ ?]. lia. }
  rewrite blen_cons. destruct noises as [|noise' noises]; [cbn [play]; wp_step; by split_and!|].
  wp_apply (IH d2 Hj2); [by destruct Hx as [_ _ [-> _]]|by destruct Hy as [_ _ [-> _]]|done|].
  intros d3 (Hj3 & [Hx3 Hy3] & Hax3 & Hay3 & Hn3). pose proof (blen_nonneg (noise' :: noises)).
  split; [done|]. split; [split; by etransitivity|]. split_and!; try tauto; by eapply advances_trans.
Qed.

(** Both SYNs acknowledged: the endpoint is established. *)
Lemma side_established x y : joined x y → 1 ≤ una x → 1 ≤ rcv_nxt (receiver_of x) →
  TcpConnection.is_established (conn x) = Ret true.
Proof.
  intros (P & Q & D & D' & K & K' & lp & pp & HP & HQ & _) Hu Hr. pose proof (li_sender _ _ HP) as HS. cbn in HS.
  pose proof (segs_le _ _ _ _ _ (si_segs _ _ HS)) as Hle. pose proof (si_nxt _ _ HS) as Hn.
  unfold TcpConnection.is_established. destruct (TcpSender.syn_sent (sender_of x)) eqn:Es.
  2:{ destruct (si_syn _ _ HS Es) as [-> Hf]. rewrite Hf in Hn. change (@blen byte []) with 0 in Hn. cbn in Hn. lia. }
  rewrite (proj2 (Z.ltb_lt _ _)) by lia. cbn [andb].
  pose proof (send_wp _ (linv_trinv _ _ HQ)) as Hs. wp_inv Hs. cbn in Heq. rewrite Heq, bind_Ret.
  destruct (feedback_ackno Q _ _ HQ Heq) as (_ & _ & Hack). rewrite Hack; [done|cbn; lia].
Qed.

(** At the target everything has been delivered. *)
Lemma side_completed x x' y : joined x' y → moved x x' → una x' = target_of x' → unread y = [] →
  1 ≤ rcv_nxt (receiver_of x') → completed x x' y.
Proof.
  intros Hj [Hw [Hc _] _] Hu Hn Hrcv.
  assert (He : TcpConnection.is_established (conn x') = Ret true).
  { apply (side_established x' y); [done| |done]. unfold target_of in Hu. pose proof (blen_nonneg (written x')).
    pose proof (of_bool_range (ByteStream.closed (TcpSender.outbound (sender_of x')))). lia. }
  destruct Hj as (P & Q & D & D' & K & K' & lp & pp & HP & _).
  destruct (at_target P _ HP Hu Hn) as (Hr & Ho & Hf). cbn in Hr, Ho, Hf. by split_and!; [|congruence|..|rewrite <- Hc].
Qed.

Lemma advanced x x' y k : joined x' y → moved x x' → advances k x x' → target_of x ≤ k → 0 ≤ una x → una x' = target_of x'.
Proof.
  intros (P & Q & D & D' & K & K' & lp & pp & HP & _) Hm Ha Hk H0. pose proof (una_target P _ HP) as Hle.
  change (target (link_of x' y D K)) with (target_of x') in Hle. cbn in Hle. unfold advances in Ha. rewrite (moved_target _ _ Hm) in *. lia.
Qed.

(** What a peer has acknowledged, this endpoint has received. *)
Lemma una_received x y : joined x y → 0 ≤ una y ≤ rcv_nxt (receiver_of x).
Proof. intros (P & Q & D & D' & K & K' & lp & pp & _ & HQ & _). split; [apply (si_una _ _ (li_sender _ _ HQ))|apply (li_una _ _ HQ)]. Qed.

(** What each application can have written, and how much room its peer keeps for it. *)
Lemma duplex_run_bounds d ops :
  joined (Duplex.here d) (Duplex.there d) → Forall Duplex.op_ok ops →
  blen (written (Duplex.here d)) + fst (Duplex.offered ops) < 2 ^ 31 - 2 →
  blen (written (Duplex.there d)) + snd (Duplex.offered ops) < 2 ^ 31 - 2 →
  Duplex.run d ops ⇓ λ d', joined (Duplex.here d') (Duplex.there d') ∧
    room (Duplex.here d') = room (Duplex.here d) ∧ room (Duplex.there d') = room (Duplex.there d) ∧
    blen (written (Duplex.here d')) ≤ blen (written (Duplex.here d)) + fst (Duplex.offered ops) ∧
    blen (written (Duplex.there d')) ≤ blen (written (Duplex.there d)) + snd (Duplex.offered ops).
Proof.
  intros Hj Hops. revert d Hj. induction Hops as [|o ops Ho _ IH]; intros d Hj Ha Hb; cbn [Duplex.run].
  { wp_step. cbn. split_and!; done || lia. }
  destruct d as [x y]. cbn in Hj, Ha, Hb. pose proof (duplex_offered_nonneg ops) as [Hx Hy].
  cbn [Duplex.offered] in *. destruct (Duplex.offered ops) as [p q] eqn:Eo. cbn [fst snd] in *.
  destruct o as [o|o]; cbn [Duplex.step Duplex.here Duplex.there fst snd] in *; pose proof (side_offered_nonneg o).
  - wp_step. wp_step. wp_apply (wp_and _ _ _ (act_wp x y o Hj Ho ltac:(lia)) (act_ahead x y o Hj Ho ltac:(lia))).
    intros x' [[Hj' Hw] [[Hr _] _]]. wp_step. eapply wp_mono; [apply IH; cbn; [done|lia|lia]|].
    cbn. intros d' (? & ? & ? & ? & ?). split_and!; try done; try congruence; lia.
  - wp_step. wp_step. apply joined_sym in Hj.
    wp_apply (wp_and _ _ _ (act_wp y x o Hj Ho ltac:(lia)) (act_ahead y x o Hj Ho ltac:(lia))).
    intros y' [[Hj' Hw] [[Hr _] _]]. wp_step. eapply wp_mono; [apply IH; cbn; [by apply joined_sym|lia|lia]|].
    cbn. intros d' (? & ? & ? & ? & ?). split_and!; try done; try congruence; lia.
Qed.
End duplex_progress.

(** C7: Two connected endpoints complete. Start from any state that two connections and their
    applications reach over any network, with buffers of any size but zero, each application
    having offered fewer than 2^31 - 2 bytes. From then on let the network
    lose, delay, duplicate and reorder at will, with any timing, except that again and again, for
    each endpoint in turn, one timeout's retransmission arrives at the peer, whose application
    reads, and the peer's answer arrives back. After at most as many such rounds as there are
    sequence numbers in the longer direction, and in both directions: the application has read exactly what its
    peer wrote, nothing is left in flight, the handshake is over, and a stream that was closed is finished at its writer and
    at its reader. *)
Theorem tcp_duplex_completes ca cb ops noises :
  TcpConnectionConfig.ok ca → TcpConnectionConfig.ok cb → Duplex.mirrored ca cb →
  0 < TcpConnectionConfig.receiver_capacity ca → 0 < TcpConnectionConfig.receiver_capacity cb →
  Forall Duplex.op_ok ops →
  fst (Duplex.offered ops) < 2 ^ 31 - 2 → snd (Duplex.offered ops) < 2 ^ 31 - 2 →
  Forall (Forall DuplexProgress.quiet) noises →
  fst (Duplex.offered ops) + 2 ≤ blen noises → snd (Duplex.offered ops) + 2 ≤ blen noises →
  ∃ d d', (d ← Duplex.new ca cb; Duplex.run d ops) = Ret d ∧ DuplexProgress.play d noises = Ret d' ∧
    DuplexProgress.completed (Duplex.here d) (Duplex.here d') (Duplex.there d') ∧
    DuplexProgress.completed (Duplex.there d) (Duplex.there d') (Duplex.here d').
Proof.
  intros Hca Hcb Hm Hra Hrb Hops Ha Hb Hq Hna Hnb. pose proof (duplex_new_wp ca cb Hca Hcb Hm) as H. wp_inv H.
  destruct H as (Hj & Hwa & Hwb & Hc1 & Hc2).
  pose proof (duplex_run_bounds r ops Hj Hops) as H. rewrite Hwa, Hwb, blen_nil in H. specialize (H Ha Hb). wp_inv H.
  destruct H as (Hj0 & Hr1 & Hr2 & Hw1 & Hw2). exists r0. rewrite Heq, bind_Ret.
  assert (Hne : noises ≠ []).
  { intros ->. pose proof (duplex_offered_nonneg ops). rewrite blen_nil in Hna. lia. }
  pose proof (duplex_play_wp r0 noises Hj0 ltac:(lia) ltac:(lia) Hq Hne) as H. wp_inv H.
  destruct H as (Hj1 & [Hmx Hmy] & Hax & Hay & Hnx & Hny). exists r1. split; [done|]. split; [done|].
  pose proof (joined_sym _ _ Hj0) as Hj0'. pose proof (joined_sym _ _ Hj1) as Hj1'.
  assert (Hux : TcpSender.snd_una (TcpConnection.sender (Side.conn (Duplex.here r1))) = target_of (Duplex.here r1)).
  { apply (advanced (Duplex.here r0) _ _ _ Hj1 Hmx Hax); [|apply (una_received _ _ Hj0')].
    unfold target_of. pose proof (of_bool_range (ByteStream.closed (TcpSender.outbound (TcpConnection.sender (Side.conn (Duplex.here r0)))))). lia. }
  assert (Huy : TcpSender.snd_una (TcpConnection.sender (Side.conn (Duplex.there r1))) = target_of (Duplex.there r1)).
  { apply (advanced (Duplex.there r0) _ _ _ Hj1' Hmy Hay); [|apply (una_received _ _ Hj0)].
    unfold target_of. pose proof (of_bool_range (ByteStream.closed (TcpSender.outbound (TcpConnection.sender (Side.conn (Duplex.there r0)))))). lia. }
  pose proof (una_received _ _ Hj1) as [_ Hrx]. pose proof (una_received _ _ Hj1') as [_ Hry].
  pose proof (target_positive (Duplex.here r1)). pose proof (target_positive (Duplex.there r1)).
  split; apply side_completed; try done; lia.
Qed.

Lemma tcp_duplex_completes_witness :
  let ca := TcpConnectionConfig.mk 50000 80 128 1 (Wrap32.new 1000) TcpSenderConfig.default in
  let cb := TcpConnectionConfig.mk 80 50000 128 2 (Wrap32.new u32_max) TcpSenderConfig.default in
  let ops := [Duplex.Here Side.Connect; Duplex.Here (Side.Write [x61; x62]); Duplex.There (Side.Write [x63]); Duplex.Here Side.Close] in
  let noises := [[]; [Duplex.Here (Side.Tick 5000)]; [Duplex.There (Side.Deliver 0); Duplex.Here (Side.Deliver 1)]; []] in
  ∃ d d', (d ← Duplex.new ca cb; Duplex.run d ops) = Ret d ∧ DuplexProgress.play d noises = Ret d' ∧
    DuplexProgress.completed (Duplex.here d) (Duplex.here d') (Duplex.there d') ∧
    DuplexProgress.completed (Duplex.there d) (Duplex.there d') (Duplex.here d').
Proof.
  intros ca cb ops noises. apply tcp_duplex_completes; try (by vm_compute); try lia; try done;
    try (repeat constructor; simpl; lia); unfold TcpConnectionConfig.ok, TcpSenderConfig.ok, Wrap32.ok, u16, u32, u64; simpl; lia.
Defined.
