(* ===== verification/ip_host.v ===== *)
(** * An IPv4 host with one TCP connection ([src/ip_host.rs])

    The endpoint behind a TUN device: it answers ICMP echo requests, hands the TCP
    segments of its one peer to the connection, and wraps what the connection sends
    into IPv4 datagrams. *)

From S2P Require Import prelude wrapping_integers byte_stream btree_map tcp_message stream.
From S2P Require Import reassembler checksum icmp ipv4_datagram tcp_segment tcp_receiver.
From S2P Require Import tcp_sender tcp_connection.
From stdpp Require Import strings.

#[local] Open Scope Z_scope.

Module IpHostConfig.

Record t := mk {
  local_ip : array4;
  peer_ip : array4;
  local_port : Z;
  peer_port : Z;
  sender_capacity : Z;
  receiver_capacity : Z;
  isn : Wrap32.t;
  sender_config : TcpSenderConfig.t;
}.

Definition tcp_demo (local_ip peer_ip : array4) (local_port peer_port : Z) (isn : Wrap32.t) : t :=
  mk local_ip peer_ip local_port peer_port (64 * 1024) (64 * 1024) isn (TcpSenderConfig.mk 1000 60000 1000).

(** The configuration of the connection. *)
Definition connection_config (self : t) : TcpConnectionConfig.t :=
  TcpConnectionConfig.mk (local_port self) (peer_port self) (sender_capacity self) (receiver_capacity self)
    (isn self) (sender_config self).

End IpHostConfig.

Module IpHostEvent.

Inductive t :=
| IncomingTcp (segment : TcpSegment.t)
| OutgoingTcp (segment : TcpSegment.t)
| TcpPayload (payload : bytes)
| IcmpEchoRequest (src_ip dst_ip : array4) (identifier sequence_number payload_len : Z)
| IcmpEchoReply (src_ip dst_ip : array4) (identifier sequence_number payload_len : Z)
| IgnoredMalformedIpv4 (err : string)
| IgnoredMalformedTcp (err : string)
| IgnoredMalformedIcmp (err : string).

End IpHostEvent.

Module IpHostOutput.

Record t := mk { datagrams : list Ipv4Datagram.t; events : list IpHostEvent.t }.

Definition default : t := mk [] [].

Definition extend (self other : t) : t :=
  mk (datagrams self ++ datagrams other) (events self ++ events other).

End IpHostOutput.

(** [format!("{err:?}")] with the derived [Debug] of the three error types. *)
Definition debug_ipv4 (err : Ipv4ParseError) : string :=
  match err with
  | PacketTooShort => "PacketTooShort"
  | NotIpv4 => "NotIpv4"
  | InvalidHeaderLength => "InvalidHeaderLength"
  | InvalidTotalLength => "InvalidTotalLength"
  | ipv4_datagram.InvalidChecksum => "InvalidChecksum"
  end.

Definition debug_icmp (err : IcmpParseError) : string :=
  match err with
  | MessageTooShort => "MessageTooShort"
  | icmp.InvalidChecksum => "InvalidChecksum"
  end.

Definition debug_tcp (err : TcpParseError) : string :=
  match err with
  | SegmentTooShort => "SegmentTooShort"
  | InvalidDataOffset => "InvalidDataOffset"
  | tcp_segment.InvalidChecksum => "InvalidChecksum"
  end.

Module IpHost.

Record t := mk { config : IpHostConfig.t; connection : TcpConnection.t }.

Definition with_connection (self : t) c : t := mk (config self) c.

Definition new (config : IpHostConfig.t) : exec t :=
  connection ← TcpConnection.new (IpHostConfig.connection_config config);
  mret (mk config connection).

Definition local_ip (self : t) : array4 := IpHostConfig.local_ip (config self).
Definition peer_ip (self : t) : array4 := IpHostConfig.peer_ip (config self).
Definition local_port (self : t) : Z := IpHostConfig.local_port (config self).
Definition peer_port (self : t) : Z := IpHostConfig.peer_port (config self).
Definition is_established (self : t) : exec bool := TcpConnection.is_established (connection self).
Definition is_finished (self : t) : bool := TcpConnection.is_finished (connection self).

(** The [for] loop of [wrap_tcp_segments], [output] being what it has built so far. *)
Fixpoint wrap_loop (self : t) (segments : list TcpSegment.t) (output : IpHostOutput.t) : exec IpHostOutput.t :=
  match segments with
  | [] => mret output
  | segment :: segments =>
      tcp_bytes ← TcpSegment.serialize_ipv4 segment (local_ip self) (peer_ip self);
      wrap_loop self segments
        (IpHostOutput.mk
           (IpHostOutput.datagrams output ++ [Ipv4Datagram.new_tcp (local_ip self) (peer_ip self) tcp_bytes])
           (IpHostOutput.events output ++ [IpHostEvent.OutgoingTcp segment]))
  end.

Definition wrap_tcp_segments (self : t) (segments : list TcpSegment.t) : exec IpHostOutput.t :=
  wrap_loop self segments IpHostOutput.default.

Definition connect (self : t) : exec (IpHostOutput.t * t) :=
  '(segments, c) ← TcpConnection.connect (connection self);
  let self := with_connection self c in
  output ← wrap_tcp_segments self segments; mret (output, self).

Definition write (self : t) (data : bytes) : exec (Z * IpHostOutput.t * t) :=
  '(accepted, segments, c) ← TcpConnection.write (connection self) data;
  let self := with_connection self c in
  output ← wrap_tcp_segments self segments; mret (accepted, output, self).

Definition close (self : t) : exec (IpHostOutput.t * t) :=
  '(segments, c) ← TcpConnection.close (connection self);
  let self := with_connection self c in
  output ← wrap_tcp_segments self segments; mret (output, self).

Definition tick (self : t) (elapsed_ms : Z) : exec (IpHostOutput.t * t) :=
  '(segments, c) ← TcpConnection.tick (connection self) elapsed_ms;
  let self := with_connection self c in
  output ← wrap_tcp_segments self segments; mret (output, self).

Definition receive_icmp (src_ip dst_ip : array4) (payload : bytes) : exec IpHostOutput.t :=
  r ← IcmpMessage.parse_bytes payload;
  match r with
  | Err err => mret (IpHostOutput.mk [] [IpHostEvent.IgnoredMalformedIcmp (debug_icmp err)])
  | Ok message =>
      match IcmpMessage.echo_reply_from_request message with
      | None => mret IpHostOutput.default
      | Some reply =>
          bs ← IcmpMessage.serialize reply;
          mret (IpHostOutput.mk [Ipv4Datagram.new_icmp dst_ip src_ip bs]
            [IpHostEvent.IcmpEchoRequest src_ip dst_ip (IcmpMessage.identifier message)
               (IcmpMessage.sequence_number message) (blen (IcmpMessage.payload message));
             IpHostEvent.IcmpEchoReply dst_ip src_ip (IcmpMessage.identifier reply)
               (IcmpMessage.sequence_number reply) (blen (IcmpMessage.payload reply))])
      end
  end.

Definition receive_tcp (self : t) (src_ip dst_ip : array4) (payload : bytes) : exec (IpHostOutput.t * t) :=
  r ← TcpSegment.parse_ipv4_bytes src_ip dst_ip payload;
  match r with
  | Err err => mret (IpHostOutput.mk [] [IpHostEvent.IgnoredMalformedTcp (debug_tcp err)], self)
  | Ok segment =>
      if negb (TcpHeader.src_port (TcpSegment.header segment) =? TcpConnection.peer_port (connection self))
         || negb (TcpHeader.dst_port (TcpSegment.header segment) =? TcpConnection.local_port (connection self))
      then mret (IpHostOutput.default, self)
      else
        let events := [IpHostEvent.IncomingTcp segment] ++
          match TcpSegment.payload segment with [] => [] | p => [IpHostEvent.TcpPayload p] end in
        '(responses, c) ← TcpConnection.receive_segment (connection self) segment;
        let self := with_connection self c in
        wrapped ← wrap_tcp_segments self responses;
        mret (IpHostOutput.extend (IpHostOutput.mk [] events) wrapped, self)
  end.

Definition receive_datagram (self : t) (datagram : Ipv4Datagram.t) : exec (IpHostOutput.t * t) :=
  let src_ip := Ipv4Header.src (Ipv4Datagram.header datagram) in
  let dst_ip := Ipv4Header.dst (Ipv4Datagram.header datagram) in
  let protocol := Ipv4Header.protocol (Ipv4Datagram.header datagram) in
  if negb (bool_decide (dst_ip = local_ip self)) then mret (IpHostOutput.default, self)
  else if protocol =? IPV4_PROTOCOL_ICMP then
    output ← receive_icmp src_ip dst_ip (Ipv4Datagram.payload datagram); mret (output, self)
  else if (protocol =? IPV4_PROTOCOL_TCP) && bool_decide (src_ip = peer_ip self) then
    receive_tcp self src_ip dst_ip (Ipv4Datagram.payload datagram)
  else mret (IpHostOutput.default, self).

Definition receive_ipv4_bytes (self : t) (packet : bytes) : exec (IpHostOutput.t * t) :=
  r ← Ipv4Datagram.parse_bytes packet;
  match r with
  | Ok datagram => receive_datagram self datagram
  | Err err => mret (IpHostOutput.mk [] [IpHostEvent.IgnoredMalformedIpv4 (debug_ipv4 err)], self)
  end.

(** What happens to a host, as data; a run collects the output. *)
Inductive op :=
| Connect
| Write (data : bytes)
| Close
| Tick (elapsed_ms : Z)
| ReceiveIpv4Bytes (packet : bytes).

Definition step (self : t) (o : op) : exec (IpHostOutput.t * t) :=
  match o with
  | Connect => connect self
  | Write data => '(_, output, self) ← write self data; mret (output, self)
  | Close => close self
  | Tick elapsed_ms => tick self elapsed_ms
  | ReceiveIpv4Bytes packet => receive_ipv4_bytes self packet
  end.

Fixpoint run (self : t) (ops : list op) : exec (IpHostOutput.t * t) :=
  match ops with
  | [] => mret (IpHostOutput.default, self)
  | o :: ops =>
      '(output, self) ← step self o;
      '(output', self) ← run self ops;
      mret (IpHostOutput.extend output output', self)
  end.

Fixpoint offered (ops : list op) : Z :=
  match ops with
  | [] => 0
  | Write data :: ops => blen data + offered ops
  | _ :: ops => offered ops
  end.

End IpHost.

Section host.
Import IpHost.
Implicit Types (h : IpHost.t) (d : Ipv4Datagram.t) (s : TcpSegment.t).

Abbreviation src d := (Ipv4Header.src (Ipv4Datagram.header d)).
Abbreviation dst d := (Ipv4Header.dst (Ipv4Datagram.header d)).
Abbreviation protocol d := (Ipv4Header.protocol (Ipv4Datagram.header d)).

(** The connection keeps its invariant, has the ports of the configuration, and its
    segments fit an IPv4 datagram with their headers. *)
Record HInv (P : bytes) h : Prop := {
  hi_connection : CInv P (connection h);
  hi_local : TcpConnection.local_port (connection h) = local_port h;
  hi_peer : TcpConnection.peer_port (connection h) = peer_port h;
  hi_mss : TcpSenderConfig.max_payload_size (TcpSender.config (TcpConnection.sender (connection h))) ≤ 65495;
}.

(** [d] carries the segment [s] from this host to its peer. *)
Record carries_segment (cfg : IpHostConfig.t) s d : Prop := {
  cs_wf : Ipv4Datagram.wf d;
  cs_header : Ipv4Datagram.header d
    = Ipv4Header.new_tcp (IpHostConfig.local_ip cfg) (IpHostConfig.peer_ip cfg);
  cs_segment : TcpSegment.parse_ipv4_bytes (IpHostConfig.local_ip cfg) (IpHostConfig.peer_ip cfg)
    (Ipv4Datagram.payload d) = Ret (Ok s);
}.

(** A datagram that carries [s], whatever routers have done to the rest of its header. *)
Record conveys (cfg : IpHostConfig.t) s d : Prop := {
  cv_wf : Ipv4Datagram.wf d;
  cv_src : src d = IpHostConfig.local_ip cfg;
  cv_dst : dst d = IpHostConfig.peer_ip cfg;
  cv_protocol : protocol d = IPV4_PROTOCOL_TCP;
  cv_segment : TcpSegment.parse_ipv4_bytes (IpHostConfig.local_ip cfg) (IpHostConfig.peer_ip cfg)
    (Ipv4Datagram.payload d) = Ret (Ok s);
}.

Lemma carries_conveys cfg s d : carries_segment cfg s d → conveys cfg s d.
Proof. intros [Hwf Hh Hs]. split; [done|by rewrite Hh..|done]. Qed.

(** [segs] may be wrapped, and come from this host's end of the connection. *)
Definition wrappable h (segs : list TcpSegment.t) : Prop :=
  Forall (λ s, TcpSegment.wf s ∧ blen (TcpSegment.payload s) ≤ 65495 ∧
               TcpHeader.src_port (TcpSegment.header s) = local_port h ∧
               TcpHeader.dst_port (TcpSegment.header s) = peer_port h) segs.

Lemma wrap_loop_wp h segs out : wrappable h segs →
  wrap_loop h segs out ⇓ λ r, ∃ ds, IpHostOutput.datagrams r = IpHostOutput.datagrams out ++ ds ∧
    Forall2 (carries_segment (IpHost.config h)) segs ds ∧
    IpHostOutput.events r = IpHostOutput.events out ++ map IpHostEvent.OutgoingTcp segs.
Proof.
  intros Hs. revert out. induction Hs as [|s segs (Hwf & Hlen & _) _ IH]; intros out; cbn [wrap_loop].
  { wp_step. exists []. by rewrite !app_nil_r. }
  destruct (tcp_roundtrip s (local_ip h) (peer_ip h) Hwf) as (bs & Hser & Hp).
  destruct (tcp_serialize_eq s (local_ip h) (peer_ip h) Hwf) as (c & Hser' & _).
  assert (Hbs : blen bs = 20 + blen (TcpSegment.payload s)).
  { rewrite Hser in Hser'. injection Hser' as ->. apply tcp_wire_len. }
  rewrite Hser. wp_step. wp_step. wp_apply IH. cbn. intros r (ds & Hd & Hf & He).
  eexists (_ :: ds). rewrite Hd, He, <- !app_assoc. split_and!; [done| |done]. constructor; [|done].
  split; [|done|done]. unfold Ipv4Datagram.wf, Ipv4Datagram.new_tcp, Ipv4Datagram.new. cbn. unfold IPV4_PROTOCOL_TCP.
  split_and!; ulia.
Qed.

Lemma wrap_wp h segs : wrappable h segs →
  wrap_tcp_segments h segs ⇓ λ r, Forall2 (carries_segment (IpHost.config h)) segs (IpHostOutput.datagrams r) ∧
    IpHostOutput.events r = map IpHostEvent.OutgoingTcp segs.
Proof.
  intros Hs. unfold wrap_tcp_segments. wp_apply (wrap_loop_wp h segs _ Hs).
  intros r (ds & Hd & Hf & He). by rewrite Hd, He.
Qed.

Abbreviation pushed c := (ByteStream.bytes_pushed (TcpSender.outbound (TcpConnection.sender c))).

(** What one event on the connection leaves behind. *)
Lemma connection_step_wp P h o : HInv P h → cop_ok o → pushed (connection h) + TcpConnection.offered [o] + 2 ≤ u64_max →
  TcpConnection.step (connection h) o ⇓ λ '(segs, c), ∃ P', HInv P' (with_connection h c) ∧
    wrappable h segs ∧ pushed c ≤ pushed (connection h) + TcpConnection.offered [o].
Proof.
  intros [] Ho Hmax. wp_apply (step_wp P (connection h) o hi_connection0 Ho Hmax).
  intros [segs c] (P' & HC & (Hl & Hp & Hm) & Hpu & fb & Hfb & Hf). exists P'. split_and!; [|  |done].
  - split; cbn; [done|by rewrite Hl|by rewrite Hp|by rewrite Hm].
  - pose proof (from_here_wf P _ fb segs hi_connection0 Hfb Hf ltac:(lia)) as Hwf.
    unfold from_here in Hf. unfold wrappable. rewrite Forall_forall in Hwf, Hf |- *.
    intros s Hs. destruct (Hf s Hs) as (-> & -> & _ & _ & _ & Hlen). split_and!; [by apply Hwf|lia|done|done].
Qed.

Lemma new_host_wp config : TcpConnectionConfig.ok (IpHostConfig.connection_config config) →
  TcpSenderConfig.max_payload_size (IpHostConfig.sender_config config) ≤ 65495 →
  IpHost.new config ⇓ λ h, HInv [] h ∧ IpHost.config h = config ∧ pushed (connection h) = 0.
Proof.
  intros Hc Hm. unfold new. wp_step. wp_apply (new_wp _ Hc). intros c (HC & Hpu & Hl & Hp & Hmc). wp_step.
  split_and!; [|done|done]. split; cbn; [done|by rewrite Hl|by rewrite Hp|by rewrite Hmc].
Qed.

(** A datagram this host may send: from its own address, and either an ICMP message or a
    segment of its connection. *)
Definition own_datagram (cfg : IpHostConfig.t) d : Prop :=
  Ipv4Datagram.wf d ∧ src d = IpHostConfig.local_ip cfg ∧
  (protocol d = IPV4_PROTOCOL_ICMP ∨
   ∃ s, carries_segment cfg s d ∧ TcpHeader.src_port (TcpSegment.header s) = IpHostConfig.local_port cfg ∧
        TcpHeader.dst_port (TcpSegment.header s) = IpHostConfig.peer_port cfg).

Lemma carries_own h segs ds : wrappable h segs → Forall2 (carries_segment (IpHost.config h)) segs ds → Forall (own_datagram (IpHost.config h)) ds.
Proof.
  intros Hs Hf. revert Hs. induction Hf as [|s d segs ds Hc _ IH]; intros Hs; constructor.
  - apply Forall_cons in Hs as [(_ & _ & Hsp & Hdp) _]. split; [apply Hc|]. split; [by rewrite (cs_header _ _ _ Hc)|].
    right. by exists s.
  - apply IH. by apply Forall_cons in Hs as [_ ?].
Qed.

(** Wrapping what the connection sends. *)
Lemma wrap_after P h o k : HInv P h → cop_ok o → pushed (connection h) + TcpConnection.offered [o] + 2 ≤ u64_max →
  (∀ segs c P', TcpConnection.step (connection h) o = Ret (segs, c) → HInv P' (with_connection h c) →
     wrappable h segs → pushed c ≤ pushed (connection h) + TcpConnection.offered [o] →
     wrap_tcp_segments (with_connection h c) segs ⇓ λ out, k (out, with_connection h c)) →
  ('(segs, c) ← TcpConnection.step (connection h) o;
   out ← wrap_tcp_segments (with_connection h c) segs; mret (out, with_connection h c)) ⇓ k.
Proof.
  intros HI Ho Hmax Hk. pose proof (connection_step_wp P h o HI Ho Hmax) as Hs. wp_inv Hs. destruct r as [segs c].
  destruct Hs as (P' & HI' & Hw & Hpu). rewrite Heq, bind_Ret. wp_step.
  wp_apply (Hk segs c P' Heq HI' Hw Hpu). intros out Ho'. by wp_step.
Qed.

(** The state and output of any step: [grow] bytes offered, the stream closed or not. *)
Definition host_step_ok h (grow : Z) (closing : bool) : IpHostOutput.t * IpHost.t → Prop := λ '(out, h'),
  ∃ P', HInv P' h' ∧ IpHost.config h' = IpHost.config h ∧
    stream_step grow closing (TcpSender.outbound (TcpConnection.sender (connection h))) (TcpSender.outbound (TcpConnection.sender (connection h'))) ∧
    Forall (own_datagram (IpHost.config h)) (IpHostOutput.datagrams out).

Lemma connection_op_wp P h o : HInv P h → cop_ok o → pushed (connection h) + TcpConnection.offered [o] + 2 ≤ u64_max →
  ('(segs, c) ← TcpConnection.step (connection h) o;
   out ← wrap_tcp_segments (with_connection h c) segs; mret (out, with_connection h c))
  ⇓ host_step_ok h (TcpConnection.offered [o]) (closes o).
Proof.
  intros HI Ho Hmax. apply (wrap_after P); [done..|]. intros segs c P' Heq HI' Hw _.
  pose proof (step_stream P (connection h) o (hi_connection _ _ HI) Ho Hmax) as Hs. rewrite Heq in Hs.
  wp_apply (wrap_wp (with_connection h c) segs); [done|]. intros out [Hf _]. exists P'. split_and!; [done..|].
  by apply (carries_own h segs).
Qed.

(** ** ICMP *)

Lemma reply_wf m r : IcmpMessage.wf m → IcmpMessage.echo_reply_from_request m = Some r →
  IcmpMessage.wf r ∧ r = IcmpMessage.mk ICMP_ECHO_REPLY 0 (IcmpMessage.identifier m) (IcmpMessage.sequence_number m)
    (IcmpMessage.payload m).
Proof.
  unfold IcmpMessage.echo_reply_from_request. intros (Ht & Hc & Hi & Hs & Hl). destruct (_ || _); [done|].
  intros [= <-]. split; [|done]. unfold IcmpMessage.wf. cbn. unfold ICMP_ECHO_REPLY, u8. split_and!; try done.
Qed.

Lemma icmp_len m bs : IcmpMessage.wf m → IcmpMessage.serialize m = Ret bs → blen bs = 8 + blen (IcmpMessage.payload m).
Proof.
  intros Hm Hs. destruct (icmp_serialize_eq m Hm) as (c & Hs' & _).
  assert (bs = icmp_head m ++ put_u16 c ++ icmp_tail m) as -> by congruence.
  unfold icmp_head, icmp_tail. rewrite !blen_app. change (blen (put_u16 _)) with 2. change (blen (put_u8 _)) with 1. lia.
Qed.

(** At most one datagram comes out, an echo reply from [dst_ip] to [src_ip]. *)
Lemma receive_icmp_wp src_ip dst_ip payload : 20 + blen payload ≤ u16_max →
  receive_icmp src_ip dst_ip payload ⇓ λ out,
    Forall (λ d, Ipv4Datagram.wf d ∧ src d = dst_ip ∧ protocol d = IPV4_PROTOCOL_ICMP) (IpHostOutput.datagrams out).
Proof.
  intros Hlen. unfold receive_icmp. wp_step. wp_apply (icmp_parse_wp payload); [lia|]. intros [m|e] H; [|by wp_step].
  destruct H as (_ & _ & Hwf & c & Hp). destruct (IcmpMessage.echo_reply_from_request m) as [r|] eqn:Er; [|by wp_step].
  destruct (reply_wf m r Hwf Er) as [Hr ->]. destruct (icmp_roundtrip _ Hr) as (bs & Hs & _).
  pose proof (icmp_len _ bs Hr Hs) as Hbs. cbn in Hbs. rewrite Hs. wp_step. wp_step. wp_step. cbn.
  apply Forall_singleton. split_and!; [|done|done].
  assert (Hpl : blen payload = 8 + blen (IcmpMessage.payload m)).
  { rewrite Hp. unfold icmp_head, icmp_tail. rewrite !blen_app. change (blen (put_u16 _)) with 2. change (blen (put_u8 _)) with 1. lia. }
  unfold Ipv4Datagram.wf, Ipv4Datagram.new_icmp, Ipv4Datagram.new. cbn. unfold IPV4_PROTOCOL_ICMP. split_and!; ulia.
Qed.

(** ** Incoming packets *)

Lemma parsed_seg_ok s : TcpSegment.wf s → seg_ok s.
Proof. intros (_ & _ & ? & ? & ? & ?). unfold seg_ok. split_and!; try done. lia. Qed.

Lemma receive_tcp_wp P h src_ip dst_ip payload : HInv P h → blen payload ≤ u16_max → pushed (connection h) + 2 ≤ u64_max →
  receive_tcp h src_ip dst_ip payload ⇓ host_step_ok h 0 false.
Proof.
  intros HI Hlen Hmax. unfold receive_tcp. wp_step. wp_apply (tcp_parse_wp src_ip dst_ip payload Hlen).
  assert (Hsame : ∀ events, host_step_ok h 0 false (IpHostOutput.mk [] events, h)).
  { intros events. exists P. split_and!; try done. apply stream_same. }
  intros [s|e] H; [|wp_step; apply Hsame]. destruct H as [Hwf _].
  destruct (_ || _); [wp_step; apply Hsame|]. set (events := _ ++ _). clearbody events.
  pose proof (connection_op_wp P h (TcpConnection.ReceiveSegment s) HI (parsed_seg_ok s Hwf)) as Hop.
  specialize (Hop ltac:(cbn; lia)). cbn [TcpConnection.step] in Hop.
  destruct (TcpConnection.receive_segment (connection h) s) as [[segs c]|]; [|done]. rewrite bind_Ret in Hop |- *.
  destruct (wrap_tcp_segments (with_connection h c) segs) as [out|]; [|done]. rewrite bind_Ret in Hop |- *. by wp_step.
Qed.

Lemma receive_datagram_wp P h d : HInv P h → Ipv4Datagram.wf d → pushed (connection h) + 2 ≤ u64_max →
  receive_datagram h d ⇓ host_step_ok h 0 false.
Proof.
  intros HI (_ & _ & _ & _ & Hlen) Hmax. unfold receive_datagram.
  assert (Hsame : host_step_ok h 0 false (IpHostOutput.default, h)) by (exists P; split_and!; try done; apply stream_same).
  case_bool_decide as Hd; cbn [negb]; [|by wp_step]. destruct (_ =? IPV4_PROTOCOL_ICMP).
  { wp_step. wp_apply (receive_icmp_wp (src d) (dst d) _ Hlen). intros out Ho. wp_step. exists P. split_and!; try done; [apply stream_same|].
    eapply Forall_impl; [exact Ho|]. intros d' (? & ? & ?). split; [done|]. split; [by etrans|by left]. }
  destruct (_ && _); [|by wp_step]. apply (receive_tcp_wp P); [done|lia|done].
Qed.

Lemma receive_ipv4_bytes_wp P h packet : HInv P h → pushed (connection h) + 2 ≤ u64_max →
  receive_ipv4_bytes h packet ⇓ host_step_ok h 0 false.
Proof.
  intros HI Hmax. unfold receive_ipv4_bytes. wp_step. wp_apply (ipv4_parse_wp packet). intros [d|e] H.
  - apply (receive_datagram_wp P); [done|apply H|done].
  - wp_step. exists P. split_and!; try done. apply stream_same.
Qed.

Definition hop_ok (o : op) : Prop := match o with Tick ms => 0 ≤ ms | _ => True end.

Lemma host_step_wp P h o : HInv P h → hop_ok o → pushed (connection h) + offered [o] + 2 ≤ u64_max →
  step h o ⇓ host_step_ok h (offered [o]) (match o with Close => true | _ => false end).
Proof.
  intros HI Ho Hmax. destruct o as [|data| |ms|packet]; cbn [step].
  - apply (connection_op_wp P h TcpConnection.Connect HI I Hmax).
  - pose proof (connection_op_wp P h (TcpConnection.Write data) HI I Hmax) as Hop. cbn [TcpConnection.step] in Hop.
    unfold write. destruct (TcpConnection.write (connection h) data) as [[[n segs] c]|]; [|done].
    rewrite !bind_Ret, ?bind_mret in Hop. rewrite !bind_Ret.
    destruct (wrap_tcp_segments (with_connection h c) segs) as [out|]; [|done]. exact Hop.
  - apply (connection_op_wp P h TcpConnection.Close HI I Hmax).
  - apply (connection_op_wp P h (TcpConnection.Tick ms) HI Ho Hmax).
  - apply (receive_ipv4_bytes_wp P); [done|]. cbn in Hmax. lia.
Qed.

Lemma own_wf c ds : Forall (own_datagram c) ds → Forall Ipv4Datagram.wf ds.
Proof. intros Hd. eapply Forall_impl; [exact Hd|]. by intros d []. Qed.

Lemma host_write_wp P h data : HInv P h → pushed (connection h) + blen data + 2 ≤ u64_max →
  write h data ⇓ λ '(_, out, h'), host_step_ok h (blen data) false (out, h').
Proof.
  intros HH Hmax. pose proof (host_step_wp P h (Write data) HH I ltac:(cbn; lia)) as Hs. cbn [step] in Hs.
  apply wp_bind in Hs. eapply wp_mono; [exact Hs|]. intros [[k out] h'] Ho. unfold wp, mret, exec_mret in Ho.
  cbn [offered] in Ho. by rewrite Z.add_0_r in Ho.
Qed.

Lemma is_established_wp P h : HInv P h → is_established h ⇓ λ _, True.
Proof.
  intros HH. unfold is_established, TcpConnection.is_established. destruct (_ && _); [|by wp_step].
  wp_step. wp_apply send_wp; [apply HH|]. intros m _. by wp_step.
Qed.

Lemma offered_cons o ops : offered (o :: ops) = offered [o] + offered ops.
Proof. destruct o; cbn; lia. Qed.

Lemma host_offered_nonneg ops : 0 ≤ offered ops.
Proof. induction ops as [|[|data| | |] ops IH]; cbn; try lia. pose proof (blen_nonneg data). lia. Qed.

Lemma host_run_wp P h ops : HInv P h → Forall hop_ok ops → pushed (connection h) + offered ops + 2 ≤ u64_max →
  run h ops ⇓ λ '(out, h'), ∃ P', HInv P' h' ∧ IpHost.config h' = IpHost.config h ∧
    Forall (own_datagram (IpHost.config h)) (IpHostOutput.datagrams out).
Proof.
  intros HI Hops. revert P h HI. induction Hops as [|o ops Ho _ IH]; intros P h HI Hmax; cbn [run].
  { wp_step. exists P. by split_and!. }
  rewrite (offered_cons o ops) in Hmax. pose proof (host_offered_nonneg ops). wp_step.
  wp_apply (host_step_wp P h o HI Ho); [lia|]. intros [out h1] (P1 & HI1 & Hc & Hst & Hd). wp_step.
  pose proof (ss_pushed _ _ _ _ Hst). wp_apply (IH P1 h1 HI1); [lia|]. intros [out' h2] (P2 & HI2 & Hc2 & Hd2). wp_step.
  exists P2. split_and!; [done|congruence|]. cbn. apply Forall_app. split; [done|].
  by rewrite <- Hc.
Qed.
End host.

(** A host never panics and only sends datagrams it can serialise. From a new host whose
    payload limit leaves room for both headers, through any packets (any bytes), writes,
    closes and passing of time, every step returns, the connection keeps its
    invariant, and every datagram produced fits IPv4, comes from the host's address, and is
    an ICMP message or carries, with a valid checksum, a segment from the host's port
    to its peer's. *)
Theorem ip_host_safe config ops :
  TcpConnectionConfig.ok (IpHostConfig.connection_config config) →
  TcpSenderConfig.max_payload_size (IpHostConfig.sender_config config) ≤ 65495 →
  Forall hop_ok ops → IpHost.offered ops + 2 ≤ u64_max →
  ∃ out h P, (h ← IpHost.new config; IpHost.run h ops) = Ret (out, h) ∧ HInv P h ∧
    Forall (own_datagram config) (IpHostOutput.datagrams out).
Proof.
  intros Hc Hm Hops Hmax. pose proof (new_host_wp config Hc Hm) as H. wp_inv H. destruct H as (HI & Hcf & Hp).
  rewrite Heq, bind_Ret. pose proof (host_run_wp [] r ops HI Hops ltac:(lia)) as H. wp_inv H.
  destruct r0 as [out h]. destruct H as (P & HI' & _ & Hd). exists out, h, P. by rewrite <- Hcf.
Qed.

Lemma ip_host_safe_witness :
  let config := IpHostConfig.tcp_demo (A4 x0a x00 x00 x01) (A4 x0a x00 x00 x02) 1234 80 (Wrap32.new 7) in
  let ops := [IpHost.Connect; IpHost.Write [x61; x62]; IpHost.ReceiveIpv4Bytes [x45; x00]; IpHost.Tick 3000; IpHost.Close] in
  ∃ out h P, (h ← IpHost.new config; IpHost.run h ops) = Ret (out, h) ∧ HInv P h ∧
    Forall (own_datagram config) (IpHostOutput.datagrams out).
Proof.
  intros config ops. apply ip_host_safe.
  - unfold TcpConnectionConfig.ok, TcpSenderConfig.ok, Wrap32.ok, u16, u32, u64. simpl. lia.
  - vm_compute. discriminate.
  - subst ops. rewrite !Forall_cons, Forall_nil. by split_and!.
  - vm_compute. discriminate.
Defined.

(** C35: The state of a host stays well formed. Take any host whose sender, reassembler,
    receiver, ports and payload limit satisfy their invariants, reached or not, and any
    event: a call of the application, time, or any bytes as a packet. As long as the bytes the application has
    offered stay below 2^64 - 2, the step returns, the invariants hold again, the configuration is the same, and every datagram
    put out is well formed and the host's own. *)
Theorem ip_host_preserves P h o :
  HInv P h → hop_ok o →
  ByteStream.bytes_pushed (TcpSender.outbound (TcpConnection.sender (IpHost.connection h)))
    + IpHost.offered [o] + 2 ≤ u64_max →
  ∃ out h' P', IpHost.step h o = Ret (out, h') ∧ HInv P' h' ∧ IpHost.config h' = IpHost.config h ∧
    Forall (own_datagram (IpHost.config h)) (IpHostOutput.datagrams out).
Proof.
  intros HI Ho Hmax. pose proof (host_step_wp P h o HI Ho Hmax) as H. wp_inv H. destruct r as [out h'].
  destruct H as (P' & HI' & Hc & _ & Hd). by exists out, h', P'.
Qed.

(** C34: A ping is answered. An ICMP echo request for the host's address, from anyone, in a datagram with any time to
    live, identification and flags (and no options) and with any link padding behind it, makes the host send exactly one datagram and nothing
    else happens to it: on the wire the datagram is an IPv4 packet back to the sender
    whose ICMP message is an echo reply with the request's identifier, sequence
    number and payload. *)
Theorem ip_host_answers_ping h from ttl identification flags identifier sequence_number payload padding :
  u8 ttl → u16 identification → u16 flags →
  u16 identifier → u16 sequence_number → 28 + blen payload ≤ u16_max →
  ∃ request packet out reply_packet reply reply_icmp,
    IcmpMessage.serialize (IcmpMessage.echo_request identifier sequence_number payload) = Ret request ∧
    Ipv4Datagram.serialize (Ipv4Datagram.mk
      (Ipv4Header.mk from (IpHost.local_ip h) ttl IPV4_PROTOCOL_ICMP identification flags) request) = Ret packet ∧
    IpHost.receive_ipv4_bytes h (packet ++ padding) = Ret (out, h) ∧
    IpHostOutput.datagrams out = [reply] ∧
    Ipv4Datagram.serialize reply = Ret reply_packet ∧
    Ipv4Datagram.parse_bytes reply_packet = Ret (Ok (Ipv4Datagram.new_icmp (IpHost.local_ip h) from reply_icmp)) ∧
    IcmpMessage.parse_bytes reply_icmp
    = Ret (Ok (IcmpMessage.mk ICMP_ECHO_REPLY 0 identifier sequence_number payload)).
Proof.
  intros Httl Hid Hfl Hi Hs Hlen. pose proof (blen_nonneg payload).
  set (m := IcmpMessage.echo_request identifier sequence_number payload).
  set (r := IcmpMessage.mk ICMP_ECHO_REPLY 0 identifier sequence_number payload).
  assert (Hm : IcmpMessage.wf m) by (unfold IcmpMessage.wf; cbn; unfold ICMP_ECHO_REQUEST; split_and!; ulia || done).
  assert (Hr : IcmpMessage.wf r) by (unfold IcmpMessage.wf; cbn; unfold ICMP_ECHO_REPLY; split_and!; ulia || done).
  destruct (icmp_roundtrip m Hm) as (bs & Hbs & Hp). destruct (icmp_roundtrip r Hr) as (rbs & Hrbs & Hrp).
  pose proof (icmp_len m bs Hm Hbs) as Hl. pose proof (icmp_len r rbs Hr Hrbs) as Hrl. cbn in Hl, Hrl.
  assert (Hd : ∀ a b x, blen x = 8 + blen payload → Ipv4Datagram.wf (Ipv4Datagram.new_icmp a b x)).
  { intros a b x Hx. unfold Ipv4Datagram.wf. cbn. unfold IPV4_PROTOCOL_ICMP. split_and!; ulia. }
  set (d := Ipv4Datagram.mk (Ipv4Header.mk from (IpHost.local_ip h) ttl IPV4_PROTOCOL_ICMP identification flags) bs).
  assert (Hdr : Ipv4Datagram.wf d) by (unfold Ipv4Datagram.wf; cbn; unfold IPV4_PROTOCOL_ICMP; split_and!; ulia || done).
  destruct (ipv4_roundtrip_padded _ padding Hdr) as (packet & Hpk & Hpp).
  destruct (wire_roundtrip (WireFormat := ipv4_wire) _ (Hd (IpHost.local_ip h) from rbs Hrl)) as (rpk & Hrpk & Hrpp).
  eexists bs, packet, (IpHostOutput.mk [Ipv4Datagram.new_icmp (IpHost.local_ip h) from rbs] _), rpk, _, rbs.
  split_and!; [done|done| |reflexivity|exact Hrpk|exact Hrpp|exact Hrp].
  unfold IpHost.receive_ipv4_bytes. rewrite Hpp, bind_Ret. unfold IpHost.receive_datagram. cbn.
  rewrite bool_decide_true by done. cbn. unfold IpHost.receive_icmp. rewrite Hp, bind_Ret. cbn.
  fold r. rewrite Hrbs, bind_Ret. reflexivity.
Qed.

(** A host that has just been created. *)
Example fresh_host : IpHost.t :=
  IpHost.mk (IpHostConfig.mk (A4 x0a x00 x00 x01) (A4 x0a x00 x00 x02) 1234 80 100 100 (Wrap32.new 0) TcpSenderConfig.default)
    fresh_connection.

Lemma fresh_host_inv : HInv [] fresh_host.
Proof. split; [apply fresh_connection_inv|done|done|vm_compute; discriminate]. Qed.

Lemma ip_host_preserves_witness :
  ∃ out h' P', IpHost.step fresh_host (IpHost.Write [x61]) = Ret (out, h') ∧ HInv P' h' ∧
    IpHost.config h' = IpHost.config fresh_host ∧
    Forall (own_datagram (IpHost.config fresh_host)) (IpHostOutput.datagrams out).
Proof. apply (ip_host_preserves []); [apply fresh_host_inv|exact I|vm_compute; discriminate]. Defined.

Lemma ip_host_answers_ping_witness :
  ∃ request packet out reply_packet reply reply_icmp,
    IcmpMessage.serialize (IcmpMessage.echo_request 7 1 [x70; x69]) = Ret request ∧
    Ipv4Datagram.serialize (Ipv4Datagram.mk
      (Ipv4Header.mk (A4 x08 x08 x08 x08) (IpHost.local_ip fresh_host) 1 IPV4_PROTOCOL_ICMP 4711 0) request) = Ret packet ∧
    IpHost.receive_ipv4_bytes fresh_host (packet ++ [x00]) = Ret (out, fresh_host) ∧
    IpHostOutput.datagrams out = [reply] ∧
    Ipv4Datagram.serialize reply = Ret reply_packet ∧
    Ipv4Datagram.parse_bytes reply_packet
    = Ret (Ok (Ipv4Datagram.new_icmp (IpHost.local_ip fresh_host) (A4 x08 x08 x08 x08) reply_icmp)) ∧
    IcmpMessage.parse_bytes reply_icmp = Ret (Ok (IcmpMessage.mk ICMP_ECHO_REPLY 0 7 1 [x70; x69])).
Proof. apply ip_host_answers_ping; unfold u8, u16, blen; simpl; lia. Defined.

(** What a packet does: nothing to the connection, answered at most by ICMP, or what the
    segment it carries does. *)
Lemma receive_cases h packet out h' :
  IpHost.receive_ipv4_bytes h packet = Ret (out, h') →
  (h' = h ∧ Forall (λ d, Ipv4Header.protocol (Ipv4Datagram.header d) = IPV4_PROTOCOL_ICMP) (IpHostOutput.datagrams out)) ∨
  ∃ d s segs c,
    Ipv4Datagram.parse_bytes packet = Ret (Ok d) ∧
    Ipv4Header.src (Ipv4Datagram.header d) = IpHost.peer_ip h ∧
    Ipv4Header.dst (Ipv4Datagram.header d) = IpHost.local_ip h ∧
    Ipv4Header.protocol (Ipv4Datagram.header d) = IPV4_PROTOCOL_TCP ∧
    TcpSegment.parse_ipv4_bytes (IpHost.peer_ip h) (IpHost.local_ip h) (Ipv4Datagram.payload d) = Ret (Ok s) ∧
    TcpConnection.belongs_to_this_connection (IpHost.connection h) s = true ∧
    TcpConnection.receive_segment (IpHost.connection h) s = Ret (segs, c) ∧
    h' = IpHost.with_connection h c.
Proof.
  intros Hr. unfold IpHost.receive_ipv4_bytes in Hr. destruct (Ipv4Datagram.parse_bytes packet) as [[d|e]|] eqn:Ed; [| |done].
  2:{ injection Hr as <- <-. by left. }
  rewrite bind_Ret in Hr. unfold IpHost.receive_datagram in Hr.
  assert (Hno : ∀ events X, Ret (IpHostOutput.mk [] events, h) = Ret (out, h') →
    (h' = h ∧ Forall (λ d, Ipv4Header.protocol (Ipv4Datagram.header d) = IPV4_PROTOCOL_ICMP) (IpHostOutput.datagrams out)) ∨ X).
  { intros events X [= <- <-]. by left. }
  case_bool_decide as Hdst; cbn [negb] in Hr; [|exact (Hno _ _ Hr)].
  destruct (Ipv4Header.protocol (Ipv4Datagram.header d) =? IPV4_PROTOCOL_ICMP).
  { unfold IpHost.receive_icmp in Hr. destruct (IcmpMessage.parse_bytes _) as [[m|e]|]; [|exact (Hno _ _ Hr)|done].
    rewrite bind_Ret in Hr. destruct (IcmpMessage.echo_reply_from_request m) as [r|]; [|exact (Hno _ _ Hr)].
    destruct (IcmpMessage.serialize r) as [bs|]; [|done]. injection Hr as <- <-. left. split; [done|]. by constructor. }
  destruct (Z.eqb_spec (Ipv4Header.protocol (Ipv4Datagram.header d)) IPV4_PROTOCOL_TCP) as [Hpr|]; cbn [andb] in Hr; [|exact (Hno _ _ Hr)].
  case_bool_decide as Hsrc; [|exact (Hno _ _ Hr)]. unfold IpHost.receive_tcp in Hr.
  destruct (TcpSegment.parse_ipv4_bytes _ _ _) as [[s|e]|] eqn:Es; [|exact (Hno _ _ Hr)|done]. rewrite bind_Ret in Hr.
  destruct (negb (_ =? _) || negb (_ =? _)) eqn:Hb; [exact (Hno _ _ Hr)|]. rewrite <- negb_andb in Hb. apply negb_false_iff in Hb.
  destruct (TcpConnection.receive_segment _ s) as [[segs c]|] eqn:Ec; [|done]. rewrite bind_Ret in Hr.
  destruct (IpHost.wrap_tcp_segments _ segs) as [w|]; [|done]. injection Hr as _ <-.
  rewrite Hsrc, Hdst in Es. right. by exists d, s, segs, c.
Qed.

(** C25: Only the peer's segments reach the connection. If a packet changes the host or
    makes it send TCP, then the packet is an IPv4 datagram from the peer to the host with a
    correct header checksum, carrying a TCP segment with a correct checksum and the
    connection's two ports, and the new state is that of the connection after exactly
    that segment. *)
Theorem ip_host_authentic h packet out h' :
  IpHost.receive_ipv4_bytes h packet = Ret (out, h') →
  h' ≠ h ∨ Exists (λ d, Ipv4Header.protocol (Ipv4Datagram.header d) ≠ IPV4_PROTOCOL_ICMP) (IpHostOutput.datagrams out) →
  ∃ d s segs c,
    Ipv4Datagram.parse_bytes packet = Ret (Ok d) ∧
    Ipv4Header.src (Ipv4Datagram.header d) = IpHost.peer_ip h ∧
    Ipv4Header.dst (Ipv4Datagram.header d) = IpHost.local_ip h ∧
    Ipv4Header.protocol (Ipv4Datagram.header d) = IPV4_PROTOCOL_TCP ∧
    TcpSegment.parse_ipv4_bytes (IpHost.peer_ip h) (IpHost.local_ip h) (Ipv4Datagram.payload d) = Ret (Ok s) ∧
    TcpHeader.src_port (TcpSegment.header s) = TcpConnection.peer_port (IpHost.connection h) ∧
    TcpHeader.dst_port (TcpSegment.header s) = TcpConnection.local_port (IpHost.connection h) ∧
    csum (sub 0 (header_length packet) packet) = 0 ∧
    csum (pseudo_header (list4 (IpHost.peer_ip h)) (list4 (IpHost.local_ip h)) (blen (Ipv4Datagram.payload d)) ++
          Ipv4Datagram.payload d) = 0 ∧
    TcpConnection.receive_segment (IpHost.connection h) s = Ret (segs, c) ∧
    h' = IpHost.with_connection h c.
Proof.
  intros Hr Hch. destruct (receive_cases h packet out h' Hr) as [[-> Hd]|(d & s & segs & c & Hp & Hsrc & Hdst & Hpr & Hs & Hb & Hc & Hh)]; [exfalso|].
  { destruct Hch as [?|[d [Hin Hp]]%Exists_exists]; [done|]. rewrite Forall_forall in Hd. by apply Hp, Hd. }
  exists d, s, segs, c. apply andb_true_iff in Hb as [Hb1%Z.eqb_eq Hb2%Z.eqb_eq].
  pose proof (ipv4_parse_wp packet) as Hip. rewrite Hp in Hip. destruct Hip as [(_ & _ & _ & Hz & _) (_ & _ & _ & _ & Hlen)].
  pose proof (tcp_parse_wp (IpHost.peer_ip h) (IpHost.local_ip h) (Ipv4Datagram.payload d)
    ltac:(pose proof (blen_nonneg (Ipv4Datagram.payload d)); ulia)) as Ht.
  rewrite Hs in Ht. destruct Ht as (_ & Hz' & _). by split_and!.
Qed.

(** The peer's opening segment, as an IPv4 packet. *)
Example syn_segment : TcpSegment.t :=
  TcpSegment.mk (TcpHeader.mk 80 1234 (Wrap32.new 5) None 1000 true false false) [].
Example syn_packet : bytes :=
  wire_bytes (Ipv4Datagram.serialize (Ipv4Datagram.new_tcp (A4 x0a x00 x00 x02) (A4 x0a x00 x00 x01)
    (wire_bytes (TcpSegment.serialize_ipv4 syn_segment (A4 x0a x00 x00 x02) (A4 x0a x00 x00 x01))))).

Lemma ip_host_authentic_witness :
  ∃ out h', IpHost.receive_ipv4_bytes fresh_host syn_packet = Ret (out, h') ∧ h' ≠ fresh_host ∧
  ∃ d s segs c,
    Ipv4Datagram.parse_bytes syn_packet = Ret (Ok d) ∧
    Ipv4Header.src (Ipv4Datagram.header d) = IpHost.peer_ip fresh_host ∧
    Ipv4Header.dst (Ipv4Datagram.header d) = IpHost.local_ip fresh_host ∧
    Ipv4Header.protocol (Ipv4Datagram.header d) = IPV4_PROTOCOL_TCP ∧
    TcpSegment.parse_ipv4_bytes (IpHost.peer_ip fresh_host) (IpHost.local_ip fresh_host) (Ipv4Datagram.payload d) = Ret (Ok s) ∧
    TcpHeader.src_port (TcpSegment.header s) = TcpConnection.peer_port (IpHost.connection fresh_host) ∧
    TcpHeader.dst_port (TcpSegment.header s) = TcpConnection.local_port (IpHost.connection fresh_host) ∧
    csum (sub 0 (header_length syn_packet) syn_packet) = 0 ∧
    csum (pseudo_header (list4 (IpHost.peer_ip fresh_host)) (list4 (IpHost.local_ip fresh_host)) (blen (Ipv4Datagram.payload d)) ++
          Ipv4Datagram.payload d) = 0 ∧
    TcpConnection.receive_segment (IpHost.connection fresh_host) s = Ret (segs, c) ∧
    h' = IpHost.with_connection fresh_host c.
Proof.
  destruct (IpHost.receive_ipv4_bytes fresh_host syn_packet) as [[out h']|] eqn:E; [|by vm_compute in E].
  assert (Hne : h' ≠ fresh_host) by (vm_compute in E; injection E as <- <-; intros [=]).
  exists out, h'. split_and!; [done|done|]. exact (ip_host_authentic fresh_host syn_packet out h' E (or_introl Hne)).
Defined.

(** A datagram that carries a segment hands it to the connection. *)
Lemma receive_carried P a b s d packet padding :
  conveys (IpHost.config a) s d → Ipv4Datagram.serialize d = Ret packet → HInv P b →
  IpHost.local_ip b = IpHost.peer_ip a → IpHost.peer_ip b = IpHost.local_ip a →
  TcpHeader.src_port (TcpSegment.header s) = IpHost.peer_port b →
  TcpHeader.dst_port (TcpSegment.header s) = IpHost.local_port b →
  ∃ events, IpHost.receive_ipv4_bytes b (packet ++ padding) =
    ('(segs, c) ← TcpConnection.receive_segment (IpHost.connection b) s;
     out ← IpHost.wrap_tcp_segments (IpHost.with_connection b c) segs;
     mret (IpHostOutput.extend (IpHostOutput.mk [] events) out, IpHost.with_connection b c)).
Proof.
  intros [Hwf Hs Hd Hpr Hp] Hpk HI Hl Hpe Hsp Hdp.
  destruct (ipv4_roundtrip_padded d padding Hwf) as (packet' & Hpk' & Hpp).
  rewrite Hpk in Hpk'. injection Hpk' as <-. eexists.
  unfold IpHost.receive_ipv4_bytes. rewrite Hpp, bind_Ret. unfold IpHost.receive_datagram. rewrite Hs, Hd, Hpr.
  rewrite bool_decide_true by (symmetry; exact Hl). cbn [negb].
  change (IPV4_PROTOCOL_TCP =? IPV4_PROTOCOL_ICMP) with false. change (IPV4_PROTOCOL_TCP =? IPV4_PROTOCOL_TCP) with true. cbn [andb].
  rewrite bool_decide_true by (symmetry; exact Hpe). unfold IpHost.receive_tcp.
  rewrite Hp, bind_Ret, (hi_local _ _ HI), (hi_peer _ _ HI), Hsp, Hdp, !Z.eqb_refl. cbn [negb orb]. reflexivity.
Qed.

(** C14: The IP layer is transparent to TCP. A datagram in which one host carries a segment
    to its peer, delivered as bytes with any padding to a host with the mirrored
    addresses and ports, has the effect of handing that segment to the peer's connection, and
    whatever the connection answers is carried back the same way, segment by segment. *)
Theorem ip_host_carries_tcp P a b s d padding :
  carries_segment (IpHost.config a) s d → TcpSegment.wf s →
  HInv P b → ByteStream.bytes_pushed (TcpSender.outbound (TcpConnection.sender (IpHost.connection b))) + 2 ≤ u64_max →
  IpHost.local_ip b = IpHost.peer_ip a → IpHost.peer_ip b = IpHost.local_ip a →
  TcpHeader.src_port (TcpSegment.header s) = IpHost.peer_port b →
  TcpHeader.dst_port (TcpSegment.header s) = IpHost.local_port b →
  ∃ packet segs c out,
    Ipv4Datagram.serialize d = Ret packet ∧
    TcpConnection.receive_segment (IpHost.connection b) s = Ret (segs, c) ∧
    IpHost.receive_ipv4_bytes b (packet ++ padding) = Ret (out, IpHost.with_connection b c) ∧
    Forall2 (carries_segment (IpHost.config b)) segs (IpHostOutput.datagrams out).
Proof.
  intros Hcs Hs HI Hmax Hl Hpe Hsp Hdp. destruct (ipv4_roundtrip_padded d [] (cs_wf _ _ _ Hcs)) as (packet & Hpk & _).
  pose proof (connection_step_wp P b (TcpConnection.ReceiveSegment s) HI (parsed_seg_ok s Hs)) as Hc.
  specialize (Hc ltac:(cbn; lia)). cbn [TcpConnection.step] in Hc. wp_inv Hc. destruct r as [segs c]. destruct Hc as (P' & HI' & Hw & _).
  pose proof (wrap_wp (IpHost.with_connection b c) segs Hw) as Hwr. wp_inv Hwr. destruct Hwr as [Hds _].
  destruct (receive_carried P a b s d packet padding (carries_conveys _ _ _ Hcs) Hpk HI Hl Hpe Hsp Hdp) as [events Hr].
  rewrite Heq, bind_Ret, Heq0, bind_Ret in Hr. by eexists packet, segs, c, _.
Qed.

(** The peer of [fresh_host]. *)
Example peer_config : IpHostConfig.t :=
  IpHostConfig.mk (A4 x0a x00 x00 x02) (A4 x0a x00 x00 x01) 80 1234 100 100 (Wrap32.new 5) TcpSenderConfig.default.

Lemma ip_host_carries_tcp_witness :
  let a := IpHost.mk peer_config fresh_connection in
  let d := Ipv4Datagram.new_tcp (A4 x0a x00 x00 x02) (A4 x0a x00 x00 x01)
    (wire_bytes (TcpSegment.serialize_ipv4 syn_segment (A4 x0a x00 x00 x02) (A4 x0a x00 x00 x01))) in
  ∃ packet segs c out,
    Ipv4Datagram.serialize d = Ret packet ∧
    TcpConnection.receive_segment (IpHost.connection fresh_host) syn_segment = Ret (segs, c) ∧
    IpHost.receive_ipv4_bytes fresh_host (packet ++ [x00; x00]) = Ret (out, IpHost.with_connection fresh_host c) ∧
    Forall2 (carries_segment (IpHost.config fresh_host)) segs (IpHostOutput.datagrams out).
Proof.
  intros a d.
  apply (ip_host_carries_tcp [] a fresh_host syn_segment d [x00; x00]); try reflexivity; try apply fresh_host_inv.
  - split; [|done|by vm_compute]. unfold Ipv4Datagram.wf, u8, u16. vm_compute. split_and!; discriminate.
  - unfold TcpSegment.wf, Wrap32.ok, u16, u32, blen. simpl. split_and!; try lia. intros x [=].
Defined.
