(* ===== verification/ip_host_window.v ===== *)
(** * The receive window of a host

    [IpHost] reports payloads as events when they arrive and never reads the stream that its
    receiver assembles.  So the receive buffer only fills up: the window that a host advertises is what is
    left of its capacity, and once that many bytes have arrived it is closed for good. *)

From S2P Require Import prelude wrapping_integers byte_stream btree_map tcp_message stream.
From S2P Require Import reassembler checksum ipv4_datagram tcp_segment tcp_receiver.
From S2P Require Import tcp_sender tcp_connection ip_host.

#[local] Open Scope Z_scope.

(** ** What is never read *)

(** The receiver has gone from [r] to [r'], and nothing has been read from its stream. *)
Record unread (r r' : TcpReceiver.t) : Prop := {
  un_capacity : ByteStream.capacity (TcpReceiver.output r') = ByteStream.capacity (TcpReceiver.output r);
  un_popped : ByteStream.bytes_popped (TcpReceiver.output r') = ByteStream.bytes_popped (TcpReceiver.output r);
  un_pushed : ByteStream.bytes_pushed (TcpReceiver.output r) ≤ ByteStream.bytes_pushed (TcpReceiver.output r');
}.

#[export] Instance unread_preorder : PreOrder unread.
Proof. split; [by split|]. intros r1 r2 r3 [] []. split; congruence || lia. Qed.

Lemma receive_unread self m : TRInv self → msg_ok m → TcpReceiver.receive self m ⇓ λ '(_, self'), unread self self'.
Proof.
  intros [HR Hi] Hm. unfold TcpReceiver.receive. destruct (TcpSenderMessage.rst m); [by wp_step|].
  assert (Hat : ∀ self0 i, TcpReceiver.reassembler self0 = TcpReceiver.reassembler self → Wrap32.ok i →
    TcpReceiver.receive_at self0 i m ⇓ λ '(_, self'), unread self self').
  { intros self0 i E Hok. wp_apply (receive_at_wp self0 i m); [by rewrite E|done|done|].
    intros [res self'] (_ & _ & Hc & n & _ & _ & _ & Hn). unfold TcpReceiver.output in *. rewrite E in Hn, Hc.
    destruct (stream_index m n) as [k|]; [destruct Hn as [Hk Hn]|destruct Hn as [_ ->]; by split; unfold TcpReceiver.output; rewrite ?E].
    pose proof (try_insert_wp (TcpReceiver.reassembler self) k (TcpSenderMessage.payload m) (TcpSenderMessage.fin m) HR Hk (proj2 Hm)) as Ht.
    rewrite Hn in Ht. destruct res as [[]|e]; [|destruct Ht as [Hr _]; by split; unfold TcpReceiver.output; rewrite Hr].
    destruct Ht as (_ & new & [_ _ _ _ Hp _ Hpu _ _ _ _ _ _]). unfold Reassembler.first_unassembled in Hpu. pose proof (blen_nonneg new).
    split; unfold TcpReceiver.output; [done|rewrite Hp|]; destruct (TcpSenderMessage.fin m); cbn in *; done || lia. }
  destruct (TcpReceiver.isn self) as [i|] eqn:Ei.
  - case_match; [by wp_step|]. apply Hat; [done|by apply Hi].
  - case_match; [by wp_step|]. apply Hat; [done|apply Hm].
Qed.

(** ** Connections and hosts *)

Section connection.
Import TcpConnection.
Implicit Types (c : TcpConnection.t).

(** Only the application reads. *)
Lemma connection_unread P c o segs c' : CInv P c → cop_ok o → (∀ len, o ≠ ReadInbound len) →
  step c o = Ret (segs, c') → unread (receiver c) (receiver c').
Proof.
  intros [_ _ _ HT] Ho Hr H.
  assert (Hflush : ∀ c0, receiver c0 = receiver c → ∀ segs c', flush_sender c0 = Ret (segs, c') → unread (receiver c) (receiver c')).
  { intros c0 E segs0 c1 Hf. apply flush_keeps in Hf. by rewrite Hf, E. }
  destruct o as [|data| |seg|ms|len]; cbn [step] in H; [by eapply (Hflush c)| |by eapply Hflush; [|exact H]| | |by destruct (Hr len)].
  - unfold write in H. destruct (ByteStream.push _ _) as [[n o]|]; [|done]. rewrite bind_Ret in H.
    destruct (flush_sender _) as [[segs0 c0]|] eqn:E; [|done]. injection H as _ <-. by eapply Hflush; [|exact E].
  - unfold receive_segment in H. destruct (negb _); [by injection H as _ <-|].
    destruct (TcpSender.receive _ _) as [s|]; [|done]. rewrite bind_Ret in H.
    assert (Hlast : ∀ c0, (outgoing ← flush_sender c0;
        let '(outgoing, self) := outgoing in
        if (0 <? TcpSenderMessage.sequence_length (TcpSegment.to_sender_message seg)) && match outgoing with [] => true | _ => false end then
          ack ← make_pure_ack_segment self;
          mret (match ack with Some ack => outgoing ++ [ack] | None => outgoing end, self)
        else mret (outgoing, self)) = Ret (segs, c') → receiver c' = receiver c0).
    { intros c0. destruct (flush_sender c0) as [[out c1]|] eqn:E; [|done]. apply flush_keeps in E. rewrite bind_Ret.
      destruct (_ && _); [|by intros [= _ <-]]. destruct (make_pure_ack_segment c1); [|done]. by intros [= _ <-]. }
    destruct (_ || _); [|rewrite bind_mret in H; apply Hlast in H; by rewrite H].
    pose proof (receive_unread (receiver c) (TcpSegment.to_sender_message seg) HT (conj (proj1 Ho) (proj2 (proj2 (proj2 Ho))))) as Hu.
    cbn [with_sender receiver] in H. destruct (TcpReceiver.receive _ _) as [[[u|e] r]|]; [| |done]; rewrite !bind_Ret in H;
      apply Hlast in H; rewrite H; [done|]. etransitivity; [exact Hu|]. by split.
  - unfold tick in H. destruct (TcpReceiver.send _); [|done]. rewrite bind_Ret in H.
    destruct (TcpSender.tick _ _) as [[out s]|]; [|done]. by injection H as _ <-.
Qed.

End connection.

Abbreviation receiver_of h := (TcpConnection.receiver (IpHost.connection h)).
Abbreviation inbound h := (TcpReceiver.output (receiver_of h)).
Abbreviation offered_to h := (ByteStream.bytes_pushed (TcpSender.outbound (TcpConnection.sender (IpHost.connection h)))).

Section host.
Import IpHost.
Implicit Types (h : IpHost.t).

(** A step of a host leaves its connection alone or is a step of it, and never a reading one. *)
Lemma step_connection P h o out h' : HInv P h → hop_ok o → step h o = Ret (out, h') →
  connection h' = connection h ∨ ∃ co segs, cop_ok co ∧ (∀ len, co ≠ TcpConnection.ReadInbound len) ∧
    TcpConnection.step (connection h) co = Ret (segs, connection h').
Proof.
  intros HI Ho H. destruct o as [|data| |ms|packet]; cbn [step] in H.
  - right. unfold connect in H. destruct (TcpConnection.connect _) as [[segs c]|] eqn:E; [|done]. rewrite bind_Ret in H.
    destruct (wrap_tcp_segments _ _); [|done]. injection H as _ <-. by exists TcpConnection.Connect, segs.
  - right. unfold write in H. destruct (TcpConnection.write _ data) as [[[n segs] c]|] eqn:E; [|done]. rewrite bind_Ret in H.
    destruct (wrap_tcp_segments _ _); [|done]. injection H as _ <-. exists (TcpConnection.Write data), segs.
    cbn [TcpConnection.step]. by rewrite E.
  - right. unfold close in H. destruct (TcpConnection.close _) as [[segs c]|] eqn:E; [|done]. rewrite bind_Ret in H.
    destruct (wrap_tcp_segments _ _); [|done]. injection H as _ <-. by exists TcpConnection.Close, segs.
  - right. unfold tick in H. destruct (TcpConnection.tick _ ms) as [[segs c]|] eqn:E; [|done]. rewrite bind_Ret in H.
    destruct (wrap_tcp_segments _ _); [|done]. injection H as _ <-. by exists (TcpConnection.Tick ms), segs.
  - destruct (receive_cases _ _ _ _ H) as [[-> _]|(d & s & segs & c & Hp & _ & _ & _ & Hs & _ & Hc & ->)]; [by left|right].
    exists (TcpConnection.ReceiveSegment s), segs. split; [|done]. apply parsed_seg_ok.
    pose proof (ipv4_parse_wp packet) as Hd. rewrite Hp in Hd. destruct Hd as [_ (_ & _ & _ & _ & Hlen)].
    pose proof (tcp_parse_wp (peer_ip h) (local_ip h) (Ipv4Datagram.payload d)
      ltac:(pose proof (blen_nonneg (Ipv4Datagram.payload d)); ulia)) as Ht.
    rewrite Hs in Ht. apply Ht.
Qed.

Lemma run_unread P h ops : HInv P h → Forall hop_ok ops → offered_to h + offered ops + 2 ≤ u64_max →
  run h ops ⇓ λ '(_, h'), unread (receiver_of h) (receiver_of h') ∧ (∃ P', HInv P' h') ∧
    offered_to h' ≤ offered_to h + offered ops.
Proof.
  intros HI Hops. revert P h HI. induction Hops as [|o ops Ho _ IH]; intros P h HI Hmax; cbn [run].
  { wp_step. split_and!; [done|by exists P|cbn; lia]. }
  rewrite (offered_cons o ops) in Hmax. pose proof (host_offered_nonneg ops).
  pose proof (host_step_wp P h o HI Ho ltac:(lia)) as Hs. wp_inv Hs. rewrite Heq, bind_Ret. destruct r as [out1 h1].
  destruct Hs as (P1 & HI1 & _ & [_ _ _ Hpu _] & _). wp_step. wp_apply (IH P1 h1 HI1); [lia|]. intros [out2 h2] (Hu & HP & Hp2). wp_step.
  split_and!; [|done|rewrite (offered_cons o ops); lia]. etransitivity; [|exact Hu].
  destruct (step_connection P h o out1 h1 HI Ho Heq) as [-> |(co & segs & Hco & Hr & Hstep)]; [done|].
  by eapply connection_unread; [apply HI|exact Hco|exact Hr|exact Hstep].
Qed.

Lemma new_inbound config : TcpConnectionConfig.ok (IpHostConfig.connection_config config) →
  IpHost.new config ⇓ λ h, inbound h = ByteStream.new (IpHostConfig.receiver_capacity config).
Proof.
  intros (_ & Hl & _ & Hp & Hsc & Hrc & Hi & Hc). unfold new, TcpConnection.new. apply Z.eqb_neq in Hl, Hp. rewrite Hl, Hp.
  wp_step. wp_step. wp_step; [done|]. wp_step. wp_step; [done|]. wp_step. wp_apply (tcp_sender_new_wp _ _ _ Hsc Hi Hc). intros s _.
  wp_step. wp_apply (tcp_receiver_new_wp _ Hrc). intros r [_ ->]. wp_step. by wp_step.
Qed.

End host.

(** How much of its peer's stream a host has taken. *)
Definition taken (h : IpHost.t) : Z := ByteStream.bytes_pushed (inbound h).

(** C33: The receive window of a host only closes. From a new host, through any packets, writes, closes and passing of
    time: its receiver never takes more bytes than its capacity in the whole life of the
    connection, whatever the peer does; the window it advertises is what the bytes taken so far leave
    of that capacity (as far as a 16-bit field can say it); and whatever follows, the window does not
    grow. *)
Theorem ip_host_window_closes config ops ops' :
  TcpConnectionConfig.ok (IpHostConfig.connection_config config) →
  TcpSenderConfig.max_payload_size (IpHostConfig.sender_config config) ≤ 65495 →
  Forall hop_ok ops → Forall hop_ok ops' → IpHost.offered ops + IpHost.offered ops' + 2 ≤ u64_max →
  ∃ out h out' h', (h ← IpHost.new config; IpHost.run h ops) = Ret (out, h) ∧ IpHost.run h ops' = Ret (out', h') ∧
    taken h ≤ taken h' ≤ IpHostConfig.receiver_capacity config ∧
    ∃ m m', TcpReceiver.send (receiver_of h) = Ret m ∧ TcpReceiver.send (receiver_of h') = Ret m' ∧
      TcpReceiverMessage.window_size m = Z.min u16_max (IpHostConfig.receiver_capacity config - taken h) ∧
      TcpReceiverMessage.window_size m' ≤ TcpReceiverMessage.window_size m.
Proof.
  intros Hc Hm Hops Hops' Hmax. pose proof (wp_and _ _ _ (new_host_wp config Hc Hm) (new_inbound config Hc)) as H. wp_inv H.
  destruct H as [(HI & _ & Hp) Hin].
  rewrite Heq, bind_Ret. pose proof (host_offered_nonneg ops). pose proof (host_offered_nonneg ops').
  pose proof (run_unread [] r ops HI Hops ltac:(lia)) as H1. wp_inv H1. destruct r0 as [out h]. destruct H1 as (Hu & [P HI1] & Hp1).
  pose proof (run_unread P h ops' HI1 Hops' ltac:(lia)) as H2. wp_inv H2. destruct r0 as [out' h']. destruct H2 as (Hu' & [P' HI2] & _).
  exists out, h, out', h'. split; [done|]. split; [done|].
  pose proof (send_wp _ (ci_receiver _ _ (hi_connection _ _ HI1))) as S1. wp_inv S1. destruct S1 as (_ & _ & Hw & _).
  pose proof (send_wp _ (ci_receiver _ _ (hi_connection _ _ HI2))) as S2. wp_inv S2. destruct S2 as (_ & _ & Hw' & _).
  pose proof (ri_output _ (proj1 (ci_receiver _ _ (hi_connection _ _ HI1)))) as [_ _ Hb1 Hl1 _ _ _].
  pose proof (ri_output _ (proj1 (ci_receiver _ _ (hi_connection _ _ HI2)))) as [_ _ Hb2 Hl2 _ _ _].
  fold (inbound h) in Hb1, Hl1. fold (inbound h') in Hb2, Hl2.
  destruct Hu as [Hc1 Hp0 Hpu], Hu' as [Hc2 Hp0' Hpu']. rewrite Hin in Hc1, Hp0. cbn in Hc1, Hp0.
  rewrite Hc2, Hc1 in *. rewrite Hp0', Hp0 in *.
  unfold taken. split; [split; [exact Hpu'|lia]|]. exists r0, r1. split_and!; [done..| |]; rewrite ?Hw, ?Hw'; lia.
Qed.

Lemma ip_host_window_closes_witness :
  let config := IpHostConfig.tcp_demo (A4 x0a x00 x00 x01) (A4 x0a x00 x00 x02) 1234 80 (Wrap32.new 7) in
  let ops := [IpHost.Connect; IpHost.ReceiveIpv4Bytes syn_packet] in
  let ops' := [IpHost.Write [x61; x62]; IpHost.ReceiveIpv4Bytes [x45; x00]; IpHost.Tick 3000; IpHost.Close] in
  ∃ out h out' h', (h ← IpHost.new config; IpHost.run h ops) = Ret (out, h) ∧ IpHost.run h ops' = Ret (out', h') ∧
    taken h ≤ taken h' ≤ IpHostConfig.receiver_capacity config ∧
    ∃ m m', TcpReceiver.send (receiver_of h) = Ret m ∧ TcpReceiver.send (receiver_of h') = Ret m' ∧
      TcpReceiverMessage.window_size m = Z.min u16_max (IpHostConfig.receiver_capacity config - taken h) ∧
      TcpReceiverMessage.window_size m' ≤ TcpReceiverMessage.window_size m.
Proof.
  intros config ops ops'. apply ip_host_window_closes.
  - unfold TcpConnectionConfig.ok, TcpSenderConfig.ok, Wrap32.ok, u16, u32, u64. simpl. lia.
  - vm_compute. discriminate.
  - by repeat constructor.
  - repeat constructor. simpl. lia.
  - vm_compute. discriminate.
Defined.

(** A host with room for two bytes reports all three of a payload, and then advertises no window. *)
Example full_host_stalls :
  let config := IpHostConfig.mk (A4 x0a x00 x00 x01) (A4 x0a x00 x00 x02) 1234 80 128 2 (Wrap32.new 7) TcpSenderConfig.default in
  let data := TcpSegment.mk (TcpHeader.mk 80 1234 (Wrap32.new 6) None 1000 false false false) [x61; x62; x63] in
  let packet := wire_bytes (Ipv4Datagram.serialize (Ipv4Datagram.new_tcp (A4 x0a x00 x00 x02) (A4 x0a x00 x00 x01)
    (wire_bytes (TcpSegment.serialize_ipv4 data (A4 x0a x00 x00 x02) (A4 x0a x00 x00 x01))))) in
  ∃ out h m, (h ← IpHost.new config; IpHost.run h [IpHost.ReceiveIpv4Bytes syn_packet; IpHost.ReceiveIpv4Bytes packet]) = Ret (out, h) ∧
    IpHostEvent.TcpPayload [x61; x62; x63] ∈ IpHostOutput.events out ∧
    ByteStream.content (inbound h) = [x61; x62] ∧
    TcpReceiver.send (receiver_of h) = Ret m ∧ TcpReceiverMessage.window_size m = 0.
Proof.
  intros config data packet. do 3 eexists. split; [vm_compute; reflexivity|]. split; [|split; [reflexivity|split; vm_compute; reflexivity]].
  cbn. rewrite !elem_of_cons. tauto.
Qed.
