(* ===== verification/ip_duplex.v ===== *)
(** * Two hosts and the packets between them

    Two [IpHost]s that exchange IPv4 packets as bytes.  The network loses, duplicates, delays,
    reorders, routes and pads packets, and it may add packets of its own as long as none of
    them is a valid segment of the connection.  Each step of a host is a step of its
    connection in [tcp_duplex.v], so the conversation of the hosts is one of the
    connections, and what holds there holds here. *)

From S2P Require Import prelude wrapping_integers byte_stream btree_map tcp_message stream.
From S2P Require Import reassembler tcp_segment tcp_receiver tcp_sender tcp_link tcp_connection.
From S2P Require Import tcp_duplex ipv4_datagram network_interface router ip_host.

(** A host with its application, and every packet it has put on the wire. *)
Module Station.

Record t := mk {
  host : IpHost.t;
  packets : list bytes;
  written : bytes;
}.

Definition new (config : IpHostConfig.t) : exec t :=
  host ← IpHost.new config;
  mret (mk host [] []).

Inductive action :=
| Connect
| Write (data : bytes)
| Close
| Tick (elapsed_ms : Z)
| Deliver (i hops : nat) (padding : bytes)
| Inject (packet : bytes).

Fixpoint serialize_all (ds : list Ipv4Datagram.t) : exec (list bytes) :=
  match ds with
  | [] => mret []
  | d :: ds => p ← Ipv4Datagram.serialize d; ps ← serialize_all ds; mret (p :: ps)
  end.

(** Put the output of a host on the wire. *)
Definition send (self : t) (w : bytes) (r : IpHostOutput.t * IpHost.t) : exec t :=
  let '(out, h) := r in
  ps ← serialize_all (IpHostOutput.datagrams out);
  mret (mk h (packets self ++ ps) w).

(** A packet on its way through [hops] routers: each takes it apart, counts the time to live
    down and builds it again, or drops it. *)
Fixpoint through (hops : nat) (packet : bytes) : exec (option bytes) :=
  match hops with
  | O => mret (Some packet)
  | S hops =>
      r ← Ipv4Datagram.parse_bytes packet;
      match r with
      | Ok d =>
          if Ipv4Header.ttl (Ipv4Datagram.header d) <=? 1 then mret None
          else d ← Router.decrement_ttl d; packet ← Ipv4Datagram.serialize d; through hops packet
      | Err _ => mret None
      end
  end.

(** One step of a host; [net] is what its peer has put on the wire. *)
Definition act (self : t) (net : list bytes) (o : action) : exec t :=
  match o with
  | Connect => r ← IpHost.connect (host self); send self (written self) r
  | Write data =>
      '(n, out, h) ← IpHost.write (host self) data;
      send self (written self ++ take (Z.to_nat n) data) (out, h)
  | Close => r ← IpHost.close (host self); send self (written self) r
  | Tick ms => r ← IpHost.tick (host self) ms; send self (written self) r
  | Deliver i hops padding =>
      p ← match net !! i with Some p => through hops p | None => mret None end;
      match p with
      | Some p => r ← IpHost.receive_ipv4_bytes (host self) (p ++ padding); send self (written self) r
      | None => mret self
      end
  | Inject packet => r ← IpHost.receive_ipv4_bytes (host self) packet; send self (written self) r
  end.

(** A host on its own, where what arrives is injected, with the packets that come and go. *)
Definition heard (o : action) : list traffic := match o with Inject packet => [Received packet] | _ => [] end.

Fixpoint conduct (self : t) (os : list action) : exec (list traffic * t) :=
  match os with
  | [] => mret ([], self)
  | o :: os =>
      x ← act self [] o;
      '(l, self') ← conduct x os;
      mret (heard o ++ map Sent (drop (length (packets self)) (packets x)) ++ l, self')
  end.

(** What the application writes. *)
Definition input (o : action) : bytes := match o with Write data => data | _ => [] end.
Definition inputs (os : list action) : bytes := concat (map input os).

(** A packet that is no valid segment of the connection of a host with configuration [cfg]:
    damaged, for somebody else, from somebody else, another protocol or another port. *)
Definition inert (cfg : IpHostConfig.t) (packet : bytes) : Prop :=
  ∀ d s, Ipv4Datagram.parse_bytes packet = Ret (Ok d) →
    Ipv4Header.src (Ipv4Datagram.header d) = IpHostConfig.peer_ip cfg →
    Ipv4Header.dst (Ipv4Datagram.header d) = IpHostConfig.local_ip cfg →
    Ipv4Header.protocol (Ipv4Datagram.header d) = IPV4_PROTOCOL_TCP →
    TcpSegment.parse_ipv4_bytes (IpHostConfig.peer_ip cfg) (IpHostConfig.local_ip cfg) (Ipv4Datagram.payload d)
      = Ret (Ok s) →
    TcpHeader.src_port (TcpSegment.header s) = IpHostConfig.peer_port cfg →
    TcpHeader.dst_port (TcpSegment.header s) = IpHostConfig.local_port cfg → False.

Definition action_ok (cfg : IpHostConfig.t) (o : action) : Prop :=
  match o with Tick ms => 0 ≤ ms | Inject packet => inert cfg packet | _ => True end.

Definition offered (o : action) : Z :=
  match o with Write data => blen data | _ => 0 end.

(** The host's end of the conversation; its application has not read yet. *)
Definition side (self : t) (segs : list TcpSegment.t) : Side.t :=
  Side.mk (IpHost.connection (host self)) segs (written self) [].

End Station.

Module IpDuplex.

Record t := mk {
  here : Station.t;
  there : Station.t;
}.

Definition new (config_here config_there : IpHostConfig.t) : exec t :=
  here ← Station.new config_here;
  there ← Station.new config_there;
  mret (mk here there).

Inductive op :=
| Here (o : Station.action)
| There (o : Station.action).

Definition step (self : t) (o : op) : exec t :=
  match o with
  | Here o => x ← Station.act (here self) (Station.packets (there self)) o; mret (mk x (there self))
  | There o => y ← Station.act (there self) (Station.packets (here self)) o; mret (mk (here self) y)
  end.

Fixpoint run (self : t) (ops : list op) : exec t :=
  match ops with
  | [] => mret self
  | o :: ops => self ← step self o; run self ops
  end.

Definition op_ok (ca cb : IpHostConfig.t) (o : op) : Prop :=
  match o with Here o => Station.action_ok ca o | There o => Station.action_ok cb o end.

Fixpoint offered (ops : list op) : Z * Z :=
  match ops with
  | [] => (0, 0)
  | o :: ops =>
      let '(x, y) := offered ops in
      match o with
      | Here o => (Station.offered o + x, y)
      | There o => (x, Station.offered o + y)
      end
  end.

(** Configurations of the two ends of one connection. *)
Definition mirrored (ca cb : IpHostConfig.t) : Prop :=
  IpHostConfig.local_ip ca = IpHostConfig.peer_ip cb ∧ IpHostConfig.peer_ip ca = IpHostConfig.local_ip cb ∧
  IpHostConfig.local_port ca = IpHostConfig.peer_port cb ∧ IpHostConfig.peer_port ca = IpHostConfig.local_port cb.

(** A configuration whose segments leave room for both headers. *)
Definition config_ok (c : IpHostConfig.t) : Prop :=
  TcpConnectionConfig.ok (IpHostConfig.connection_config c) ∧
  TcpSenderConfig.max_payload_size (IpHostConfig.sender_config c) ≤ 65495.

End IpDuplex.

Section ip_duplex.
Import Station.
Implicit Types (x y : Station.t) (s : TcpSegment.t).

(** A packet on the wire: a segment of the connection, or an ICMP message. *)
Definition on_wire (cfg : IpHostConfig.t) (segs : list TcpSegment.t) (p : bytes) : Prop :=
  ∃ d, Ipv4Datagram.wf d ∧ Ipv4Datagram.serialize d = Ret p ∧
    (Ipv4Header.protocol (Ipv4Datagram.header d) = IPV4_PROTOCOL_ICMP ∨
     ∃ s, s ∈ segs ∧ carries_segment cfg s d ∧
       TcpHeader.src_port (TcpSegment.header s) = IpHostConfig.local_port cfg ∧
       TcpHeader.dst_port (TcpSegment.header s) = IpHostConfig.peer_port cfg).

(** Two hosts whose connections are joined, with the segments these have sent. *)
Record meet x y (sx sy : list TcpSegment.t) : Prop := {
  me_joined : joined (side x sx) (side y sy);
  me_wire : Forall (on_wire (IpHost.config (host x)) sx) (packets x);
  me_wire' : Forall (on_wire (IpHost.config (host y)) sy) (packets y);
  me_host : ∃ P, HInv P (host x);
  me_host' : ∃ P, HInv P (host y);
  me_mirrored : IpDuplex.mirrored (IpHost.config (host x)) (IpHost.config (host y));
}.

Lemma meet_sym x y sx sy : meet x y sx sy → meet y x sy sx.
Proof. intros [Hj Hx Hy Hpx Hpy (H1 & H2 & H3 & H4)]. by split; [apply joined_sym|..]. Qed.

Lemma conduct_app x os os' : conduct x (os ++ os') =
  '(l, x) ← conduct x os; '(l', x) ← conduct x os'; mret (l ++ l', x).
Proof.
  revert x. induction os as [|o os IH]; intros x; cbn [conduct app].
  { rewrite bind_mret. by destruct (conduct x os') as [[]|]. }
  destruct (act x [] o) as [x1|]; [|done]. rewrite !bind_Ret, IH.
  destruct (conduct x1 os) as [[l1 x2]|]; [|done]. rewrite !bind_Ret, ?bind_mret.
  destruct (conduct x2 os') as [[l2 x3]|]; [|done]. rewrite !bind_Ret, ?bind_mret. by rewrite !app_assoc.
Qed.

Lemma serialize_all_wp ds : Forall Ipv4Datagram.wf ds →
  serialize_all ds ⇓ λ ps, Forall2 (λ d p, Ipv4Datagram.serialize d = Ret p) ds ps.
Proof.
  induction 1 as [|d ds Hd _ IH]; cbn [serialize_all]; [wp_step; by constructor|].
  destruct (ipv4_roundtrip_padded d [] Hd) as (p & Hp & _). rewrite Hp, bind_Ret. wp_step.
  wp_apply IH. intros ps Hps. wp_step. by constructor.
Qed.

Lemma on_wire_mono cfg segs segs' p : on_wire cfg segs p → on_wire cfg (segs ++ segs') p.
Proof.
  intros (d & Hd & Hp & H). exists d. split_and!; [done|done|]. destruct H as [?|(s & Hs & ?)]; [by left|].
  right. exists s. split; [|done]. apply elem_of_app. by left.
Qed.

(** What the wire carries after a host has sent [segs]. *)
Lemma on_wire_sent h sx segs ds ps : wrappable h segs → Forall2 (carries_segment (IpHost.config h)) segs ds →
  Forall2 (λ d p, Ipv4Datagram.serialize d = Ret p) ds ps → Forall (on_wire (IpHost.config h) (sx ++ segs)) ps.
Proof.
  intros Hw Hc Hp. unfold wrappable in Hw. rewrite Forall_forall in Hw. apply Forall_lookup. intros i p Hi.
  destruct (Forall2_lookup_r _ _ _ _ _ Hp Hi) as (d & Hd & Hser). destruct (Forall2_lookup_r _ _ _ _ _ Hc Hd) as (s & Hs & Hcs).
  apply list_elem_of_lookup_2 in Hs. destruct (Hw s Hs) as (_ & _ & Hsp & Hdp).
  exists d. split_and!; [apply Hcs|done|]. right. exists s. split_and!; try done. apply elem_of_app. by right.
Qed.

(** The state after a step: [w] written, and nothing that was in flight is lost. *)
Definition stepped x y sy w : Station.t → Prop := λ x',
  (∃ sx', meet x' y sx' sy) ∧ IpHost.config (host x') = IpHost.config (host x) ∧ written x' = w.

(** Wrapping and sending what the connection of a host has answered. *)
Lemma send_wrapped x y sx sy w segs c f : meet x y sx sy →
  joined (Side.mk c (sx ++ segs) w []) (side y sy) → (∃ P, HInv P (IpHost.with_connection (host x) c)) →
  wrappable (host x) segs → (∀ out, IpHostOutput.datagrams (f out) = IpHostOutput.datagrams out) →
  (out ← IpHost.wrap_tcp_segments (IpHost.with_connection (host x) c) segs;
   mret (f out, IpHost.with_connection (host x) c)) ⇓ λ r, send x w r ⇓ stepped x y sy w.
Proof.
  intros [_ Hx Hy _ Hpy Hm] Hj HP Hw Hf. wp_step. wp_apply (wrap_wp (IpHost.with_connection (host x) c) segs Hw).
  intros out [Hds _]. wp_step. unfold send. wp_step. rewrite Hf.
  wp_apply (serialize_all_wp (IpHostOutput.datagrams out)).
  { pose proof (carries_own (host x) segs _ Hw Hds) as Ho. by apply own_wf in Ho. }
  intros ps Hps. wp_step. split; [|done]. exists (sx ++ segs). split; try done.
  apply Forall_app. split; [|by apply (on_wire_sent (host x) sx segs (IpHostOutput.datagrams out))].
  eapply Forall_impl; [exact Hx|]. intros p. apply on_wire_mono.
Qed.

(** Sending ICMP. *)
Lemma send_icmp x y sx sy out : meet x y sx sy → Forall Ipv4Datagram.wf (IpHostOutput.datagrams out) →
  Forall (λ d, Ipv4Header.protocol (Ipv4Datagram.header d) = IPV4_PROTOCOL_ICMP) (IpHostOutput.datagrams out) →
  send x (written x) (out, host x) ⇓ stepped x y sy (written x).
Proof.
  intros [Hj Hx Hy HP Hpy Hm] Hwf Hd. unfold send. wp_step. wp_apply (serialize_all_wp _ Hwf). intros ps Hps. wp_step.
  split; [|done]. exists sx. split; try done. apply Forall_app. split; [done|]. apply Forall_lookup. intros i p Hi.
  destruct (Forall2_lookup_r _ _ _ _ _ Hps Hi) as (d & Hdi & Hser). rewrite Forall_lookup in Hwf, Hd.
  exists d. split_and!; [by eapply Hwf|done|]. left. by eapply Hd.
Qed.

(** The bytes an endpoint has taken fit their counter. *)
Lemma meet_pushed x y sx sy : meet x y sx sy →
  ByteStream.bytes_pushed (TcpSender.outbound (TcpConnection.sender (IpHost.connection (host x)))) = blen (written x).
Proof. intros [(P & Q & D & D' & K & K' & lp & pp & HP & _) _ _ _ _ _]. apply (li_pushed _ _ HP). Qed.

(** A step of the connection, seen from the host and from the conversation. *)
Lemma connection_wp x y sx sy a o : meet x y sx sy → Side.action_ok a → cop_ok o →
  Side.act (side x sx) sy a = ('(segs, c) ← TcpConnection.step (IpHost.connection (host x)) o;
                               mret (Side.mk c (sx ++ segs) (written x) [])) →
  TcpConnection.offered [o] = 0 → Side.offered a = 0 → blen (written x) < 2 ^ 31 - 2 →
  TcpConnection.step (IpHost.connection (host x)) o ⇓ λ '(segs, c),
    joined (Side.mk c (sx ++ segs) (written x) []) (side y sy) ∧
    wrappable (host x) segs ∧ ∃ P, HInv P (IpHost.with_connection (host x) c).
Proof.
  intros Hme Ha Ho Heq Hz Hz' Hmax. pose proof (meet_pushed x y sx sy Hme) as Hpu.
  destruct Hme as [Hj _ _ [P HP] _ _].
  pose proof (act_wp (side x sx) (side y sy) a Hj Ha ltac:(cbn; lia)) as H1. cbn [side Side.sent] in H1. rewrite Heq in H1.
  apply wp_bind in H1.
  pose proof (connection_step_wp P (host x) o HP Ho ltac:(ulia)) as H2.
  eapply wp_mono; [exact (wp_and _ _ _ H1 H2)|]. intros [segs c] [[Hj' _] (P' & HP' & Hw & _)]. by split_and!; [..|exists P'].
Qed.

(** A packet that is no segment of the connection leaves it alone. *)
Lemma inert_wp x y sx sy packet : meet x y sx sy → inert (IpHost.config (host x)) packet → blen (written x) < 2 ^ 31 - 2 →
  IpHost.receive_ipv4_bytes (host x) packet ⇓ λ r, send x (written x) r ⇓ stepped x y sy (written x).
Proof.
  intros Hme Hin Hmax. pose proof (meet_pushed x y sx sy Hme) as Hpu. destruct (me_host _ _ _ _ Hme) as [P HP].
  pose proof (receive_ipv4_bytes_wp P (host x) packet HP ltac:(ulia)) as H. wp_inv H. destruct r as [out h'].
  destruct H as (_ & _ & _ & _ & Ho%own_wf). rewrite Heq. wp_step.
  destruct (receive_cases _ _ _ _ Heq) as [[-> Hd]|(d & s & segs & c & Hp & Hsrc & Hdst & Hpr & Hs & Hb & _)].
  { by apply (send_icmp x y sx). }
  exfalso. unfold TcpConnection.belongs_to_this_connection in Hb. rewrite (hi_local _ _ HP), (hi_peer _ _ HP) in Hb.
  apply andb_true_iff in Hb as [Hsp%Z.eqb_eq Hdp%Z.eqb_eq]. exact (Hin d s Hp Hsrc Hdst Hpr Hs Hsp Hdp).
Qed.

(** Routers change neither the addresses, nor the protocol, nor what a packet carries. *)
Lemma through_wp hops d p : Ipv4Datagram.wf d → Ipv4Datagram.serialize d = Ret p →
  through hops p ⇓ λ o, if o is Some p' then ∃ d', Ipv4Datagram.wf d' ∧ Ipv4Datagram.serialize d' = Ret p' ∧
    Ipv4Header.src (Ipv4Datagram.header d') = Ipv4Header.src (Ipv4Datagram.header d) ∧
    Ipv4Header.dst (Ipv4Datagram.header d') = Ipv4Header.dst (Ipv4Datagram.header d) ∧
    Ipv4Header.protocol (Ipv4Datagram.header d') = Ipv4Header.protocol (Ipv4Datagram.header d) ∧
    Ipv4Datagram.payload d' = Ipv4Datagram.payload d else True.
Proof.
  revert d p. induction hops as [|hops IH]; intros d p Hwf Hser; cbn [through]; [wp_step; by exists d|].
  destruct (ipv4_roundtrip_padded d [] Hwf) as (p' & Hser' & Hp). rewrite Hser in Hser'. injection Hser' as <-.
  rewrite app_nil_r in Hp. rewrite Hp, bind_Ret. case_match eqn:Et; [by wp_step|]. apply Z.leb_gt in Et.
  rewrite (decrement_ttl_eq d Et), bind_Ret. pose proof (hopped_wf d Hwf Et) as Hwf'.
  destruct (ipv4_roundtrip_padded _ [] Hwf') as (p2 & Hser2 & _). rewrite Hser2, bind_Ret.
  wp_apply (IH _ _ Hwf' Hser2). by intros [p3|] H.
Qed.

Lemma same_conveys cfg s d d' : carries_segment cfg s d → Ipv4Datagram.wf d' →
  Ipv4Header.src (Ipv4Datagram.header d') = Ipv4Header.src (Ipv4Datagram.header d) →
  Ipv4Header.dst (Ipv4Datagram.header d') = Ipv4Header.dst (Ipv4Datagram.header d) →
  Ipv4Header.protocol (Ipv4Datagram.header d') = Ipv4Header.protocol (Ipv4Datagram.header d) →
  Ipv4Datagram.payload d' = Ipv4Datagram.payload d → conveys cfg s d'.
Proof.
  intros [_ Hs Hd Hpr Hseg]%carries_conveys Hwf' Hs' Hd' Hpr' Hpl. split; [done|congruence..|by rewrite Hpl].
Qed.

(** A packet of the peer, routed and padded. *)
Lemma deliver_wp x y sx sy i p hops padding : meet x y sx sy → packets y !! i = Some p → blen (written x) < 2 ^ 31 - 2 →
  through hops p ⇓ λ o, if o is Some p' then
    IpHost.receive_ipv4_bytes (host x) (p' ++ padding) ⇓ λ r, send x (written x) r ⇓ stepped x y sy (written x) else True.
Proof.
  intros Hme Hi Hmax. destruct (me_host _ _ _ _ Hme) as [P HP]. destruct (me_mirrored _ _ _ _ Hme) as (Hm1 & Hm2 & Hm3 & Hm4).
  pose proof (me_wire' _ _ _ _ Hme) as Hw. rewrite Forall_lookup in Hw. destruct (Hw i p Hi) as (d0 & Hwf0 & Hser0 & Hcase).
  wp_apply (through_wp hops d0 p Hwf0 Hser0). intros [p'|]; [|done]. intros (d & Hwf & Hser & Hsrc & Hdst & Hprot & Hpl).
  destruct Hcase as [Hic|(s & Hs & Hcs0 & Hsp & Hdp)].
  { apply (inert_wp x y sx); [done| |done]. intros d' s Hp _ _ Hpr.
    destruct (ipv4_roundtrip_padded d padding Hwf) as (p2 & Hser' & Hp'). rewrite Hser in Hser'. injection Hser' as <-.
    rewrite Hp in Hp'. injection Hp' as ->. rewrite Hprot, Hic in Hpr. discriminate. }
  pose proof (same_conveys _ _ _ _ Hcs0 Hwf Hsrc Hdst Hprot Hpl) as Hcs.
  apply list_elem_of_lookup in Hs as [k Hk].
  assert (Hok : cop_ok (TcpConnection.ReceiveSegment s)).
  { cbn. pose proof (cv_segment _ _ _ Hcs) as Hseg. destruct Hwf as (_ & _ & _ & _ & Hlen).
    pose proof (tcp_parse_wp (IpHostConfig.local_ip (IpHost.config (host y))) (IpHostConfig.peer_ip (IpHost.config (host y)))
      (Ipv4Datagram.payload d) ltac:(pose proof (blen_nonneg (Ipv4Datagram.payload d)); ulia)) as Ht.
    rewrite Hseg in Ht. destruct Ht as [Ht _]. by apply parsed_seg_ok. }
  destruct (receive_carried P (host y) (host x) s d p' padding Hcs Hser HP) as [events ->];
    [unfold IpHost.local_ip, IpHost.peer_ip, IpHost.peer_port, IpHost.local_port; congruence..|].
  wp_step. wp_apply (connection_wp x y sx sy (Side.Deliver k) (TcpConnection.ReceiveSegment s) Hme); [done|done| |done..|].
  { cbn. by rewrite Hk. }
  intros [segs c] (Hj & Hwr & HP'). by apply (send_wrapped x y sx sy (written x) segs c (IpHostOutput.extend (IpHostOutput.mk [] events))).
Qed.

Lemma station_write x y sx sy data : meet x y sx sy → blen (written x) + blen data < 2 ^ 31 - 2 →
  IpHost.write (host x) data ⇓ λ '(n, out, h), send x (written x ++ take (Z.to_nat n) data) (out, h) ⇓ λ x',
    (∃ sx', meet x' y sx' sy) ∧ IpHost.config (host x') = IpHost.config (host x) ∧
    blen (written x') ≤ blen (written x) + blen data.
Proof.
  intros Hme Hmax. pose proof (meet_pushed x y sx sy Hme) as Hpu. destruct (me_host _ _ _ _ Hme) as [P HP].
  pose proof (act_wp (side x sx) (side y sy) (Side.Write data) (me_joined _ _ _ _ Hme) I Hmax) as H1.
  cbn [side Side.sent Side.act] in H1. apply wp_bind in H1.
  pose proof (blen_nonneg data). pose proof (connection_step_wp P (host x) (TcpConnection.Write data) HP I ltac:(cbn; ulia)) as H2.
  cbn [TcpConnection.step] in H2. apply wp_bind in H2. unfold IpHost.write. wp_step.
  eapply wp_mono; [exact (wp_and _ _ _ H1 H2)|]. intros [[n segs] c] [[Hj Hn] (P' & HP' & Hw & _)].
  pose proof (send_wrapped x y sx sy (written x ++ take (Z.to_nat n) data) segs c (λ out, out) Hme Hj (ex_intro _ P' HP') Hw
    ltac:(done)) as Hs.
  apply wp_bind in Hs. wp_step. eapply wp_mono; [exact Hs|]. intros out Hout. wp_step.
  eapply wp_mono; [exact Hout|]. intros x' (? & ? & Hwr). split_and!; [done|done|]. rewrite Hwr. exact Hn.
Qed.

Lemma station_wp x y sx sy o : meet x y sx sy → action_ok (IpHost.config (host x)) o →
  blen (written x) + offered o < 2 ^ 31 - 2 →
  act x (packets y) o ⇓ λ x', (∃ sx', meet x' y sx' sy) ∧ IpHost.config (host x') = IpHost.config (host x) ∧
    blen (written x') ≤ blen (written x) + offered o.
Proof.
  intros Hme Ho Hmax.
  assert (Hsame : ∀ x', stepped x y sy (written x) x' → (∃ sx', meet x' y sx' sy) ∧
    IpHost.config (host x') = IpHost.config (host x) ∧ blen (written x') ≤ blen (written x) + offered o).
  { intros x' (? & ? & ->). split_and!; [done|done|]. destruct o; cbn; try lia. pose proof (blen_nonneg data). lia. }
  assert (Hlen : blen (written x) < 2 ^ 31 - 2) by (destruct o; cbn in Hmax; try lia; pose proof (blen_nonneg data); lia).
  assert (Hop : ∀ a co, Side.action_ok a → cop_ok co →
    Side.act (side x sx) sy a = ('(segs, c) ← TcpConnection.step (IpHost.connection (host x)) co;
                                 mret (Side.mk c (sx ++ segs) (written x) [])) →
    TcpConnection.offered [co] = 0 → Side.offered a = 0 →
    ('(segs, c) ← TcpConnection.step (IpHost.connection (host x)) co;
     out ← IpHost.wrap_tcp_segments (IpHost.with_connection (host x) c) segs;
     mret (out, IpHost.with_connection (host x) c)) ⇓ λ r, send x (written x) r ⇓ stepped x y sy (written x)).
  { intros a co Ha Hco Heq Hz Hz'. wp_step. wp_apply (connection_wp x y sx sy a co Hme Ha Hco Heq Hz Hz' Hlen).
    intros [segs c] (Hj & Hw & HP). by apply (send_wrapped x y sx sy (written x) segs c (λ out, out)). }
  destruct o as [|data| |ms|i hops padding|packet]; cbn [act].
  - wp_step. wp_apply (Hop Side.Connect TcpConnection.Connect); [done..|]. intros r Hr. eapply wp_mono; [exact Hr|exact Hsame].
  - wp_step. wp_apply (station_write x y sx sy data Hme Hmax). by intros [[n out] h].
  - wp_step. wp_apply (Hop Side.Close TcpConnection.Close); [done..|]. intros r Hr. eapply wp_mono; [exact Hr|exact Hsame].
  - wp_step. wp_apply (Hop (Side.Tick ms) (TcpConnection.Tick ms)); [done..|]. intros r Hr. eapply wp_mono; [exact Hr|exact Hsame].
  - assert (Hnone : mret x ⇓ λ x', (∃ sx', meet x' y sx' sy) ∧ IpHost.config (host x') = IpHost.config (host x) ∧
      blen (written x') ≤ blen (written x) + offered (Deliver i hops padding)).
    { wp_step. apply Hsame. split; [by exists sx|done]. }
    destruct (packets y !! i) as [p|] eqn:E; [|by rewrite bind_mret].
    wp_step. wp_apply (deliver_wp x y sx sy i p hops padding Hme E Hlen). intros [p'|] Hp; [|done].
    wp_step. eapply wp_mono; [exact Hp|]. intros r Hr. eapply wp_mono; [exact Hr|exact Hsame].
  - wp_step. wp_apply (inert_wp x y sx sy packet Hme Ho Hlen). intros r Hr. eapply wp_mono; [exact Hr|exact Hsame].
Qed.

Lemma station_offered_nonneg o : 0 ≤ offered o.
Proof. destruct o; cbn; try lia. apply blen_nonneg. Qed.

Lemma ip_duplex_offered_nonneg ops : 0 ≤ fst (IpDuplex.offered ops) ∧ 0 ≤ snd (IpDuplex.offered ops).
Proof.
  induction ops as [|o ops IH]; cbn; [lia|]. destruct (IpDuplex.offered ops) as [m n]. cbn in IH.
  destruct o as [o|o]; pose proof (station_offered_nonneg o); cbn; lia.
Qed.

Lemma ip_duplex_run_wp ca cb (d : IpDuplex.t) sx sy ops :
  meet (IpDuplex.here d) (IpDuplex.there d) sx sy →
  IpHost.config (host (IpDuplex.here d)) = ca → IpHost.config (host (IpDuplex.there d)) = cb →
  Forall (IpDuplex.op_ok ca cb) ops →
  blen (written (IpDuplex.here d)) + fst (IpDuplex.offered ops) < 2 ^ 31 - 2 →
  blen (written (IpDuplex.there d)) + snd (IpDuplex.offered ops) < 2 ^ 31 - 2 →
  IpDuplex.run d ops ⇓ λ d', ∃ sx' sy', meet (IpDuplex.here d') (IpDuplex.there d') sx' sy' ∧
    IpHost.config (host (IpDuplex.here d')) = ca ∧ IpHost.config (host (IpDuplex.there d')) = cb.
Proof.
  intros Hme Hca Hcb Hops. revert d sx sy Hme Hca Hcb.
  induction Hops as [|o ops Ho _ IH]; intros d sx sy Hme Hca Hcb Ha Hb; cbn [IpDuplex.run]; [wp_step; by exists sx, sy|].
  destruct d as [x y]. cbn in Hme, Hca, Hcb, Ha, Hb. pose proof (ip_duplex_offered_nonneg ops) as [Hx Hy].
  destruct (IpDuplex.offered ops) as [m n] eqn:Eo. cbn [fst snd] in *.
  destruct o as [o|o]; cbn [IpDuplex.step IpDuplex.here IpDuplex.there IpDuplex.op_ok fst snd] in *;
    pose proof (station_offered_nonneg o); wp_step; wp_step.
  - wp_apply (station_wp x y sx sy o Hme); [by rewrite Hca|lia|]. intros x' ([sx' Hme'] & Hc & Hw). wp_step.
    apply (IH _ sx' sy); cbn; [done|congruence|done|lia|lia].
  - wp_apply (station_wp y x sy sx o (meet_sym _ _ _ _ Hme)); [by rewrite Hcb|lia|]. intros y' ([sy' Hme'] & Hc & Hw). wp_step.
    apply (IH _ sx sy'); cbn; [by apply meet_sym|done|congruence|lia|lia].
Qed.

Lemma ip_duplex_new_wp ca cb : IpDuplex.config_ok ca → IpDuplex.config_ok cb → IpDuplex.mirrored ca cb →
  IpDuplex.new ca cb ⇓ λ d, meet (IpDuplex.here d) (IpDuplex.there d) [] [] ∧
    IpHost.config (host (IpDuplex.here d)) = ca ∧ IpHost.config (host (IpDuplex.there d)) = cb ∧
    written (IpDuplex.here d) = [] ∧ written (IpDuplex.there d) = [].
Proof.
  intros [Hca Hma] [Hcb Hmb] Hm. pose proof Hm as (_ & _ & Hp1 & Hp2).
  pose proof (duplex_new_wp _ _ Hca Hcb (conj Hp1 Hp2)) as Hd. unfold Duplex.new, Side.new in Hd.
  pose proof (new_host_wp ca Hca Hma) as H1. unfold IpHost.new in H1. apply wp_bind in H1. wp_inv H1. destruct H1 as (HP & _).
  pose proof (new_host_wp cb Hcb Hmb) as H2. unfold IpHost.new in H2. apply wp_bind in H2. wp_inv H2. destruct H2 as (HQ & _).
  rewrite Heq, Heq0 in Hd. destruct Hd as [Hj _]. unfold IpDuplex.new, Station.new, IpHost.new. rewrite Heq, Heq0.
  rewrite ?bind_Ret, ?bind_mret. wp_step. split; [|done]. split; cbn; try done; [by exists []..].
Qed.
End ip_duplex.

(** C5: Two hosts deliver in both directions over packets. Join two hosts with mirrored
    addresses and ports by a network that loses, duplicates, delays, reorders, routes (counting
    the time to live down) and pads their packets and adds any packets that are not valid segments of the connection
    (damaged ones, pings, other hosts and ports), and let both applications act and time pass in
    any order (fewer than 2^31 - 2 bytes written on each side). No operation panics.
    At every moment and in both directions, the receiver's stream is a prefix of what was
    written, all of it when it has ended, and a host reports itself finished only
    when everything is there; and every packet on the wire is an ICMP message or carries a
    segment of the connection. *)
Theorem ip_duplex_delivery ca cb ops :
  IpDuplex.config_ok ca → IpDuplex.config_ok cb → IpDuplex.mirrored ca cb →
  Forall (IpDuplex.op_ok ca cb) ops →
  fst (IpDuplex.offered ops) < 2 ^ 31 - 2 → snd (IpDuplex.offered ops) < 2 ^ 31 - 2 →
  ∃ d sx sy, (d ← IpDuplex.new ca cb; IpDuplex.run d ops) = Ret d ∧
    Duplex.delivers (Station.side (IpDuplex.here d) sx) (Station.side (IpDuplex.there d) sy) ∧
    Duplex.delivers (Station.side (IpDuplex.there d) sy) (Station.side (IpDuplex.here d) sx) ∧
    Forall (on_wire ca sx) (Station.packets (IpDuplex.here d)) ∧
    Forall (on_wire cb sy) (Station.packets (IpDuplex.there d)).
Proof.
  intros Hca Hcb Hm Hops Ha Hb. pose proof (ip_duplex_new_wp ca cb Hca Hcb Hm) as H. wp_inv H.
  destruct H as (Hme & Hc1 & Hc2 & Hwa & Hwb).
  pose proof (ip_duplex_run_wp ca cb r [] [] ops Hme Hc1 Hc2 Hops) as H. rewrite Hwa, Hwb in H. specialize (H Ha Hb). wp_inv H.
  destruct H as (sx & sy & [Hj Hx Hy _ _ _] & Hcx & Hcy). rewrite Hcx in Hx. rewrite Hcy in Hy.
  exists r0, sx, sy. rewrite Heq, bind_Ret.
  split_and!; [done|by apply joined_delivers|by apply joined_delivers, joined_sym|done|done].
Qed.

Lemma ip_duplex_delivery_witness :
  let ca := IpHostConfig.tcp_demo (A4 x0a x00 x00 x01) (A4 x0a x00 x00 x02) 50000 80 (Wrap32.new 1000) in
  let cb := IpHostConfig.tcp_demo (A4 x0a x00 x00 x02) (A4 x0a x00 x00 x01) 80 50000 (Wrap32.new u32_max) in
  let ops := [IpDuplex.Here Station.Connect; IpDuplex.There (Station.Deliver 0 0 [x00]); IpDuplex.Here (Station.Deliver 0 0 []);
              IpDuplex.Here (Station.Inject [x45; x00]); IpDuplex.Here (Station.Write [x61; x62]); IpDuplex.There (Station.Write [x63]);
              IpDuplex.There (Station.Deliver 2 3 []); IpDuplex.Here Station.Close; IpDuplex.There (Station.Deliver 3 0 []);
              IpDuplex.There (Station.Deliver 1 0 []); IpDuplex.There (Station.Tick 1000); IpDuplex.Here (Station.Deliver 4 0 [])] in
  ∃ d sx sy, (d ← IpDuplex.new ca cb; IpDuplex.run d ops) = Ret d ∧
    Duplex.delivers (Station.side (IpDuplex.here d) sx) (Station.side (IpDuplex.there d) sy) ∧
    Duplex.delivers (Station.side (IpDuplex.there d) sy) (Station.side (IpDuplex.here d) sx) ∧
    Forall (on_wire ca sx) (Station.packets (IpDuplex.here d)) ∧
    Forall (on_wire cb sy) (Station.packets (IpDuplex.there d)).
Proof.
  intros ca cb ops. apply ip_duplex_delivery; [| |done| |by vm_compute|by vm_compute].
  1-2: unfold IpDuplex.config_ok, TcpConnectionConfig.ok, TcpSenderConfig.ok, Wrap32.ok, u16, u32, u64; simpl; lia.
  repeat constructor; simpl; try lia. intros d s H. vm_compute in H. discriminate.
Defined.
