(* ===== verification/conservation.v ===== *)
(** * Interfaces and routers make up no datagrams

    A predicate [G] on datagrams that counting the time to live down preserves is an invariant
    of the network layer: if everything handed to an interface to send satisfies it, and every
    IPv4 frame that arrives carries a datagram that does, then so does every datagram the
    interface queues, transmits or hands up, and likewise for a router.  The predicate plays
    the part of a protocol that all the messages of a network obey. *)

From S2P Require Import prelude ethernet_frame arp ipv4_datagram network_interface router.

Section conservation.
Context (G : Ipv4Datagram.t → Prop) (HGwf : ∀ d, G d → Ipv4Datagram.wf d).
Implicit Types (n : NetworkInterface.t) (f : EthernetFrame.t) (d : Ipv4Datagram.t) (r : Router.t).

Definition is_ipv4 f : Prop := EthernetHeader.ethertype (EthernetFrame.header f) = ETHERTYPE_IPV4.

(** A frame whose datagram, if it has one, satisfies [G]. *)
Definition frame_carries f : Prop :=
  is_ipv4 f → ∀ d, Ipv4Datagram.parse_bytes (EthernetFrame.payload f) = Ret (Ok d) → G d.

(** The same for the bytes of a frame ... *)
Definition wire_carries (bs : bytes) : Prop :=
  ∀ f, EthernetFrame.parse_bytes bs = Ret (Ok f) → frame_carries f.

(** ... and for a frame still to be padded by the network. *)
Definition padded_carries f : Prop :=
  ∀ padding, frame_carries (EthernetFrame.mk (EthernetFrame.header f) (EthernetFrame.payload f ++ padding)).

(** An interface that holds only such datagrams. *)
Record carrying n : Prop := {
  ca_inv : NInv n;
  ca_pending : ∀ ip, Forall G (waiting n ip);
  ca_frames : Forall padded_carries (NetworkInterface.frames_out n);
  ca_datagrams : Forall G (NetworkInterface.datagrams_in n);
}.

(** A router with such interfaces. *)
Record router_carrying r : Prop := {
  rc_interfaces : Forall carrying (Router.interfaces r);
  rc_routes : Forall route_ok (Router.routes r);
}.

Lemma carrying_new mac ip : carrying (NetworkInterface.new mac ip).
Proof. split; [apply new_inv|by intros ip'|done|done]. Qed.

(** ** Frames *)

Lemma ipv4_frame_carries src dst d : G d → padded_carries (ipv4_frame src dst d).
Proof.
  intros Hd padding _ d' Hp. destruct (ipv4_roundtrip_padded d padding (HGwf d Hd)) as (bs & Hs & Hp').
  cbn in Hp. rewrite Hs in Hp. cbn in Hp. rewrite Hp' in Hp. by injection Hp as <-.
Qed.

Lemma arp_frame_carries src dst m : padded_carries (arp_frame src dst m).
Proof. intros padding H. discriminate H. Qed.

Lemma ipv4_frames_carry src dst ds : Forall G ds → Forall padded_carries (map (ipv4_frame src dst) ds).
Proof. intros Hds. apply Forall_map. eapply Forall_impl; [exact Hds|]. intros d. apply ipv4_frame_carries. Qed.

(** A frame on the wire parses to itself and its padding. *)
Lemma padded_wire f padding : EthernetFrame.wf f → padded_carries f →
  wire_carries (EthernetFrame.serialize f ++ padding).
Proof.
  intros Hwf Hf f' Hp.
  set (g := EthernetFrame.mk (EthernetFrame.header f) (EthernetFrame.payload f ++ padding)).
  assert (Hg : EthernetFrame.serialize g = EthernetFrame.serialize f ++ padding)
    by (unfold EthernetFrame.serialize; cbn; by rewrite <- !app_assoc).
  rewrite <- Hg, ethernet_roundtrip in Hp by exact Hwf. injection Hp as <-. apply Hf.
Qed.

(** ** Interfaces *)

Lemma carrying_send n d ip : carrying n → G d → NetworkInterface.send_datagram n d ip ⇓ carrying.
Proof.
  intros [] Hd. pose proof (send_inv n d ip ca_inv0 (HGwf d Hd)) as Hinv.
  rewrite send_datagram_eq in * by auto. unfold wp in *.
  destruct (NetworkInterface.lookup_ethernet_address n ip) as [mac|].
  - split; [done..| |done]. apply Forall_app. split; [done|]. apply Forall_singleton. by apply ipv4_frame_carries.
  - split; [done| | |done].
    + intros ip'. specialize (ca_pending0 ip'). unfold waiting, queued in *. cbn.
      destruct (decide (ip' = ip)) as [->|]; [|by rewrite lookup_insert_ne].
      rewrite lookup_insert_eq. destruct (NetworkInterface.pending n !! ip); cbn; [|by apply Forall_singleton].
      apply Forall_app. split; [done|by apply Forall_singleton].
    + apply Forall_app. split; [done|]. destruct (NetworkInterface.pending n !! ip); [done|].
      apply Forall_singleton, arp_frame_carries.
Qed.

Lemma carrying_recv n f : carrying n → frame_carries f → NetworkInterface.recv_frame n f ⇓ carrying.
Proof.
  intros [] Hf. pose proof (recv_inv n f ca_inv0) as Hinv. rewrite recv_frame_eq in * by done. unfold wp in *.
  destruct (content_of n f) as [d|m|] eqn:E; [| |by split].
  - split; [done..|]. apply Forall_app. split; [done|]. apply Forall_singleton.
    unfold content_of in E. destruct (EthernetFrame.is_for _ _); [|done].
    destruct (Z.eqb_spec (EthernetHeader.ethertype (EthernetFrame.header f)) ETHERTYPE_IPV4) as [Hty|].
    + destruct (Ipv4Datagram.parse_bytes _) as [[d'|]|] eqn:Ep; [|done..]. injection E as ->. by apply (Hf Hty).
    + destruct (_ =? _); [|done]. by destruct (ArpMessage.parse_bytes _) as [[]|].
  - split; [done| | |done].
    + intros ip. specialize (ca_pending0 ip). unfold waiting in *. cbn.
      destruct (decide (ip = ArpMessage.sender_ip_address m)) as [->|]; [by rewrite lookup_delete_eq|].
      by rewrite lookup_delete_ne.
    + apply Forall_app. split; [apply Forall_app; split; [done|by apply ipv4_frames_carry]|].
      destruct (asks_us n m); [|done]. apply Forall_singleton, arp_frame_carries.
Qed.

Lemma carrying_tick n ms : carrying n → 0 ≤ ms → carrying (NetworkInterface.tick n ms).
Proof.
  intros [] Hms. split; [by apply tick_inv| |done|done]. intros ip. specialize (ca_pending0 ip).
  unfold waiting in *. rewrite tick_pending. destruct (NetworkInterface.pending n !! ip) as [p|]; [|done].
  by destruct (_ <? _).
Qed.

Lemma carrying_pop_frame n : carrying n →
  match NetworkInterface.pop_frame n with
  | (Some f, n') => EthernetFrame.wf f ∧ padded_carries f ∧ carrying n'
  | (None, n') => n' = n
  end.
Proof.
  intros [HI Hp Hf Hd]. pose proof (step_inv n NetworkInterface.PopFrame HI I) as Hinv.
  cbn [NetworkInterface.step] in Hinv. pose proof (ni_frames _ HI) as Hw. unfold NetworkInterface.pop_frame in *.
  destruct (NetworkInterface.frames_out n) as [|f fs]; [done|]. apply Forall_cons in Hf as [??], Hw as [[??]?].
  split_and!; [done|done|]. by split.
Qed.

Lemma carrying_pop_datagram n : carrying n →
  match NetworkInterface.pop_datagram n with
  | (Some d, n') => G d ∧ carrying n'
  | (None, n') => n' = n
  end.
Proof.
  intros [HI Hp Hf Hd]. pose proof (step_inv n NetworkInterface.PopDatagram HI I) as Hinv.
  cbn [NetworkInterface.step] in Hinv. unfold NetworkInterface.pop_datagram in *.
  destruct (NetworkInterface.datagrams_in n) as [|d ds]; [done|]. apply Forall_cons in Hd as [??].
  split; [done|]. by split.
Qed.

(** ** Routers *)

Context (HGhop : ∀ d, G d → 1 < Ipv4Header.ttl (Ipv4Datagram.header d) → G (hopped d)).

Lemma router_carrying_inv r : router_carrying r → RInv r.
Proof. intros [Hi Hr]. split; [|done]. eapply Forall_impl; [exact Hi|]. by intros n []. Qed.

Lemma router_interface r i n : router_carrying r → Router.interface r i = Some n → carrying n.
Proof.
  intros [Hi _] Hn. unfold Router.interface in Hn. pose proof (at_z_is_Some _ _ _ Hn). rewrite at_z_lookup in Hn by lia.
  by eapply Forall_lookup_1.
Qed.

Lemma router_set r i n : router_carrying r → carrying n → router_carrying (Router.set_interface r i n).
Proof. intros [Hi Hr] Hn. split; [|done]. by apply Forall_insert. Qed.

Lemma carrying_route_one r d : router_carrying r → G d → Router.route_one_datagram r d ⇓ router_carrying.
Proof.
  intros HR Hd. eapply wp_mono; [exact (route_one_wp r d (router_carrying_inv r HR) (HGwf d Hd))|].
  intros r' (best & _ & Hb). destruct best as [rt|]; [|by subst].
  destruct (Router.interface r _) as [n|] eqn:En; [|by subst]. destruct (Z.leb_spec (Ipv4Header.ttl (Ipv4Datagram.header d)) 1); [by subst|].
  destruct Hb as (n' & Hs & _ & ->). apply router_set; [done|].
  pose proof (carrying_send n (hopped d) (default (Ipv4Header.dst (Ipv4Datagram.header d)) (Route.next_hop rt))
    (router_interface _ _ _ HR En) (HGhop d Hd ltac:(lia))) as Hc.
  by rewrite Hs in Hc.
Qed.

Lemma carrying_forward_all r ds : router_carrying r → Forall G ds → forward_all r ds ⇓ router_carrying.
Proof.
  intros HR Hds. revert r HR. induction Hds as [|d ds Hd _ IH]; intros r HR; cbn [forward_all]; [by wp_step|].
  wp_step. by wp_apply (carrying_route_one r d HR Hd).
Qed.

Lemma carrying_route r : router_carrying r → Router.route r ⇓ router_carrying.
Proof.
  intros HR. destruct (route_wp r (router_carrying_inv r HR)) as [-> _]. destruct HR as [Hi Hr].
  apply carrying_forward_all.
  - split; [|done]. cbn. apply Forall_fmap. eapply Forall_impl; [exact Hi|]. intros n [[] ???]. split; [by split|done..].
  - unfold inboxes. apply Forall_join, Forall_fmap. eapply Forall_impl; [exact Hi|]. by intros n [].
Qed.

End conservation.

(** What is carried may be described more generously. *)
Lemma carrying_mono (G G' : Ipv4Datagram.t → Prop) n : (∀ d, G d → G' d) → carrying G n → carrying G' n.
Proof.
  intros HG [? Hp Hf Hd]. split; [done|..].
  - intros ip. by eapply Forall_impl; [exact (Hp ip)|].
  - eapply Forall_impl; [exact Hf|]. intros f Hc padding Hi d Hpd. by apply HG, (Hc padding).
  - by eapply Forall_impl; [exact Hd|].
Qed.

Lemma router_carrying_mono (G G' : Ipv4Datagram.t → Prop) r :
  (∀ d, G d → G' d) → router_carrying G r → router_carrying G' r.
Proof.
  intros HG [Hi Hr]. split; [|done]. eapply Forall_impl; [exact Hi|]. intros n. by apply carrying_mono.
Qed.

Lemma wire_carries_mono (G G' : Ipv4Datagram.t → Prop) bs :
  (∀ d, G d → G' d) → wire_carries G bs → wire_carries G' bs.
Proof. intros HG Hw f Hf Hi d Hd. by apply HG, (Hw f Hf). Qed.
