(* ===== verification/internet.v ===== *)
(** * Two hosts on an Ethernet with routers

    The whole stack: [IpHost]s that send through [NetworkInterface]s and are joined by
    [Router]s, with the frames between them as bytes.  A frame that has been transmitted may reach any
    interface of any machine, any number of times, in any order, or never; the network
    may pad it, and may add frames of its own (any ARP messages, any datagrams that are no
    valid segment of the connection).  Each datagram that reaches a host is then one that the
    network of [ip_duplex.v] could have delivered ([known]), so each step of this network is
    one of that network or leaves its hosts alone, and what holds there holds here. *)

From S2P Require Import prelude wrapping_integers byte_stream btree_map tcp_message stream.
From S2P Require Import reassembler tcp_segment tcp_receiver tcp_sender tcp_link tcp_connection.
From S2P Require Import tcp_duplex ethernet_frame arp ipv4_datagram network_interface router.
From S2P Require Import ip_host ip_duplex conservation.

(** A host with its interface, as the TAP program runs them. *)
Module Endpoint.

Record t := mk { station : Station.t; interface : NetworkInterface.t }.

Definition new (config : IpHostConfig.t) (ethernet_address : EthernetAddress.t) : exec t :=
  x ← Station.new config;
  mret (mk x (NetworkInterface.new ethernet_address (IpHostConfig.local_ip config))).

Inductive action :=
| Connect
| Write (data : bytes)
| Close
| Tick (elapsed_ms : Z)
| Poll.

(** Where a host sends a datagram for an address: the address itself, or a gateway. *)
Definition table := Ipv4AddrBytes.t → Ipv4AddrBytes.t.

Fixpoint send_via (next_hop : table) (interface : NetworkInterface.t) (ds : list Ipv4Datagram.t)
    : exec NetworkInterface.t :=
  match ds with
  | [] => mret interface
  | d :: ds =>
      interface ← NetworkInterface.send_datagram interface d (next_hop (Ipv4Header.dst (Ipv4Datagram.header d)));
      send_via next_hop interface ds
  end.

(** The output of the host goes to the interface; the station keeps a record of it. *)
Definition emit (next_hop : table) (self : t) (w : bytes) (r : IpHostOutput.t * IpHost.t) : exec t :=
  n ← send_via next_hop (interface self) (IpHostOutput.datagrams (fst r));
  x ← Station.send (station self) w r;
  mret (mk x n).

Definition act (next_hop : table) (self : t) (o : action) : exec t :=
  let h := Station.host (station self) in
  let w := Station.written (station self) in
  match o with
  | Connect => r ← IpHost.connect h; emit next_hop self w r
  | Write data =>
      '(n, out, h) ← IpHost.write h data;
      emit next_hop self (w ++ take (Z.to_nat n) data) (out, h)
  | Close => r ← IpHost.close h; emit next_hop self w r
  | Tick ms =>
      r ← IpHost.tick h ms;
      emit next_hop (mk (station self) (NetworkInterface.tick (interface self) ms)) w r
  | Poll =>
      match NetworkInterface.pop_datagram (interface self) with
      | (Some d, n) => r ← IpHost.receive_datagram h d; emit next_hop (mk (station self) n) w r
      | (None, n) => mret (mk (station self) n)
      end
  end.

Definition action_ok (o : action) : Prop := match o with Tick ms => 0 ≤ ms | _ => True end.

Definition offered (o : action) : Z := match o with Write data => blen data | _ => 0 end.

(** All that can happen to the machine: its own actions, a frame that arrives, and one that leaves. *)
Inductive event :=
| Act (o : action)
| Arrive (frame : bytes)
| Leave.

(** An event, with the frames that arrive and leave. *)
Definition happen (next_hop : table) (self : t) (v : event) : exec (list traffic * t) :=
  match v with
  | Act o => self ← act next_hop self o; mret ([], self)
  | Arrive frame =>
      parsed ← EthernetFrame.parse_bytes frame;
      match parsed with
      | Ok f => n ← NetworkInterface.recv_frame (interface self) f; mret ([Received frame], mk (station self) n)
      | Err _ => mret ([Received frame], self)
      end
  | Leave =>
      match NetworkInterface.pop_frame (interface self) with
      | (Some f, n) => mret ([Sent (EthernetFrame.serialize f)], mk (station self) n)
      | (None, n) => mret ([], mk (station self) n)
      end
  end.

Fixpoint happens (next_hop : table) (self : t) (vs : list event) : exec (list traffic * t) :=
  match vs with
  | [] => mret ([], self)
  | v :: vs =>
      '(l, self) ← happen next_hop self v;
      '(l', self) ← happens next_hop self vs;
      mret (l ++ l', self)
  end.

(** What the application writes. *)
Definition input (v : event) : bytes := match v with Act (Write data) => data | _ => [] end.
Definition inputs (vs : list event) : bytes := concat (map input vs).

Definition event_ok (v : event) : Prop := match v with Act o => action_ok o | _ => True end.

End Endpoint.

Module Internet.

Record t := mk {
  here : Endpoint.t;
  there : Endpoint.t;
  routers : list Router.t;
  wire : list bytes;
}.

Definition new (config_here config_there : IpHostConfig.t) (mac_here mac_there : EthernetAddress.t)
    (routers : list Router.t) : exec t :=
  here ← Endpoint.new config_here mac_here;
  there ← Endpoint.new config_there mac_there;
  mret (mk here there routers []).

Inductive port :=
| PortHere
| PortThere
| PortRouter (k : nat) (interface_num : Z).

Inductive op :=
| Here (o : Endpoint.action)
| There (o : Endpoint.action)
| Transmit (p : port) (padding : bytes)
| Receive (p : port) (i : nat)
| Route (k : nat)
| RouterTick (k : nat) (interface_num : Z) (elapsed_ms : Z)
| Noise (frame : bytes).

Definition with_wire (self : t) w : t := mk (here self) (there self) (routers self) w.

Definition interface (self : t) (p : port) : option NetworkInterface.t :=
  match p with
  | PortHere => Some (Endpoint.interface (here self))
  | PortThere => Some (Endpoint.interface (there self))
  | PortRouter k i => match routers self !! k with Some r => Router.interface r i | None => None end
  end.

Definition set_interface (self : t) (p : port) (n : NetworkInterface.t) : t :=
  match p with
  | PortHere => mk (Endpoint.mk (Endpoint.station (here self)) n) (there self) (routers self) (wire self)
  | PortThere => mk (here self) (Endpoint.mk (Endpoint.station (there self)) n) (routers self) (wire self)
  | PortRouter k i =>
      mk (here self) (there self) (alter (λ r, Router.set_interface r i n) k (routers self)) (wire self)
  end.

Definition step (next_here next_there : Endpoint.table) (self : t) (o : op) : exec t :=
  match o with
  | Here o => x ← Endpoint.act next_here (here self) o; mret (mk x (there self) (routers self) (wire self))
  | There o => y ← Endpoint.act next_there (there self) o; mret (mk (here self) y (routers self) (wire self))
  | Transmit p padding =>
      match interface self p with
      | Some n =>
          match NetworkInterface.pop_frame n with
          | (Some f, n) =>
              mret (with_wire (set_interface self p n) (wire self ++ [EthernetFrame.serialize f ++ padding]))
          | (None, n) => mret (set_interface self p n)
          end
      | None => mret self
      end
  | Receive p i =>
      match interface self p, wire self !! i with
      | Some n, Some bs =>
          parsed ← EthernetFrame.parse_bytes bs;
          match parsed with
          | Ok frame => n ← NetworkInterface.recv_frame n frame; mret (set_interface self p n)
          | Err _ => mret self
          end
      | _, _ => mret self
      end
  | Route k =>
      match routers self !! k with
      | Some r => r ← Router.route r; mret (mk (here self) (there self) (<[k := r]> (routers self)) (wire self))
      | None => mret self
      end
  | RouterTick k i ms =>
      match interface self (PortRouter k i) with
      | Some n => mret (set_interface self (PortRouter k i) (NetworkInterface.tick n ms))
      | None => mret self
      end
  | Noise frame => mret (with_wire self (wire self ++ [frame]))
  end.

Fixpoint run (next_here next_there : Endpoint.table) (self : t) (ops : list op) : exec t :=
  match ops with
  | [] => mret self
  | o :: ops => self ← step next_here next_there self o; run next_here next_there self ops
  end.

Fixpoint offered (ops : list op) : Z * Z :=
  match ops with
  | [] => (0, 0)
  | o :: ops =>
      let '(x, y) := offered ops in
      match o with
      | Here o => (Endpoint.offered o + x, y)
      | There o => (x, Endpoint.offered o + y)
      | _ => (x, y)
      end
  end.

(** Routers as they are set up, with nothing in their interfaces. *)
Definition idle (r : Router.t) : Prop :=
  Forall (λ n, ∃ mac ip, n = NetworkInterface.new mac ip) (Router.interfaces r) ∧ Forall route_ok (Router.routes r).

End Internet.

Section internet.
Import Endpoint.
Implicit Types (d : Ipv4Datagram.t) (n : NetworkInterface.t) (x y : Station.t) (e : Endpoint.t).

(** A datagram that is no segment of the connection of a host with configuration [cfg]. *)
Definition foreign (cfg : IpHostConfig.t) d : Prop :=
  ∀ s, Ipv4Header.src (Ipv4Datagram.header d) = IpHostConfig.peer_ip cfg →
    Ipv4Header.dst (Ipv4Datagram.header d) = IpHostConfig.local_ip cfg →
    Ipv4Header.protocol (Ipv4Datagram.header d) = IPV4_PROTOCOL_TCP →
    TcpSegment.parse_ipv4_bytes (IpHostConfig.peer_ip cfg) (IpHostConfig.local_ip cfg) (Ipv4Datagram.payload d)
      = Ret (Ok s) →
    TcpHeader.src_port (TcpSegment.header s) = IpHostConfig.peer_port cfg →
    TcpHeader.dst_port (TcpSegment.header s) = IpHostConfig.local_port cfg → False.

(** A packet of [log], after some routers. *)
Definition routed_from (log : list bytes) d : Prop :=
  ∃ i hops p p', log !! i = Some p ∧ Station.through hops p = Ret (Some p') ∧ Ipv4Datagram.serialize d = Ret p'.

(** All that the network carries when the two hosts have sent [lx] and [ly]. *)
Definition known (ca cb : IpHostConfig.t) (lx ly : list bytes) d : Prop :=
  Ipv4Datagram.wf d ∧ (routed_from lx d ∨ routed_from ly d ∨ foreign ca d ∧ foreign cb d).

Lemma known_wf ca cb lx ly d : known ca cb lx ly d → Ipv4Datagram.wf d.
Proof. by intros []. Qed.

Lemma known_sym ca cb lx ly d : known ca cb lx ly d → known cb ca ly lx d.
Proof. intros [? [H|[H|[??]]]]; (split; [done|]); auto. Qed.

Lemma routed_mono lx lx' d : lx `prefix_of` lx' → routed_from lx d → routed_from lx' d.
Proof.
  intros [rest ->] (i & hops & p & p' & Hi & H). exists i, hops, p, p'. split; [|done]. by apply lookup_app_l_Some.
Qed.

Lemma known_mono ca cb lx lx' ly d : lx `prefix_of` lx' → known ca cb lx ly d → known ca cb lx' ly d.
Proof. intros Hp [? [H|H]]; (split; [done|]); [left; by eapply routed_mono|by right]. Qed.

(** One more router at the end of the way. *)
Lemma through_snoc hops p p' d : Station.through hops p = Ret (Some p') →
  Ipv4Datagram.wf d → Ipv4Datagram.serialize d = Ret p' → 1 < Ipv4Header.ttl (Ipv4Datagram.header d) →
  ∃ p2, Ipv4Datagram.serialize (hopped d) = Ret p2 ∧ Station.through (S hops) p = Ret (Some p2).
Proof.
  intros Ht Hwf Hs Httl. pose proof (hopped_wf d Hwf Httl) as Hwf'.
  destruct (ipv4_roundtrip_padded d [] Hwf) as (bs & Hs' & Hp). rewrite Hs in Hs'. injection Hs' as <-.
  destruct (ipv4_roundtrip_padded _ [] Hwf') as (p2 & Hs2 & _). rewrite app_nil_r in Hp.
  exists p2. split; [done|]. revert p Ht. induction hops as [|hops IH]; intros p Ht.
  - injection Ht as ->. cbn. rewrite Hp, bind_Ret, (proj2 (Z.leb_gt _ _)), decrement_ttl_eq, bind_Ret, Hs2 by lia. done.
  - cbn [Station.through] in Ht. change (Station.through (S (S hops)) p) with
      (r ← Ipv4Datagram.parse_bytes p;
       match r with
       | Ok d => if Ipv4Header.ttl (Ipv4Datagram.header d) <=? 1 then mret None
                 else d ← Router.decrement_ttl d; packet ← Ipv4Datagram.serialize d; Station.through (S hops) packet
       | Err _ => mret None
       end).
    destruct (Ipv4Datagram.parse_bytes p) as [[d1|]|]; [|done..]. rewrite bind_Ret in *.
    destruct (_ <=? 1); [done|]. destruct (Router.decrement_ttl d1) as [d2|]; [|done]. rewrite bind_Ret in *.
    destruct (Ipv4Datagram.serialize d2) as [p1|]; [|done]. rewrite bind_Ret in *. by apply IH.
Qed.

Lemma known_hopped ca cb lx ly d : known ca cb lx ly d → 1 < Ipv4Header.ttl (Ipv4Datagram.header d) →
  known ca cb lx ly (hopped d).
Proof.
  intros [Hwf H] Httl. split; [by apply hopped_wf|].
  assert (Hr : ∀ l, routed_from l d → routed_from l (hopped d)).
  { intros l (i & hops & p & p' & Hi & Ht & Hs). destruct (through_snoc _ _ _ _ Ht Hwf Hs Httl) as (p2 & ? & ?).
    by exists i, (S hops), p, p2. }
  destruct H as [H|[H|H]]; auto.
Qed.

(** What a datagram's bytes parse to. *)
Lemma datagram_parse d p : Ipv4Datagram.wf d → Ipv4Datagram.serialize d = Ret p → Ipv4Datagram.parse_bytes p = Ret (Ok d).
Proof.
  intros Hwf Hs. destruct (ipv4_roundtrip_padded d [] Hwf) as (bs & Hs' & Hp).
  rewrite Hs in Hs'. injection Hs' as <-. by rewrite app_nil_r in Hp.
Qed.

Lemma foreign_inert cfg d p : Ipv4Datagram.wf d → Ipv4Datagram.serialize d = Ret p → foreign cfg d → Station.inert cfg p.
Proof. intros Hwf Hs%datagram_parse Hf d' s Hp; [|done]. rewrite Hs in Hp. injection Hp as <-. apply Hf. Qed.

(** What a host has sent itself is nothing to it, wherever routers may have taken it. *)
Lemma own_foreign x y sx sy d : meet x y sx sy →
  IpHostConfig.local_ip (IpHost.config (Station.host x)) ≠ IpHostConfig.peer_ip (IpHost.config (Station.host x)) →
  Ipv4Datagram.wf d → routed_from (Station.packets x) d → foreign (IpHost.config (Station.host x)) d.
Proof.
  intros Hme Hne Hwf (i & hops & p & p' & Hi & Ht & Hs%datagram_parse) s Hsrc Hdst Hpr; [|done].
  pose proof (me_wire _ _ _ _ Hme) as Hw. rewrite Forall_lookup in Hw.
  destruct (Hw i p Hi) as (d0 & Hwf0 & Hser & Hcase). pose proof (through_wp hops d0 p Hwf0 Hser) as H.
  rewrite Ht in H. destruct H as (d1 & Hwf1 & Hs1%datagram_parse & Hsrc1 & _ & Hpr1 & _); [|done].
  rewrite Hs in Hs1. injection Hs1 as ->. destruct Hcase as [Hic|(s0 & _ & Hc%carries_conveys & _)].
  - rewrite Hpr1, Hic in Hpr. discriminate.
  - destruct Hne. by rewrite <- Hsrc, Hsrc1, (cv_src _ _ _ Hc).
Qed.

(** A datagram of the network is one that the network of packets could have delivered. *)
Lemma poll_step x y sx sy d : meet x y sx sy →
  let ca := IpHost.config (Station.host x) in
  IpHostConfig.local_ip ca ≠ IpHostConfig.peer_ip ca →
  known ca (IpHost.config (Station.host y)) (Station.packets x) (Station.packets y) d →
  ∃ o, Station.action_ok ca o ∧ Station.offered o = 0 ∧
    Station.act x (Station.packets y) o
      = (r ← IpHost.receive_datagram (Station.host x) d; Station.send x (Station.written x) r).
Proof.
  intros Hme ca Hne [Hwf H].
  assert (Hb : ∀ p h, Ipv4Datagram.serialize d = Ret p → IpHost.receive_ipv4_bytes h p = IpHost.receive_datagram h d).
  { intros p h Hs%datagram_parse; [|done]. unfold IpHost.receive_ipv4_bytes. by rewrite Hs, bind_Ret. }
  assert (Hforeign : foreign ca d → ∃ o, Station.action_ok ca o ∧ Station.offered o = 0 ∧
    Station.act x (Station.packets y) o
      = (r ← IpHost.receive_datagram (Station.host x) d; Station.send x (Station.written x) r)).
  { intros Hf. destruct (ipv4_roundtrip_padded d [] Hwf) as (p & Hs & _).
    exists (Station.Inject p). split_and!; [by eapply foreign_inert|done|]. cbn. by rewrite (Hb p). }
  destruct H as [H|[H|[H _]]]; [by apply Hforeign; eapply own_foreign| |by apply Hforeign].
  destruct H as (i & hops & p & p' & Hi & Ht & Hs). exists (Station.Deliver i hops []). split_and!; [done|done|].
  cbn. rewrite Hi, Ht, bind_Ret, app_nil_r. by rewrite (Hb p').
Qed.

(** ** Sending *)

Section host.
Context (ca cb : IpHostConfig.t) (ly : list bytes).
Local Abbreviation K e := (known ca cb (Station.packets (station e)) ly).

Lemma send_via_wp G next_hop n ds : (∀ d, G d → Ipv4Datagram.wf d) → carrying G n → Forall G ds →
  send_via next_hop n ds ⇓ carrying G.
Proof.
  intros HG Hn Hds. revert n Hn. induction Hds as [|d ds Hd _ IH]; intros n Hn; cbn [send_via]; [by wp_step|].
  wp_step. by wp_apply (carrying_send G HG n d _ Hn Hd).
Qed.

(** What is put on record is what is sent. *)
Lemma send_packets x w r x' : Forall Ipv4Datagram.wf (IpHostOutput.datagrams (fst r)) → Station.send x w r = Ret x' →
  Station.packets x `prefix_of` Station.packets x' ∧
  Forall (λ d, routed_from (Station.packets x') d) (IpHostOutput.datagrams (fst r)).
Proof.
  destruct r as [out h]. cbn. intros Hwf Hs. pose proof (serialize_all_wp _ Hwf) as H. wp_inv H.
  unfold Station.send in Hs. rewrite Heq, bind_Ret in Hs. injection Hs as <-. cbn. split; [by eexists|].
  apply Forall_lookup. intros i d Hi. destruct (Forall2_lookup_l _ _ _ _ _ H Hi) as (p & Hp & Hser).
  exists (length (Station.packets x) + i)%nat, 0%nat, p, p. split; [|done].
  rewrite lookup_app_r by lia. by rewrite Nat.add_comm, Nat.add_sub.
Qed.

Definition emitted e (Q : Station.t → Prop) e' : Prop :=
  Q (station e') ∧ Station.packets (station e) `prefix_of` Station.packets (station e') ∧ carrying (K e') (interface e').

Lemma emit_wp next_hop e w r Q : Station.send (station e) w r ⇓ Q →
  Forall Ipv4Datagram.wf (IpHostOutput.datagrams (fst r)) → carrying (K e) (interface e) →
  emit next_hop e w r ⇓ emitted e Q.
Proof.
  intros Hs Hwf Hn. wp_inv Hs. rename r0 into x'. destruct (send_packets _ _ _ _ Hwf Heq) as [Hpre Hro].
  set (G := known ca cb (Station.packets x') ly). unfold emit. wp_step.
  wp_apply (send_via_wp G next_hop (interface e)); [apply known_wf| | |].
  - eapply carrying_mono; [|exact Hn]. intros d. by apply known_mono.
  - rewrite Forall_forall in Hwf, Hro |- *. intros d Hd. split; [by apply Hwf|]. left. by apply Hro.
  - intros n Hn'. rewrite Heq. wp_step. wp_step. by split_and!.
Qed.

(** An operation of the host and what becomes of its output. *)
Lemma emit_after (m : exec (IpHostOutput.t * IpHost.t)) next_hop e w Q :
  (r ← m; Station.send (station e) w r) ⇓ Q →
  m ⇓ (λ r, Forall Ipv4Datagram.wf (IpHostOutput.datagrams (fst r))) → carrying (K e) (interface e) →
  (r ← m; emit next_hop e w r) ⇓ emitted e Q.
Proof.
  intros Hs%wp_bind Hwf Hn. wp_step. eapply wp_mono; [exact (wp_and _ _ _ Hs Hwf)|].
  intros r [? ?]. by apply emit_wp.
Qed.

Lemma step_ok_wf h grow closing r : host_step_ok h grow closing r → Forall Ipv4Datagram.wf (IpHostOutput.datagrams (fst r)).
Proof. destruct r as [out h']. intros (P & _ & _ & _ & Ho). by eapply own_wf. Qed.
End host.

(** A step of a host that takes [grow] more bytes from its application. *)
Definition grown (cfg : IpHostConfig.t) x y sy (grow : Z) x' : Prop :=
  (∃ sx', meet x' y sx' sy) ∧ IpHost.config (Station.host x') = cfg ∧
  blen (Station.written x') ≤ blen (Station.written x) + grow.

Lemma endpoint_act_wp next_hop e y sx sy o : let ca := IpHost.config (Station.host (station e)) in
  let cb := IpHost.config (Station.host y) in
  meet (station e) y sx sy → IpHostConfig.local_ip ca ≠ IpHostConfig.peer_ip ca → action_ok o →
  blen (Station.written (station e)) + offered o < 2 ^ 31 - 2 →
  carrying (known ca cb (Station.packets (station e)) (Station.packets y)) (interface e) →
  act next_hop e o ⇓ emitted ca cb (Station.packets y) e (grown ca (station e) y sy (offered o)).
Proof.
  intros ca cb Hme Hne Ho Hmax Hn. destruct (me_host _ _ _ _ Hme) as [P HP].
  pose proof (meet_pushed _ _ _ _ Hme) as Hpu.
  pose proof (λ so Hso Hlen, station_wp (station e) y sx sy so Hme Hso Hlen) as Hst. fold ca in Hst.
  pose proof (λ ho Hho Hlen, wp_mono _ _ _ (host_step_wp P (Station.host (station e)) ho HP Hho Hlen) (step_ok_wf _ _ _)) as Hwf.
  destruct o as [|data| |ms|]; cbn [act offered action_ok] in *.
  - apply emit_after; [apply (Hst Station.Connect I Hmax)|apply (Hwf IpHost.Connect I); cbn; ulia|done].
  - pose proof (blen_nonneg data). wp_step.
    pose proof (host_write_wp P (Station.host (station e)) data HP ltac:(ulia)) as Hw.
    specialize (Hst (Station.Write data) I Hmax). cbn [Station.act] in Hst. apply wp_bind in Hst.
    eapply wp_mono; [exact (wp_and _ _ _ Hst Hw)|]. intros [[k out] h] [Hs Hok].
    by apply emit_wp; [|by eapply step_ok_wf|].
  - apply emit_after; [apply (Hst Station.Close I Hmax)|apply (Hwf IpHost.Close I); cbn; ulia|done].
  - apply (emit_after ca cb _ _ next_hop (mk (station e) (NetworkInterface.tick (interface e) ms)));
      [apply (Hst (Station.Tick ms) Ho Hmax)|apply (Hwf (IpHost.Tick ms) Ho); cbn; ulia|].
    by apply carrying_tick.
  - pose proof (carrying_pop_datagram _ _ Hn) as Hpop.
    destruct (NetworkInterface.pop_datagram (interface e)) as [[d|] n].
    + destruct Hpop as [Hd Hn']. destruct (poll_step _ _ _ _ d Hme Hne Hd) as (so & Hso & Hoff & Heq).
      apply (emit_after ca cb _ _ next_hop (mk (station e) n)); [|eapply wp_mono; [|apply step_ok_wf]|done].
      * cbn. rewrite <- Heq. pose proof (Hst so Hso ltac:(lia)) as H. by rewrite Hoff in H.
      * apply (receive_datagram_wp P); [done|by eapply known_wf|ulia].
    + subst n. wp_step. split; [split_and!; [by exists sx|done|cbn; lia]|]. by split.
Qed.

(** ** The network *)

Implicit Types (net : Internet.t).

Abbreviation sent_here net := (Station.packets (station (Internet.here net))).
Abbreviation sent_there net := (Station.packets (station (Internet.there net))).

(** The hosts converse, and all interfaces, routers and frames carry what is known. *)
Record net_ok (ca cb : IpHostConfig.t) net : Prop := {
  no_meet : ∃ sx sy, meet (station (Internet.here net)) (station (Internet.there net)) sx sy;
  no_config_here : IpHost.config (Station.host (station (Internet.here net))) = ca;
  no_config_there : IpHost.config (Station.host (station (Internet.there net))) = cb;
  no_here : carrying (known ca cb (sent_here net) (sent_there net)) (interface (Internet.here net));
  no_there : carrying (known ca cb (sent_here net) (sent_there net)) (interface (Internet.there net));
  no_routers : Forall (router_carrying (known ca cb (sent_here net) (sent_there net))) (Internet.routers net);
  no_wire : Forall (wire_carries (known ca cb (sent_here net) (sent_there net))) (Internet.wire net);
}.

Definition op_ok (ca cb : IpHostConfig.t) (o : Internet.op) : Prop :=
  match o with
  | Internet.Here o | Internet.There o => action_ok o
  | Internet.RouterTick _ _ ms => 0 ≤ ms
  | Internet.Noise frame => wire_carries (λ d, Ipv4Datagram.wf d ∧ foreign ca d ∧ foreign cb d) frame
  | _ => True
  end.

Definition swap net : Internet.t :=
  Internet.mk (Internet.there net) (Internet.here net) (Internet.routers net) (Internet.wire net).

Lemma net_ok_sym ca cb net : net_ok ca cb net → net_ok cb ca (swap net).
Proof.
  intros [(sx & sy & Hme) Hca Hcb Ha Hb Hr Hw].
  pose proof (known_sym ca cb (sent_here net) (sent_there net)) as HG. split; cbn; try done.
  - exists sy, sx. by apply meet_sym.
  - eapply carrying_mono; [exact HG|done].
  - eapply carrying_mono; [exact HG|done].
  - eapply Forall_impl; [exact Hr|]. intros r. by apply router_carrying_mono.
  - eapply Forall_impl; [exact Hw|]. intros bs. by apply wire_carries_mono.
Qed.

(** What the host here sends is known to everybody from then on. *)
Lemma net_ok_emitted ca cb net sy grow e' : net_ok ca cb net →
  emitted ca cb (sent_there net) (Internet.here net)
    (grown ca (station (Internet.here net)) (station (Internet.there net)) sy grow) e' →
  net_ok ca cb (Internet.mk e' (Internet.there net) (Internet.routers net) (Internet.wire net)).
Proof.
  intros [_ Hca Hcb Ha Hb Hr Hw] (([sx' Hme] & Hca' & _) & Hpre & He).
  pose proof (λ d, known_mono ca cb _ _ (sent_there net) d Hpre) as HG. split; cbn; try done.
  - by exists sx', sy.
  - eapply carrying_mono; [exact HG|done].
  - eapply Forall_impl; [exact Hr|]. intros r. by apply router_carrying_mono.
  - eapply Forall_impl; [exact Hw|]. intros bs. by apply wire_carries_mono.
Qed.

(** Changes that leave the hosts alone. *)
Lemma net_ok_wire ca cb net bs : net_ok ca cb net →
  wire_carries (known ca cb (sent_here net) (sent_there net)) bs →
  net_ok ca cb (Internet.with_wire net (Internet.wire net ++ [bs])).
Proof. intros [] Hb. split; try done. cbn. apply Forall_app. split; [done|by apply Forall_singleton]. Qed.

Lemma net_ok_routers ca cb net rs : net_ok ca cb net →
  Forall (router_carrying (known ca cb (sent_here net) (sent_there net))) rs →
  net_ok ca cb (Internet.mk (Internet.here net) (Internet.there net) rs (Internet.wire net)).
Proof. intros [] Hr. by split. Qed.

Lemma port_carrying ca cb net p n : net_ok ca cb net → Internet.interface net p = Some n →
  carrying (known ca cb (sent_here net) (sent_there net)) n.
Proof.
  intros [] Hn. destruct p as [| |k i]; cbn in Hn; [by injection Hn as <-..|].
  destruct (Internet.routers net !! k) as [r|] eqn:Er; [|done].
  eapply router_interface; [|exact Hn]. by eapply Forall_lookup_1.
Qed.

Lemma set_port_ok ca cb net p n : net_ok ca cb net → carrying (known ca cb (sent_here net) (sent_there net)) n →
  net_ok ca cb (Internet.set_interface net p n).
Proof.
  intros Hok Hn. destruct p as [| |k i]; cbn; [by destruct Hok; split..|].
  apply net_ok_routers; [done|]. apply Forall_alter; [by destruct Hok|]. intros r _ Hr. by apply router_set.
Qed.

Abbreviation written_here net := (Station.written (station (Internet.here net))).
Abbreviation written_there net := (Station.written (station (Internet.there net))).

(** The network is fine, and the hosts have taken at most [g] and [g'] more bytes. *)
Definition advanced (ca cb : IpHostConfig.t) net (g g' : Z) net' : Prop :=
  net_ok ca cb net' ∧ blen (written_here net') ≤ blen (written_here net) + g ∧
  blen (written_there net') ≤ blen (written_there net) + g'.

(** Nothing happens to the hosts. *)
Lemma advanced_same ca cb net net' : net_ok ca cb net' →
  station (Internet.here net') = station (Internet.here net) →
  station (Internet.there net') = station (Internet.there net) → advanced ca cb net 0 0 net'.
Proof. intros Hok H1 H2. split; [done|]. rewrite H1, H2. lia. Qed.

Lemma set_interface_stations net p n :
  station (Internet.here (Internet.set_interface net p n)) = station (Internet.here net) ∧
  station (Internet.there (Internet.set_interface net p n)) = station (Internet.there net).
Proof. by destruct p. Qed.

Section run.
Context (ca cb : IpHostConfig.t) (next_here next_there : table).
Context (Hne : IpHostConfig.local_ip ca ≠ IpHostConfig.local_ip cb) (Hmirror : IpDuplex.mirrored ca cb).
Local Abbreviation step := (Internet.step next_here next_there).

Lemma set_port_advanced net p n : net_ok ca cb net → carrying (known ca cb (sent_here net) (sent_there net)) n →
  advanced ca cb net 0 0 (Internet.set_interface net p n).
Proof using Type.
  intros Hok Hn. destruct (set_interface_stations net p n). by apply advanced_same; [apply set_port_ok|..].
Qed.

Lemma step_here_wp net o : net_ok ca cb net → action_ok o → blen (written_here net) + offered o < 2 ^ 31 - 2 →
  step net (Internet.Here o) ⇓ advanced ca cb net (offered o) 0.
Proof using Hne Hmirror.
  intros Hok Ho Hmax. pose proof Hok as [(sx & sy & Hme) Hca Hcb Ha _ _ _]. cbn [Internet.step]. wp_step.
  destruct Hmirror as (_ & Hm & _). subst ca cb.
  wp_apply (endpoint_act_wp next_here (Internet.here net) _ sx sy o Hme); [by rewrite Hm|done|done|done|].
  intros e' He. wp_step. split; [by eapply net_ok_emitted|]. destruct He as ((_ & _ & Hw) & _). cbn. lia.
Qed.

Lemma transmit_frame_wp net p padding : net_ok ca cb net → step net (Internet.Transmit p padding) ⇓ advanced ca cb net 0 0.
Proof using Type.
  intros Hok. cbn [Internet.step]. destruct (Internet.interface net p) as [n|] eqn:En; [|wp_step; by apply advanced_same].
  pose proof (carrying_pop_frame _ _ (port_carrying _ _ _ _ _ Hok En)) as Hp.
  destruct (NetworkInterface.pop_frame n) as [[f|] n'].
  - destruct Hp as (Hwf & Hf & Hn). wp_step. destruct (set_interface_stations net p n') as [H1 H2].
    apply advanced_same; [|done|done].
    replace (Internet.wire net) with (Internet.wire (Internet.set_interface net p n')) by by destruct p.
    apply net_ok_wire; [by apply set_port_ok|]. rewrite H1, H2. by apply padded_wire.
  - subst n'. wp_step. apply set_port_advanced; [done|by eapply port_carrying].
Qed.

Lemma arrive_wp net p i : net_ok ca cb net → step net (Internet.Receive p i) ⇓ advanced ca cb net 0 0.
Proof using Type.
  intros Hok. cbn [Internet.step]. destruct (Internet.interface net p) as [n|] eqn:En; [|wp_step; by apply advanced_same].
  destruct (Internet.wire net !! i) as [bs|] eqn:Ei; [|wp_step; by apply advanced_same].
  destruct (ethernet_parse_total bs) as [[f|e] Hp]; rewrite Hp, bind_Ret; [|wp_step; by apply advanced_same].
  pose proof (no_wire _ _ _ Hok) as Hw. rewrite Forall_lookup in Hw.
  wp_step. wp_apply (carrying_recv _ (known_wf ca cb _ _) n f (port_carrying _ _ _ _ _ Hok En)); [by apply (Hw i bs Ei)|].
  intros n' Hn'. wp_step. by apply set_port_advanced.
Qed.

Lemma route_step_wp net k : net_ok ca cb net → step net (Internet.Route k) ⇓ advanced ca cb net 0 0.
Proof using Type.
  intros Hok. cbn [Internet.step]. destruct (Internet.routers net !! k) as [r|] eqn:Er; [|wp_step; by apply advanced_same].
  pose proof (no_routers _ _ _ Hok) as Hr. wp_step.
  wp_apply (carrying_route _ (known_wf ca cb _ _) (known_hopped ca cb _ _) r); [by eapply Forall_lookup_1|].
  intros r' Hr'. wp_step. apply advanced_same; [|done|done]. apply net_ok_routers; [done|]. by apply Forall_insert.
Qed.
End run.

Lemma swap_advanced ca cb net g g' net' : advanced cb ca (swap net) g g' net' → advanced ca cb net g' g (swap net').
Proof. intros (Hok & Ha & Hb). split; [|by split]. by apply net_ok_sym in Hok. Qed.

Lemma internet_step_wp ca cb next_here next_there net o : IpHostConfig.local_ip ca ≠ IpHostConfig.local_ip cb →
  IpDuplex.mirrored ca cb → net_ok ca cb net → op_ok ca cb o → let '(g, g') := Internet.offered [o] in
  blen (written_here net) + g < 2 ^ 31 - 2 → blen (written_there net) + g' < 2 ^ 31 - 2 →
  Internet.step next_here next_there net o ⇓ advanced ca cb net g g'.
Proof.
  intros Hne Hm Hok Ho. destruct o as [o|o|p padding|p i|k|k i ms|frame]; cbn [Internet.offered op_ok] in *;
    rewrite ?Z.add_0_r; intros Ha Hb.
  - by apply step_here_wp.
  - destruct Hm as (H1 & H2 & H3 & H4).
    pose proof (step_here_wp cb ca next_there next_here ltac:(done) ltac:(by split_and!) (swap net) o
      (net_ok_sym _ _ _ Hok) Ho ltac:(cbn; lia)) as H.
    cbn [Internet.step] in H |- *. apply wp_bind in H. wp_step. eapply wp_mono; [exact H|]. intros e' He. wp_step.
    exact (swap_advanced _ _ _ _ _ _ He).
  - by apply transmit_frame_wp.
  - by apply arrive_wp.
  - by apply route_step_wp.
  - cbn [Internet.step]. destruct (Internet.interface net (Internet.PortRouter k i)) as [n|] eqn:En; wp_step; [|by apply advanced_same].
    apply (set_port_advanced _ _ net (Internet.PortRouter k i)); [done|]. apply carrying_tick; [by eapply port_carrying|done].
  - cbn [Internet.step]. wp_step. apply advanced_same; [|done|done]. apply net_ok_wire; [done|].
    eapply wire_carries_mono; [|exact Ho]. intros d (? & ?). split; [done|]. auto.
Qed.

Lemma internet_offered_cons o ops : Internet.offered (o :: ops) =
  (fst (Internet.offered [o]) + fst (Internet.offered ops), snd (Internet.offered [o]) + snd (Internet.offered ops)).
Proof. cbn. destruct (Internet.offered ops). destruct o; cbn; f_equal; lia. Qed.

Lemma internet_offered_nonneg ops : 0 ≤ fst (Internet.offered ops) ∧ 0 ≤ snd (Internet.offered ops).
Proof.
  assert (Ho : ∀ o, 0 ≤ offered o) by (intros []; cbn; try lia; apply blen_nonneg).
  induction ops as [|o ops IH]; [cbn; lia|]. rewrite internet_offered_cons. cbn [fst snd].
  destruct o as [o|o|?|?|?|?|?]; cbn; try lia; specialize (Ho o); lia.
Qed.

Lemma internet_run_wp ca cb next_here next_there net ops : IpHostConfig.local_ip ca ≠ IpHostConfig.local_ip cb →
  IpDuplex.mirrored ca cb → net_ok ca cb net → Forall (op_ok ca cb) ops →
  blen (written_here net) + fst (Internet.offered ops) < 2 ^ 31 - 2 →
  blen (written_there net) + snd (Internet.offered ops) < 2 ^ 31 - 2 →
  Internet.run next_here next_there net ops ⇓ net_ok ca cb.
Proof.
  intros Hne Hm Hok Hops. revert net Hok. induction Hops as [|o ops Ho _ IH]; intros net Hok; cbn [Internet.run]; [intros _ _; by wp_step|].
  rewrite internet_offered_cons. cbn [fst snd]. intros Ha Hb. pose proof (internet_offered_nonneg ops).
  pose proof (internet_step_wp ca cb next_here next_there net o Hne Hm Hok Ho) as Hs.
  destruct (Internet.offered [o]) as [g g']. cbn [fst snd] in *. wp_step.
  wp_apply Hs; [lia..|]. intros net' (Hok' & ? & ?). apply IH; [done|lia|lia].
Qed.

Lemma internet_new_wp ca cb mac_here mac_there routers :
  IpDuplex.config_ok ca → IpDuplex.config_ok cb → IpDuplex.mirrored ca cb → Forall Internet.idle routers →
  Internet.new ca cb mac_here mac_there routers ⇓ λ net, net_ok ca cb net ∧ written_here net = [] ∧ written_there net = [].
Proof.
  intros Hca Hcb Hm Hr. pose proof (ip_duplex_new_wp ca cb Hca Hcb Hm) as H. unfold IpDuplex.new in H.
  unfold Internet.new, Endpoint.new. apply wp_bind in H. wp_inv H. apply wp_bind in H. wp_inv H.
  destruct H as (Hme & Hc1 & Hc2 & Hw1 & Hw2). cbn in Hme, Hc1, Hc2, Hw1, Hw2.
  rewrite Heq, Heq0. repeat (rewrite ?bind_Ret, ?bind_mret). wp_step. split; [|done].
  split; cbn; [by exists [], []|done|done|apply carrying_new|apply carrying_new| |done].
  eapply Forall_impl; [exact Hr|]. intros rt [Hi Hro]. split; [|done].
  eapply Forall_impl; [exact Hi|]. intros n (mac & ip & ->). apply carrying_new.
Qed.
Lemma happens_app next_hop e vs vs' : happens next_hop e (vs ++ vs') =
  '(out, e) ← happens next_hop e vs; '(out', e) ← happens next_hop e vs'; mret (out ++ out', e).
Proof.
  revert e. induction vs as [|v vs IH]; intros e; cbn [happens app].
  { rewrite bind_mret. by destruct (happens next_hop e vs') as [[]|]. }
  destruct (happen next_hop e v) as [[fs e1]|]; [|done]. rewrite !bind_Ret, IH.
  destruct (happens next_hop e1 vs) as [[fs1 e2]|]; [|done]. rewrite !bind_Ret, ?bind_mret.
  destruct (happens next_hop e2 vs') as [[fs2 e3]|]; [|done]. rewrite !bind_Ret, ?bind_mret. by rewrite app_assoc.
Qed.
End internet.

(** C2: Hosts deliver in both directions over Ethernet and routers. Join two hosts with mirrored
    ports and distinct addresses by their network interfaces, any routers with any routes, and
    wires that lose, duplicate, delay, reorder, misdeliver and pad frames and add frames of their
    own (any ARP messages, false ones included, and any datagrams that are no valid segment of
    the connection). However the applications, the interfaces, the routers and the clocks act, as long as each
    application offers fewer than 2^31 - 2 bytes (so that no sequence number is used twice), nothing panics;
    in both directions and at every moment the receiver's stream is a prefix of what was written, all of it when it has
    ended, and a host reports itself finished only when everything is there. Every datagram that
    waits for a host was put on the network by one of the two, with its time to live
    counted down on the way, or is no segment of the connection. *)
Theorem internet_delivery ca cb mac_here mac_there routers next_here next_there ops :
  IpDuplex.config_ok ca → IpDuplex.config_ok cb → IpDuplex.mirrored ca cb →
  IpHostConfig.local_ip ca ≠ IpHostConfig.local_ip cb →
  Forall Internet.idle routers → Forall (op_ok ca cb) ops →
  fst (Internet.offered ops) < 2 ^ 31 - 2 → snd (Internet.offered ops) < 2 ^ 31 - 2 →
  ∃ net sx sy,
    (net ← Internet.new ca cb mac_here mac_there routers; Internet.run next_here next_there net ops) = Ret net ∧
    let x := Endpoint.station (Internet.here net) in
    let y := Endpoint.station (Internet.there net) in
    Duplex.delivers (Station.side x sx) (Station.side y sy) ∧
    Duplex.delivers (Station.side y sy) (Station.side x sx) ∧
    Forall (known ca cb (Station.packets x) (Station.packets y))
      (NetworkInterface.datagrams_in (Endpoint.interface (Internet.here net))) ∧
    Forall (known ca cb (Station.packets x) (Station.packets y))
      (NetworkInterface.datagrams_in (Endpoint.interface (Internet.there net))).
Proof.
  intros Hca Hcb Hm Hne Hr Hops Ha Hb.
  pose proof (internet_new_wp ca cb mac_here mac_there routers Hca Hcb Hm Hr) as H. wp_inv H. destruct H as (Hok & Hw1 & Hw2).
  pose proof (internet_run_wp ca cb next_here next_there r ops Hne Hm Hok Hops) as H. rewrite Hw1, Hw2 in H.
  specialize (H Ha Hb). wp_inv H. destruct H as [(sx & sy & Hme) _ _ [] [] _ _].
  exists r0, sx, sy. rewrite Heq, bind_Ret. destruct Hme as [Hj _ _ _ _ _].
  split; [done|]. intros x y. split_and!; [by apply joined_delivers|by apply joined_delivers, joined_sym|done|done].
Qed.

(** Two networks and the router between them. *)
Example lan_here : IpHostConfig.t :=
  IpHostConfig.tcp_demo (A4 x0a x00 x00 x01) (A4 x0b x00 x00 x01) 50000 80 (Wrap32.new 1000).
Example lan_there : IpHostConfig.t :=
  IpHostConfig.tcp_demo (A4 x0b x00 x00 x01) (A4 x0a x00 x00 x01) 80 50000 (Wrap32.new u32_max).
Example lan_router : Router.t := Router.mk
  [NetworkInterface.new (A6 x02 x00 x00 x00 x00 x0a) (A4 x0a x00 x00 xfe);
   NetworkInterface.new (A6 x02 x00 x00 x00 x00 x0b) (A4 x0b x00 x00 xfe)]
  [Route.mk (A4 x0a x00 x00 x00) 8 None 0; Route.mk (A4 x0b x00 x00 x00) 8 None 1].

(** The frame that has just been put on wire [i] from [p] reaches [q]. *)
Example cross (p q : Internet.port) (i : nat) : list Internet.op :=
  [Internet.Transmit p [x00; x00]; Internet.Receive q i].

(** A false claim to be the gateway. *)
Example spoof : bytes := EthernetFrame.serialize (arp_frame (A6 x02 x00 x00 x00 x00 x09) EthernetAddress.BROADCAST
  (ArpMessage.reply (A6 x02 x00 x00 x00 x00 x09) (A4 x0a x00 x00 xfe) (A6 x02 x00 x00 x00 x00 x01) (A4 x0a x00 x00 x01))).

(** The handshake and two bytes of data, with the address resolution that they need. *)
Example lan_run : list Internet.op :=
  let here := Internet.PortHere in let there := Internet.PortThere in
  let west := Internet.PortRouter 0 0 in let east := Internet.PortRouter 0 1 in
  [Internet.Here Endpoint.Connect] ++ cross here west 0 ++ cross west here 1 ++
  cross here west 2 ++ [Internet.Route 0] ++ cross east there 3 ++ cross there east 4 ++
  cross east there 5 ++ [Internet.There Endpoint.Poll] ++
  cross there east 6 ++ [Internet.Route 0] ++ cross west here 7 ++ [Internet.Here Endpoint.Poll] ++
  [Internet.Noise spoof; Internet.Here (Endpoint.Write [x61; x62]); Internet.Receive here 8] ++
  cross here west 9 ++ cross here west 10 ++ [Internet.Route 0] ++ cross east there 11 ++ cross east there 12 ++
  [Internet.There Endpoint.Poll; Internet.RouterTick 0 1 1000; Internet.There Endpoint.Poll].

(** The data arrives. *)
Example lan_run_arrives :
  (net ← Internet.new lan_here lan_there (A6 x02 x00 x00 x00 x00 x01) (A6 x02 x00 x00 x00 x00 x02) [lan_router];
   net ← Internet.run (λ _, A4 x0a x00 x00 xfe) (λ _, A4 x0b x00 x00 xfe) net lan_run;
   mret (Side.arrived (Station.side (Endpoint.station (Internet.there net)) []))) = Ret [x61; x62].
Proof. by vm_compute. Qed.

Lemma internet_delivery_witness :
  ∃ net sx sy,
    (net ← Internet.new lan_here lan_there (A6 x02 x00 x00 x00 x00 x01) (A6 x02 x00 x00 x00 x00 x02) [lan_router];
     Internet.run (λ _, A4 x0a x00 x00 xfe) (λ _, A4 x0b x00 x00 xfe) net lan_run) = Ret net ∧
    let x := Endpoint.station (Internet.here net) in
    let y := Endpoint.station (Internet.there net) in
    Duplex.delivers (Station.side x sx) (Station.side y sy) ∧
    Duplex.delivers (Station.side y sy) (Station.side x sx) ∧
    Forall (known lan_here lan_there (Station.packets x) (Station.packets y))
      (NetworkInterface.datagrams_in (Endpoint.interface (Internet.here net))) ∧
    Forall (known lan_here lan_there (Station.packets x) (Station.packets y))
      (NetworkInterface.datagrams_in (Endpoint.interface (Internet.there net))).
Proof.
  apply internet_delivery; [| |done|done| | |by vm_compute|by vm_compute].
  1-2: unfold IpDuplex.config_ok, TcpConnectionConfig.ok, TcpSenderConfig.ok, Wrap32.ok, u16, u32, u64; simpl; lia.
  - apply Forall_singleton. split; cbn; rewrite !Forall_cons, Forall_nil; [split_and!; by eauto|].
    unfold route_ok. cbn. lia.
  - unfold lan_run, cross. cbn [app]. repeat (apply Forall_cons_2; [cbn [op_ok]; first [done|cbn; lia|idtac]|]); [|by constructor].
    intros f Hf Hi. vm_compute in Hf. injection Hf as <-. discriminate.
Defined.
