(* ===== verification/os.v ===== *)
(** * The operating system as an interface

    What the host programs ask of the system: the device file, the capture file,
    the clock, standard output and the channel from the input thread.  None of it
    is code of the repository, so it is a parameter: a world type [W] and the calls
    on it.  [OsLaws] states the documented behaviour the theorems rely on, in terms of [OsView]:
    the reads and the typing still to come, and the log of the device; that standard output works is a
    condition of its own, [StdoutWorks].  [io] is Rust's [io::Result] over that world. *)

From S2P Require Import prelude.
From Stdlib Require Strings.String.
Import Strings.String.StringSyntax.

#[local] Open Scope Z_scope.

(** A string literal, as its UTF-8 bytes. *)
Definition str (s : String.string) : bytes := String.list_byte_of_string s.
Arguments str s%_string_scope.

(** UTF-8, in which a line feed is no part of another character, and
    [String::from_utf8_lossy], which is the identity on valid UTF-8. *)
Class Utf8 := {
  utf8 : bytes → bool;
  utf8_lines line rest : utf8 (line ++ x0a :: rest) = utf8 (line ++ [x0a]) && utf8 rest;
  from_utf8_lossy : bytes → bytes;
  from_utf8_lossy_valid bs : utf8 bs → from_utf8_lossy bs = bs;
}.

(** [env::args], gone through to its end: it panics on an argument that is not Unicode. *)
Definition env_args `{Utf8} (args : list bytes) : exec (list bytes) :=
  if forallb utf8 args then mret args else panic.

Inductive io_error := WouldBlock | Interrupted | InvalidInput | InvalidData | Unsupported | OtherError.

(** What the input thread sends ([AppEvent] of [src/bin/common/host_cli.rs]). *)
Inductive AppEvent :=
| Data (data : bytes)
| Close.

Class Os (W : Type) := {
  (** opening [/dev/net/tun] *)
  open_tun : W → result unit io_error * W;
  (** the [TUNSETIFF] call: name and flags of the request, name the kernel writes back *)
  tunsetiff : bytes → Z → W → result bytes io_error * W;
  (** [fcntl] with [F_GETFL] and [F_SETFL] on the device, a negative answer as an error *)
  fcntl_getfl : W → result Z io_error * W;
  fcntl_setfl : Z → W → result unit io_error * W;
  (** [File::try_clone] on the device *)
  file_try_clone : W → result unit io_error * W;
  (** [File::read] on the device, into a buffer of the given length *)
  file_read : Z → W → result bytes io_error * W;
  (** [write_all] on the device *)
  file_write_all : bytes → W → result unit io_error * W;
  (** [File::create] of the capture file *)
  pcap_create : W → result unit io_error * W;
  (** [write] on the capture file, again while it is interrupted: how many of the bytes were taken *)
  pcap_write : bytes → W → result nat io_error * W;
  (** [SystemTime::now().duration_since(UNIX_EPOCH)]: seconds and microseconds *)
  system_time : W → result (Z * Z) io_error * W;
  (** writing to the buffer of standard output (an error makes [print!] panic), and [flush] *)
  stdout_print : bytes → W → result unit io_error * W;
  stdout_flush : W → result unit io_error * W;
  (** [try_recv] on the channel of the input thread *)
  try_recv : W → option AppEvent * W;
  (** milliseconds since the last time it was asked *)
  millis : W → Z * W;
}.

(** Constants of the [libc] crate. *)
Class Libc := {
  IFNAMSIZ : nat;
  IFF_TUN : Z;
  IFF_TAP : Z;
  IFF_NO_PI : Z;
  O_NONBLOCK : Z;
}.

(** What the laws of the system speak of: the reads it has ready, what the user will type,
    and the packets that have come from the device and gone to it so far. *)
Class OsView (W : Type) := {
  queued_reads : W → nat;
  typed : W → list AppEvent;
  log : W → list traffic;
}.

(** The packets put on the device. *)
Definition sent `{OsView W} (w : W) : list bytes := outgoing (log w).

(** The system has neither read, nor typed, nor sent anything. *)
Definition calm `{OsView W} (w w' : W) : Prop :=
  typed w' = typed w ∧ queued_reads w' = queued_reads w ∧ log w' = log w.

(** A read on a non-blocking device uses up one of finitely many queued packets; what
    the user types is finite; nothing else adds to either; a write puts its packet on the
    device when it succeeds, and at most that when it fails; time does not run backwards. *)
Class OsLaws (W : Type) `{Os W} `{OsView W} := {
  open_uses w r w' : open_tun w = (r, w') → typed w' = typed w ∧ log w' = log w;
  ioctl_uses w name flags r w' : tunsetiff name flags w = (r, w') → typed w' = typed w ∧ log w' = log w;
  getfl_uses w r w' : fcntl_getfl w = (r, w') → typed w' = typed w ∧ log w' = log w;
  setfl_uses w flags r w' : fcntl_setfl flags w = (r, w') → typed w' = typed w ∧ log w' = log w;
  read_uses w n r w' : file_read n w = (r, w') →
    typed w' = typed w ∧
    match r with Ok bs => log w' = log w ++ [Received bs] | Err _ => log w' = log w end ∧
    match r with Ok _ | Err Interrupted => (queued_reads w' < queued_reads w)%nat | Err _ => (queued_reads w' ≤ queued_reads w)%nat end;
  write_uses w bs r w' : file_write_all bs w = (r, w') →
    typed w' = typed w ∧ queued_reads w' = queued_reads w ∧
    match r with Ok _ => log w' = log w ++ [Sent bs] | Err _ => log w' = log w ∨ log w' = log w ++ [Sent bs] end;
  pcap_uses w bs r w' : pcap_write bs w = (r, w') → calm w w';
  create_uses w r w' : pcap_create w = (r, w') → calm w w';
  time_uses w r w' : system_time w = (r, w') → calm w w';
  print_uses w bs r w' : stdout_print bs w = (r, w') → calm w w';
  flush_uses w r w' : stdout_flush w = (r, w') → calm w w';
  recv_uses w r w' : try_recv w = (r, w') →
    match r with Some e => typed w = e :: typed w' | None => typed w' = typed w end ∧ log w' = log w;
  millis_uses w ms w' : millis w = (ms, w') → 0 ≤ ms ∧ typed w' = typed w ∧ log w' = log w;
}.

(** Standard output never fails.  It can (a closed pipe, a full disk), and [print!] then panics, so
    a theorem that needs this names it. *)
Class StdoutWorks (W : Type) `{Os W} :=
  stdout_works : ∀ (w : W) text e w', stdout_print text w ≠ (Err e, w').

(** The content of the capture file, and what the clock has answered: a write takes a prefix of what it
    is given, or nothing when it fails; a time has less than a million microseconds. *)
Class CaptureLaws (W : Type) `{Os W} := {
  capture : W → bytes;
  times : W → list (Z * Z);
  create_empty w w' : pcap_create w = (Ok tt, w') → capture w' = [] ∧ times w' = times w;
  write_takes w bs r w' : pcap_write bs w = (r, w') → times w' = times w ∧
    match r with Ok n => (n ≤ length bs)%nat ∧ capture w' = capture w ++ take n bs | Err _ => capture w' = capture w end;
  time_keeps w secs micros w' : system_time w = (Ok (secs, micros), w') →
    0 ≤ secs ∧ 0 ≤ micros < 1000000 ∧ capture w' = capture w ∧ times w' = times w ++ [(secs, micros)];
}.

(** ** Computations that may fail *)

Definition io (W A : Type) : Type := W → exec (result A io_error * W).

Section io.
Context {W : Type}.

Definition ok {A} (a : A) : io W A := λ w, mret (Ok a, w).
Definition fail {A} (e : io_error) : io W A := λ w, mret (Err e, w).

(** [?]: go on with the value, or return the error. *)
Definition io_bind {A B} (m : io W A) (k : A → io W B) : io W B := λ w,
  '(r, w) ← m w;
  match r with
  | Ok a => k a w
  | Err e => mret (Err e, w)
  end.

(** A call of the system, and a call of code that does no input or output. *)
Definition call {A} (f : W → result A io_error * W) : io W A := λ w, mret (f w).
Definition lift {A} (m : exec A) : io W A := λ w, a ← m; mret (Ok a, w).

(** [print!], which panics when standard output cannot be written, and [println!]. *)
Definition print `{Os W} (text : bytes) : io W unit := λ w,
  match stdout_print text w with
  | (Ok _, w) => ok tt w
  | (Err _, _) => panic
  end.

Definition println `{Os W} (line : bytes) : io W unit := print (line ++ [x0a]).

End io.

Notation "x ⇐ m ; k" := (io_bind m (λ x, k))
  (at level 20, m at level 100, k at level 200, right associativity, format "x  ⇐  m ;  '/' k") : exec_scope.
Notation "' x ⇐ m ; k" := (io_bind m (λ x, k))
  (at level 20, x pattern, m at level 100, k at level 200, right associativity, format "' x  ⇐  m ;  '/' k") : exec_scope.

Section rules.
Context {W : Type}.
Implicit Types (w : W).

(** [m] run in [w] returns a value and a world satisfying [Q], or an error and a world
    satisfying [E]. *)
Definition runs {A} (m : io W A) w (Q : A → W → Prop) (E : W → Prop) : Prop :=
  m w ⇓ λ '(r, w'), match r with Ok a => Q a w' | Err _ => E w' end.

Lemma runs_ok {A} (a : A) w (Q : A → W → Prop) E : Q a w → runs (ok a) w Q E.
Proof. intros H. unfold runs, ok. by wp_step. Qed.

Lemma runs_fail {A} e w (Q : A → W → Prop) E : E w → runs (fail e) w Q E.
Proof. intros H. unfold runs, fail. by wp_step. Qed.

Lemma runs_bind {A B} (m : io W A) (k : A → io W B) w (Q : B → W → Prop) E :
  runs m w (λ a w', runs (k a) w' Q E) E → runs (io_bind m k) w Q E.
Proof.
  unfold runs, io_bind. intros H. wp_step. wp_apply H. intros [[a|e] w'] Hw; [done|by wp_step].
Qed.

Lemma runs_lift {A} (m : exec A) w (Q : A → W → Prop) E : m ⇓ (λ a, Q a w) → runs (lift m) w Q E.
Proof. unfold runs, lift. intros H. wp_step. wp_apply H. intros a Ha. by wp_step. Qed.

Lemma runs_call {A} (f : W → result A io_error * W) w (Q : A → W → Prop) E :
  match f w with (Ok a, w') => Q a w' | (Err _, w') => E w' end → runs (call f) w Q E.
Proof. unfold runs, call. intros H. wp_step. by destruct (f w) as [[a|e] w']. Qed.

Lemma runs_print `{OsLaws W} `{!StdoutWorks W} text w (Q : unit → W → Prop) E :
  (∀ w', stdout_print text w = (Ok tt, w') → calm w w' → Q tt w') → runs (print text) w Q E.
Proof.
  intros HQ. unfold runs, print. destruct (stdout_print text w) as [[[]|e] w'] eqn:Ew.
  - apply runs_ok. apply HQ; [done|]. by eapply print_uses.
  - by apply stdout_works in Ew.
Qed.

Lemma runs_mono {A} (m : io W A) w (Q Q' : A → W → Prop) (E E' : W → Prop) :
  runs m w Q E → (∀ a w', Q a w' → Q' a w') → (∀ w', E w' → E' w') → runs m w Q' E'.
Proof. unfold runs. intros H HQ HE. wp_apply H. intros [[a|e] w'] Hw; auto. Qed.

Lemma calm_refl `{OsView W} w : calm w w.
Proof. done. Qed.

Lemma calm_trans `{OsView W} w1 w2 w3 : calm w1 w2 → calm w2 w3 → calm w1 w3.
Proof. intros (? & ? & ?) (? & ? & ?). split_and!; congruence. Qed.

(** What is on the device: [base] was there before, and all that was added is [good]. *)
Definition sends `{OsView W} (base : list bytes) (good : bytes → Prop) w : Prop :=
  ∃ new, sent w = base ++ new ∧ Forall good new.

Lemma sent_same `{OsView W} w w' : log w' = log w → sent w' = sent w.
Proof. unfold sent. by intros ->. Qed.

Lemma sent_add `{OsView W} w w' l : log w' = log w ++ l → sent w' = sent w ++ outgoing l.
Proof. unfold sent. intros ->. apply outgoing_app. Qed.

Lemma sends_same `{OsView W} base good w w' : log w' = log w → sends base good w → sends base good w'.
Proof. intros E%sent_same (new & ? & ?). exists new. by rewrite E. Qed.

(** Reading puts nothing on the device. *)
Lemma sends_read `{OsView W} base good w w' (r : result bytes io_error) :
  match r with Ok bs => log w' = log w ++ [Received bs] | Err _ => log w' = log w end → sends base good w → sends base good w'.
Proof.
  destruct r as [bs|e]; [|apply sends_same]. intros E%sent_add (new & ? & ?). exists new. cbn in E. by rewrite E, app_nil_r.
Qed.

Lemma sends_refl `{OsView W} good w : sends (sent w) good w.
Proof. exists []. by rewrite app_nil_r. Qed.

Lemma sends_calm `{OsView W} base good w w' : calm w w' → sends base good w → sends base good w'.
Proof. intros (_ & _ & E). by apply sends_same. Qed.

Lemma runs_calm `{OsView W} {A} base good (m : io W A) w (Q : A → W → Prop) :
  runs m w (λ _, calm w) (calm w) → sends base good w →
  (∀ a w', calm w w' → sends base good w' → Q a w') → runs m w Q (sends base good).
Proof.
  intros Hm Hs HQ. assert (Hc : ∀ w', calm w w' → sends base good w') by (intros w' Hc; by apply (sends_calm base good w w')).
  eapply runs_mono; [exact Hm|..]; intros; auto.
Qed.

Lemma runs_send `{OsLaws W} base good bs w (Q : unit → W → Prop) :
  good bs → sends base good w →
  (∀ w', typed w' = typed w → queued_reads w' = queued_reads w → log w' = log w ++ [Sent bs] → sends base good w' → Q tt w') →
  runs (call (file_write_all bs)) w Q (sends base good).
Proof.
  intros Hg Hs HQ. apply runs_call.
  assert (Hadd : ∀ w', log w' = log w ++ [Sent bs] → sends base good w').
  { destruct Hs as (new & Hs & Hn). intros w' E%sent_add. exists (new ++ [bs]). rewrite E, Hs, <- (assoc_L (++)). split; [done|].
    apply Forall_app. split; [done|]. by apply Forall_singleton. }
  destruct (file_write_all bs w) as [[[]|e] w'] eqn:E; apply write_uses in E as (? & ? & E).
  - by apply HQ; [..|apply Hadd].
  - destruct E as [E|E]; [by eapply sends_same|by apply Hadd].
Qed.

End rules.

(** What the user has yet to type, in bytes. *)
Fixpoint typed_bytes (events : list AppEvent) : Z :=
  match events with
  | [] => 0
  | Data data :: events => blen data + typed_bytes events
  | Close :: events => typed_bytes events
  end.

(** What the user types, as text. *)
Fixpoint entered (events : list AppEvent) : bytes :=
  match events with
  | [] => []
  | Data data :: events => data ++ entered events
  | Close :: events => entered events
  end.

Lemma entered_bytes events : blen (entered events) = typed_bytes events.
Proof. induction events as [|[data|] events IH]; cbn; [done| |done]. by rewrite blen_app, IH. Qed.

Lemma typed_bytes_app events events' : typed_bytes (events ++ events') = typed_bytes events + typed_bytes events'.
Proof. induction events as [|[data|] events IH]; cbn; [done|rewrite IH; lia|done]. Qed.

Lemma entered_app events events' : entered (events ++ events') = entered events ++ entered events'.
Proof. induction events as [|[data|] events IH]; cbn; [done|by rewrite IH, app_assoc|done]. Qed.

Lemma typed_bytes_nonneg events : 0 ≤ typed_bytes events.
Proof. induction events as [|[data|] events IH]; cbn; try lia. pose proof (blen_nonneg data). lia. Qed.

(** ** A scripted system

    A world given by what it will do: the results of the reads still to come, what the
    user will type, and the milliseconds between two looks at the clock.  It records what is
    read from and written to the device, what is written to the capture file and to standard output, and how
    often the date was asked for. *)
Module Script.

Record t := mk {
  reads : list (result bytes io_error);
  typing : list AppEvent;
  ticks : list Z;
  log : list traffic;
  captured : bytes;
  printed : bytes;
  dated : nat;
}.

Definition open_tun (w : t) : result unit io_error * t := (Ok tt, w).
Definition tunsetiff (name : bytes) (flags : Z) (w : t) : result bytes io_error * t := (Ok name, w).

Definition file_read (len : Z) (w : t) : result bytes io_error * t :=
  match reads w with
  | [] => (Err WouldBlock, w)
  | Ok bs :: rs =>
      let bs := take (Z.to_nat len) bs in
      (Ok bs, mk rs (typing w) (ticks w) (log w ++ [Received bs]) (captured w) (printed w) (dated w))
  | Err e :: rs => (Err e, mk rs (typing w) (ticks w) (log w) (captured w) (printed w) (dated w))
  end.

Definition file_write_all (bs : bytes) (w : t) : result unit io_error * t :=
  (Ok tt, mk (reads w) (typing w) (ticks w) (log w ++ [Sent bs]) (captured w) (printed w) (dated w)).

Definition pcap_create (w : t) : result unit io_error * t :=
  (Ok tt, mk (reads w) (typing w) (ticks w) (log w) [] (printed w) (dated w)).

(** At most 1000 bytes a write. *)
Definition pcap_write (bs : bytes) (w : t) : result nat io_error * t :=
  let n := length (take (Z.to_nat 1000) bs) in
  (Ok n, mk (reads w) (typing w) (ticks w) (log w) (captured w ++ take n bs) (printed w) (dated w)).

(** The clock goes on by a second and a microsecond. *)
Definition system_time (w : t) : result (Z * Z) io_error * t :=
  let n := Z.of_nat (dated w) in
  (Ok (n, n mod 1000000), mk (reads w) (typing w) (ticks w) (log w) (captured w) (printed w) (S (dated w))).

Definition stdout_print (bs : bytes) (w : t) : result unit io_error * t :=
  (Ok tt, mk (reads w) (typing w) (ticks w) (log w) (captured w) (printed w ++ bs) (dated w)).

Definition try_recv (w : t) : option AppEvent * t :=
  match typing w with
  | [] => (None, w)
  | e :: es => (Some e, mk (reads w) es (ticks w) (log w) (captured w) (printed w) (dated w))
  end.

Definition millis (w : t) : Z * t :=
  match ticks w with
  | [] => (0, w)
  | ms :: rest => (Z.max 0 ms, mk (reads w) (typing w) rest (log w) (captured w) (printed w) (dated w))
  end.

#[global] Instance os : Os t := {
  open_tun := open_tun;
  tunsetiff := tunsetiff;
  fcntl_getfl w := (Ok 2, w);
  fcntl_setfl flags w := (Ok tt, w);
  file_try_clone w := (Ok tt, w);
  file_read := file_read;
  file_write_all := file_write_all;
  pcap_create := pcap_create;
  pcap_write := pcap_write;
  system_time := system_time;
  stdout_print := stdout_print;
  stdout_flush w := (Ok tt, w);
  try_recv := try_recv;
  millis := millis;
}.

#[global] Instance os_view : OsView t := {
  queued_reads w := length (reads w);
  typed := typing;
  log := log;
}.

#[global, refine] Instance os_laws : OsLaws t := {}.
Proof.
  - by intros w r w' [= <- <-].
  - by intros w name flags r w' [= <- <-].
  - by intros w r w' [= <- <-].
  - by intros w flags r w' [= <- <-].
  - intros w n r w'. cbn. unfold file_read. destruct (reads w) as [|[bs|[]] rs] eqn:E; intros [= <- <-]; cbn; rewrite ?E; cbn; split_and!; lia || done.
  - by intros w bs r w' [= <- <-].
  - by intros w bs r w' [= <- <-].
  - by intros w r w' [= <- <-].
  - by intros w r w' [= <- <-].
  - by intros w bs r w' [= <- <-].
  - by intros w r w' [= <- <-].
  - intros w r w'. cbn. unfold try_recv. by destruct (typing w) as [|e es] eqn:E; intros [= <- <-].
  - intros w ms w'. cbn. unfold millis. destruct (ticks w) as [|x xs]; intros [= <- <-]; cbn; split_and!; lia || done.
Defined.

#[global] Instance stdout_works : StdoutWorks t.
Proof. by intros w text e w'. Qed.

#[global, refine] Instance capture_laws : CaptureLaws t := {
  capture := captured;
  times w := map (λ n, (Z.of_nat n, Z.of_nat n mod 1000000)) (seq 0 (dated w));
}.
Proof.
  - by intros w w' [= <-].
  - intros w bs r w' [= <- <-]. split; [done|]. split; [rewrite length_take; apply Nat.le_min_r|done].
  - intros w secs micros w' [= <- <- <-]. cbn -[Z.modulo Z.of_nat seq].
    pose proof (Z.mod_pos_bound (Z.of_nat (dated w)) 1000000 ltac:(lia)). split_and!; [lia..|done|]. by rewrite seq_S, map_app.
Defined.

End Script.

(** Linux, and ASCII as the whole of UTF-8. *)
#[global] Instance linux : Libc := { IFNAMSIZ := 16; IFF_TUN := 1; IFF_TAP := 2; IFF_NO_PI := 4096; O_NONBLOCK := 2048 }.

#[global, refine] Instance ascii : Utf8 := {
  utf8 bs := forallb (λ b, b2z b <? 128) bs;
  from_utf8_lossy bs := bs;
}.
Proof.
  - intros line rest. rewrite !forallb_app. cbn. by rewrite andb_true_r.
  - done.
Defined.

(** ** A variable of the program

    What a program keeps in a variable that its functions change through a reference, beside the system. *)

Section beside.
Context {W : Type} (V : Type) `{Os W}.

Definition beside {A} (f : W → A * W) (w : W * V) : A * (W * V) := let '(a, w1) := f w.1 in (a, (w1, w.2)).

#[global] Instance os_beside : Os (W * V) := {
  open_tun := beside open_tun;
  tunsetiff name flags := beside (tunsetiff name flags);
  fcntl_getfl := beside fcntl_getfl;
  fcntl_setfl flags := beside (fcntl_setfl flags);
  file_try_clone := beside file_try_clone;
  file_read len := beside (file_read len);
  file_write_all bs := beside (file_write_all bs);
  pcap_create := beside pcap_create;
  pcap_write bs := beside (pcap_write bs);
  system_time := beside system_time;
  stdout_print bs := beside (stdout_print bs);
  stdout_flush := beside stdout_flush;
  try_recv := beside try_recv;
  millis := beside millis;
}.

#[global] Instance view_beside `{!OsView W} : OsView (W * V) := {
  queued_reads w := queued_reads w.1;
  typed w := typed w.1;
  log w := log w.1;
}.

#[global] Arguments os_beside : simpl never.
#[global] Arguments view_beside : simpl never.

Lemma beside_eq {A} (f : W → A * W) w a w' : beside f w = (a, w') → f w.1 = (a, w'.1).
Proof. unfold beside. destruct (f w.1) as [b w1]. by intros [= <- <-]. Qed.

#[global, refine] Instance laws_beside `{!OsView W} `{!OsLaws W} : OsLaws (W * V) := {}.
Proof.
  - intros w r w' E%beside_eq. by apply open_uses in E.
  - intros w name flags r w' E%beside_eq. by apply ioctl_uses in E.
  - intros w r w' E%beside_eq. by apply getfl_uses in E.
  - intros w flags r w' E%beside_eq. by apply setfl_uses in E.
  - intros w n r w' E%beside_eq. by apply read_uses in E.
  - intros w bs r w' E%beside_eq. by apply write_uses in E.
  - intros w bs r w' E%beside_eq. by apply pcap_uses in E.
  - intros w r w' E%beside_eq. by apply create_uses in E.
  - intros w r w' E%beside_eq. by apply time_uses in E.
  - intros w bs r w' E%beside_eq. by apply print_uses in E.
  - intros w r w' E%beside_eq. by apply flush_uses in E.
  - intros w r w' E%beside_eq. by apply recv_uses in E.
  - intros w ms w' E%beside_eq. by apply millis_uses in E.
Qed.

#[global] Instance stdout_beside `{!StdoutWorks W} : StdoutWorks (W * V).
Proof. intros w text e w' E%beside_eq. by apply stdout_works in E. Qed.

End beside.

(** ** Names in a fixed buffer *)

(** [as c_short] *)
Definition as_c_short (z : Z) : Z := (z + 32768) mod 65536 - 32768.

(** [for (dst, src) in buffer.iter_mut().zip(name)]: overwrite from the front. *)
Fixpoint zip_copy (buffer name : bytes) : bytes :=
  match buffer, name with
  | _ :: buffer, c :: name => c :: zip_copy buffer name
  | _, _ => buffer
  end.

(** [position(|c| c == 0)], as the bytes before it. *)
Fixpoint until_nul (buffer : bytes) : bytes :=
  match buffer with
  | [] => []
  | c :: buffer => if b2z c =? 0 then [] else c :: until_nul buffer
  end.

(** [contains(&0)] *)
Definition contains_nul (name : bytes) : bool := existsb (λ c, b2z c =? 0) name.

Lemma until_nul_zip_copy n name : contains_nul name = false → (length name < n)%nat →
  until_nul (zip_copy (replicate n x00) name) = name ∧ length (zip_copy (replicate n x00) name) = n.
Proof.
  revert n. induction name as [|c name IH]; intros n Hn Hl; destruct n as [|n]; [cbn in Hl; lia| |cbn in Hl; lia|].
  - split; [done|]. cbn. by rewrite length_replicate.
  - cbn in Hn, Hl |- *. apply orb_false_iff in Hn as [-> Hn]. destruct (IH n Hn) as [-> ->]; [lia|done].
Qed.
