(* ===== verification/pcap.v ===== *)
(** * Packet captures ([src/pcap.rs])

    The classic pcap file: a 24-byte little-endian header with the link type, then each
    packet behind a 16-byte header with the time and its length, twice.  All of it goes through
    the standard library's [BufWriter], which keeps up to 8192 bytes back until it is dropped.  The theorem
    says that a reader of the format gets the packets back from the file and what is still buffered.

    A method on [&mut self] is a computation on the system and the object, [io (W * t)]. *)

From S2P Require Import prelude os.

Definition PCAP_MAGIC_LE : Z := 2712847316. (* 0xa1b2c3d4 *)
Definition PCAP_VERSION_MAJOR : Z := 2.
Definition PCAP_VERSION_MINOR : Z := 4.
Definition PCAP_SNAPLEN : Z := 65535.

(** [to_le_bytes] on a 16-bit and a 32-bit integer. *)
Definition le_bytes (n : nat) (z : Z) : bytes := rev (be_bytes n z).
Definition le_u16 (z : Z) : bytes := le_bytes 2 z.
Definition le_u32 (z : Z) : bytes := le_bytes 4 z.

Module PcapLinkType.

Inductive t := Ethernet | RawIpv4.

Definition code (self : t) : Z := match self with Ethernet => 1 | RawIpv4 => 101 end.

End PcapLinkType.

(** [std::io::BufWriter] on the capture file, with its standard capacity. *)
Module BufWriter.

(** What has not been written to the file yet. *)
Record t := mk { buffer : bytes }.

Definition CAPACITY : Z := 8192.

Definition new : t := mk [].

Section operations.
Context {W : Type} `{Os W}.

(** The loop of [write_all] on the file and of [flush_buf], which leaves what it could not write;
    a write that takes nothing is an error. *)
Fixpoint write_out (fuel : nat) (bs : bytes) (w : W) : exec (result unit io_error * bytes * W) :=
  match bs, fuel with
  | [], _ => mret (Ok tt, [], w)
  | _, O => Fault OutOfFuel
  | _, S fuel =>
      match pcap_write bs w with
      | (Ok O, w) => mret (Err OtherError, bs, w)
      | (Ok n, w) => write_out fuel (drop n bs) w
      | (Err e, w) => mret (Err e, bs, w)
      end
  end.

Definition flush_buf : io (W * t) unit := λ '(w, self),
  '(r, rest, w) ← write_out (length (buffer self)) (buffer self) w;
  mret (r, (w, mk rest)).

(** [write_all] of the file itself, past the buffer. *)
Definition write_through (bs : bytes) : io (W * t) unit := λ '(w, self),
  '(r, _, w) ← write_out (length bs) bs w;
  mret (r, (w, self)).

Definition append (bs : bytes) : io (W * t) unit := λ '(w, self), ok tt (w, mk (buffer self ++ bs)).

Definition write_all (bs : bytes) : io (W * t) unit := λ '(w, self),
  let spare := CAPACITY - blen (buffer self) in
  if blen bs <? spare then append bs (w, self)
  else
    (_ ⇐ (if spare <? blen bs then flush_buf else ok tt);
     if CAPACITY <=? blen bs then write_through bs else append bs) (w, self).

(** The destructor: what is buffered is written, and an error is passed over. *)
Definition drop (self : t) (w : W) : exec W :=
  '(_, (w, _)) ← flush_buf (w, self);
  mret w.

End operations.

End BufWriter.

Module PcapWriter.

Record t := mk { writer : BufWriter.t }.

Section operations.
Context {W : Type} `{Os W}.

(** [self.writer.write_all] *)
Definition write_all (bs : bytes) : io (W * t) unit := λ '(w, self),
  '(r, (w, writer)) ← BufWriter.write_all bs (w, writer self);
  mret (r, (w, mk writer)).

(** The destructor of the field. *)
Definition drop (self : t) (w : W) : exec W := BufWriter.drop (writer self) w.

Definition write_global_header (link_type : PcapLinkType.t) : io (W * t) unit :=
  _ ⇐ write_all (le_u32 PCAP_MAGIC_LE);
  _ ⇐ write_all (le_u16 PCAP_VERSION_MAJOR);
  _ ⇐ write_all (le_u16 PCAP_VERSION_MINOR);
  _ ⇐ write_all (le_u32 0);
  _ ⇐ write_all (le_u32 0);
  _ ⇐ write_all (le_u32 PCAP_SNAPLEN);
  write_all (le_u32 (PcapLinkType.code link_type)).

(** [m] on a writer, which is returned, or dropped if there is an error. *)
Definition owning (m : io (W * t) unit) (self : t) : io W t := λ w,
  '(r, (w, self)) ← m (w, self);
  match r with
  | Ok _ => ok self w
  | Err e => w ← drop self w; fail e w
  end.

Definition create (link_type : PcapLinkType.t) : io W t :=
  _ ⇐ call pcap_create;
  owning (write_global_header link_type) (mk BufWriter.new).

Definition write_packet (packet : bytes) : io (W * t) unit :=
  '(as_secs, subsec_micros) ⇐ call system_time;
  len ⇐ match try_from u32_max (blen packet) with Some len => ok len | None => fail InvalidInput end;
  _ ⇐ write_all (le_u32 (cast u32_max as_secs));
  _ ⇐ write_all (le_u32 subsec_micros);
  _ ⇐ write_all (le_u32 len);
  _ ⇐ write_all (le_u32 len);
  write_all packet.

(** [if let Some(writer) = pcap], on a variable that may hold a writer. *)
Definition if_some (m : io (W * t) unit) : io (W * option t) unit := λ '(w, pcap),
  match pcap with
  | Some self => '(r, (w, self)) ← m (w, self); mret (r, (w, Some self))
  | None => ok tt (w, None)
  end.

(** [let mut pcap = path.map(create).transpose()?] *)
Definition open (path : option bytes) (link_type : PcapLinkType.t) : io (W * option t) unit := λ '(w, pcap),
  match path with
  | Some _ =>
      '(r, w) ← create link_type w;
      match r with
      | Ok self => ok tt (w, Some self)
      | Err e => fail e (w, pcap)
      end
  | None => ok tt (w, None)
  end.

(** The scope of the variable: an error leaves it, and the writer is dropped; otherwise the program is
    still inside. *)
Definition scope {A} (m : io (W * option t) A) : io W A := λ w,
  '(r, (w, pcap)) ← m (w, None);
  match r with
  | Ok a => ok a w
  | Err e => w ← match pcap with Some self => drop self w | None => mret w end; fail e w
  end.

(** The packets of a capture, in order. *)
Fixpoint write_packets (packets : list bytes) : io (W * t) unit :=
  match packets with
  | [] => ok tt
  | packet :: packets => _ ⇐ write_packet packet; write_packets packets
  end.

(** A capture of some packets, with its writer. *)
Definition session (link_type : PcapLinkType.t) (packets : list bytes) : io W t :=
  self ⇐ create link_type;
  owning (write_packets packets) self.

End operations.

End PcapWriter.

(** ** Reading a capture, by the format's description *)

Definition le_val (bs : bytes) : Z := be_val (rev bs).

(** A packet with its time, in seconds and microseconds. *)
Definition stamped : Type := Z * Z * bytes.

(** One record: the packet and the rest of the file. *)
Definition read_record (snaplen : Z) (file : bytes) : option (stamped * bytes) :=
  if blen file <? 16 then None
  else
    let secs := le_val (sub 0 4 file) in
    let micros := le_val (sub 4 8 file) in
    let incl_len := le_val (sub 8 12 file) in
    let orig_len := le_val (sub 12 16 file) in
    if (micros <? 1000000) && (incl_len <=? snaplen) && (incl_len =? orig_len) && (16 + incl_len <=? blen file)
    then Some ((secs, micros, sub 16 (16 + incl_len) file), drop (Z.to_nat (16 + incl_len)) file)
    else None.

Fixpoint read_records (fuel : nat) (snaplen : Z) (file : bytes) : option (list stamped) :=
  match fuel, file with
  | _, [] => Some []
  | O, _ => None
  | S fuel, _ =>
      match read_record snaplen file with
      | Some (packet, rest) =>
          match read_records fuel snaplen rest with Some packets => Some (packet :: packets) | None => None end
      | None => None
      end
  end.

(** The link type and the packets of a capture file of version 2.4 in UTC; every record takes at least one byte. *)
Definition read_capture (file : bytes) : option (Z * list stamped) :=
  if (blen file <? 24) || negb (le_val (sub 0 4 file) =? 2712847316) || negb (le_val (sub 4 6 file) =? 2) ||
     negb (le_val (sub 6 8 file) =? 4) || negb (le_val (sub 8 12 file) =? 0)
  then None
  else
    match read_records (length file) (le_val (sub 16 20 file)) (drop 24 file) with
    | Some packets => Some (le_val (sub 20 24 file), packets)
    | None => None
    end.

(** ** The buffered writer *)

(** The buffer is within its capacity. *)
Definition buffered (self : BufWriter.t) : Prop := blen (BufWriter.buffer self) ≤ BufWriter.CAPACITY.

Section writer.
Context {W : Type} `{CaptureLaws W}.
Implicit Types (s : W * BufWriter.t).

(** What is in the file or on its way there. *)
Definition stored s : bytes := capture s.1 ++ BufWriter.buffer s.2.

Lemma write_out_wp fuel bs (w : W) : (length bs ≤ fuel)%nat →
  BufWriter.write_out fuel bs w ⇓ λ '(r, rest, w'), capture w' ++ rest = capture w ++ bs ∧ times w' = times w ∧
    (length rest ≤ length bs)%nat ∧ (r = Ok tt → rest = []).
Proof.
  revert bs w. induction fuel as [|fuel IH]; intros bs w Hf; destruct bs as [|b bs]; cbn [BufWriter.write_out]; try (by wp_step).
  { cbn in Hf. lia. }
  destruct (pcap_write (b :: bs) w) as [[n|e] w1] eqn:E; apply write_takes in E as [Ht Hc]; [destruct Hc as [Hn Hc]|wp_step; by rewrite Hc].
  destruct n as [|n]; [wp_step; by rewrite Hc, app_nil_r|].
  wp_apply (IH (drop (S n) (b :: bs)) w1); [rewrite length_drop; cbn in Hf |- *; lia|]. intros [[r rest] w'] (Hs & Ht' & Hl & Hr).
  rewrite length_drop in Hl. split_and!; [|congruence|lia|done]. by rewrite Hs, Hc, <- (assoc_L (++)), take_drop.
Qed.

Lemma flush_wp s : BufWriter.flush_buf s ⇓ λ '(r, s'), stored s' = stored s ∧ times s'.1 = times s.1 ∧
  (buffered s.2 → buffered s'.2) ∧ (r = Ok tt → BufWriter.buffer s'.2 = []).
Proof.
  destruct s as [w [b]]. unfold BufWriter.flush_buf. cbn. wp_step. wp_apply (write_out_wp (length b) b w); [lia|].
  intros [[r rest] w'] (Hs & Ht & Hl & Hr). wp_step. unfold stored, buffered, blen. cbn. split_and!; [done|done|lia|done].
Qed.

Lemma write_all_runs bs s : buffered s.2 →
  runs (BufWriter.write_all bs) s (λ _ s', stored s' = stored s ++ bs ∧ times s'.1 = times s.1 ∧ buffered s'.2) (λ _, True).
Proof.
  intros Hb. destruct s as [w self]. cbn in Hb. unfold runs at 1. cbn [BufWriter.write_all].
  assert (Happ : ∀ s1, stored s1 = stored (w, self) → times s1.1 = times w →
    blen (BufWriter.buffer s1.2) + blen bs ≤ BufWriter.CAPACITY →
    runs (BufWriter.append bs) s1 (λ _ s', stored s' = stored (w, self) ++ bs ∧ times s'.1 = times w ∧ buffered s'.2) (λ _, True)).
  { intros [w1 [b1]] <- <- Hl. apply runs_ok. unfold stored, buffered. cbn in Hl |- *. by rewrite blen_app, app_assoc. }
  destruct (Z.ltb_spec (blen bs) (BufWriter.CAPACITY - blen (BufWriter.buffer self))); [exact (Happ (w, self) eq_refl eq_refl ltac:(cbn; lia))|].
  refine (runs_bind _ _ (w, self) _ _ _). eapply (runs_mono _ _ (λ _ s1, stored s1 = stored (w, self) ∧ times s1.1 = times w ∧ buffered s1.2 ∧
    (BufWriter.buffer s1.2 = [] ∨ blen (BufWriter.buffer s1.2) + blen bs ≤ BufWriter.CAPACITY)) _ (λ _, True)); [|intros [] s1 (Hs & Ht & Hb1 & Hl)|].
  - destruct (Z.ltb_spec (BufWriter.CAPACITY - blen (BufWriter.buffer self)) (blen bs)).
    + unfold runs. wp_apply (flush_wp (w, self)). intros [[[]|e] s1] (? & ? & Hb1 & Hr); [|done]. split_and!; auto.
    + apply runs_ok. split_and!; [done..|right; cbn; lia].
  - destruct (Z.leb_spec BufWriter.CAPACITY (blen bs)).
    + destruct s1 as [w1 [b1]]. unfold runs, BufWriter.write_through. wp_step. wp_apply (write_out_wp (length bs) bs w1); [lia|].
      intros [[r rest] w2] (Hs2 & Ht2 & _ & Hr). wp_step. destruct r as [[]|e]; [|done]. rewrite Hr, app_nil_r in Hs2 by done.
      cbn in Hl, Ht, Hb1. assert (b1 = []) as ->.
      { destruct Hl as [|Hl]; [done|]. unfold BufWriter.CAPACITY in *. destruct b1; [done|]. unfold blen in *. cbn [length] in *. lia. }
      unfold stored in Hs |- *. cbn in Hs |- *. rewrite app_nil_r in *. split_and!; [by rewrite Hs2, Hs|congruence|done].
    + apply Happ; [done..|]. destruct Hl as [-> |]; [rewrite blen_nil; lia|done].
  - done.
Qed.

(** ** The capture *)

Implicit Types (c : W * PcapWriter.t).

(** The whole capture: what is in the file and what is in the buffer. *)
Definition whole c : bytes := stored (c.1, PcapWriter.writer c.2).

Definition held c : Prop := buffered (PcapWriter.writer c.2).

Lemma runs_write bs c (Q : unit → W * PcapWriter.t → Prop) : held c →
  (∀ c', whole c' = whole c ++ bs → times c'.1 = times c.1 → held c' → Q tt c') →
  runs (PcapWriter.write_all bs) c Q (λ _, True).
Proof.
  intros Hc HQ. destruct c as [w [b]]. unfold runs. cbn [PcapWriter.write_all PcapWriter.writer]. wp_step.
  wp_apply (write_all_runs bs (w, b) Hc). intros [[[]|e] [w' b']] Hs; wp_step; [|done]. destruct Hs as (? & ? & ?). by apply HQ.
Qed.

Definition pcap_header (link_type : PcapLinkType.t) : bytes :=
  le_u32 PCAP_MAGIC_LE ++ le_u16 PCAP_VERSION_MAJOR ++ le_u16 PCAP_VERSION_MINOR ++ le_u32 0 ++ le_u32 0 ++
  le_u32 PCAP_SNAPLEN ++ le_u32 (PcapLinkType.code link_type).

(** The record of a packet that was written at a time. *)
Definition record (time : Z * Z) (packet : bytes) : bytes :=
  le_u32 (cast u32_max time.1) ++ le_u32 time.2 ++ le_u32 (blen packet) ++ le_u32 (blen packet) ++ packet.

Definition time_ok (time : Z * Z) : Prop := 0 ≤ time.2 < 1000000.

Lemma owning_runs m self w (Q : PcapWriter.t → W → Prop) :
  runs m (w, self) (λ _ c', Q c'.2 c'.1) (λ _, True) → runs (PcapWriter.owning m self) w Q (λ _, True).
Proof.
  intros Hm. unfold runs at 1, PcapWriter.owning. wp_step. wp_apply Hm. intros [[[]|e] [w' self']] HQ; [by apply runs_ok|].
  wp_step. unfold PcapWriter.drop, BufWriter.drop. wp_step. wp_apply (flush_wp (w', PcapWriter.writer self')).
  intros [r [w'' b]] _. wp_step. by apply runs_fail.
Qed.

Lemma create_runs link_type w :
  runs (PcapWriter.create link_type) w (λ self w', whole (w', self) = pcap_header link_type ∧ times w' = times w ∧ held (w', self)) (λ _, True).
Proof.
  unfold PcapWriter.create. apply runs_bind, runs_call.
  destruct (pcap_create w) as [[[]|e] w'] eqn:Eq; [|done]. apply create_empty in Eq as [Hc Ht].
  apply owning_runs. unfold PcapWriter.write_global_header.
  do 6 (apply runs_bind, runs_write; [done|intros ? ? ? ?]). apply runs_write; [done|]. intros [w7 self] Hw Ht7 Hh. cbn in Ht7.
  split_and!; [|cbn in *; congruence|done]. change (whole (w7, self) = pcap_header link_type). rewrite Hw.
  repeat match goal with Hc : whole _ = _ |- _ => rewrite Hc; clear Hc end.
  unfold whole, stored. cbn -[le_u32 le_u16]. rewrite Hc. unfold pcap_header. by rewrite <- !app_assoc.
Qed.

Lemma write_packet_runs packet c : held c →
  runs (PcapWriter.write_packet packet) c
    (λ _ c', held c' ∧ ∃ time, time_ok time ∧ times c'.1 = times c.1 ++ [time] ∧ whole c' = whole c ++ record time packet) (λ _, True).
Proof.
  intros Hc. unfold PcapWriter.write_packet. apply runs_bind, runs_call.
  destruct (system_time c) as [[[secs micros]|e] c0] eqn:Eq; [|done].
  destruct c as [w self]. unfold system_time at 1, os_beside, beside in Eq. cbn in Eq. destruct (system_time w) as [r w0] eqn:Ew. injection Eq as -> <-.
  apply time_keeps in Ew as (_ & Hm & Hcap & Ht0).
  assert (Hw : whole (w0, self) = whole (w, self) ∧ held (w0, self) ∧ times w0 = times w ++ [(secs, micros)] ∧ time_ok (secs, micros)).
  { unfold whole, stored. cbn. by rewrite Hcap. }
  apply runs_bind. unfold try_from. destruct (Z.leb_spec (blen packet) u32_max); [|by apply runs_fail].
  destruct Hw as (Hw & Hh & Ht & Hok).
  apply runs_ok. do 4 (apply runs_bind, runs_write; [done|intros ? ? ? ?]). apply runs_write; [done|]. intros c7 Hw7 ? ?.
  split; [done|]. exists (secs, micros). cbn in *. split_and!; [done|congruence|].
  repeat match goal with Hc : whole _ = _ |- _ => rewrite Hc; clear Hc end. unfold record. by rewrite <- !app_assoc.
Qed.

Lemma write_packets_runs packets c : held c →
  runs (PcapWriter.write_packets packets) c
    (λ _ c', held c' ∧ ∃ stamps, Forall time_ok stamps ∧ length stamps = length packets ∧ times c'.1 = times c.1 ++ stamps ∧
       whole c' = whole c ++ concat (zip_with record stamps packets)) (λ _, True).
Proof.
  revert c. induction packets as [|p packets IH]; intros c Hc; cbn [PcapWriter.write_packets].
  - apply runs_ok. split; [done|]. exists []. by rewrite !app_nil_r.
  - apply runs_bind. eapply runs_mono; [by apply write_packet_runs| |done]. intros [] c1 (Hc1 & time & Hok & Ht & Hw).
    eapply runs_mono; [by apply IH| |done]. intros [] c2 (Hc2 & stamps & Hoks & Hl & Ht2 & Hw2). split; [done|].
    exists (time :: stamps). split_and!; [by constructor|cbn; congruence|by rewrite Ht2, Ht, <- app_assoc|].
    by rewrite Hw2, Hw, <- app_assoc.
Qed.

End writer.

(** ** The reader *)

Lemma length_le n z : length (le_bytes n z) = n.
Proof. unfold le_bytes. by rewrite length_rev, length_be_bytes. Qed.

Lemma le_val_u32 z : u32 z → le_val (le_u32 z) = z.
Proof.
  intros []. unfold le_val, le_u32, le_bytes. rewrite rev_involutive, be_val_bytes. apply Z.mod_small. lia.
Qed.

(** What a reader makes of a packet: the seconds are kept in 32 bits. *)
Definition seen (time : Z * Z) (packet : bytes) : stamped := (time.1 mod 2 ^ 32, time.2, packet).

Lemma cast_seconds secs : cast u32_max secs = secs mod 2 ^ 32 ∧ u32 (cast u32_max secs).
Proof. split; [done|]. unfold cast, u32. pose proof (Z.mod_pos_bound secs (u32_max + 1)). lia. Qed.

Lemma read_record_eq time packet rest : time_ok time → blen packet ≤ PCAP_SNAPLEN →
  read_record PCAP_SNAPLEN (record time packet ++ rest) = Some (seen time packet, rest).
Proof.
  intros Ht Hp. unfold PCAP_SNAPLEN in Hp. unfold read_record. pose proof (blen_nonneg packet). pose proof (blen_nonneg rest).
  destruct (cast_seconds time.1) as [Hs Hs32]. unfold time_ok in Ht.
  assert (Hl : ∀ z, blen (le_u32 z) = 4) by (intros z; unfold le_u32, blen; by rewrite length_le).
  assert (Hlen : blen (record time packet ++ rest) = 16 + blen packet + blen rest).
  { unfold record. rewrite !blen_app, !Hl. lia. }
  rewrite Hlen, (proj2 (Z.ltb_ge _ _)) by lia.
  change (sub 0 4 (record time packet ++ rest)) with (le_u32 (cast u32_max time.1)).
  change (sub 4 8 (record time packet ++ rest)) with (le_u32 time.2).
  change (sub 8 12 (record time packet ++ rest)) with (le_u32 (blen packet)).
  change (sub 12 16 (record time packet ++ rest)) with (le_u32 (blen packet)).
  rewrite !le_val_u32 by (done || unfold u32; ulia). unfold PCAP_SNAPLEN.
  rewrite Z.eqb_refl, (proj2 (Z.ltb_lt _ _)), !(proj2 (Z.leb_le _ _)) by lia. cbn [andb].
  assert (Hsplit : record time packet ++ rest
    = (le_u32 (cast u32_max time.1) ++ le_u32 time.2 ++ le_u32 (blen packet) ++ le_u32 (blen packet)) ++ packet ++ rest).
  { unfold record. by rewrite <- !app_assoc. }
  rewrite Hsplit. unfold seen. rewrite Hs. f_equal. f_equal; [f_equal|].
  - pose proof (slice_app (le_u32 (time.1 mod 2 ^ 32) ++ le_u32 time.2 ++ le_u32 (blen packet) ++ le_u32 (blen packet)) packet rest
      16 (16 + blen packet) eq_refl eq_refl) as Hsl.
    rewrite slice_sub in Hsl; [by injection Hsl|lia|]. rewrite !blen_app, !Hl. lia.
  - rewrite app_assoc, drop_app_length'; [done|]. rewrite length_app. cbn. unfold blen. lia.
Qed.

Lemma read_records_eq stamps packets fuel : Forall time_ok stamps → Forall (λ p, blen p ≤ PCAP_SNAPLEN) packets →
  length stamps = length packets → (length (concat (zip_with record stamps packets)) ≤ fuel)%nat →
  read_records fuel PCAP_SNAPLEN (concat (zip_with record stamps packets)) = Some (zip_with seen stamps packets).
Proof.
  intros Hs Hp. revert packets Hp fuel. induction Hs as [|time stamps Ht Hs IH]; intros [|p packets] Hp fuel Hl Hf; try done; [by destruct fuel|].
  apply Forall_cons in Hp as [Hp Hps]. cbn [zip_with concat] in *. rewrite length_app in Hf.
  change (length (record time p)) with (16 + length p)%nat in Hf. destruct fuel as [|fuel]; [lia|]. cbn [read_records].
  rewrite read_record_eq by done. destruct (record time p ++ _) eqn:E; [done|]. rewrite IH; [done|done|by injection Hl|lia].
Qed.

Lemma read_capture_eq link_type stamps packets : Forall time_ok stamps → Forall (λ p, blen p ≤ PCAP_SNAPLEN) packets →
  length stamps = length packets →
  read_capture (pcap_header link_type ++ concat (zip_with record stamps packets)) =
    Some (PcapLinkType.code link_type, zip_with seen stamps packets).
Proof.
  intros Hs Hp Hl. unfold read_capture. set (file := concat _).
  assert (Hh : blen (pcap_header link_type) = 24) by done. rewrite blen_app, Hh.
  pose proof (blen_nonneg file). rewrite (proj2 (Z.ltb_ge _ _)) by lia.
  assert (H20 : le_val (sub 20 24 (pcap_header link_type ++ file)) = PcapLinkType.code link_type)
    by (apply (le_val_u32 (PcapLinkType.code link_type)); destruct link_type; cbn; ulia).
  change (drop 24 (pcap_header link_type ++ file)) with file. rewrite H20.
  change (le_val (sub 0 4 (pcap_header link_type ++ file))) with (le_val (le_u32 PCAP_MAGIC_LE)).
  change (le_val (sub 4 6 (pcap_header link_type ++ file))) with 2.
  change (le_val (sub 6 8 (pcap_header link_type ++ file))) with 4.
  change (le_val (sub 8 12 (pcap_header link_type ++ file))) with 0.
  change (le_val (sub 16 20 (pcap_header link_type ++ file))) with PCAP_SNAPLEN.
  change (le_val (le_u32 PCAP_MAGIC_LE)) with 2712847316. cbn [Z.eqb Pos.eqb negb orb].
  unfold file. rewrite (read_records_eq stamps packets); [done..|]. rewrite length_app. lia.
Qed.

(** ** Dumping leaves the rest of the system alone *)

Section dumping.
Context {W : Type} `{OsLaws W}.
Implicit Types (w : W) (c : W * PcapWriter.t).

Lemma write_out_calm fuel bs w w0 : calm w0 w → (length bs ≤ fuel)%nat → BufWriter.write_out fuel bs w ⇓ λ '(_, _, w'), calm w0 w'.
Proof.
  revert bs w. induction fuel as [|fuel IH]; intros bs w Hw Hf; destruct bs as [|b bs]; cbn [BufWriter.write_out]; try (by wp_step).
  { cbn in Hf. lia. }
  destruct (pcap_write (b :: bs) w) as [[n|e] w1] eqn:E; apply pcap_uses in E; (eapply calm_trans in E; [|exact Hw]); [|by wp_step].
  destruct n as [|n]; [by wp_step|]. apply IH; [done|]. rewrite length_drop. cbn in Hf |- *. lia.
Qed.

Lemma flush_calm w0 (s : W * BufWriter.t) : calm w0 s.1 → BufWriter.flush_buf s ⇓ λ '(_, s'), calm w0 s'.1.
Proof.
  destruct s as [w [b]]. intros Hw. unfold BufWriter.flush_buf. wp_step. wp_apply (write_out_calm (length b) b w w0 Hw); [lia|].
  intros [[r rest] w'] Hc. by wp_step.
Qed.

Lemma buffer_calm bs w0 (s : W * BufWriter.t) : calm w0 s.1 →
  runs (BufWriter.write_all bs) s (λ _ s', calm w0 s'.1) (λ s', calm w0 s'.1).
Proof.
  destruct s as [w self]. intros Hw. unfold runs at 1. cbn [BufWriter.write_all]. destruct (_ <? _); [exact Hw|].
  refine (runs_bind _ _ (w, self) _ _ _). eapply (runs_mono _ _ (λ _ s', calm w0 s'.1) _ (λ s', calm w0 s'.1)); [|intros [] [w1 b1] Hc|done].
  - destruct (_ <? _); [|by apply runs_ok]. unfold runs. wp_apply (flush_calm w0 (w, self) Hw). by intros [[[]|e] s'].
  - destruct (_ <=? _); [|by apply runs_ok]. unfold runs, BufWriter.write_through. wp_step.
    wp_apply (write_out_calm (length bs) bs w1 w0 Hc); [lia|]. intros [[r rest] w2] Hc2. wp_step. by destruct r.
Qed.

Lemma runs_pcap bs c c0 (Q : unit → W * PcapWriter.t → Prop) : calm c0 c →
  (∀ c', calm c0 c' → Q tt c') → runs (PcapWriter.write_all bs) c Q (calm c0).
Proof.
  destruct c as [w [b]]. intros Hw HQ. unfold runs. cbn [PcapWriter.write_all PcapWriter.writer]. wp_step.
  wp_apply (buffer_calm bs c0.1 (w, b) Hw). intros [[[]|e] [w' b']] Hc; wp_step; [by apply HQ|done].
Qed.

Lemma write_packet_calm packet c : runs (PcapWriter.write_packet packet) c (λ _, calm c) (calm c).
Proof.
  unfold PcapWriter.write_packet. apply runs_bind, runs_call.
  destruct (system_time c) as [[[s m]|e] c1] eqn:E; apply time_uses in E; [|done].
  apply runs_bind. destruct (try_from _ _); [|by apply runs_fail]. apply runs_ok.
  do 4 (apply runs_bind, runs_pcap; [done|]; intros ? ?). by apply runs_pcap.
Qed.

(** Dropping a writer, in a world that has kept calm since [w0]. *)
Lemma drop_calm self w w0 : calm w0 w → PcapWriter.drop self w ⇓ calm w0.
Proof.
  intros Hw. unfold PcapWriter.drop, BufWriter.drop. wp_step. wp_apply (flush_calm w0 (w, PcapWriter.writer self) Hw).
  intros [r [w' b]] Hc. by wp_step.
Qed.

Lemma create_calm link w : runs (PcapWriter.create link) w (λ _, calm w) (calm w).
Proof.
  unfold PcapWriter.create. apply runs_bind, runs_call. destruct (pcap_create w) as [[[]|e] w1] eqn:E; apply create_uses in E; [|done].
  assert (Hm : runs (PcapWriter.write_global_header link) (w1, PcapWriter.mk BufWriter.new) (λ _ c', calm w c'.1) (λ c', calm w c'.1)).
  { pose (c1 := (w1, PcapWriter.mk BufWriter.new)). pose (c0 := (w, PcapWriter.mk BufWriter.new)).
    change (runs (PcapWriter.write_global_header link) c1 (λ _, calm c0) (calm c0)). unfold PcapWriter.write_global_header.
    do 6 (apply runs_bind, runs_pcap; [done|]; intros ? ?). by apply runs_pcap. }
  unfold runs, PcapWriter.owning. wp_step. wp_apply Hm. intros [[[]|e] [w' self]] Hc; [exact Hc|].
  wp_step. wp_apply (drop_calm self w' w Hc). intros w2 Hc2. exact Hc2.
Qed.

Lemma if_some_calm packet (p : W * option PcapWriter.t) :
  runs (PcapWriter.if_some (PcapWriter.write_packet packet)) p (λ _, calm p) (calm p).
Proof.
  destruct p as [w [self|]]; [|by apply runs_ok]. unfold runs, PcapWriter.if_some. wp_step.
  wp_apply (write_packet_calm packet (w, self)). by intros [[[]|e] [w' self']].
Qed.

Lemma open_calm path link (p : W * option PcapWriter.t) : runs (PcapWriter.open path link) p (λ _, calm p) (calm p).
Proof.
  destruct p as [w pcap]. unfold runs, PcapWriter.open. destruct path; [|by apply runs_ok]. wp_step.
  wp_apply (create_calm link w). by intros [[self|e] w'].
Qed.

Lemma scope_runs {A} (m : io (W * option PcapWriter.t) A) w (Q : A → W → Prop) (E : W → Prop) :
  (∀ w w', calm w w' → E w → E w') →
  runs m (w, None) (λ a p, Q a p.1) (λ p, E p.1) → runs (PcapWriter.scope m) w Q E.
Proof.
  intros Hcalm Hm. unfold runs, PcapWriter.scope. wp_step. wp_apply Hm. intros [[a|e] [w' pcap]] Hw; [exact Hw|].
  cbn in Hw. wp_step. destruct pcap as [self|]; [|exact Hw].
  wp_apply (drop_calm self w' w' (calm_refl w')). intros w2 Hc2. exact (Hcalm _ _ Hc2 Hw).
Qed.

End dumping.

(** C39: A capture can be read back, from the file and what the writer still holds. Whatever the
    system does, creating a capture and writing packets to it (each within the snap length of 65535 bytes)
    ends, and if it reports no error, then the content of the file followed by the buffer is a capture
    of version 2.4 from which a reader of the pcap format recovers the link type and exactly those packets,
    in order, each with the time the system's clock gave for it (the seconds in 32 bits) and with its length.
    At most the last 8192 bytes are missing from the file itself; dropping the writer ends, and
    the file is then whole unless a write of the rest fails. *)
Theorem pcap_readable {W} `{CaptureLaws W} link_type packets (w : W) :
  Forall (λ p, blen p ≤ PCAP_SNAPLEN) packets →
  ∃ r w1, PcapWriter.session link_type packets w = Ret (r, w1) ∧
    match r with
    | Ok self => ∃ stamps file r' w2 rest,
        times w1 = times w ++ stamps ∧ length stamps = length packets ∧
        file = capture w1 ++ BufWriter.buffer (PcapWriter.writer self) ∧
        read_capture file = Some (PcapLinkType.code link_type, zip_with seen stamps packets) ∧
        blen (BufWriter.buffer (PcapWriter.writer self)) ≤ 8192 ∧
        BufWriter.flush_buf (w1, PcapWriter.writer self) = Ret (r', (w2, rest)) ∧
        PcapWriter.drop self w1 = Ret w2 ∧ capture w2 `prefix_of` file ∧ (r' = Ok tt → capture w2 = file)
    | Err _ => True
    end.
Proof.
  intros Hp.
  assert (Hs : runs (PcapWriter.session link_type packets) w
    (λ self w1, held (w1, self) ∧ ∃ stamps, Forall time_ok stamps ∧ length stamps = length packets ∧ times w1 = times w ++ stamps ∧
       whole (w1, self) = pcap_header link_type ++ concat (zip_with record stamps packets)) (λ _, True)).
  { apply runs_bind. eapply runs_mono; [apply create_runs| |done]. intros self w0 (Hw & Ht & Hh). apply owning_runs.
    eapply runs_mono; [by apply write_packets_runs| |done]. cbn. rewrite Hw, Ht. by intros [] [w1 self1]. }
  unfold runs in Hs. wp_inv Hs. destruct r as [r w1]. exists r, w1. split; [done|]. destruct r as [self|e]; [|done].
  destruct Hs as (Hh & stamps & Hok & Hl & Ht & Hw). pose proof (flush_wp (w1, PcapWriter.writer self)) as Hf. wp_inv Hf.
  destruct r as [r' [w2 rest]]. destruct Hf as (Hst & _ & _ & Hr'). cbn in Hst, Hr'. unfold stored in Hst. cbn in Hst.
  exists stamps, (whole (w1, self)), r', w2, rest. split_and!; [done|done|done| |exact Hh|done| | |].
  - rewrite Hw. by apply read_capture_eq.
  - unfold PcapWriter.drop, BufWriter.drop. by rewrite Heq0, bind_Ret.
  - unfold whole, stored. cbn. rewrite <- Hst. by eexists.
  - intros Hok'. unfold whole, stored. cbn. by rewrite <- Hst, Hr', app_nil_r.
Qed.

(** A capture that nobody drops: the file stays empty. *)
Example pcap_stays_buffered :
  match PcapWriter.session PcapLinkType.Ethernet [[x61; x62]; []; [x63]] (Script.mk [] [] [] [] [] [] 0) with
  | Ret (Ok self, w) => capture w = [] ∧ blen (BufWriter.buffer (PcapWriter.writer self)) = 75
  | _ => False
  end.
Proof. by vm_compute. Qed.

Lemma pcap_readable_witness :
  let packets := [[x61; x62]; replicate (Z.to_nat 9000) x00; [x63]] in
  let w := Script.mk [] [] [] [] [] [] 0 in
  ∃ r w1, PcapWriter.session PcapLinkType.Ethernet packets w = Ret (r, w1) ∧
    match r with
    | Ok self => ∃ stamps file r' w2 rest,
        times w1 = times w ++ stamps ∧ length stamps = length packets ∧
        file = capture w1 ++ BufWriter.buffer (PcapWriter.writer self) ∧
        read_capture file = Some (PcapLinkType.code PcapLinkType.Ethernet, zip_with seen stamps packets) ∧
        blen (BufWriter.buffer (PcapWriter.writer self)) ≤ 8192 ∧
        BufWriter.flush_buf (w1, PcapWriter.writer self) = Ret (r', (w2, rest)) ∧
        PcapWriter.drop self w1 = Ret w2 ∧ capture w2 `prefix_of` file ∧ (r' = Ok tt → capture w2 = file)
    | Err _ => True
    end.
Proof. intros packets w. apply (pcap_readable PcapLinkType.Ethernet packets w). repeat constructor; vm_compute; discriminate. Defined.
