(* ===== verification/tap.v ===== *)
(** * TAP devices ([src/tap.rs])

    Attaching to a TAP device and reading and writing frames on it.  The open file is
    part of the system's world; the [ioctl] request is modelled with its fixed-size name.
    [unsupported] is what other systems get. *)

From S2P Require Import prelude os.
From Stdlib Require Strings.String.
Import Strings.String.StringSyntax.

#[local] Open Scope Z_scope.

Definition MAX_ETHERNET_FRAME_SIZE : Z := 65535.

Definition validate_interface_name {W} `{Libc} (name : bytes) : io W unit :=
  if blen name =? 0 then fail InvalidInput
  else if contains_nul name then fail InvalidInput
  else if Z.of_nat IFNAMSIZ <=? blen name then fail InvalidInput
  else ok tt.

Module IfReq.

Record t := mk { ifr_name : bytes; ifr_flags : Z }.

Definition new {W} `{Libc} (name : bytes) (flags : Z) : io W t :=
  _ ⇐ validate_interface_name name;
  ok (mk (zip_copy (replicate IFNAMSIZ x00) name) flags).

End IfReq.

Definition ifreq_name_to_string `{Utf8} (name : bytes) : bytes := from_utf8_lossy (until_nul name).

Module TapDevice.

(** The device, by the name Linux gave it. *)
Record t := mk { name : bytes }.

Definition create {W} `{Os W} `{Libc} `{Utf8} (name : bytes) : io W t :=
  _ ⇐ validate_interface_name name;
  _ ⇐ call open_tun;
  let flags := as_c_short (Z.lor IFF_TAP IFF_NO_PI) in
  ifreq ⇐ IfReq.new name flags;
  ifr_name ⇐ call (tunsetiff (IfReq.ifr_name ifreq) (IfReq.ifr_flags ifreq));
  ok (mk (ifreq_name_to_string ifr_name)).

Definition read_frame {W} `{Os W} : io W bytes := call (file_read MAX_ETHERNET_FRAME_SIZE).

Definition write_frame {W} `{Os W} (frame : bytes) : io W unit :=
  if blen frame =? 0 then fail InvalidInput else call (file_write_all frame).

Definition write_bytes {W} `{Os W} (frame : bytes) : io W unit := write_frame frame.

Definition set_nonblocking {W} `{Os W} `{Libc} (nonblocking : bool) : io W unit :=
  flags ⇐ call fcntl_getfl;
  let new_flags := if nonblocking then Z.lor flags O_NONBLOCK else Z.land flags (Z.lnot O_NONBLOCK) in
  call (fcntl_setfl new_flags).

(** The clone shares the open file. *)
Definition try_clone {W} `{Os W} (self : t) : io W t :=
  _ ⇐ call file_try_clone;
  ok self.

End TapDevice.

(** The device on systems other than Linux. *)
Module unsupported.

Definition unsupported {W A} : io W A := fail Unsupported.

Module TapDevice.

Inductive t := mk.

Definition create {W} (name : bytes) : io W t := unsupported.
Definition name (self : t) : bytes := str "unsupported".
Definition read_frame {W} : io W bytes := unsupported.
Definition write_frame {W} (frame : bytes) : io W unit := unsupported.
Definition set_nonblocking {W} (nonblocking : bool) : io W unit := unsupported.
Definition try_clone {W} (self : t) : io W t := unsupported.
Definition write_bytes {W} (frame : bytes) : io W unit := unsupported.

End TapDevice.

End unsupported.

Section names.
Context `{Libc} `{Utf8}.

Definition name_ok (name : bytes) : Prop :=
  name ≠ [] ∧ contains_nul name = false ∧ (length name < IFNAMSIZ)%nat.

Lemma validate_tap_name {W} (name : bytes) (w : W) :
  (name_ok name ∧ validate_interface_name name w = Ret (Ok tt, w)) ∨
  (¬ name_ok name ∧ validate_interface_name name w = Ret (Err InvalidInput, w)).
Proof.
  unfold validate_interface_name, name_ok, blen. destruct name as [|c name]; [right; split; [|done]; by intros [? _]|].
  rewrite (proj2 (Z.eqb_neq _ 0)) by (cbn; lia). destruct (contains_nul (c :: name)) eqn:E; [right; split; [|done]; by intros (_ & ? & _)|].
  destruct (Z.leb_spec (Z.of_nat IFNAMSIZ) (Z.of_nat (length (c :: name)))); [right|left]; (split; [|done]).
  - intros (_ & _ & ?). lia.
  - split_and!; [done|done|lia].
Qed.
End names.

(** Interface names survive the kernel request. [IfReq::new] accepts exactly the names
    that are not empty, hold no NUL and leave room for one in the buffer, and reports an
    invalid input for every other; a name it accepts fills the buffer to its fixed
    length and is read back unchanged. *)
Theorem tap_name_roundtrip {W} `{Libc} `{Utf8} (name : bytes) flags (w : W) :
  utf8 name →
  (name_ok name ∧ ∃ req, IfReq.new name flags w = Ret (Ok req, w) ∧ IfReq.ifr_flags req = flags ∧
     length (IfReq.ifr_name req) = IFNAMSIZ ∧ ifreq_name_to_string (IfReq.ifr_name req) = name) ∨
  (¬ name_ok name ∧ IfReq.new name flags w = Ret (Err InvalidInput, w)).
Proof.
  intros Hu. unfold IfReq.new, io_bind. destruct (validate_tap_name name w) as [[Hn ->]|[Hn ->]]; [left|by right].
  split; [done|]. eexists. split; [done|]. cbn. destruct Hn as (_ & Hnul & Hl).
  destruct (until_nul_zip_copy IFNAMSIZ name Hnul Hl) as [Hr Hlen]. unfold ifreq_name_to_string. rewrite Hr.
  by rewrite from_utf8_lossy_valid.
Qed.

Lemma tap_name_roundtrip_witness :
  let tap := [x74; x61; x70; x30] in
  (name_ok tap ∧ ∃ req, IfReq.new tap 4098 tt = Ret (Ok req, tt) ∧ IfReq.ifr_flags req = 4098 ∧
     length (IfReq.ifr_name req) = IFNAMSIZ ∧ ifreq_name_to_string (IfReq.ifr_name req) = tap) ∨
  (¬ name_ok tap ∧ IfReq.new tap 4098 tt = Ret (Err InvalidInput, tt)).
Proof. intros tap. apply tap_name_roundtrip. by vm_compute. Defined.
