(* ===== verification/tun.v ===== *)
(** * TUN devices ([src/tun.rs])

    Attaching to a TUN device and reading and writing raw IPv4 packets on it, as bytes or
    as datagrams.  The source repeats the name handling of [src/tap.rs]; so does this
    file.  [unsupported] is what other systems get. *)

From S2P Require Import prelude checksum ipv4_datagram os.
From Stdlib Require Strings.String.
Import Strings.String.StringSyntax.

#[local] Open Scope Z_scope.

Definition MAX_IPV4_PACKET_SIZE : Z := 65535.

Definition validate_interface_name {W} `{Libc} (name : bytes) : io W unit :=
  if blen name =? 0 then fail InvalidInput
  else if contains_nul name then fail InvalidInput
  else if Z.of_nat IFNAMSIZ <=? blen name then fail InvalidInput
  else ok tt.

Module IfReq.

Record t := mk { ifr_name : bytes; ifr_flags : Z }.

Definition new {W} `{Libc} (name : bytes) (flags : Z) : io W t :=
  _ ⇐ validate_interface_name name;
  ok (mk (zip_copy (replicate IFNAMSIZ x00) name) flags).

End IfReq.

Definition ifreq_name_to_string `{Utf8} (name : bytes) : bytes := from_utf8_lossy (until_nul name).

Module TunDevice.

(** The device, by the name Linux gave it. *)
Record t := mk { name : bytes }.

Definition create {W} `{Os W} `{Libc} `{Utf8} (name : bytes) : io W t :=
  _ ⇐ validate_interface_name name;
  _ ⇐ call open_tun;
  let flags := as_c_short (Z.lor IFF_TUN IFF_NO_PI) in
  ifreq ⇐ IfReq.new name flags;
  ifr_name ⇐ call (tunsetiff (IfReq.ifr_name ifreq) (IfReq.ifr_flags ifreq));
  ok (mk (ifreq_name_to_string ifr_name)).

Definition read_packet {W} `{Os W} : io W bytes := call (file_read MAX_IPV4_PACKET_SIZE).

Definition read_packet_into {W} `{Os W} (len : Z) : io W bytes := call (file_read len).

(** A packet that does not parse is reported as [InvalidData]. *)
Definition read_ipv4_datagram {W} `{Os W} : io W Ipv4Datagram.t :=
  packet ⇐ read_packet;
  r ⇐ lift (Ipv4Datagram.parse_bytes packet);
  match r with
  | Ok datagram => ok datagram
  | Err _ => fail InvalidData
  end.

Definition write_packet {W} `{Os W} (packet : bytes) : io W unit :=
  if blen packet =? 0 then fail InvalidInput else call (file_write_all packet).

Definition write_ipv4_datagram {W} `{Os W} (datagram : Ipv4Datagram.t) : io W unit :=
  packet ⇐ lift (Ipv4Datagram.serialize datagram);
  write_packet packet.

Definition write_bytes {W} `{Os W} (packet : bytes) : io W unit := write_packet packet.

Definition set_nonblocking {W} `{Os W} `{Libc} (nonblocking : bool) : io W unit :=
  flags ⇐ call fcntl_getfl;
  let new_flags := if nonblocking then Z.lor flags O_NONBLOCK else Z.land flags (Z.lnot O_NONBLOCK) in
  call (fcntl_setfl new_flags).

(** The clone shares the open file. *)
Definition try_clone {W} `{Os W} (self : t) : io W t :=
  _ ⇐ call file_try_clone;
  ok self.

End TunDevice.

(** The device on systems other than Linux. *)
Module unsupported.

Definition unsupported {W A} : io W A := fail Unsupported.

Module TunDevice.

Inductive t := mk.

Definition create {W} (name : bytes) : io W t := fail Unsupported.
Definition name (self : t) : bytes := str "unsupported".
Definition read_packet {W} : io W bytes := unsupported.
Definition read_packet_into {W} (len : Z) : io W bytes := unsupported.
Definition read_ipv4_datagram {W} : io W Ipv4Datagram.t := unsupported.
Definition write_packet {W} (packet : bytes) : io W unit := unsupported.
Definition write_ipv4_datagram {W} (datagram : Ipv4Datagram.t) : io W unit := unsupported.
Definition set_nonblocking {W} (nonblocking : bool) : io W unit := unsupported.
Definition try_clone {W} (self : t) : io W t := unsupported.
Definition write_bytes {W} (packet : bytes) : io W unit := unsupported.

End TunDevice.

End unsupported.

Section device.
Context {W : Type} `{Os W}.

(** A datagram goes out as one non-empty packet that fits the read buffer and parses back. *)
Lemma write_datagram_runs d w : Ipv4Datagram.wf d →
  runs (TunDevice.write_ipv4_datagram d) w
    (λ _ w', ∃ packet, file_write_all packet w = (Ok tt, w') ∧ 20 ≤ blen packet ≤ MAX_IPV4_PACKET_SIZE ∧
       Ipv4Datagram.parse_bytes packet = Ret (Ok d)) (λ _, True).
Proof.
  intros Hd. destruct (wire_roundtrip (WireFormat := ipv4_wire) d Hd) as (bs & Hs & Hp). cbn in Hs, Hp.
  destruct (ipv4_serialize_eq d Hd) as (c & Hs' & _). destruct Hd as (_ & _ & _ & _ & Hlen).
  assert (bs = ipv4_head d ++ put_u16 c ++ ipv4_addrs d ++ Ipv4Datagram.payload d) as Hbs by congruence.
  assert (Hl : blen bs = 20 + blen (Ipv4Datagram.payload d)).
  { rewrite Hbs, !blen_app, ipv4_head_len, ipv4_addrs_len. change (blen (put_u16 c)) with 2. lia. }
  pose proof (blen_nonneg (Ipv4Datagram.payload d)).
  unfold TunDevice.write_ipv4_datagram. apply runs_bind, runs_lift. rewrite Hs. wp_step.
  unfold TunDevice.write_packet. rewrite (proj2 (Z.eqb_neq _ _)) by lia. apply runs_call.
  destruct (file_write_all bs w) as [[[]|e] w'] eqn:E; [|done]. exists bs. unfold MAX_IPV4_PACKET_SIZE.
  split_and!; try done; lia.
Qed.

(** Whatever packet arrives, reading a datagram does not panic. *)
Lemma read_datagram_runs w : runs TunDevice.read_ipv4_datagram w (λ d _, Ipv4Datagram.wf d) (λ _, True).
Proof.
  unfold TunDevice.read_ipv4_datagram, TunDevice.read_packet. apply runs_bind, runs_call.
  destruct (file_read MAX_IPV4_PACKET_SIZE w) as [[packet|e] w']; [|done]. apply runs_bind, runs_lift.
  wp_apply (ipv4_parse_wp packet). intros [d|e] Hd; [apply runs_ok, Hd|by apply runs_fail].
Qed.
End device.
