(* ===== verification/host_cli.v ===== *)
(** * Command-line helpers of the host programs ([src/bin/common/host_cli.rs])

    Parsing and printing of addresses and ports, the report of events, and the thread that
    reads standard input.  Strings are their UTF-8 bytes; the number and address parsers of
    the Rust library are written out.  Messages on standard error are left out.  [books] says what of the
    typing the stream of a program's host holds, for both programs. *)

From S2P Require Import prelude wrapping_integers byte_stream tcp_message.
From S2P Require Import checksum icmp ipv4_datagram tcp_segment tcp_receiver tcp_sender.
From S2P Require Import tcp_connection ip_host os.
From Stdlib Require Strings.String.
Import Strings.String.StringSyntax.

#[local] Open Scope Z_scope.

(** ** Strings and numbers, as the Rust library handles them *)

(** [char::to_digit] *)
Definition to_digit (radix : Z) (c : byte) : option Z :=
  let z := b2z c in
  let d := if (48 <=? z) && (z <=? 57) then z - 48
           else if (97 <=? z) && (z <=? 122) then z - 87
           else if (65 <=? z) && (z <=? 90) then z - 55
           else radix in
  if d <? radix then Some d else None.

(** The digits of a number no greater than [top]. *)
Fixpoint digits (radix top acc : Z) (s : bytes) : option Z :=
  match s with
  | [] => Some acc
  | c :: s =>
      match to_digit radix c with
      | Some d => if acc * radix + d <=? top then digits radix top (acc * radix + d) s else None
      | None => None
      end
  end.

(** [uN::from_str_radix]: one leading [+] is allowed. *)
Definition from_str_radix (radix top : Z) (s : bytes) : option Z :=
  match s with
  | [] => None
  | c :: rest =>
      if b2z c =? 43 then match rest with [] => None | _ => digits radix top 0 rest end
      else digits radix top 0 s
  end.

(** [str::split] on one character: the part before it and the parts after it. *)
Fixpoint split_on (c : byte) (s : bytes) : list bytes :=
  match s with
  | [] => [[]]
  | x :: s =>
      if b2z x =? b2z c then [] :: split_on c s
      else match split_on c s with
           | part :: parts => (x :: part) :: parts
           | [] => [[x]]
           end
  end.

(** One octet of [Ipv4Addr::from_str]: one to three digits, no leading zero, at most 255. *)
Definition octet (s : bytes) : option byte :=
  match s with
  | [] => None
  | c :: rest =>
      if (3 <? blen s) || ((b2z c =? 48) && negb (blen rest =? 0)) then None
      else option_map z2b (digits 10 255 0 s)
  end.

(** A [u8] as [{}]. *)
Definition dec (b : byte) : bytes :=
  let z := b2z b in
  (if 100 <=? z then [z2b (48 + z / 100)] else []) ++
  (if 10 <=? z then [z2b (48 + z / 10 mod 10)] else []) ++ [z2b (48 + z mod 10)].

(** ** The helpers *)

Definition fmt_ip (ip : array4) : bytes :=
  let '(A4 a b c d) := ip in dec a ++ [x2e] ++ dec b ++ [x2e] ++ dec c ++ [x2e] ++ dec d.

Definition parse_ipv4 (value : bytes) : result array4 io_error :=
  match map octet (split_on x2e value) with
  | [Some a; Some b; Some c; Some d] => Ok (A4 a b c d)
  | _ => Err InvalidInput
  end.

Definition parse_port (value : bytes) : result Z io_error :=
  match from_str_radix 10 u16_max value with
  | Some port => if port =? 0 then Err InvalidInput else Ok port
  | None => Err InvalidInput
  end.

Definition require_arg (args : list bytes) (index : nat) : result bytes io_error :=
  match args !! index with Some arg => Ok arg | None => Err InvalidInput end.

(** Only payloads go to standard output; [print!] panics when it cannot be written. *)
Fixpoint print_events {W} `{Os W} `{Utf8} (events : list IpHostEvent.t) : io W unit :=
  match events with
  | [] => ok tt
  | event :: events =>
      _ ⇐ match event with
          | IpHostEvent.TcpPayload payload =>
              _ ⇐ print (from_utf8_lossy payload);
              call stdout_flush
          | _ => ok tt
          end;
      print_events events
  end.

(** ** The input thread *)

(** Standard input: the bytes that will come, and whether a read error follows them. *)
Module Stdin.

Record t := mk { text : bytes; broken : bool }.

(** [read_until] a line feed: the line, with its line feed if it has one, and what follows. *)
Fixpoint read_until (s : bytes) : bytes * bytes :=
  match s with
  | [] => ([], [])
  | c :: s =>
      if b2z c =? 10 then ([c], s)
      else let '(line, rest) := read_until s in (c :: line, rest)
  end.

(** Drop one [c] from the end. *)
Definition strip_suffix (c : byte) (s : bytes) : bytes :=
  match last s with
  | Some d => if b2z d =? b2z c then removelast s else s
  | None => s
  end.

Definition complete (line : bytes) : bool :=
  match last line with Some c => b2z c =? 10 | None => false end.

(** [Lines::next] of [BufRead::lines]: the next line without its line ending. *)
Definition next `{Utf8} (self : t) : option (result bytes io_error) * t :=
  let '(line, rest) := read_until (text self) in
  let self := mk rest (broken self) in
  if negb (complete line) && broken self then (Some (Err OtherError), self)
  else
    match line with
    | [] => (None, self)
    | _ =>
        if negb (utf8 line) then (Some (Err InvalidData), self)
        else if complete line then (Some (Ok (strip_suffix x0d (strip_suffix x0a line))), self)
        else (Some (Ok line), self)
    end.

End Stdin.

(** [mpsc::Sender]: sending fails once the receiver is gone. *)
Class Sender (C : Type) := {
  send : AppEvent → C → result unit unit * C;
}.

(** The [for] loop of [spawn_stdin_thread]. *)
Fixpoint stdin_loop {C} `{Sender C} `{Utf8} (fuel : nat) (stdin : Stdin.t) (tx : C) : exec C :=
  match fuel with
  | O => Fault OutOfFuel
  | S fuel =>
      match Stdin.next stdin with
      | (Some (Ok line), stdin) =>
          let line := line ++ [x0a] in
          match send (Data line) tx with
          | (Ok _, tx) => stdin_loop fuel stdin tx
          | (Err _, tx) => mret tx
          end
      | (Some (Err _), _) => mret (send Close tx).2
      | (None, _) => mret (send Close tx).2
      end
  end.

(** The thread, from its start to its end. *)
Definition spawn_stdin_thread {C} `{Sender C} `{Utf8} (stdin : Stdin.t) (tx : C) : exec C :=
  stdin_loop (S (length (Stdin.text stdin))) stdin tx.

(** What the application has written so far. *)
Abbreviation pushed h := (ByteStream.bytes_pushed (TcpSender.outbound (TcpConnection.sender (IpHost.connection h)))).

Section facts.

Lemma octet_dec b : octet (dec b) = Some b ∧ Forall (λ c, b2z c ≠ b2z x2e) (dec b).
Proof. split; [by destruct b|]. apply (bool_decide_unpack _). by destruct b. Qed.

Lemma split_on_app c s rest : Forall (λ x, b2z x ≠ b2z c) s → split_on c (s ++ [c] ++ rest) = s :: split_on c rest.
Proof.
  induction 1 as [|x s Hx _ IH]; cbn; [by rewrite Z.eqb_refl|].
  rewrite (proj2 (Z.eqb_neq _ _)) by done. cbn in IH. by rewrite IH.
Qed.

Lemma split_on_last c s : Forall (λ x, b2z x ≠ b2z c) s → split_on c s = [s].
Proof. induction 1 as [|x s Hx _ IH]; cbn; [done|]. rewrite (proj2 (Z.eqb_neq _ _)) by done. by rewrite IH. Qed.

Lemma parse_fmt_ip ip : parse_ipv4 (fmt_ip ip) = Ok ip.
Proof.
  destruct ip as [a b c d]. unfold fmt_ip, parse_ipv4.
  rewrite !split_on_app, split_on_last by apply octet_dec. cbn [map]. by rewrite !(proj1 (octet_dec _)).
Qed.

Lemma digits_range radix top acc s z : 0 < radix → 0 ≤ acc ≤ top → digits radix top acc s = Some z → 0 ≤ z ≤ top.
Proof.
  intros Hr. revert acc. induction s as [|c s IH]; intros acc Ha H; cbn in H; [by injection H as <-|].
  destruct (to_digit radix c) as [d|] eqn:Ed; [|done].
  assert (0 ≤ d).
  { unfold to_digit in Ed. pose proof (b2z_range c). revert Ed. cases_bool; cbn; cases_bool; intros [= <-]; lia. }
  destruct (Z.leb_spec (acc * radix + d) top); [|done]. apply IH in H; [done|]. nia.
Qed.

Lemma from_str_radix_range radix top s z : 0 < radix → 0 ≤ top → from_str_radix radix top s = Some z → 0 ≤ z ≤ top.
Proof.
  intros Hr Ht. unfold from_str_radix. destruct s as [|c rest]; [done|]. destruct (b2z c =? 43); [destruct rest; [done|]|];
    apply digits_range; lia.
Qed.

Lemma parse_port_range value port : parse_port value = Ok port → u16 port ∧ port ≠ 0.
Proof.
  unfold parse_port. destruct (from_str_radix 10 u16_max value) as [p|] eqn:E; [|done].
  apply from_str_radix_range in E; [|lia..]. destruct (Z.eqb_spec p 0); [done|]. by intros [= <-].
Qed.

Lemma print_events_runs {W} `{OsLaws W} `{!StdoutWorks W} `{Utf8} events w :
  runs (print_events events) w (λ _, calm w) (calm w).
Proof.
  revert w. induction events as [|event events IH]; intros w; cbn [print_events]; [by apply runs_ok|].
  apply runs_bind.
  assert (Hk : ∀ w1, calm w w1 → runs (print_events events) w1 (λ _, calm w) (calm w)).
  { intros w1 Hc. eapply runs_mono; [apply IH|..]; intros; by eapply calm_trans. }
  destruct event; try (apply runs_ok; by apply Hk). apply runs_bind, runs_print. intros w1 _ Hc. apply runs_call.
  destruct (stdout_flush w1) as [[[]|e] w'] eqn:E; apply flush_uses in E; [apply Hk|]; by eapply calm_trans.
Qed.

(** ** The host in a program *)

(** The host keeps its invariant, and what is still to be typed fits its stream. *)
Definition host_fits (events : list AppEvent) (h : IpHost.t) : Prop :=
  ∃ P, HInv P h ∧ pushed h + typed_bytes events + 2 ≤ u64_max.

Lemma host_fits_step events grow closing h out h' : host_step_ok h grow closing (out, h') →
  pushed h + grow + typed_bytes events + 2 ≤ u64_max →
  host_fits events h' ∧ Forall Ipv4Datagram.wf (IpHostOutput.datagrams out).
Proof. intros (P & HH & _ & [_ _ _ Hp _] & Hd) Hmax. split; [exists P; split; [done|lia]|by eapply own_wf]. Qed.

(** Typing that fits the send buffer as a whole, with nothing after the end of the input. *)
Definition fits_buffer (script : list AppEvent) : Prop :=
  typed_bytes script ≤ 64 * 1024 ∧ ∀ before after, script = before ++ Close :: after → typed_bytes after = 0.

(** Of such a script the stream of a program's host holds all that has been taken, unless it was reset;
    [left] is still to be typed. *)
Definition books (script : list AppEvent) (h : IpHost.t) (left : list AppEvent) : Prop :=
  let o := TcpSender.outbound (TcpConnection.sender (IpHost.connection h)) in
  ByteStream.capacity o = 64 * 1024 ∧
  (fits_buffer script → ByteStream.error o = false →
   ByteStream.bytes_pushed o + typed_bytes left = typed_bytes script ∧ (ByteStream.closed o = true → typed_bytes left = 0)).

Lemma books_step script taken event left grow closing h out h' : host_step_ok h grow closing (out, h') →
  taken ++ event ++ left = script → typed_bytes event = grow → (closing = true → event = [Close]) →
  books script h (event ++ left) → books script h' left.
Proof.
  intros (P & _ & _ & Hst & _) Hs Hg Hc [Hcap Hb]. destruct Hst. unfold books. cbn zeta. split; [congruence|]. intros Hfit He.
  destruct (Hb Hfit (ss_error He)) as [Hp Hcl]. rewrite typed_bytes_app in Hp, Hcl. pose proof (typed_bytes_nonneg event).
  pose proof (typed_bytes_nonneg left). rewrite ss_closed. destruct (ByteStream.closed (TcpSender.outbound (TcpConnection.sender (IpHost.connection h)))) eqn:E.
  - specialize (Hcl eq_refl). cbn [orb]. split; [lia|]. intros _. lia.
  - destruct Hfit as [Hfit Hend]. rewrite (ss_taken He eq_refl ltac:(lia)). cbn [orb]. split; [lia|].
    intros ->. rewrite (Hc eq_refl) in Hs. by apply (Hend taken left).
Qed.

(** A new host. *)
Lemma books_new script lip pip lp pp isn h : let cfg := IpHostConfig.tcp_demo lip pip lp pp isn in
  TcpConnectionConfig.ok (IpHostConfig.connection_config cfg) → IpHost.new cfg = Ret h → books script h script.
Proof.
  intros cfg (_ & Hl & _ & Hp & Hsc & Hrc & Hi & Hc) Hnew.
  assert (Ho : IpHost.new cfg ⇓ λ h, TcpSender.outbound (TcpConnection.sender (IpHost.connection h)) = ByteStream.new (64 * 1024)).
  { unfold IpHost.new, TcpConnection.new. apply Z.eqb_neq in Hl, Hp. rewrite Hl, Hp.
    wp_step. wp_step. wp_step; [done|]. wp_step. wp_step; [done|]. wp_step. wp_apply (tcp_sender_new_wp _ _ _ Hsc Hi Hc). intros s (_ & Hs & _).
    wp_step. wp_apply (tcp_receiver_new_wp _ Hrc). intros r _. wp_step. by wp_step. }
  rewrite Hnew in Ho. unfold wp in Ho. unfold books. rewrite Ho. split; [done|]. intros _ _. cbn. split; [lia|done].
Qed.

(** Of what was typed: a part, in order, as long as the count of the stream says, and all that has been taken when the typing fits
    the send buffer. *)
Definition taken_from (script left : list AppEvent) (h : IpHost.t) (a : bytes) : Prop :=
  a `sublist_of` entered script ∧ blen a = pushed h ∧ (fits_buffer script → a ++ entered left = entered script).

(** [a] is a part of the writes [taken], and the books are right. *)
Lemma taken_from_books taken script left h a : a `sublist_of` entered taken → taken ++ left = script → books script h left →
  ByteStream.error (TcpSender.outbound (TcpConnection.sender (IpHost.connection h))) = false →
  blen a = pushed h → taken_from script left h a.
Proof.
  intros Ha Hs [_ Hb] He Hp. unfold taken_from. rewrite <- Hs, entered_app. split; [by apply sublist_inserts_r|].
  split; [done|]. intros Hfit. rewrite <- Hs in Hb. destruct (Hb Hfit He) as [Hc _]. rewrite typed_bytes_app in Hc.
  rewrite (sublist_whole _ _ Ha); [done|]. rewrite <- (entered_bytes taken) in Hc. unfold blen in *. lia.
Qed.

(** A payload that standard output does not take stops the program, although
    [print_events] returns an [io::Result]. *)
Lemma print_events_panics {W} `{Os W} `{Utf8} payload events w e w' :
  stdout_print (from_utf8_lossy payload) w = (Err e, w') →
  print_events (IpHostEvent.TcpPayload payload :: events) w = Fault Panicked.
Proof. intros E. cbn [print_events]. unfold io_bind, print. by rewrite E. Qed.

(** ** The input thread *)

Definition no_lf (s : bytes) : Prop := Forall (λ c, b2z c ≠ 10) s.

(** A line with its line feed, the only one in it. *)
Definition one_line (s : bytes) : Prop := ∃ body, s = body ++ [x0a] ∧ no_lf body.

(** A text with every CR LF turned into a LF. *)
Fixpoint unix (s : bytes) : bytes :=
  match s with
  | [] => []
  | c :: s =>
      if (b2z c =? 13) && match s with d :: _ => b2z d =? 10 | [] => false end then unix s else c :: unix s
  end.

(** What the user has typed: its lines end in LF, the last one too. *)
Definition keystrokes (s : bytes) : bytes :=
  unix s ++ match s with [] => [] | _ => if Stdin.complete s then [] else [x0a] end.

Lemma read_until_lines s : let '(line, rest) := Stdin.read_until s in
  s = line ++ rest ∧ (one_line line ∨ rest = [] ∧ no_lf line).
Proof.
  induction s as [|c s IH]; cbn; [split; [done|by right; split; [|constructor]]|].
  destruct (Z.eqb_spec (b2z c) 10) as [E|E].
  - split; [done|]. left. exists []. split; [|constructor]. cbn. f_equal. by apply b2z_inj.
  - destruct (Stdin.read_until s) as [line rest]. destruct IH as [-> IH]. split; [done|].
    destruct IH as [(body & -> & Hb)|[-> Hl]]; [left; exists (c :: body)|right]; split; done || by constructor.
Qed.

Lemma complete_snoc s c : Stdin.complete (s ++ [c]) = (b2z c =? 10).
Proof. unfold Stdin.complete. by rewrite last_snoc. Qed.

Lemma complete_no_lf s : no_lf s → Stdin.complete s = false.
Proof.
  intros Hs. destruct s as [|c s _] using rev_ind; [done|]. rewrite complete_snoc. apply Z.eqb_neq.
  apply Forall_app in Hs as [_ Hs]. by apply Forall_cons in Hs as [Hs _].
Qed.

Lemma complete_app s c rest : Stdin.complete (s ++ c :: rest) = Stdin.complete (c :: rest).
Proof. destruct rest as [|d rest _] using rev_ind; [by rewrite complete_snoc|]. by rewrite !app_comm_cons, app_assoc, !complete_snoc. Qed.

Lemma strip_lf s : Stdin.strip_suffix x0a (s ++ [x0a]) = s.
Proof. unfold Stdin.strip_suffix. rewrite last_snoc, Z.eqb_refl. apply removelast_last. Qed.

Lemma strip_no_lf c s : no_lf s → no_lf (Stdin.strip_suffix c s).
Proof.
  intros Hs. destruct s as [|d s _] using rev_ind; [done|]. unfold Stdin.strip_suffix. rewrite last_snoc, removelast_last.
  destruct (_ =? _); [by apply Forall_app in Hs as [? _]|done].
Qed.

Lemma unix_line body rest : no_lf body → unix (body ++ x0a :: rest) = Stdin.strip_suffix x0d body ++ x0a :: unix rest.
Proof.
  induction 1 as [|c body Hc Hb IH]; [done|]. cbn [app unix]. rewrite IH. destruct body as [|d body]; cbn [app].
  - unfold Stdin.strip_suffix. cbn. change (b2z x0a =? 10) with true. change (b2z x0d) with 13. rewrite andb_true_r. by destruct (_ =? _).
  - apply Forall_cons in Hb as [Hd _]. rewrite (proj2 (Z.eqb_neq (b2z d) 10) Hd), andb_false_r.
    unfold Stdin.strip_suffix. rewrite last_cons_cons. destruct (last (d :: body)) as [e|]; [|done]. by destruct (_ =? _).
Qed.

Lemma unix_no_lf s : no_lf s → unix s = s.
Proof.
  induction 1 as [|c s Hc Hs IH]; [done|]. cbn. rewrite IH. destruct Hs as [|d s Hd]; [by rewrite andb_false_r|].
  by rewrite (proj2 (Z.eqb_neq (b2z d) 10) Hd), andb_false_r.
Qed.

(** The first line of a text, and the last when it lacks its line feed. *)
Lemma keystrokes_line body rest : no_lf body →
  keystrokes (body ++ x0a :: rest) = (Stdin.strip_suffix x0d body ++ [x0a]) ++ keystrokes rest.
Proof.
  intros Hb. unfold keystrokes. rewrite unix_line, complete_app by done. rewrite <- !app_assoc. f_equal. cbn [app]. f_equal.
  destruct rest as [|c rest]; [by destruct body|]. f_equal.
  rewrite (complete_app [x0a] c rest : Stdin.complete (x0a :: c :: rest) = _). by destruct body.
Qed.

Lemma keystrokes_last s : no_lf s → s ≠ [] → keystrokes s = s ++ [x0a].
Proof. intros Hs Hne. unfold keystrokes. rewrite unix_no_lf, complete_no_lf by done. by destruct s. Qed.

(** What [Lines::next] yields. *)
Lemma stdin_next `{Utf8} stdin :
  match Stdin.next stdin with
  | (Some (Ok line), stdin') => one_line (line ++ [x0a]) ∧
      keystrokes (Stdin.text stdin) = (line ++ [x0a]) ++ keystrokes (Stdin.text stdin') ∧
      (length (Stdin.text stdin') < length (Stdin.text stdin))%nat ∧ Stdin.broken stdin' = Stdin.broken stdin ∧
      (utf8 (Stdin.text stdin) → Stdin.text stdin' = [] ∨ utf8 (Stdin.text stdin'))
  | (Some (Err _), _) => utf8 (Stdin.text stdin) → Stdin.broken stdin = true
  | (None, _) => Stdin.text stdin = []
  end.
Proof.
  destruct stdin as [s broken]. unfold Stdin.next. cbn [Stdin.text Stdin.broken]. pose proof (read_until_lines s) as Hl.
  destruct (Stdin.read_until s) as [line rest]. cbn [Stdin.text Stdin.broken]. destruct Hl as [-> [(body & -> & Hb)|[-> Hl]]].
  - rewrite complete_snoc. change (b2z x0a =? 10) with true. cbn [negb andb]. rewrite <- app_assoc, (utf8_lines body rest). cbn [app].
    destruct (body ++ [x0a]) eqn:E; [by destruct body|]. rewrite <- E. destruct (utf8 (body ++ [x0a])); cbn [negb andb]; [|done].
    rewrite strip_lf. split_and!.
    + eexists. split; [done|]. by apply strip_no_lf.
    + by apply keystrokes_line.
    + rewrite length_app. cbn. lia.
    + done.
    + by right.
  - rewrite app_nil_r, complete_no_lf by done. cbn [negb andb]. destruct broken; [done|]. destruct line as [|c line]; [done|].
    destruct (utf8 (c :: line)); cbn [negb]; [|done]. split_and!; [by exists (c :: line)| |cbn; lia|done|by left].
    change (keystrokes (Stdin.text _)) with (@nil byte). rewrite app_nil_r. by apply keystrokes_last.
Qed.

End facts.

(** The channel: what was sent while the receiver was there is in it, in order. *)
Class SenderLaws (C : Type) `{Sender C} := {
  received : C → list AppEvent;
  send_ok e c c' : send e c = (Ok tt, c') → received c' = received c ++ [e];
  send_gone e c c' : send e c = (Err tt, c') → received c' = received c;
}.

(** What the input thread has done when it ends: it has sent whole lines, a prefix of what
    the user has typed; and all of it, with a [Close] last, if nothing went wrong. *)
Definition forwarded `{SenderLaws C} `{Utf8} (stdin : Stdin.t) (tx tx' : C) : Prop :=
  ∃ lines ending,
    received tx' = received tx ++ map Data lines ++ ending ∧ Forall one_line lines ∧
    concat lines `prefix_of` keystrokes (Stdin.text stdin) ∧ (ending = [] ∨ ending = [Close]) ∧
    ((∀ e (c : C), (send e c).1 = Ok tt) → ending = [Close] ∧
     (Stdin.text stdin = [] ∨ utf8 (Stdin.text stdin) → Stdin.broken stdin = false → concat lines = keystrokes (Stdin.text stdin))).

Lemma forwarded_gone `{SenderLaws C} `{Utf8} stdin e (tx tx' : C) :
  send e tx = (Err tt, tx') → forwarded stdin tx tx'.
Proof.
  intros E. exists [], []. rewrite app_nil_r. split_and!; [by eapply send_gone|constructor|apply prefix_nil|by left|].
  intros Hsend. specialize (Hsend e tx). by rewrite E in Hsend.
Qed.

Lemma forwarded_close `{SenderLaws C} `{Utf8} stdin (tx : C) :
  (Stdin.text stdin = [] ∨ utf8 (Stdin.text stdin) → Stdin.text stdin = [] ∨ Stdin.broken stdin = true) →
  forwarded stdin tx (send Close tx).2.
Proof.
  intros Hend. destruct (send Close tx) as [[[]|[]] tx'] eqn:E; [|by eapply forwarded_gone].
  exists [], [Close]. split_and!; [by apply send_ok|constructor|apply prefix_nil|by right|].
  intros _. split; [done|]. intros Ht Hb. destruct (Hend Ht) as [->|Hbr]; [done|congruence].
Qed.

Lemma forwarded_line `{SenderLaws C} `{Utf8} stdin stdin' line (tx tx1 tx' : C) :
  send (Data (line ++ [x0a])) tx = (Ok tt, tx1) → Stdin.next stdin = (Some (Ok line), stdin') →
  forwarded stdin' tx1 tx' → forwarded stdin tx tx'.
Proof.
  intros E En (lines & ending & Hr & Hol & [rest Hrest] & He & Hall). apply send_ok in E.
  pose proof (stdin_next stdin) as Hn. rewrite En in Hn. destruct Hn as (Hl & Hk & Hlen & Hb & Hu).
  exists ((line ++ [x0a]) :: lines), ending. split_and!; [|by constructor| |done|].
  - by rewrite Hr, E, <- app_assoc.
  - exists rest. cbn [concat]. by rewrite Hk, Hrest, (app_assoc (line ++ [x0a])).
  - intros Hsend. destruct (Hall Hsend) as [-> Hcat]. split; [done|]. intros Ht Hbr. cbn [concat].
    rewrite Hk, Hcat; [done| |congruence]. destruct Ht as [Ht|Ht]; [rewrite Ht in Hlen; cbn in Hlen; lia|auto].
Qed.

Lemma stdin_loop_wp `{SenderLaws C} `{Utf8} fuel stdin (tx : C) : (length (Stdin.text stdin) < fuel)%nat →
  stdin_loop fuel stdin tx ⇓ forwarded stdin tx.
Proof.
  revert stdin tx. induction fuel as [|fuel IH]; intros stdin tx Hf; [lia|]. cbn [stdin_loop].
  pose proof (stdin_next stdin) as Hn. destruct (Stdin.next stdin) as [[[line|e]|] stdin'] eqn:En.
  - destruct (send (Data (line ++ [x0a])) tx) as [[[]|[]] tx1] eqn:E.
    + wp_apply (IH stdin' tx1); [lia|]. intros tx' Hfw. by eapply forwarded_line.
    + wp_step. by eapply forwarded_gone.
  - wp_step. apply forwarded_close. intros [?|?]; auto.
  - wp_step. apply forwarded_close. auto.
Qed.

(** An unbounded channel whose receiver stays. *)
Module Mpsc.

#[global] Instance sender : Sender (list AppEvent) := { send e queue := (Ok tt, queue ++ [e]) }.

#[global, refine] Instance sender_laws : SenderLaws (list AppEvent) := { received queue := queue }.
Proof.
  - by intros e c c' [= <-].
  - done.
Defined.

End Mpsc.

(** C40: What the user types reaches the program, line by line. Whatever standard input holds,
    the input thread ends. What it has put in the channel by then is a sequence of whole lines, each
    ending in its only line feed, that together are a prefix of the input with CR LF turned into
    LF; at most one Close follows, and nothing after it. If the receiver stays, the Close is there; if moreover the
    input is valid UTF-8 and is read without an error, the lines are the whole input, its last line completed
    by a line feed when it lacks one. *)
Theorem stdin_thread_forwards `{SenderLaws C} `{Utf8} stdin (tx : C) :
  ∃ tx' lines ending, spawn_stdin_thread stdin tx = Ret tx' ∧
    received tx' = received tx ++ map Data lines ++ ending ∧ Forall one_line lines ∧
    concat lines `prefix_of` keystrokes (Stdin.text stdin) ∧ (ending = [] ∨ ending = [Close]) ∧
    ((∀ e (c : C), (send e c).1 = Ok tt) → ending = [Close] ∧
     (Stdin.text stdin = [] ∨ utf8 (Stdin.text stdin) → Stdin.broken stdin = false →
      concat lines = keystrokes (Stdin.text stdin))).
Proof.
  pose proof (stdin_loop_wp (S (length (Stdin.text stdin))) stdin tx ltac:(lia)) as Hw. wp_inv Hw.
  destruct Hw as (lines & ending & Hw). by exists r, lines, ending.
Qed.

Lemma stdin_thread_forwards_witness :
  let stdin := Stdin.mk (str "hi" ++ [x0d; x0a] ++ str "bye") false in
  ∃ tx' lines ending, spawn_stdin_thread stdin [] = Ret tx' ∧
    received tx' = received [] ++ map Data lines ++ ending ∧ Forall one_line lines ∧
    concat lines `prefix_of` keystrokes (Stdin.text stdin) ∧ (ending = [] ∨ ending = [Close]) ∧
    ((∀ e (c : list AppEvent), (send e c).1 = Ok tt) → ending = [Close] ∧
     (Stdin.text stdin = [] ∨ utf8 (Stdin.text stdin) → Stdin.broken stdin = false →
      concat lines = keystrokes (Stdin.text stdin))).
Proof. intros stdin. apply stdin_thread_forwards. Defined.

Example stdin_thread_sends :
  spawn_stdin_thread (Stdin.mk (str "hi" ++ [x0d; x0a] ++ str "bye") false) []
  = Ret [Data (str "hi" ++ [x0a]); Data (str "bye" ++ [x0a]); Close].
Proof. by vm_compute. Qed.
