(* ===== verification/tap_host.v ===== *)
(** * The TAP host program ([src/bin/tap_host.rs])

    The program that joins everything: frames from a TAP device go through the network
    interface to the IP host, what the user types goes to its TCP connection, and the
    answers go back as frames.  A turn of the main loop is a function of the
    program's state and the system's world, beside which the variable [pcap] is kept; the inner loops run with fuel taken
    from what the system has queued.  Everything the program does is what the machine of
    [internet.v] does ([tap_host_is_endpoint]). *)

From S2P Require Import prelude wrapping_integers byte_stream btree_map tcp_message stream.
From S2P Require Import reassembler checksum ethernet_frame arp icmp ipv4_datagram.
From S2P Require Import network_interface tcp_segment tcp_receiver tcp_sender tcp_connection ip_host.
From S2P Require Import stream tcp_link tcp_duplex router ip_duplex internet.
From S2P Require Import os pcap tap host_cli.
From Stdlib Require Strings.String.
Import Strings.String.StringSyntax.

#[local] Open Scope Z_scope.

Module Config.

Record t := mk {
  tap_name : bytes;
  local_mac : EthernetAddress.t;
  local_ip : array4;
  peer_ip : array4;
  local_port : Z;
  peer_port : Z;
  isn : Wrap32.t;
  pcap_path : option bytes;
}.

Definition default : t :=
  mk (str "tap144") (A6 x02 x00 x00 x00 x00 x02) (A4 xa9 xfe x90 x02) (A4 xa9 xfe x90 x01) 50000 9090
     (Wrap32.new 1000000) None.

Definition with_tap_name (self : t) x : t :=
  mk x (local_mac self) (local_ip self) (peer_ip self) (local_port self) (peer_port self) (isn self) (pcap_path self).
Definition with_local_mac (self : t) x : t :=
  mk (tap_name self) x (local_ip self) (peer_ip self) (local_port self) (peer_port self) (isn self) (pcap_path self).
Definition with_local_ip (self : t) x : t :=
  mk (tap_name self) (local_mac self) x (peer_ip self) (local_port self) (peer_port self) (isn self) (pcap_path self).
Definition with_peer_ip (self : t) x : t :=
  mk (tap_name self) (local_mac self) (local_ip self) x (local_port self) (peer_port self) (isn self) (pcap_path self).
Definition with_local_port (self : t) x : t :=
  mk (tap_name self) (local_mac self) (local_ip self) (peer_ip self) x (peer_port self) (isn self) (pcap_path self).
Definition with_peer_port (self : t) x : t :=
  mk (tap_name self) (local_mac self) (local_ip self) (peer_ip self) (local_port self) x (isn self) (pcap_path self).
Definition with_isn (self : t) x : t :=
  mk (tap_name self) (local_mac self) (local_ip self) (peer_ip self) (local_port self) (peer_port self) x (pcap_path self).
Definition with_pcap_path (self : t) x : t :=
  mk (tap_name self) (local_mac self) (local_ip self) (peer_ip self) (local_port self) (peer_port self) (isn self) x.

End Config.

(** The octets of [parse_mac], each of two characters. *)
Definition mac_octet (part : bytes) : option byte :=
  if negb (blen part =? 2) then None else option_map z2b (from_str_radix 16 255 part).

Definition parse_mac (value : bytes) : result EthernetAddress.t io_error :=
  match map mac_octet (split_on x3a value) with
  | [Some a; Some b; Some c; Some d; Some e; Some f] => Ok (A6 a b c d e f)
  | _ => Err InvalidInput
  end.

(** A sign in place of a digit is accepted. *)
Example parse_mac_sign : parse_mac (str "+f:00:00:00:00:01") = Ok (A6 x0f x00 x00 x00 x00 x01).
Proof. reflexivity. Qed.

(** The [while i < args.len()] loop of [parse_args]; [None] stands for the exit after [--help], whose text [main] prints. *)
Fixpoint parse_loop (fuel : nat) (args : list bytes) (i : nat) (config : Config.t)
    : exec (result (option Config.t) io_error) :=
  match fuel with
  | O => Fault OutOfFuel
  | S fuel =>
      match args !! i with
      | None => mret (Ok (Some config))
      | Some arg =>
          let with_value {A} (parse : bytes → result A io_error) (set : A → Config.t) :=
            match require_arg args (S i) with
            | Ok value =>
                match parse value with
                | Ok x => parse_loop fuel args (S (S i)) (set x)
                | Err e => mret (Err e)
                end
            | Err e => mret (Err e)
            end in
          if bool_decide (arg = str "--help") || bool_decide (arg = str "-h") then mret (Ok None)
          else if bool_decide (arg = str "--tap") then with_value Ok (Config.with_tap_name config)
          else if bool_decide (arg = str "--local-mac") then with_value parse_mac (Config.with_local_mac config)
          else if bool_decide (arg = str "--local-ip") then with_value parse_ipv4 (Config.with_local_ip config)
          else if bool_decide (arg = str "--peer-ip") then with_value parse_ipv4 (Config.with_peer_ip config)
          else if bool_decide (arg = str "--local-port") then with_value parse_port (Config.with_local_port config)
          else if bool_decide (arg = str "--peer-port") then with_value parse_port (Config.with_peer_port config)
          else if bool_decide (arg = str "--isn") then
            with_value (λ raw, match from_str_radix 10 u32_max raw with Some n => Ok (Wrap32.new n) | None => Err InvalidInput end)
              (Config.with_isn config)
          else if bool_decide (arg = str "--pcap") then with_value Ok (λ path, Config.with_pcap_path config (Some path))
          else mret (Err InvalidInput)
      end
  end.

(** The usage text, line by line. *)
Definition help : list bytes := [
  str "Usage:";
  str "  tap_host [OPTIONS]";
  [];
  str "Options:";
  str "  --tap NAME             TAP device name. Default: tap144";
  str "  --local-mac MAC        Rust Ethernet address. Default: 02:00:00:00:00:02";
  str "  --local-ip IP          Rust TCP stack IP. Default: 169.254.144.2";
  str "  --peer-ip IP           Linux/native TCP peer IP. Default: 169.254.144.1";
  str "  --local-port PORT      Rust local TCP port. Default: 50000";
  str "  --peer-port PORT       Native peer TCP port. Default: 9090";
  str "  --isn N                Initial sequence number. Default: 1000000";
  str "  --pcap PATH            Dump RX/TX Ethernet frames to classic pcap (LINKTYPE_ETHERNET)";
  str "  -h, --help             Show this help";
  [];
  str "Example:";
  str "  cargo run --bin tap_host -- " ++ [x5c];
  str "    --tap tap144 " ++ [x5c];
  str "    --local-mac 02:00:00:00:00:02 " ++ [x5c];
  str "    --local-ip 169.254.144.2 " ++ [x5c];
  str "    --peer-ip 169.254.144.1 " ++ [x5c];
  str "    --local-port 50000 " ++ [x5c];
  str "    --peer-port 9090 " ++ [x5c];
  str "    --pcap tap-host.pcap"].

Definition print_help {W} `{Os W} : io W unit := println (concat (map (λ line, line ++ [x0a]) help)).

(** [args] are the program's arguments, its own name first. *)
Definition parse_args `{Utf8} (args : list bytes) : exec (result (option Config.t) io_error) :=
  args ← env_args args;
  r ← parse_loop (S (length args)) args 1 Config.default;
  mret match r with
       | Ok (Some config) =>
           if bool_decide (Config.local_ip config = Config.peer_ip config) then Err InvalidInput
           else if Config.local_port config =? Config.peer_port config then Err InvalidInput
           else Ok (Some config)
       | _ => r
       end.

Section program.
Context {W : Type} `{Os W} `{Libc} `{Utf8}.

(** The [for] loop of [send_host_output_to_interface]. *)
Fixpoint send_all (interface : NetworkInterface.t) (datagrams : list Ipv4Datagram.t) : exec NetworkInterface.t :=
  match datagrams with
  | [] => mret interface
  | datagram :: datagrams =>
      let next_hop := Ipv4Header.dst (Ipv4Datagram.header datagram) in
      interface ← NetworkInterface.send_datagram interface datagram next_hop;
      send_all interface datagrams
  end.

Definition send_host_output_to_interface (interface : NetworkInterface.t) (output : IpHostOutput.t)
    : io W NetworkInterface.t :=
  _ ⇐ print_events (IpHostOutput.events output);
  lift (send_all interface (IpHostOutput.datagrams output)).

Fixpoint drain_interface_datagrams (fuel : nat) (interface : NetworkInterface.t) (host : IpHost.t)
    : io W (NetworkInterface.t * IpHost.t) :=
  match fuel with
  | O => lift (Fault OutOfFuel)
  | S fuel =>
      match NetworkInterface.pop_datagram interface with
      | (None, interface) => ok (interface, host)
      | (Some datagram, interface) =>
          '(output, host) ⇐ lift (IpHost.receive_datagram host datagram);
          interface ⇐ send_host_output_to_interface interface output;
          drain_interface_datagrams fuel interface host
      end
  end.

Definition receive_frame (interface : NetworkInterface.t) (host : IpHost.t) (frame_bytes : bytes)
    : io W (NetworkInterface.t * IpHost.t) :=
  parsed ⇐ lift (EthernetFrame.parse_bytes frame_bytes);
  match parsed with
  | Ok frame =>
      interface ⇐ lift (NetworkInterface.recv_frame interface frame);
      drain_interface_datagrams (S (length (NetworkInterface.datagrams_in interface))) interface host
  | Err _ => ok (interface, host)
  end.

Fixpoint drain_app_events (fuel : nat) (interface : NetworkInterface.t) (host : IpHost.t)
    : io W (NetworkInterface.t * IpHost.t) :=
  match fuel with
  | O => lift (Fault OutOfFuel)
  | S fuel => λ w,
      match try_recv w with
      | (Some (Data data), w) =>
          ('(_, output, host) ⇐ lift (IpHost.write host data);
           interface ⇐ send_host_output_to_interface interface output;
           drain_app_events fuel interface host) w
      | (Some Close, w) =>
          ('(output, host) ⇐ lift (IpHost.close host);
           interface ⇐ send_host_output_to_interface interface output;
           drain_app_events fuel interface host) w
      | (None, w) => ok (interface, host) w
      end
  end.

(** The [if elapsed_ms > 0] of the main loop. *)
Definition advance (interface : NetworkInterface.t) (host : IpHost.t) (elapsed_ms : Z)
    : io W (NetworkInterface.t * IpHost.t) :=
  if 0 <? elapsed_ms then
    let interface := NetworkInterface.tick interface elapsed_ms in
    '(output, host) ⇐ lift (IpHost.tick host elapsed_ms);
    interface ⇐ send_host_output_to_interface interface output;
    ok (interface, host)
  else ok (interface, host).

End program.

(** The program: the system, and the variable [pcap] of [main], which the functions below change. *)
Section process.
Context {W : Type} `{Os W} `{Libc} `{Utf8}.

Abbreviation process := (W * option PcapWriter.t)%type.

Definition dump_packet (packet : bytes) : io process unit := PcapWriter.if_some (PcapWriter.write_packet packet).

Fixpoint drain_tap_frames (fuel : nat) (interface : NetworkInterface.t) (host : IpHost.t)
    : io process (NetworkInterface.t * IpHost.t) :=
  match fuel with
  | O => lift (Fault OutOfFuel)
  | S fuel => λ w,
      '(frame, w) ← TapDevice.read_frame w;
      match frame with
      | Ok frame_bytes =>
          (_ ⇐ dump_packet frame_bytes;
           '(interface, host) ⇐ receive_frame interface host frame_bytes;
           drain_tap_frames fuel interface host) w
      | Err WouldBlock => ok (interface, host) w
      | Err Interrupted => drain_tap_frames fuel interface host w
      | Err err => fail err w
      end
  end.

Fixpoint flush_interface_frames (fuel : nat) (interface : NetworkInterface.t) : io process NetworkInterface.t :=
  match fuel with
  | O => lift (Fault OutOfFuel)
  | S fuel =>
      match NetworkInterface.pop_frame interface with
      | (None, interface) => ok interface
      | (Some frame, interface) =>
          let frame_bytes := EthernetFrame.serialize frame in
          _ ⇐ dump_packet frame_bytes;
          _ ⇐ TapDevice.write_frame frame_bytes;
          flush_interface_frames fuel interface
      end
  end.

Definition flush_all (interface : NetworkInterface.t) : io process NetworkInterface.t :=
  flush_interface_frames (S (length (NetworkInterface.frames_out interface))) interface.

(** One turn of the main loop: at most [reads] reads and [events] events. *)
Definition turn (reads events : nat) (interface : NetworkInterface.t) (host : IpHost.t)
    : io process (NetworkInterface.t * IpHost.t) :=
  '(interface, host) ⇐ drain_tap_frames reads interface host;
  '(interface, host) ⇐ drain_app_events events interface host;
  elapsed_ms ⇐ call (λ w, (Ok (millis w).1, (millis w).2));
  '(interface, host) ⇐ advance interface host elapsed_ms;
  interface ⇐ flush_all interface;
  _ ⇐ lift (IpHost.is_established host);
  ok (interface, host).

(** [main] before its loop. *)
Definition start (config : Config.t) : io process (NetworkInterface.t * IpHost.t) :=
  _ ⇐ TapDevice.create (Config.tap_name config);
  _ ⇐ TapDevice.set_nonblocking true;
  _ ⇐ PcapWriter.open (Config.pcap_path config) PcapLinkType.Ethernet;
  let interface := NetworkInterface.new (Config.local_mac config) (Config.local_ip config) in
  let host_config := IpHostConfig.tcp_demo (Config.local_ip config) (Config.peer_ip config)
    (Config.local_port config) (Config.peer_port config) (Config.isn config) in
  host ⇐ lift (IpHost.new host_config);
  '(output, host) ⇐ lift (IpHost.connect host);
  interface ⇐ send_host_output_to_interface interface output;
  interface ⇐ flush_all interface;
  ok (interface, host).

End process.

Section main.
Context {W : Type} `{Os W} `{OsView W} `{Libc} `{Utf8}.

(** [count] turns of the main loop. *)
Fixpoint turns (count : nat) (interface : NetworkInterface.t) (host : IpHost.t)
    : io (W * option PcapWriter.t) (NetworkInterface.t * IpHost.t) :=
  match count with
  | O => ok (interface, host)
  | S count => λ w,
      ('(interface, host) ⇐ turn (S (queued_reads w)) (S (length (typed w))) interface host;
       turns count interface host) w
  end.

(** The program with these arguments, for [count] turns; [--help] prints its text and ends it,
    and an error ends it after the capture is flushed. *)
Definition main (args : list bytes) (count : nat) : io W (option (NetworkInterface.t * IpHost.t)) :=
  parsed ⇐ lift (parse_args args);
  match parsed with
  | Err err => fail err
  | Ok None => _ ⇐ print_help; ok None
  | Ok (Some config) =>
      PcapWriter.scope (
        '(interface, host) ⇐ start config;
        '(interface, host) ⇐ turns count interface host;
        ok (Some (interface, host)))
  end.

End main.

Section facts.
Context {W : Type} `{OsLaws W} `{!StdoutWorks W} `{Libc} `{Utf8}.

Abbreviation process := (W * option PcapWriter.t)%type.

Implicit Types (w : process) (n : NetworkInterface.t) (h : IpHost.t).

(** ** Arguments *)

Definition config_ok (c : Config.t) : Prop :=
  u16 (Config.local_port c) ∧ Config.local_port c ≠ 0 ∧ u16 (Config.peer_port c) ∧ Config.peer_port c ≠ 0 ∧
  Wrap32.ok (Config.isn c).

Lemma parse_loop_wp fuel args i c : config_ok c → (i ≤ S (length args) < i + fuel)%nat →
  parse_loop fuel args i c ⇓ λ r, match r with Ok (Some c') => config_ok c' | _ => True end.
Proof.
  revert i c. induction fuel as [|fuel IH]; intros i c Hc Hf; cbn [parse_loop].
  { lia. }
  destruct (args !! i) as [arg|] eqn:E; [|by wp_step]. apply lookup_lt_Some in E.
  assert (Hv : ∀ A (parse : bytes → result A io_error) (set : A → Config.t),
    (∀ value x, parse value = Ok x → config_ok (set x)) →
    match require_arg args (S i) with
    | Ok value =>
        match parse value with
        | Ok x => parse_loop fuel args (S (S i)) (set x)
        | Err e => mret (Err e)
        end
    | Err e => mret (Err e)
    end ⇓ λ r, match r with Ok (Some c') => config_ok c' | _ => True end).
  { intros A parse set Hset. destruct (require_arg args (S i)) as [value|]; [|by wp_step].
    destruct (parse value) as [x|] eqn:Ex; [|by wp_step]. apply IH; [by eapply Hset|lia]. }
  destruct Hc as (? & ? & ? & ? & ?).
  repeat case_bool_decide; cbn [orb]; try (by wp_step);
    first [apply (Hv _ Ok (Config.with_tap_name c)) | apply (Hv _ Ok (λ path, Config.with_pcap_path c (Some path))) | apply Hv];
    intros value x Hx; try done.
  - apply parse_port_range in Hx as []. by split_and!.
  - apply parse_port_range in Hx as []. by split_and!.
  - split_and!; try done. cbn. destruct (from_str_radix 10 u32_max value) as [z|] eqn:Ez; [|done]. injection Hx as <-.
    unfold Wrap32.ok. cbn. by apply from_str_radix_range in Ez.
Qed.

Lemma parse_args_wp args : forallb utf8 args = true →
  parse_args args ⇓ λ r, match r with
    | Ok (Some c) => config_ok c ∧ Config.local_ip c ≠ Config.peer_ip c ∧ Config.local_port c ≠ Config.peer_port c
    | _ => True
    end.
Proof.
  intros Hargs. unfold parse_args, env_args. rewrite Hargs. wp_step. wp_step. wp_step. wp_apply parse_loop_wp; [|lia|].
  { unfold config_ok, Wrap32.ok, u16, u32. cbn. lia. }
  intros [[c|]|e] Hc; wp_step; try done. case_bool_decide; [done|]. by destruct (Z.eqb_spec (Config.local_port c) (Config.peer_port c)).
Qed.

(** ** The state of the program *)

Context (mac : EthernetAddress.t) (base : list traffic) (script : list AppEvent).

(** Interface and host keep their invariants, and what is still to be typed fits the stream. *)
Definition PInv (events : list AppEvent) n h : Prop := owned mac n ∧ host_fits events h.

(** A frame that parses and comes from the program's own address. *)
Definition own_frame (bs : bytes) : Prop :=
  ∃ f, EthernetFrame.parse_bytes bs = Ret (Ok f) ∧ EthernetHeader.src (EthernetFrame.header f) = mac.

Abbreviation clean := (sends (outgoing base) own_frame).

(** What is typed when the application of a machine writes or closes. *)
Definition entry (v : Endpoint.event) : list AppEvent :=
  match v with
  | Endpoint.Act (Endpoint.Write data) => [Data data]
  | Endpoint.Act Endpoint.Close => [Close]
  | _ => []
  end.
Definition entries (vs : list Endpoint.event) : list AppEvent := concat (map entry vs).

Lemma entered_entries vs : entered (entries vs) = Endpoint.inputs vs.
Proof using Type.
  induction vs as [|v vs IH]; [done|]. unfold entries, Endpoint.inputs in *. cbn [map concat]. rewrite entered_app, IH. f_equal.
  destruct v as [[| | | |]| |]; try done. apply app_nil_r.
Qed.

(** The program's interface sends straight to the address of a datagram. *)
Definition direct : Endpoint.table := λ ip, ip.

(** The machine the program starts as: [reached n h l taken] says that some events take it to a state with
    interface [n] and host [h], with the traffic [l], on which its application writes and closes as in [taken]. *)
Context (machine : Endpoint.t).

Definition reached n h (l : list traffic) (taken : list AppEvent) : Prop :=
  ∃ vs e, Forall Endpoint.event_ok vs ∧ Endpoint.happens direct machine vs = Ret (l, e) ∧
    Endpoint.interface e = n ∧ Station.host (Endpoint.station e) = h ∧ entries vs = taken.

(** The machine with the traffic of the device; what its application has done and what is
    still to be typed is the whole script. *)
Definition mirrors w n h left : Prop :=
  ∃ l taken, log w = base ++ l ∧ reached n h l taken ∧ taken ++ left = script ∧ books script h left.

(** The invariants hold, and the program is where the machine is. *)
Definition tracks w n h : Prop := PInv (typed w) n h ∧ mirrors w n h (typed w).

Lemma mirrors_same w w' n h left : log w' = log w → mirrors w n h left → mirrors w' n h left.
Proof. unfold mirrors. by intros ->. Qed.

Lemma tracks_same w w' n h : typed w' = typed w → log w' = log w → tracks w n h → tracks w' n h.
Proof. intros Ht Hs [HP Hm]. unfold tracks. rewrite Ht. split; [done|by eapply mirrors_same]. Qed.

Lemma tracks_calm w w' n h : calm w w' → tracks w n h → tracks w' n h.
Proof. intros (Ht & _ & Hs). by apply tracks_same. Qed.

(** One more event, after which [left] is still to be typed. *)
Lemma mirrors_event w n h left v left' l w' n' h' : mirrors w n h left → Endpoint.event_ok v →
  left = entry v ++ left' → log w' = log w ++ l →
  (∀ taken, taken ++ left = script → books script h left → books script h' left') →
  (∀ x, Station.host x = h → ∃ x', Station.host x' = h' ∧
     Endpoint.happen direct (Endpoint.mk x n) v = Ret (l, Endpoint.mk x' n')) →
  mirrors w' n' h' left'.
Proof using Type.
  intros (l0 & taken & Hl0 & (vs & [x n1] & Hvs & He & Hn & Hh & Hi) & Hs & Hb) Hv Hleft Hl Hbooks Hx. cbn in Hn, Hh. subst n1.
  destruct (Hx x Hh) as (x' & Hx' & Hhap). exists (l0 ++ l), (taken ++ entry v).
  split; [by rewrite Hl, Hl0, app_assoc|]. split; [|split; [by rewrite <- app_assoc, <- Hleft|by eapply Hbooks]].
  exists (vs ++ [v]), (Endpoint.mk x' n').
  split_and!; [apply Forall_app; split; [done|by apply Forall_singleton]| |done|done|].
  - rewrite happens_app, He, bind_Ret. cbn [Endpoint.happens]. by rewrite Hhap, !bind_Ret, ?bind_mret, app_nil_r.
  - unfold entries in *. by rewrite map_app, concat_app, Hi; cbn; rewrite app_nil_r.
Qed.

Lemma send_all_direct n ds : send_all n ds = Endpoint.send_via direct n ds.
Proof using Type.
  revert n. induction ds as [|d ds IH]; intros n; [done|]. cbn. unfold direct at 1.
  destruct (NetworkInterface.send_datagram _ _ _) as [n'|]; [|done]. by rewrite !bind_Ret, IH.
Qed.

(** An action of the host whose output has been sent; [n] is the interface before and [n1] the one it is sent on. *)
Lemma mirrors_act w n h left n1 o left' r h' n' : mirrors w n h left → Endpoint.action_ok o →
  left = entry (Endpoint.Act o) ++ left' →
  (∀ taken, taken ++ left = script → books script h left → books script h' left') →
  (∀ x, Station.host x = h → ∃ sofar, Endpoint.act direct (Endpoint.mk x n) o = Endpoint.emit direct (Endpoint.mk x n1) sofar (r, h')) →
  Forall Ipv4Datagram.wf (IpHostOutput.datagrams r) → send_all n1 (IpHostOutput.datagrams r) = Ret n' →
  mirrors w n' h' left'.
Proof using Type.
  intros Hr Ho Hleft Hbooks Hact Hwf Hsend.
  apply (mirrors_event w n h left (Endpoint.Act o) left' [] w n' h' Hr Ho Hleft); [by rewrite app_nil_r|done|].
  intros x Hx. destruct (Hact x Hx) as [sofar Hw]. pose proof (serialize_all_wp _ Hwf) as Hs. wp_inv Hs.
  eexists. split; [|cbn; rewrite Hw; unfold Endpoint.emit, Station.send; cbn; rewrite <- send_all_direct, Hsend, bind_Ret, Heq;
    by rewrite !bind_Ret, ?bind_mret]. done.
Qed.

Lemma dump_packet_calm packet w : runs (dump_packet packet) w (λ _, calm w) (calm w).
Proof. apply if_some_calm. Qed.

(** ** Sending *)

Lemma send_all_wp n ds : owned mac n → Forall Ipv4Datagram.wf ds →
  send_all n ds ⇓ λ n', owned mac n' ∧ NetworkInterface.datagrams_in n' = NetworkInterface.datagrams_in n.
Proof.
  intros HI Hds. revert n HI. induction Hds as [|d ds Hd _ IH]; intros n HI; cbn [send_all]; [by wp_step|].
  wp_step. pose proof (step_owned mac n (NetworkInterface.SendDatagram d (Ipv4Header.dst (Ipv4Datagram.header d))) HI Hd) as Hs.
  cbn [NetworkInterface.step] in Hs. wp_inv Hs. pose proof (send_keeps_inbox _ _ _ _ Heq) as Hi. rewrite Heq. wp_step.
  wp_apply (IH r Hs). intros n' [? ?]. split; [done|congruence].
Qed.

(** The host has taken a step and its output goes to the interface [n1]; [left'] is what is still to be typed. *)
Lemma host_output_runs n h n1 o left r h' w grow closing left' : owned mac n1 → clean w → host_step_ok h grow closing (r, h') →
  pushed h + grow + typed_bytes left' + 2 ≤ u64_max → mirrors w n h left → Endpoint.action_ok o →
  left = entry (Endpoint.Act o) ++ left' → typed_bytes (entry (Endpoint.Act o)) = grow →
  (closing = true → entry (Endpoint.Act o) = [Close]) →
  (∀ x, Station.host x = h → ∃ sofar, Endpoint.act direct (Endpoint.mk x n) o = Endpoint.emit direct (Endpoint.mk x n1) sofar (r, h')) →
  runs (send_host_output_to_interface n1 r) w
    (λ n' w', PInv left' n' h' ∧ mirrors w' n' h' left' ∧ NetworkInterface.datagrams_in n' = NetworkInterface.datagrams_in n1 ∧
       calm w w' ∧ clean w') clean.
Proof.
  intros HI Hw Hs Hmax Hr Ho Hleft Hg Hcl Hact. destruct (host_fits_step left' grow closing h r h' Hs Hmax) as [HF Hd].
  unfold send_host_output_to_interface. apply runs_bind. apply runs_calm; [apply print_events_runs|done|].
  intros [] w1 Hc Hw1. apply runs_lift. pose proof (send_all_wp n1 _ HI Hd) as Ha. wp_inv Ha. destruct Ha. rewrite Heq. wp_step.
  split_and!; try done. eapply mirrors_same; [apply Hc|]. eapply mirrors_act; [done..| |done|done|done].
  intros taken Htk Hb. rewrite Hleft in Htk, Hb. by eapply books_step.
Qed.

(** ** Receiving *)

Lemma drain_datagrams_runs fuel left n h w : PInv left n h → mirrors w n h left → clean w →
  (length (NetworkInterface.datagrams_in n) < fuel)%nat →
  runs (drain_interface_datagrams fuel n h) w
    (λ '(n', h') w', PInv left n' h' ∧ mirrors w' n' h' left ∧ calm w w' ∧ clean w') clean.
Proof.
  revert n h w. induction fuel as [|fuel IH]; intros n h w HP Hr Hw Hf; [lia|]. cbn [drain_interface_datagrams].
  destruct HP as [HI (P & HH & Hmax)]. pose proof (typed_bytes_nonneg left).
  pose proof (step_owned mac n NetworkInterface.PopDatagram HI I) as Hpop. cbn [NetworkInterface.step] in Hpop.
  pose proof (ni_datagrams _ (proj1 HI)) as Hwf. unfold NetworkInterface.pop_datagram in Hpop |- *.
  destruct (NetworkInterface.datagrams_in n) as [|d ds] eqn:Ed; [apply runs_ok; split_and!; try done; split; [done|by exists P]|].
  apply Forall_cons in Hwf as [Hd Hds]. cbn in Hpop. unfold wp, mret, exec_mret in Hpop.
  apply runs_bind, runs_lift. pose proof (receive_datagram_wp P h d HH Hd ltac:(lia)) as Hstep. wp_inv Hstep.
  rewrite Heq. wp_step. destruct r as [r h']. apply runs_bind.
  eapply runs_mono; [apply (host_output_runs n h _ Endpoint.Poll left r h' w 0 false left Hpop Hw Hstep)| |done]; [lia|done|done|done|done|done| |].
  { intros x Hx. eexists. cbn. unfold NetworkInterface.pop_datagram. by rewrite Ed, Hx, Heq, bind_Ret. }
  intros n1 w1 (HP1 & Hr1 & Hi & Hc & Hw1). eapply runs_mono; [apply IH; [done..|]| |done].
  - rewrite Hi. cbn. cbn in Hf. lia.
  - intros [n2 h2] w2 (? & ? & ? & ?). split_and!; try done. by eapply calm_trans.
Qed.

(** A frame has come from the device in [w0], and [w] is the world since. *)
Lemma receive_frame_runs n h frame_bytes w0 w : tracks w0 n h → clean w → typed w = typed w0 →
  log w = log w0 ++ [Received frame_bytes] →
  runs (receive_frame n h frame_bytes) w (λ '(n', h') w', tracks w' n' h' ∧ calm w w' ∧ clean w') clean.
Proof.
  intros [[HI HH] Hm] Hw Ht Hl. unfold receive_frame. apply runs_bind, runs_lift.
  assert (Hev : ∀ n', (∀ x, Endpoint.happen direct (Endpoint.mk x n) (Endpoint.Arrive frame_bytes)
      = Ret ([Received frame_bytes], Endpoint.mk x n')) → mirrors w n' h (typed w)).
  { intros n' Hx. rewrite Ht. apply (mirrors_event w0 n h _ (Endpoint.Arrive frame_bytes) _ [Received frame_bytes] w n' h Hm I eq_refl Hl); [done|].
    intros x Hh. by exists x. }
  destruct (ethernet_parse_total frame_bytes) as [r Hp]. rewrite Hp. wp_step. destruct r as [frame|e].
  2:{ apply runs_ok. split; [|done]. split; [by rewrite Ht|]. apply Hev. intros x. cbn. by rewrite Hp, bind_Ret. }
  apply runs_bind, runs_lift.
  pose proof (step_owned mac n (NetworkInterface.RecvFrame frame) HI I) as Hs. wp_inv Hs. cbn in Heq. rewrite Heq. wp_step.
  eapply runs_mono; [apply (drain_datagrams_runs _ (typed w) r h w)| |done]; [split; [done|by rewrite Ht]| |done|lia|].
  - apply Hev. intros x. cbn. by rewrite Hp, bind_Ret, Heq, bind_Ret.
  - intros [n' h'] w' (HP' & Hm' & Hc & Hw'). unfold tracks. destruct Hc as (Ht' & ?). by rewrite Ht'.
Qed.

Lemma drain_frames_runs fuel n h w : tracks w n h → clean w → (queued_reads w < fuel)%nat →
  runs (drain_tap_frames fuel n h) w
    (λ '(n', h') w', tracks w' n' h' ∧ typed w' = typed w ∧ clean w') clean.
Proof.
  revert n h w. induction fuel as [|fuel IH]; intros n h w HP Hw Hf; [lia|]. cbn [drain_tap_frames].
  unfold runs at 1, TapDevice.read_frame, call. wp_step. wp_step.
  destruct (file_read MAX_ETHERNET_FRAME_SIZE w) as [r w1] eqn:Er. apply read_uses in Er as (Ht & Hl & Hq).
  eapply (sends_read _ _ _ _ r) in Hw; [|exact Hl].
  assert (Hgo : ∀ n' h' w', tracks w' n' h' → clean w' → typed w' = typed w → (queued_reads w' < fuel)%nat →
    runs (drain_tap_frames fuel n' h') w' (λ '(n', h') w', tracks w' n' h' ∧ typed w' = typed w ∧ clean w') clean).
  { intros n' h' w' HP' Hw' Ht' Hq'. eapply runs_mono; [by apply IH| |done]. intros [n2 h2] w2 (? & ? & ?). split_and!; [done|congruence|done]. }
  assert (Hskip : log w1 = log w → tracks w1 n h) by (intros Hl1; by eapply tracks_same).
  destruct r as [frame|[]]; [|by apply runs_ok; split_and!; auto|by apply Hgo; [auto|..|lia]|by apply runs_fail..].
  change (runs (_ ⇐ dump_packet frame; '(interface, host) ⇐ receive_frame n h frame;
    drain_tap_frames fuel interface host) w1 (λ '(n', h') w', tracks w' n' h' ∧ typed w' = typed w ∧ clean w') clean).
  apply runs_bind, runs_calm; [apply dump_packet_calm|done|]. intros [] w2 (Ht2 & Hq2 & Hs2) Hw2.
  apply runs_bind. eapply runs_mono; [apply (receive_frame_runs n h frame w w2 HP Hw2)| |done]; [congruence|congruence|].
  intros [n' h'] w3 (HP3 & (Ht3 & Hq3 & _) & Hw3). apply Hgo; [done|done|congruence|lia].
Qed.

(** ** Typing, time and output *)

Lemma drain_events_runs fuel n h w : tracks w n h → clean w → (length (typed w) < fuel)%nat →
  runs (drain_app_events fuel n h) w (λ '(n', h') w', tracks w' n' h' ∧ clean w') clean.
Proof.
  revert n h w. induction fuel as [|fuel IH]; intros n h w HP Hw Hf; [lia|]. cbn [drain_app_events]. unfold runs at 1.
  destruct (try_recv w) as [e w1] eqn:Er. apply recv_uses in Er as [Er Hsent]. eapply sends_same in Hw; [|exact Hsent].
  destruct e as [e|]; [|apply runs_ok; split; [by eapply tracks_same|done]]. destruct HP as [HP Hr].
  rewrite Er in HP, Hr, Hf. cbn in Hf. eapply mirrors_same in Hr; [|exact Hsent].
  destruct HP as [HI (P & HH & Hmax)]. pose proof (typed_bytes_nonneg (typed w1)).
  assert (Hgo : ∀ o grow closing r h', host_step_ok h grow closing (r, h') → pushed h + grow + typed_bytes (typed w1) + 2 ≤ u64_max →
    Endpoint.action_ok o → e :: typed w1 = entry (Endpoint.Act o) ++ typed w1 → typed_bytes (entry (Endpoint.Act o)) = grow →
    (closing = true → entry (Endpoint.Act o) = [Close]) →
    (∀ x, Station.host x = h → ∃ sofar, Endpoint.act direct (Endpoint.mk x n) o = Endpoint.emit direct (Endpoint.mk x n) sofar (r, h')) →
    runs (interface ⇐ send_host_output_to_interface n r; drain_app_events fuel interface h') w1
      (λ '(n', h') w', tracks w' n' h' ∧ clean w') clean).
  { intros o grow closing r h' Hs Hm Ho He Hg Hcl Hact. apply runs_bind.
    eapply runs_mono; [apply (host_output_runs n h n o (e :: typed w1) r h' w1 grow closing (typed w1) HI Hw Hs Hm Hr Ho He Hg Hcl Hact)| |done].
    intros n' w2 (HP' & Hr' & _ & (Ht & _ & Hs2) & Hw2). apply IH; [|done|rewrite Ht; lia]. unfold tracks. by rewrite Ht. }
  destruct e as [data|]; cbn in Hmax.
  - change (runs ('(_, output, host) ⇐ lift (IpHost.write h data); interface ⇐ send_host_output_to_interface n output;
      drain_app_events fuel interface host) w1 (λ '(n', h') w', tracks w' n' h' ∧ clean w') clean).
    pose proof (blen_nonneg data). apply runs_bind, runs_lift. pose proof (host_write_wp P h data HH ltac:(lia)) as Hs.
    wp_inv Hs. rewrite Heq. wp_step. destruct r as [[k r] h']. apply (Hgo (Endpoint.Write data) (blen data) false); [done|lia|done|done|cbn; lia|done|].
    intros x Hx. eexists. cbn. by rewrite Hx, Heq, bind_Ret.
  - change (runs ('(output, host) ⇐ lift (IpHost.close h); interface ⇐ send_host_output_to_interface n output;
      drain_app_events fuel interface host) w1 (λ '(n', h') w', tracks w' n' h' ∧ clean w') clean).
    apply runs_bind, runs_lift. pose proof (host_step_wp P h IpHost.Close HH I ltac:(cbn; lia)) as Hs. cbn [IpHost.step] in Hs.
    wp_inv Hs. rewrite Heq. wp_step. destruct r as [r h']. apply (Hgo Endpoint.Close 0 true); [done|lia|done..|].
    intros x Hx. eexists. cbn. by rewrite Hx, Heq, bind_Ret.
Qed.

Lemma own_frame_serialize f : EthernetFrame.wf f ∧ EthernetHeader.src (EthernetFrame.header f) = mac →
  own_frame (EthernetFrame.serialize f).
Proof. intros [Hf Hsrc]. exists f. split; [by apply ethernet_roundtrip|done]. Qed.

Lemma flush_runs fuel n h w : tracks w n h → clean w → (length (NetworkInterface.frames_out n) < fuel)%nat →
  runs (flush_interface_frames fuel n) w
    (λ n' w', tracks w' n' h ∧ NetworkInterface.frames_out n' = [] ∧ clean w') clean.
Proof.
  revert n w. induction fuel as [|fuel IH]; intros n w HP Hw Hf; [lia|]. cbn [flush_interface_frames].
  pose proof HP as [[HI HH] Hr].
  pose proof (step_owned mac n NetworkInterface.PopFrame HI I) as Hpop. cbn [NetworkInterface.step] in Hpop.
  pose proof (ni_frames _ (proj1 HI)) as Hfr. rewrite (proj2 HI) in Hfr. unfold NetworkInterface.pop_frame in Hpop |- *.
  destruct (NetworkInterface.frames_out n) as [|f fs] eqn:Ef; [by apply runs_ok|].
  apply Forall_cons in Hfr as [Hf1 _]. apply runs_bind, runs_calm; [apply dump_packet_calm|done|]. intros [] w1 (Ht1 & _ & Hs1) Hw1.
  apply runs_bind. unfold TapDevice.write_frame. destruct (_ =? 0); [by apply runs_fail|].
  apply runs_send; [by apply own_frame_serialize|done|]. intros w2 Ht2 _ Hs2 Hw2.
  eapply runs_mono; [apply IH; [|done|cbn in Hf |- *; lia]| |done]; [|done].
  split; [split; [exact Hpop|by rewrite Ht2, Ht1]|]. rewrite Ht2, Ht1.
  apply (mirrors_event w n h _ Endpoint.Leave _ [Sent (EthernetFrame.serialize f)] w2 _ h Hr I eq_refl); [congruence|done|].
  intros x Hx. exists x. split; [done|]. cbn. unfold NetworkInterface.pop_frame. by rewrite Ef.
Qed.

Lemma flush_all_runs n h w : tracks w n h → clean w →
  runs (flush_all n) w (λ n' w', tracks w' n' h ∧ NetworkInterface.frames_out n' = [] ∧ clean w') clean.
Proof. intros HP Hw. apply flush_runs; [done|done|lia]. Qed.

Lemma advance_runs n h ms w : tracks w n h → clean w → 0 ≤ ms →
  runs (advance n h ms) w (λ '(n', h') w', tracks w' n' h' ∧ clean w') clean.
Proof.
  intros HP Hw Hms. unfold advance. destruct (0 <? ms); [|by apply runs_ok].
  destruct HP as [(HI & P & HH & Hmax) Hr]. pose proof (typed_bytes_nonneg (typed w)). apply runs_bind, runs_lift.
  pose proof (host_step_wp P h (IpHost.Tick ms) HH Hms ltac:(cbn; lia)) as Hs. cbn [IpHost.step] in Hs. wp_inv Hs.
  rewrite Heq. wp_step. destruct r as [r h'].
  pose proof (step_owned mac n (NetworkInterface.Tick ms) HI Hms) as Ht. cbn [NetworkInterface.step] in Ht.
  apply runs_bind. eapply runs_mono; [apply (host_output_runs n h _ (Endpoint.Tick ms) (typed w) r h' w 0 false (typed w) Ht Hw Hs)| |done];
    [lia|exact Hr|done|done|done|done| |].
  { intros x Hx. eexists. cbn. by rewrite Hx, Heq, bind_Ret. }
  intros n' w' (HP' & Hr' & _ & (Hty & _ & Hse) & Hw'). apply runs_ok. split; [|done].
  unfold tracks. by rewrite Hty.
Qed.

(** A whole turn, with fuel for what the system has queued. *)
Lemma turn_runs n h w : tracks w n h → clean w →
  runs (turn (S (queued_reads w)) (S (length (typed w))) n h) w
    (λ '(n', h') w', tracks w' n' h' ∧ clean w') clean.
Proof.
  intros HP Hw. unfold turn. apply runs_bind. eapply runs_mono; [apply (drain_frames_runs _ n h w HP Hw); lia| |done].
  intros [n1 h1] w1 (HP1 & Ht1 & Hw1). apply runs_bind.
  eapply runs_mono; [apply (drain_events_runs _ n1 h1 w1 HP1 Hw1); rewrite Ht1; lia| |done].
  intros [n2 h2] w2 [HP2 Hw2]. apply runs_bind, runs_call. destruct (millis w2) as [ms w3] eqn:Em. cbn [fst snd].
  apply millis_uses in Em as (Hms & Ht3 & Hs3). eapply tracks_same in HP2; [|exact Ht3|exact Hs3].
  eapply sends_same in Hw2; [|exact Hs3]. apply runs_bind.
  eapply runs_mono; [apply (advance_runs n2 h2 ms w3 HP2 Hw2 Hms)| |done]. intros [n4 h4] w4 [HP4 Hw4].
  apply runs_bind. eapply runs_mono; [apply (flush_all_runs n4 h4 w4 HP4 Hw4)| |done]. intros n5 w5 (HP5 & _ & Hw5).
  apply runs_bind, runs_lift. pose proof HP5 as ((_ & P & HH & _) & _). wp_apply (is_established_wp P h4 HH). intros _ _.
  by apply runs_ok.
Qed.

Lemma create_device_runs name w : clean w →
  runs (TapDevice.create name) w (λ _ w', typed w' = typed w ∧ log w' = log w ∧ clean w') clean.
Proof.
  intros Hw. unfold TapDevice.create, IfReq.new. apply runs_bind.
  assert (Hv : ∀ w, clean w → runs (validate_interface_name name) w (λ _ w', w' = w) clean).
  { intros w0 Hw0. unfold runs. by destruct (validate_tap_name name w0) as [[_ ->]|[_ ->]]. }
  eapply runs_mono; [by apply Hv| |done]. intros [] ? ->. apply runs_bind, runs_call.
  destruct (open_tun w) as [[[]|e] w1] eqn:Eo; apply open_uses in Eo as [Ht Hs]; eapply sends_same in Hw; try exact Hs; [|done].
  apply runs_bind, runs_bind. eapply runs_mono; [by apply Hv| |done]. intros [] ? ->. apply runs_ok.
  apply runs_bind, runs_call. destruct (tunsetiff _ _ w1) as [[nm|e] w2] eqn:Ei; apply ioctl_uses in Ei as [Ht2 Hs2];
    eapply sends_same in Hw; try exact Hs2; [|done].
  apply runs_ok. split_and!; [congruence|congruence|done].
Qed.

Lemma nonblocking_tap_runs b w : clean w →
  runs (TapDevice.set_nonblocking b) w (λ _ w', typed w' = typed w ∧ log w' = log w ∧ clean w') clean.
Proof.
  intros Hw. unfold TapDevice.set_nonblocking. apply runs_bind, runs_call.
  destruct (fcntl_getfl w) as [[flags|e] w1] eqn:E; apply getfl_uses in E as [Ht Hs]; eapply sends_same in Hw; try exact Hs; [|done].
  apply runs_call. destruct (fcntl_setfl _ w1) as [[[]|e] w2] eqn:E; apply setfl_uses in E as [Ht2 Hs2];
    eapply sends_same in Hw; try exact Hs2; [|done].
  split_and!; [congruence|congruence|done].
Qed.

(** The host that the program makes. *)
Definition host_config (c : Config.t) : IpHostConfig.t :=
  IpHostConfig.tcp_demo (Config.local_ip c) (Config.peer_ip c) (Config.local_port c) (Config.peer_port c) (Config.isn c).

Lemma demo_config_ok c : config_ok c → TcpConnectionConfig.ok (IpHostConfig.connection_config (host_config c)).
Proof.
  intros (? & ? & ? & ? & ?). unfold TcpConnectionConfig.ok, TcpSenderConfig.ok. cbn. split_and!; try done; ulia.
Qed.

Lemma start_runs c w : config_ok c → Config.local_mac c = mac → clean w → log w = base → typed w = script →
  Endpoint.new (host_config c) mac = Ret machine → typed_bytes (typed w) + 2 ≤ u64_max →
  runs (start c) w (λ '(n, h) w', tracks w' n h ∧ clean w') clean.
Proof.
  intros Hc Hmac Hw Hbase Hscript Hm Hmax. pose proof (typed_bytes_nonneg (typed w)). unfold start. apply runs_bind.
  eapply runs_mono; [by apply create_device_runs| |done]. intros dev w0 (Ht0 & Hs0 & Hw0). apply runs_bind.
  eapply runs_mono; [by apply nonblocking_tap_runs| |done]. intros [] w1 (Ht1 & Hs1 & Hw1). rewrite Ht0 in Ht1. apply runs_bind.
  apply runs_calm; [apply open_calm|done|]. intros [] w2 (Ht2 & _ & Hs2) Hw2. apply runs_bind, runs_lift.
  pose proof (new_host_wp _ (demo_config_ok c Hc) ltac:(done)) as Hnew. wp_inv Hnew. rename r into h.
  unfold host_config in Heq. rewrite Heq. wp_step. destruct Hnew as (HH & _ & Hp). apply runs_bind, runs_lift.
  pose proof (host_step_wp [] h IpHost.Connect HH I ltac:(cbn; lia)) as Hs. cbn [IpHost.step] in Hs. wp_inv Hs.
  rewrite Heq0. wp_step. destruct r as [r h']. apply runs_bind.
  unfold Endpoint.new, Station.new, host_config in Hm. rewrite Heq, !bind_Ret, ?bind_mret in Hm. injection Hm as Hm.
  set (n := NetworkInterface.new (Config.local_mac c) (Config.local_ip c)).
  assert (Hr : mirrors w2 n h (typed w2)).
  { exists [], []. split; [rewrite app_nil_r; congruence|]. split; [|split; [cbn; congruence|rewrite <- Hscript, Ht2, Ht1;
      eapply books_new; [exact (demo_config_ok c Hc)|exact Heq]]].
    exists [], machine. split_and!; [by constructor|done|by rewrite <- Hm, <- Hmac|by rewrite <- Hm|done]. }
  eapply runs_mono; [apply (host_output_runs n h n Endpoint.Connect (typed w2) r h' w2 0 false (typed w2)
    (conj (new_inv _ _) Hmac) Hw2 Hs)| |done]; [rewrite Ht2, Ht1; lia|exact Hr|done|done|done|done| |].
  { intros x Hx. eexists. cbn. by rewrite Hx, Heq0, bind_Ret. }
  intros n' w3 (HP & Hr' & _ & (Ht3 & _ & Hs3) & Hw3). apply runs_bind.
  eapply runs_mono; [apply flush_all_runs; [|done]| |done].
  - unfold tracks. by rewrite Ht3.
  - intros n4 w4 (HP4 & _ & Hw4). by apply runs_ok.
Qed.

Lemma turns_runs count n h w : tracks w n h → clean w →
  runs (turns count n h) w (λ '(n', h') w', tracks w' n' h' ∧ clean w') clean.
Proof.
  revert n h w. induction count as [|count IH]; intros n h w HP Hw; cbn [turns]; [by apply runs_ok|].
  change (runs ('(interface, host) ⇐ turn (S (queued_reads w)) (S (length (typed w))) n h; turns count interface host) w
    (λ '(n', h') w', tracks w' n' h' ∧ clean w') clean).
  apply runs_bind. eapply runs_mono; [by apply turn_runs| |done]. intros [n' h'] w' [? ?]. by apply IH.
Qed.
End facts.

(** The address the command line asks for. *)
Definition chosen_mac `{Utf8} (args : list bytes) : EthernetAddress.t :=
  match parse_args args with Ret (Ok (Some config)) => Config.local_mac config | _ => Config.local_mac Config.default end.

(** What is known when the program has run: the invariants, and the machine it has been. *)
Definition served {W} `{OsView W} `{Utf8} (args : list bytes) (w w' : W) (n : NetworkInterface.t) (h : IpHost.t) : Prop :=
  ∃ c machine pcap, parse_args args = Ret (Ok (Some c)) ∧
    Endpoint.new (host_config c) (Config.local_mac c) = Ret machine ∧
    tracks (chosen_mac args) (log w) (typed w) machine (w', pcap) n h.

(** An argument that is not Unicode stops the program before it has done anything. *)
Lemma main_unicode {W} `{Os W} `{OsView W} `{Libc} `{Utf8} args count (w : W) :
  forallb utf8 args = false → main args count w = Fault Panicked.
Proof. intros Hargs. unfold main, io_bind, lift, parse_args, env_args. by rewrite Hargs. Qed.

Lemma main_runs {W} `{OsLaws W} `{!StdoutWorks W} `{Libc} `{Utf8} args count (w : W) : forallb utf8 args = true →
  typed_bytes (typed w) + 2 ≤ u64_max →
  runs (main args count) w
    (λ r w', match r with Some (n, h) => served args w w' n h | None => True end ∧
       sends (sent w) (own_frame (chosen_mac args)) w')
    (sends (sent w) (own_frame (chosen_mac args))).
Proof.
  intros Hargs Hmax. unfold main. apply runs_bind, runs_lift. pose proof (parse_args_wp args Hargs) as Hp. pose proof (sends_refl (own_frame (chosen_mac args)) w).
  wp_inv Hp. rewrite Heq. wp_step. destruct r as [[c|]|e]; [|apply runs_bind, runs_print; intros w' _ Hc'; apply runs_ok; split; [done|by eapply sends_calm]|by apply runs_fail]. destruct Hp as (Hc & _).
  assert (Hmac : Config.local_mac c = chosen_mac args) by (unfold chosen_mac; by rewrite Heq).
  assert (∃ machine, Endpoint.new (host_config c) (chosen_mac args) = Ret machine) as [machine Hm].
  { unfold Endpoint.new, Station.new. pose proof (new_host_wp _ (demo_config_ok c Hc) ltac:(done)) as Hnew. wp_inv Hnew.
    rewrite Heq0. repeat (rewrite ?bind_Ret, ?bind_mret). by eexists. }
  apply scope_runs; [intros w1 w2; apply sends_calm|]. apply runs_bind.
  eapply runs_mono; [by apply (start_runs (chosen_mac args) (log w) (typed w) machine)| |done]. intros [n h] w1 [HP Hw1]. apply runs_bind.
  eapply runs_mono; [by apply turns_runs| |done]. intros [n' h'] [w2 pcap] [? ?]. apply runs_ok. split; [|done].
  exists c, machine, pcap. by rewrite Hmac.
Qed.

(** The TAP program is a host of the network. Whatever the device, the user and the
    clock do, the state in which any number of turns leaves the program is one that the machine of
    [internet.v] with the same configuration and address reaches by a sequence of its events (frames arrive,
    datagrams go to the host, the application writes or closes, time passes, frames leave). The
    frames that have arrived at that machine and left it are exactly the packets that the program has
    read from the device and written to it, in order, and what its application has written and closed is, in order,
    exactly what the program has taken of what the user types. *)
Theorem tap_host_is_endpoint {W} `{OsLaws W} `{!StdoutWorks W} `{Libc} `{Utf8} args count (w : W) n h w' :
  typed_bytes (typed w) + 2 ≤ u64_max → main args count w = Ret (Ok (Some (n, h)), w') →
  ∃ c machine vs e l, (parse_args args = Ret (Ok (Some c)) ∧ config_ok c ∧ Config.local_ip c ≠ Config.peer_ip c) ∧
    Endpoint.new (host_config c) (Config.local_mac c) = Ret machine ∧ Forall Endpoint.event_ok vs ∧
    Endpoint.happens direct machine vs = Ret (l, e) ∧
    Endpoint.interface e = n ∧ Station.host (Endpoint.station e) = h ∧ log w' = log w ++ l ∧
    entries vs ++ typed w' = typed w ∧ books (typed w) h (typed w').
Proof.
  intros Hmax Hmain. assert (Hargs : forallb utf8 args = true).
  { destruct (forallb utf8 args) eqn:Hargs; [done|]. by rewrite main_unicode in Hmain. }
  pose proof (main_runs args count w Hargs Hmax) as Hm. unfold runs in Hm. rewrite Hmain in Hm.
  destruct Hm as [(c & machine & pcap & Hc & Hnew & _ & l & ins & Hl & (vs & e & Hvs & He & Hn & Hh & <-) & Hi & Hb) _].
  pose proof (parse_args_wp args Hargs) as Hp. rewrite Hc in Hp. destruct Hp as (Hok & Hne & _). by exists c, machine, vs, e, l.
Qed.

(** C18: The TAP program cannot be made to panic by what it reads, and sends nothing but frames of its own.
    If standard output works ([StdoutWorks]: [print!] panics when it fails; what goes to standard error is not
    modelled, and is taken to work too) and every argument is Unicode, then
    for any arguments, any frames, any failures of the device, the files and the clock, and
    anything the user types (less than 2^64 bytes), any number of turns
    of the program returns: it ends with the help text, with an error reported by the system or
    the command line, or in a state where interface and host keep their invariants; and every packet it has put
    on the device by then parses as an Ethernet frame whose source is its own address. With an argument
    that is not Unicode it panics at once, as [env::args] does. *)
Theorem tap_host_never_panics {W} `{OsLaws W} `{!StdoutWorks W} `{Libc} `{Utf8} (args : list bytes) count (w : W) :
  typed_bytes (typed w) + 2 ≤ u64_max →
  if forallb utf8 args then
    ∃ r w', main args count w = Ret (r, w') ∧
      match r with Ok (Some (n, h)) => PInv (chosen_mac args) (typed w') n h | _ => True end ∧
      ∃ frames, sent w' = sent w ++ frames ∧ Forall (own_frame (chosen_mac args)) frames
  else main args count w = Fault Panicked.
Proof.
  intros Hmax. destruct (forallb utf8 args) eqn:Hargs; [|by apply main_unicode].
  pose proof (main_runs args count w Hargs Hmax) as Hm. unfold runs in Hm. wp_inv Hm. destruct r as [r w'].
  exists r, w'. split; [done|]. destruct r as [[[n h]|]|e]; [|done..]. destruct Hm as [(c & m & pcap & _ & _ & [? _]) ?]. done.
Qed.

(** A world with a frame for the program, noise, an interruption, typing and passing time. *)
Example busy_world : Script.t :=
  Script.mk [Ok (EthernetFrame.serialize (reply_frame bob (A6 x02 x00 x00 x00 x00 x02) (A4 xa9 xfe x90 x02)));
             Err Interrupted; Ok [x00; x01]]
    [Data [x68; x69]; Close] [10; 20; 5000] [] [] [] 0.

Lemma tap_host_never_panics_witness :
  let args := [str "tap_host"; str "--isn"; str "7"; str "--pcap"; str "out.pcap"] in
  forallb utf8 args = true ∧
  ∃ r w', main args 3 busy_world = Ret (r, w') ∧
    match r with Ok (Some (n, h)) => PInv (chosen_mac args) (typed w') n h | _ => True end ∧
    ∃ frames, sent w' = sent busy_world ++ frames ∧ Forall (own_frame (chosen_mac args)) frames.
Proof.
  intros args. assert (Hu : forallb utf8 args = true) by (vm_compute; reflexivity).
  assert (Hb : typed_bytes (typed busy_world) + 2 ≤ u64_max) by (vm_compute; discriminate).
  pose proof (tap_host_never_panics args 3 busy_world Hb) as Hn. rewrite Hu in Hn. exact (conj Hu Hn).
Defined.

(** While the program runs, the last of its capture is in memory: here it has read and sent frames, but
    the file is empty.  An error ends the program with the capture written. *)
Example capture_lags :
  let args := [str "tap_host"; str "--pcap"; str "out.pcap"] in
  match main args 3 busy_world with
  | Ret (Ok (Some _), w) => log w ≠ [] ∧ capture w = []
  | _ => False
  end ∧
  match main args 3 (Script.mk (Script.reads busy_world ++ [Err OtherError]) [] [] [] [] [] 0) with
  | Ret (Err OtherError, w) => log w ≠ [] ∧ 24 < blen (capture w)
  | _ => False
  end.
Proof. vm_compute. repeat split; discriminate. Qed.
