(* ===== verification/tun_host.v ===== *)
(** * The TUN host program ([src/bin/tun_host.rs])

    The host on a TUN device: raw IPv4 packets go to the host and its datagrams come back as
    packets, without an Ethernet layer.  The program repeats the command line and the
    event loop of [src/bin/tap_host.rs] with its own configuration; so does this file.  The variable [pcap] is kept
    beside the system's world.  Everything the program does is
    what a host of [ip_duplex.v] does ([tun_host_is_station]). *)

From S2P Require Import prelude wrapping_integers byte_stream btree_map tcp_message stream.
From S2P Require Import reassembler checksum icmp ipv4_datagram.
From S2P Require Import tcp_segment tcp_receiver tcp_sender tcp_connection ip_host.
From S2P Require Import stream tcp_link tcp_duplex router ip_duplex.
From S2P Require Import os pcap tun host_cli.
From Stdlib Require Strings.String.
Import Strings.String.StringSyntax.

#[local] Open Scope Z_scope.

Module Config.

Record t := mk {
  tun_name : bytes;
  local_ip : array4;
  peer_ip : array4;
  local_port : Z;
  peer_port : Z;
  isn : Wrap32.t;
  pcap_path : option bytes;
}.

Definition default : t :=
  mk (str "tun144") (A4 xa9 xfe x90 x02) (A4 xa9 xfe x90 x01) 50000 9090
     (Wrap32.new 1000000) None.

Definition with_tun_name (self : t) x : t :=
  mk x (local_ip self) (peer_ip self) (local_port self) (peer_port self) (isn self) (pcap_path self).
Definition with_local_ip (self : t) x : t :=
  mk (tun_name self) x (peer_ip self) (local_port self) (peer_port self) (isn self) (pcap_path self).
Definition with_peer_ip (self : t) x : t :=
  mk (tun_name self) (local_ip self) x (local_port self) (peer_port self) (isn self) (pcap_path self).
Definition with_local_port (self : t) x : t :=
  mk (tun_name self) (local_ip self) (peer_ip self) x (peer_port self) (isn self) (pcap_path self).
Definition with_peer_port (self : t) x : t :=
  mk (tun_name self) (local_ip self) (peer_ip self) (local_port self) x (isn self) (pcap_path self).
Definition with_isn (self : t) x : t :=
  mk (tun_name self) (local_ip self) (peer_ip self) (local_port self) (peer_port self) x (pcap_path self).
Definition with_pcap_path (self : t) x : t :=
  mk (tun_name self) (local_ip self) (peer_ip self) (local_port self) (peer_port self) (isn self) x.

End Config.

(** The [while i < args.len()] loop of [parse_args]; [None] stands for the exit after [--help], whose text [main] prints. *)
Fixpoint parse_loop (fuel : nat) (args : list bytes) (i : nat) (config : Config.t)
    : exec (result (option Config.t) io_error) :=
  match fuel with
  | O => Fault OutOfFuel
  | S fuel =>
      match args !! i with
      | None => mret (Ok (Some config))
      | Some arg =>
          let with_value {A} (parse : bytes → result A io_error) (set : A → Config.t) :=
            match require_arg args (S i) with
            | Ok value =>
                match parse value with
                | Ok x => parse_loop fuel args (S (S i)) (set x)
                | Err e => mret (Err e)
                end
            | Err e => mret (Err e)
            end in
          if bool_decide (arg = str "--help") || bool_decide (arg = str "-h") then mret (Ok None)
          else if bool_decide (arg = str "--tun") then with_value Ok (Config.with_tun_name config)
          else if bool_decide (arg = str "--local-ip") then with_value parse_ipv4 (Config.with_local_ip config)
          else if bool_decide (arg = str "--peer-ip") then with_value parse_ipv4 (Config.with_peer_ip config)
          else if bool_decide (arg = str "--local-port") then with_value parse_port (Config.with_local_port config)
          else if bool_decide (arg = str "--peer-port") then with_value parse_port (Config.with_peer_port config)
          else if bool_decide (arg = str "--isn") then
            with_value (λ raw, match from_str_radix 10 u32_max raw with Some n => Ok (Wrap32.new n) | None => Err InvalidInput end)
              (Config.with_isn config)
          else if bool_decide (arg = str "--pcap") then with_value Ok (λ path, Config.with_pcap_path config (Some path))
          else mret (Err InvalidInput)
      end
  end.

(** The usage text, line by line. *)
Definition help : list bytes := [
  str "Usage:";
  str "  tun_host [OPTIONS]";
  [];
  str "Options:";
  str "  --tun NAME             TUN device name. Default: tun144";
  str "  --local-ip IP          Rust TCP stack IP. Default: 169.254.144.2";
  str "  --peer-ip IP           Linux/native TCP peer IP. Default: 169.254.144.1";
  str "  --local-port PORT      Rust local TCP port. Default: 50000";
  str "  --peer-port PORT       Native peer TCP port. Default: 9090";
  str "  --isn N                Initial sequence number. Default: 1000000";
  str "  --pcap PATH            Dump RX/TX IPv4 packets to classic pcap (LINKTYPE_RAW)";
  str "  -h, --help             Show this help";
  [];
  str "Example:";
  str "  cargo run --bin tun_host -- " ++ [x5c];
  str "    --tun tun144 " ++ [x5c];
  str "    --local-ip 169.254.144.2 " ++ [x5c];
  str "    --peer-ip 169.254.144.1 " ++ [x5c];
  str "    --local-port 50000 " ++ [x5c];
  str "    --peer-port 9090 " ++ [x5c];
  str "    --pcap tun-host.pcap"].

Definition print_help {W} `{Os W} : io W unit := println (concat (map (λ line, line ++ [x0a]) help)).

(** [args] are the program's arguments, its own name first. *)
Definition parse_args `{Utf8} (args : list bytes) : exec (result (option Config.t) io_error) :=
  args ← env_args args;
  r ← parse_loop (S (length args)) args 1 Config.default;
  mret match r with
       | Ok (Some config) =>
           if bool_decide (Config.local_ip config = Config.peer_ip config) then Err InvalidInput
           else if Config.local_port config =? Config.peer_port config then Err InvalidInput
           else Ok (Some config)
       | _ => r
       end.

(** The program: the system, and the variable [pcap] of [main], which the functions below change. *)
Section program.
Context {W : Type} `{Os W} `{Libc} `{Utf8}.

Abbreviation process := (W * option PcapWriter.t)%type.

Definition dump_packet (packet : bytes) : io process unit := PcapWriter.if_some (PcapWriter.write_packet packet).

(** The [for] loop of [emit_output]. *)
Fixpoint write_datagrams (datagrams : list Ipv4Datagram.t) : io process unit :=
  match datagrams with
  | [] => ok tt
  | datagram :: datagrams =>
      packet ⇐ lift (Ipv4Datagram.serialize datagram);
      _ ⇐ dump_packet packet;
      _ ⇐ TunDevice.write_packet packet;
      write_datagrams datagrams
  end.

Definition emit_output (output : IpHostOutput.t) : io process unit :=
  _ ⇐ print_events (IpHostOutput.events output);
  write_datagrams (IpHostOutput.datagrams output).

Fixpoint drain_tun_packets (fuel : nat) (host : IpHost.t) : io process IpHost.t :=
  match fuel with
  | O => lift (Fault OutOfFuel)
  | S fuel => λ w,
      '(packet, w) ← TunDevice.read_packet w;
      match packet with
      | Ok packet =>
          (_ ⇐ dump_packet packet;
           '(output, host) ⇐ lift (IpHost.receive_ipv4_bytes host packet);
           _ ⇐ emit_output output;
           drain_tun_packets fuel host) w
      | Err WouldBlock => ok host w
      | Err Interrupted => drain_tun_packets fuel host w
      | Err err => fail err w
      end
  end.

Fixpoint drain_app_events (fuel : nat) (host : IpHost.t) : io process IpHost.t :=
  match fuel with
  | O => lift (Fault OutOfFuel)
  | S fuel => λ w,
      match try_recv w with
      | (Some (Data data), w) =>
          ('(_, output, host) ⇐ lift (IpHost.write host data);
           _ ⇐ emit_output output;
           drain_app_events fuel host) w
      | (Some Close, w) =>
          ('(output, host) ⇐ lift (IpHost.close host);
           _ ⇐ emit_output output;
           drain_app_events fuel host) w
      | (None, w) => ok host w
      end
  end.

(** The [if elapsed_ms > 0] of the main loop. *)
Definition advance (host : IpHost.t) (elapsed_ms : Z) : io process IpHost.t :=
  if 0 <? elapsed_ms then
    '(output, host) ⇐ lift (IpHost.tick host elapsed_ms);
    _ ⇐ emit_output output;
    ok host
  else ok host.

(** One turn of the main loop: at most [reads] reads and [events] events. *)
Definition turn (reads events : nat) (host : IpHost.t) : io process IpHost.t :=
  host ⇐ drain_tun_packets reads host;
  host ⇐ drain_app_events events host;
  elapsed_ms ⇐ call (λ w, (Ok (millis w).1, (millis w).2));
  host ⇐ advance host elapsed_ms;
  _ ⇐ lift (IpHost.is_established host);
  ok host.

(** [main] before its loop. *)
Definition start (config : Config.t) : io process IpHost.t :=
  _ ⇐ TunDevice.create (Config.tun_name config);
  _ ⇐ TunDevice.set_nonblocking true;
  _ ⇐ PcapWriter.open (Config.pcap_path config) PcapLinkType.RawIpv4;
  let host_config := IpHostConfig.tcp_demo (Config.local_ip config) (Config.peer_ip config)
    (Config.local_port config) (Config.peer_port config) (Config.isn config) in
  host ⇐ lift (IpHost.new host_config);
  '(output, host) ⇐ lift (IpHost.connect host);
  _ ⇐ emit_output output;
  ok host.

End program.

Section main.
Context {W : Type} `{Os W} `{OsView W} `{Libc} `{Utf8}.

(** [count] turns of the main loop. *)
Fixpoint turns (count : nat) (host : IpHost.t) : io (W * option PcapWriter.t) IpHost.t :=
  match count with
  | O => ok host
  | S count => λ w,
      (host ⇐ turn (S (queued_reads w)) (S (length (typed w))) host; turns count host) w
  end.

(** The program with these arguments, for [count] turns; [--help] prints its text and ends it,
    and an error ends it after the capture is flushed. *)
Definition main (args : list bytes) (count : nat) : io W (option IpHost.t) :=
  parsed ⇐ lift (parse_args args);
  match parsed with
  | Err err => fail err
  | Ok None => _ ⇐ print_help; ok None
  | Ok (Some config) =>
      PcapWriter.scope (
        host ⇐ start config;
        host ⇐ turns count host;
        ok (Some host))
  end.

End main.

Section facts.
Context {W : Type} `{OsLaws W} `{!StdoutWorks W} `{Libc} `{Utf8}.

Abbreviation process := (W * option PcapWriter.t)%type.

Implicit Types (w : process) (h : IpHost.t).

(** ** Arguments *)

Definition config_ok (c : Config.t) : Prop :=
  u16 (Config.local_port c) ∧ Config.local_port c ≠ 0 ∧ u16 (Config.peer_port c) ∧ Config.peer_port c ≠ 0 ∧
  Wrap32.ok (Config.isn c).

Lemma parse_tun_loop_wp fuel args i c : config_ok c → (i ≤ S (length args) < i + fuel)%nat →
  parse_loop fuel args i c ⇓ λ r, match r with Ok (Some c') => config_ok c' | _ => True end.
Proof.
  revert i c. induction fuel as [|fuel IH]; intros i c Hc Hf; cbn [parse_loop].
  { lia. }
  destruct (args !! i) as [arg|] eqn:E; [|by wp_step]. apply lookup_lt_Some in E.
  assert (Hv : ∀ A (parse : bytes → result A io_error) (set : A → Config.t),
    (∀ value x, parse value = Ok x → config_ok (set x)) →
    match require_arg args (S i) with
    | Ok value =>
        match parse value with
        | Ok x => parse_loop fuel args (S (S i)) (set x)
        | Err e => mret (Err e)
        end
    | Err e => mret (Err e)
    end ⇓ λ r, match r with Ok (Some c') => config_ok c' | _ => True end).
  { intros A parse set Hset. destruct (require_arg args (S i)) as [value|]; [|by wp_step].
    destruct (parse value) as [x|] eqn:Ex; [|by wp_step]. apply IH; [by eapply Hset|lia]. }
  destruct Hc as (? & ? & ? & ? & ?).
  repeat case_bool_decide; cbn [orb]; try (by wp_step);
    first [apply (Hv _ Ok (Config.with_tun_name c)) | apply (Hv _ Ok (λ path, Config.with_pcap_path c (Some path))) | apply Hv];
    intros value x Hx; try done.
  - apply parse_port_range in Hx as []. by split_and!.
  - apply parse_port_range in Hx as []. by split_and!.
  - split_and!; try done. cbn. destruct (from_str_radix 10 u32_max value) as [z|] eqn:Ez; [|done]. injection Hx as <-.
    unfold Wrap32.ok. cbn. by apply from_str_radix_range in Ez.
Qed.

Lemma parse_tun_args_wp args : forallb utf8 args = true →
  parse_args args ⇓ λ r, match r with
    | Ok (Some c) => config_ok c ∧ Config.local_ip c ≠ Config.peer_ip c ∧ Config.local_port c ≠ Config.peer_port c
    | _ => True
    end.
Proof.
  intros Hargs. unfold parse_args, env_args. rewrite Hargs. wp_step. wp_step. wp_step. wp_apply parse_tun_loop_wp; [|lia|].
  { unfold config_ok, Wrap32.ok, u16, u32. cbn. lia. }
  intros [[c|]|e] Hc; wp_step; try done. case_bool_decide; [done|]. by destruct (Z.eqb_spec (Config.local_port c) (Config.peer_port c)).
Qed.

Lemma tun_config_ok c : config_ok c →
  TcpConnectionConfig.ok (IpHostConfig.connection_config (IpHostConfig.tcp_demo (Config.local_ip c) (Config.peer_ip c)
    (Config.local_port c) (Config.peer_port c) (Config.isn c))).
Proof.
  intros (? & ? & ? & ? & ?). unfold TcpConnectionConfig.ok, TcpSenderConfig.ok. cbn. split_and!; try done; ulia.
Qed.

(** ** The state of the program *)

Context (cfg : IpHostConfig.t) (base : list traffic) (script : list AppEvent).

Definition host_ready (events : list AppEvent) h : Prop := host_fits events h ∧ IpHost.config h = cfg.

(** A packet that parses as a datagram the host may send. *)
Definition own_packet (bs : bytes) : Prop :=
  ∃ d, Ipv4Datagram.parse_bytes bs = Ret (Ok d) ∧ own_datagram cfg d.

Abbreviation clean := (sends (outgoing base) own_packet).

(** What is typed when the application of a host writes or closes. *)
Definition entry (o : Station.action) : list AppEvent :=
  match o with
  | Station.Write data => [Data data]
  | Station.Close => [Close]
  | _ => []
  end.
Definition entries (os : list Station.action) : list AppEvent := concat (map entry os).

Lemma entered_tun_entries os : entered (entries os) = Station.inputs os.
Proof using Type.
  induction os as [|o os IH]; [done|]. unfold entries, Station.inputs in *. cbn [map concat]. rewrite entered_app, IH. f_equal.
  destruct o; try done. apply app_nil_r.
Qed.

(** The host the program starts as: [conducted h l taken] says that some actions take it to [h], with
    the traffic [l], on which its application writes and closes as in [taken]. *)
Context (machine : Station.t).

Definition timely (o : Station.action) : Prop :=
  match o with Station.Tick ms => 0 ≤ ms | Station.Deliver _ _ _ => False | _ => True end.

Definition conducted h (l : list traffic) (taken : list AppEvent) : Prop :=
  ∃ os x, Forall timely os ∧ Station.conduct machine os = Ret (l, x) ∧ Station.host x = h ∧ entries os = taken.

(** The host with the traffic of the device; what the application has done and what is
    still to be typed is the whole script. *)
Definition resembles w h left : Prop :=
  ∃ l taken, log w = base ++ l ∧ conducted h l taken ∧ taken ++ left = script ∧ books script h left.

(** The invariant holds, and the program is where the host is. *)
Definition follows w h : Prop := host_ready (typed w) h ∧ resembles w h (typed w).

Lemma resembles_same w w' h left : log w' = log w → resembles w h left → resembles w' h left.
Proof. unfold resembles. by intros ->. Qed.

Lemma follows_same w w' h : typed w' = typed w → log w' = log w → follows w h → follows w' h.
Proof. intros Ht Hs [HP Hr]. unfold follows. rewrite Ht. split; [done|by eapply resembles_same]. Qed.

(** One more action, with the packets [ps] as its output. *)
Lemma resembles_act w h left o left' r h' ps w' : resembles w h left → timely o →
  left = entry o ++ left' → (∀ taken, taken ++ left = script → books script h left → books script h' left') →
  (∀ x, Station.host x = h → ∃ sofar, Station.act x [] o = Station.send x sofar (r, h')) →
  Station.serialize_all (IpHostOutput.datagrams r) = Ret ps → log w' = log w ++ Station.heard o ++ map Sent ps →
  resembles w' h' left'.
Proof using Type.
  intros (l & taken & Hl & (os & x & Hos & Hx & Hh & Hi) & Hs & Hb) Ho Hleft Hbooks Hact Hps Hl'. destruct (Hact x Hh) as [sofar Ha].
  exists (l ++ Station.heard o ++ map Sent ps), (taken ++ entry o).
  split; [by rewrite Hl', Hl, <- app_assoc|]. split; [|split; [by rewrite <- app_assoc, <- Hleft|by eapply Hbooks]].
  exists (os ++ [o]), (Station.mk h' (Station.packets x ++ ps) sofar).
  split_and!; [apply Forall_app; split; [done|by apply Forall_singleton]| |done|].
  - rewrite conduct_app, Hx, bind_Ret. cbn [Station.conduct]. rewrite Ha. cbn [Station.send].
    rewrite Hps, !bind_Ret, ?bind_mret. cbn [Station.packets]. by rewrite drop_app_length, app_nil_r.
  - unfold entries in *. by rewrite map_app, concat_app, Hi; cbn; rewrite app_nil_r.
Qed.

Lemma dump_tun_calm packet w : runs (dump_packet packet) w (λ _, calm w) (calm w).
Proof. apply if_some_calm. Qed.

Lemma write_datagrams_runs ds w : Forall (own_datagram cfg) ds → clean w →
  runs (write_datagrams ds) w
    (λ _ w', typed w' = typed w ∧ queued_reads w' = queued_reads w ∧
       (∃ ps, Station.serialize_all ds = Ret ps ∧ log w' = log w ++ map Sent ps) ∧ clean w') clean.
Proof.
  intros Hds. revert w. induction Hds as [|d ds Hd _ IH]; intros w Hw; cbn [write_datagrams Station.serialize_all].
  { apply runs_ok. split_and!; [done|done| |done]. exists []. by rewrite app_nil_r. }
  destruct (wire_roundtrip (WireFormat := ipv4_wire) d (proj1 Hd)) as (packet & Hs & Hp). cbn in Hs, Hp.
  apply runs_bind, runs_lift. rewrite Hs. wp_step.
  apply runs_bind, runs_calm; [apply dump_tun_calm|done|]. intros [] w1 (Ht1 & Hq1 & Hs1) Hw1.
  apply runs_bind. unfold TunDevice.write_packet. destruct (_ =? 0); [by apply runs_fail|].
  apply runs_send; [by exists d|done|]. intros w2 Ht2 Hq2 Hs2 Hw2.
  eapply runs_mono; [by apply IH| |done]. intros [] w3 (? & ? & (ps & Hps & Hs3) & ?). split_and!; [congruence..| |done].
  exists (packet :: ps). rewrite bind_Ret, Hps, bind_Ret. split; [done|]. by rewrite Hs3, Hs2, Hs1, <- app_assoc.
Qed.

(** The host has taken a step since [w0], and its output goes out; [left'] is what is still to be typed. *)
Lemma emit_runs h o left r h' w0 w grow closing left' : host_step_ok h grow closing (r, h') → IpHost.config h = cfg → clean w →
  pushed h + grow + typed_bytes left' + 2 ≤ u64_max → resembles w0 h left → timely o →
  left = entry o ++ left' → typed_bytes (entry o) = grow → (closing = true → entry o = [Close]) → log w = log w0 ++ Station.heard o →
  (∀ x, Station.host x = h → ∃ sofar, Station.act x [] o = Station.send x sofar (r, h')) →
  runs (emit_output r) w
    (λ _ w', host_ready left' h' ∧ typed w' = typed w ∧ queued_reads w' = queued_reads w ∧
       resembles w' h' left' ∧ clean w') clean.
Proof.
  intros Hs Hc Hw Hmax Hr Ho Hleft Hg Hcl Hl Hact. destruct (host_fits_step left' grow closing h r h' Hs Hmax) as [HF _].
  assert (Hbooks : ∀ taken, taken ++ left = script → books script h left → books script h' left').
  { intros taken Htk Hb. rewrite Hleft in Htk, Hb. by eapply books_step. }
  destruct Hs as (P & _ & Hc' & _ & Hd). rewrite Hc in Hc', Hd. unfold emit_output.
  apply runs_bind, runs_calm; [apply print_events_runs|done|]. intros [] w1 (Ht1 & Hq1 & Hs1) Hw1.
  eapply runs_mono; [by apply write_datagrams_runs| |done]. intros [] w2 (? & ? & (ps & Hps & Hs2) & ?).
  split_and!; [done|congruence..| |done]. eapply resembles_act; [exact Hr|exact Ho|exact Hleft|exact Hbooks|exact Hact|exact Hps|].
  by rewrite Hs2, Hs1, Hl, app_assoc.
Qed.

Lemma drain_packets_runs fuel h w : follows w h → clean w → (queued_reads w < fuel)%nat →
  runs (drain_tun_packets fuel h) w (λ h' w', follows w' h' ∧ typed w' = typed w ∧ clean w') clean.
Proof.
  revert h w. induction fuel as [|fuel IH]; intros h w HP Hw Hf; [lia|]. cbn [drain_tun_packets].
  unfold runs at 1, TunDevice.read_packet, call. wp_step. wp_step.
  destruct (file_read MAX_IPV4_PACKET_SIZE w) as [r w1] eqn:Er. apply read_uses in Er as (Ht & Hl & Hq).
  eapply (sends_read _ _ _ _ r) in Hw; [|exact Hl].
  assert (Hgo : ∀ h' w', follows w' h' → clean w' → typed w' = typed w → (queued_reads w' < fuel)%nat →
    runs (drain_tun_packets fuel h') w' (λ h' w', follows w' h' ∧ typed w' = typed w ∧ clean w') clean).
  { intros h' w' HP' Hw' Ht' Hq'. eapply runs_mono; [by apply IH| |done]. intros h2 w2 (? & ? & ?). split_and!; [done|congruence|done]. }
  assert (Hskip : log w1 = log w → follows w1 h) by (intros Hl1; by eapply follows_same).
  destruct r as [packet|[]]; [|by apply runs_ok; split_and!; auto|by apply Hgo; [auto|..|lia]|by apply runs_fail..].
  change (runs (_ ⇐ dump_packet packet; '(output, host) ⇐ lift (IpHost.receive_ipv4_bytes h packet);
    _ ⇐ emit_output output; drain_tun_packets fuel host) w1
    (λ h' w', follows w' h' ∧ typed w' = typed w ∧ clean w') clean).
  apply runs_bind, runs_calm; [apply dump_tun_calm|done|]. intros [] w2 (Ht2 & Hq2 & Hs2) Hw2.
  destruct HP as [[(P & HH & Hmax) Hc] Hr]. pose proof (typed_bytes_nonneg (typed w)).
  apply runs_bind, runs_lift. pose proof (receive_ipv4_bytes_wp P h packet HH ltac:(lia)) as Hs. wp_inv Hs.
  rewrite Heq. wp_step. destruct r as [r h'].
  apply runs_bind. eapply runs_mono; [apply (emit_runs h (Station.Inject packet) (typed w) r h' w w2 0 false (typed w) Hs Hc Hw2)| |done];
    [lia|exact Hr|done|done|done|done|cbn; congruence| |].
  { intros x Hx. eexists. cbn. by rewrite Hx, Heq, bind_Ret. }
  intros [] w3 (HP3 & Ht3 & Hq3 & Hr3 & Hw3). apply Hgo; [|done|congruence|lia]. unfold follows. by rewrite Ht3, Ht2, Ht.
Qed.

Lemma drain_typed_runs fuel h w : follows w h → clean w → (length (typed w) < fuel)%nat →
  runs (drain_app_events fuel h) w (λ h' w', follows w' h' ∧ clean w') clean.
Proof.
  revert h w. induction fuel as [|fuel IH]; intros h w HP Hw Hf; [lia|]. cbn [drain_app_events]. unfold runs at 1.
  destruct (try_recv w) as [e w1] eqn:Er. apply recv_uses in Er as [Er Hsent]. eapply sends_same in Hw; [|exact Hsent].
  destruct e as [e|]; [|apply runs_ok; split; [by eapply follows_same|done]]. destruct HP as [HP Hr].
  rewrite Er in HP, Hr, Hf. cbn in Hf. eapply resembles_same in Hr; [|exact Hsent].
  destruct HP as [(P & HH & Hmax) Hc]. pose proof (typed_bytes_nonneg (typed w1)).
  assert (Hgo : ∀ o grow closing r h', host_step_ok h grow closing (r, h') → pushed h + grow + typed_bytes (typed w1) + 2 ≤ u64_max →
    timely o → Station.heard o = [] → e :: typed w1 = entry o ++ typed w1 → typed_bytes (entry o) = grow → (closing = true → entry o = [Close]) →
    (∀ x, Station.host x = h → ∃ sofar, Station.act x [] o = Station.send x sofar (r, h')) →
    runs (_ ⇐ emit_output r; drain_app_events fuel h') w1 (λ h' w', follows w' h' ∧ clean w') clean).
  { intros o grow closing r h' Hs Hm Ho Hheard He Hg Hcl Hact. apply runs_bind.
    eapply runs_mono; [apply (emit_runs h o (e :: typed w1) r h' w1 w1 grow closing (typed w1) Hs Hc Hw Hm Hr Ho He Hg Hcl); [|exact Hact]| |done].
    { by rewrite Hheard, app_nil_r. }
    intros [] w2 (HP' & Ht & _ & Hr' & Hw2). apply IH; [|done|rewrite Ht; lia]. unfold follows. by rewrite Ht. }
  destruct e as [data|]; cbn in Hmax.
  - change (runs ('(_, output, host) ⇐ lift (IpHost.write h data); _ ⇐ emit_output output;
      drain_app_events fuel host) w1 (λ h' w', follows w' h' ∧ clean w') clean).
    pose proof (blen_nonneg data). apply runs_bind, runs_lift. pose proof (host_write_wp P h data HH ltac:(lia)) as Hs.
    wp_inv Hs. rewrite Heq. wp_step. destruct r as [[k r] h']. apply (Hgo (Station.Write data) (blen data) false); [done|lia|done|done|done|cbn; lia|done|].
    intros x Hx. eexists. cbn. by rewrite Hx, Heq, bind_Ret.
  - change (runs ('(output, host) ⇐ lift (IpHost.close h); _ ⇐ emit_output output;
      drain_app_events fuel host) w1 (λ h' w', follows w' h' ∧ clean w') clean).
    apply runs_bind, runs_lift. pose proof (host_step_wp P h IpHost.Close HH I ltac:(cbn; lia)) as Hs. cbn [IpHost.step] in Hs.
    wp_inv Hs. rewrite Heq. wp_step. destruct r as [r h']. apply (Hgo Station.Close 0 true); [done|lia|done..|].
    intros x Hx. eexists. cbn. by rewrite Hx, Heq, bind_Ret.
Qed.

Lemma advance_tun_runs h ms w : follows w h → clean w → 0 ≤ ms →
  runs (advance h ms) w (λ h' w', follows w' h' ∧ clean w') clean.
Proof.
  intros HP Hw Hms. unfold advance. destruct (0 <? ms); [|by apply runs_ok].
  destruct HP as [[(P & HH & Hmax) Hc] Hr]. pose proof (typed_bytes_nonneg (typed w)). apply runs_bind, runs_lift.
  pose proof (host_step_wp P h (IpHost.Tick ms) HH Hms ltac:(cbn; lia)) as Hs. cbn [IpHost.step] in Hs. wp_inv Hs.
  rewrite Heq. wp_step. destruct r as [r h'].
  apply runs_bind. eapply runs_mono; [apply (emit_runs h (Station.Tick ms) (typed w) r h' w w 0 false (typed w) Hs Hc Hw)| |done];
    [lia|exact Hr|done|done|done|done|by rewrite app_nil_r| |].
  { intros x Hx. eexists. cbn. by rewrite Hx, Heq, bind_Ret. }
  intros [] w' (HP' & Ht & _ & Hr' & Hw'). apply runs_ok. split; [|done]. unfold follows. by rewrite Ht.
Qed.

(** A whole turn, with fuel for what the system has queued. *)
Lemma tun_turn_runs h w : follows w h → clean w →
  runs (turn (S (queued_reads w)) (S (length (typed w))) h) w
    (λ h' w', follows w' h' ∧ clean w') clean.
Proof.
  intros HP Hw. unfold turn. apply runs_bind. eapply runs_mono; [apply (drain_packets_runs _ h w HP Hw); lia| |done].
  intros h1 w1 (HP1 & Ht1 & Hw1). apply runs_bind.
  eapply runs_mono; [apply (drain_typed_runs _ h1 w1 HP1 Hw1); rewrite Ht1; lia| |done].
  intros h2 w2 [HP2 Hw2]. apply runs_bind, runs_call. destruct (millis w2) as [ms w3] eqn:Em. cbn [fst snd].
  apply millis_uses in Em as (Hms & Ht3 & Hs3). eapply follows_same in HP2; [|exact Ht3|exact Hs3]. eapply sends_same in Hw2; [|exact Hs3]. apply runs_bind.
  eapply runs_mono; [apply (advance_tun_runs h2 ms w3 HP2 Hw2 Hms)| |done]. intros h4 w4 [HP4 Hw4].
  apply runs_bind, runs_lift. pose proof HP4 as [[(P & HH & _) _] _]. wp_apply (is_established_wp P h4 HH). intros _ _.
  by apply runs_ok.
Qed.

Lemma tun_turns_runs count h w : follows w h → clean w →
  runs (turns count h) w (λ h' w', follows w' h' ∧ clean w') clean.
Proof.
  revert h w. induction count as [|count IH]; intros h w HP Hw; cbn [turns]; [by apply runs_ok|].
  change (runs (host ⇐ turn (S (queued_reads w)) (S (length (typed w))) h; turns count host) w
    (λ h' w', follows w' h' ∧ clean w') clean).
  apply runs_bind. eapply runs_mono; [by apply tun_turn_runs| |done]. intros h' w' [? ?]. by apply IH.
Qed.

Lemma create_tun_runs name w : clean w → runs (TunDevice.create name) w (λ _ w', typed w' = typed w ∧ log w' = log w ∧ clean w') clean.
Proof.
  intros Hw. unfold TunDevice.create, IfReq.new. apply runs_bind.
  assert (Hv : ∀ w, clean w → runs (validate_interface_name name) w (λ _ w', w' = w) clean).
  { intros w0 Hw0. unfold validate_interface_name. destruct (_ =? 0); [by apply runs_fail|].
    destruct (contains_nul name); [by apply runs_fail|]. destruct (_ <=? _); [by apply runs_fail|by apply runs_ok]. }
  eapply runs_mono; [by apply Hv| |done]. intros [] ? ->. apply runs_bind, runs_call.
  destruct (open_tun w) as [[[]|e] w1] eqn:Eo; apply open_uses in Eo as [Ht Hs]; eapply sends_same in Hw; try exact Hs; [|done].
  apply runs_bind, runs_bind. eapply runs_mono; [by apply Hv| |done]. intros [] ? ->. apply runs_ok.
  apply runs_bind, runs_call. destruct (tunsetiff _ _ w1) as [[nm|e] w2] eqn:Ei; apply ioctl_uses in Ei as [Ht2 Hs2];
    eapply sends_same in Hw; try exact Hs2; [|done].
  apply runs_ok. split_and!; [congruence|congruence|done].
Qed.

Lemma nonblocking_tun_runs b w : clean w → runs (TunDevice.set_nonblocking b) w (λ _ w', typed w' = typed w ∧ log w' = log w ∧ clean w') clean.
Proof.
  intros Hw. unfold TunDevice.set_nonblocking. apply runs_bind, runs_call.
  destruct (fcntl_getfl w) as [[flags|e] w1] eqn:E; apply getfl_uses in E as [Ht Hs]; eapply sends_same in Hw; try exact Hs; [|done].
  apply runs_call. destruct (fcntl_setfl _ w1) as [[[]|e] w2] eqn:E; apply setfl_uses in E as [Ht2 Hs2];
    eapply sends_same in Hw; try exact Hs2; [|done].
  split_and!; [congruence|congruence|done].
Qed.

Lemma tun_start_runs c w : config_ok c → clean w → log w = base → typed w = script → typed_bytes (typed w) + 2 ≤ u64_max →
  cfg = IpHostConfig.tcp_demo (Config.local_ip c) (Config.peer_ip c) (Config.local_port c) (Config.peer_port c) (Config.isn c) →
  Station.new cfg = Ret machine → runs (start c) w (λ h w', follows w' h ∧ clean w') clean.
Proof.
  intros Hc Hw Hbase Hscript Hmax Hcfg Hm. pose proof (typed_bytes_nonneg (typed w)). unfold start. apply runs_bind.
  eapply runs_mono; [by apply create_tun_runs| |done]. intros dev w0 (Ht0 & Hs0 & Hw0). apply runs_bind.
  eapply runs_mono; [by apply nonblocking_tun_runs| |done]. intros [] w1 (Ht1 & Hs1 & Hw1). rewrite Ht0 in Ht1. apply runs_bind.
  apply runs_calm; [apply open_calm|done|]. intros [] w2 (Ht2 & _ & Hs2) Hw2. apply runs_bind, runs_lift.
  pose proof (new_host_wp _ (tun_config_ok c Hc) ltac:(done)) as Hnew. wp_inv Hnew. rename r into h.
  rewrite Heq. wp_step. destruct Hnew as (HH & Hch & Hp). apply runs_bind, runs_lift.
  pose proof (host_step_wp [] h IpHost.Connect HH I ltac:(cbn; lia)) as Hs. cbn [IpHost.step] in Hs. wp_inv Hs.
  rewrite Heq0. wp_step. destruct r as [r h']. apply runs_bind.
  unfold Station.new in Hm. rewrite Hcfg, Heq, bind_Ret in Hm. injection Hm as Hm.
  assert (Hr : resembles w2 h (typed w2)).
  { exists [], []. split; [rewrite app_nil_r; congruence|].
    split; [|split; [cbn; congruence|rewrite <- Hscript, Ht2, Ht1; eapply books_new; [exact (tun_config_ok c Hc)|exact Heq]]].
    exists [], machine. split_and!; [by constructor|done|by rewrite <- Hm|done]. }
  eapply runs_mono; [apply (emit_runs h Station.Connect (typed w2) r h' w2 w2 0 false (typed w2) Hs)| |done];
    [congruence|done|rewrite Ht2, Ht1; lia|exact Hr|done|done|done|done|by rewrite app_nil_r| |].
  { intros x Hx. eexists. cbn. by rewrite Hx, Heq0, bind_Ret. }
  intros [] w3 (HP & Ht3 & _ & Hr3 & Hw3). apply runs_ok. split; [|done]. unfold follows. by rewrite Ht3.
Qed.
End facts.

(** The host the command line asks for. *)
Definition chosen_host `{Utf8} (args : list bytes) : IpHostConfig.t :=
  let c := match parse_args args with Ret (Ok (Some config)) => config | _ => Config.default end in
  IpHostConfig.tcp_demo (Config.local_ip c) (Config.peer_ip c) (Config.local_port c) (Config.peer_port c) (Config.isn c).

(** An argument that is not Unicode stops the program before it has done anything. *)
Lemma main_tun_unicode {W} `{Os W} `{OsView W} `{Libc} `{Utf8} args count (w : W) :
  forallb utf8 args = false → main args count w = Fault Panicked.
Proof. intros Hargs. unfold main, io_bind, lift, parse_args, env_args. by rewrite Hargs. Qed.

Lemma tun_main_runs {W} `{OsLaws W} `{!StdoutWorks W} `{Libc} `{Utf8} args count (w : W) : forallb utf8 args = true →
  typed_bytes (typed w) + 2 ≤ u64_max →
  runs (main args count) w
    (λ r w', match r with
       | Some h => ∃ machine pcap, Station.new (chosen_host args) = Ret machine ∧
           follows (chosen_host args) (log w) (typed w) machine (w', pcap) h
       | None => True end ∧
       sends (sent w) (own_packet (chosen_host args)) w')
    (sends (sent w) (own_packet (chosen_host args))).
Proof.
  intros Hargs Hmax. unfold main. apply runs_bind, runs_lift. pose proof (parse_tun_args_wp args Hargs) as Hp.
  pose proof (sends_refl (own_packet (chosen_host args)) w).
  wp_inv Hp. rewrite Heq. wp_step. destruct r as [[c|]|e]; [|apply runs_bind, runs_print; intros w' _ Hc'; apply runs_ok; split; [done|by eapply sends_calm]|by apply runs_fail]. destruct Hp as (Hc & _).
  assert (Hcfg : chosen_host args = IpHostConfig.tcp_demo (Config.local_ip c) (Config.peer_ip c) (Config.local_port c)
    (Config.peer_port c) (Config.isn c)) by (unfold chosen_host; by rewrite Heq).
  assert (∃ machine, Station.new (chosen_host args) = Ret machine) as [machine Hm].
  { unfold Station.new. rewrite Hcfg. pose proof (new_host_wp _ (tun_config_ok c Hc) ltac:(done)) as Hnew. wp_inv Hnew.
    rewrite Heq0, bind_Ret. by eexists. }
  apply scope_runs; [intros w1 w2; apply sends_calm|]. apply runs_bind.
  eapply runs_mono; [by apply (tun_start_runs (chosen_host args) (log w) (typed w) machine c)| |done]. intros h w1 [HP Hw1]. apply runs_bind.
  eapply runs_mono; [by apply tun_turns_runs| |done]. intros h' [w2 pcap] [? ?]. apply runs_ok. split; [by exists machine, pcap|done].
Qed.

(** C19: The TUN program cannot be made to panic by what it reads, and sends nothing but its own datagrams.
    If standard output works ([StdoutWorks]: [print!] panics when it fails; what goes to standard error is not
    modelled, and is taken to work too) and every argument is Unicode, then
    for any arguments, any packets, any failures of the device, the files and the clock, and
    anything the user types (less than 2^64 bytes), any number of turns of the program returns: it ends
    with the help text, with an error, or in a state where the host keeps its invariant; and every
    packet it has put on the device by then parses as an IPv4 datagram from the local address that
    carries an ICMP message or a segment of the configured connection. With an argument that is not
    Unicode it panics at once, as [env::args] does. *)
Theorem tun_host_never_panics {W} `{OsLaws W} `{!StdoutWorks W} `{Libc} `{Utf8} (args : list bytes) count (w : W) :
  typed_bytes (typed w) + 2 ≤ u64_max →
  if forallb utf8 args then
    ∃ r w', main args count w = Ret (r, w') ∧
      match r with Ok (Some h) => host_ready (chosen_host args) (typed w') h | _ => True end ∧
      ∃ packets, sent w' = sent w ++ packets ∧ Forall (own_packet (chosen_host args)) packets
  else main args count w = Fault Panicked.
Proof.
  intros Hmax. destruct (forallb utf8 args) eqn:Hargs; [|by apply main_tun_unicode].
  pose proof (tun_main_runs args count w Hargs Hmax) as Hm. unfold runs in Hm. wp_inv Hm. destruct r as [r w'].
  exists r, w'. split; [done|]. destruct r as [[h|]|e]; [|done..]. destruct Hm as [(m & pcap & _ & [? _]) ?]. done.
Qed.

(** The TUN program is a host of [ip_duplex.v]. Whatever the device, the user and the clock do, the
    state in which any number of turns leaves the program is one that a [Station] with the same configuration
    reaches by a sequence of its actions. The packets injected into it and those it has put on the wire
    are exactly the packets that the program has read from the device and written to it, in
    order, and what its application has written and closed is, in order, exactly what the program has taken of
    what the user types. *)
Theorem tun_host_is_station {W} `{OsLaws W} `{!StdoutWorks W} `{Libc} `{Utf8} (args : list bytes) count (w : W) h w' :
  typed_bytes (typed w) + 2 ≤ u64_max → main args count w = Ret (Ok (Some h), w') →
  ∃ machine os x l, Station.new (chosen_host args) = Ret machine ∧ Forall timely os ∧
    Station.conduct machine os = Ret (l, x) ∧ Station.host x = h ∧ log w' = log w ++ l ∧
    entries os ++ typed w' = typed w ∧ books (typed w) h (typed w').
Proof.
  intros Hmax Hmain. assert (Hargs : forallb utf8 args = true).
  { destruct (forallb utf8 args) eqn:Hargs; [done|]. by rewrite main_tun_unicode in Hmain. }
  pose proof (tun_main_runs args count w Hargs Hmax) as Hm. unfold runs in Hm. rewrite Hmain in Hm.
  destruct Hm as [(machine & pcap & Hnew & _ & l & ins & Hl & (os & x & Hos & Hx & Hh & <-) & Hi & Hb) _].
  by exists machine, os, x, l.
Qed.

Lemma tun_host_never_panics_witness :
  let args := [str "tun_host"; str "--local-port"; str "4000"] in
  let world := Script.mk [Err Interrupted; Ok [x45; x00]; Err WouldBlock] [Data [x68; x69]; Close] [10; 20; 5000] [] [] [] 0 in
  forallb utf8 args = true ∧
  ∃ r w', main args 3 world = Ret (r, w') ∧
    match r with Ok (Some h) => host_ready (chosen_host args) (typed w') h | _ => True end ∧
    ∃ packets, sent w' = sent world ++ packets ∧ Forall (own_packet (chosen_host args)) packets.
Proof.
  intros args world. assert (Hu : forallb utf8 args = true) by (vm_compute; reflexivity).
  assert (Hb : typed_bytes (typed world) + 2 ≤ u64_max) by (vm_compute; discriminate).
  pose proof (tun_host_never_panics args 3 world Hb) as Hn. rewrite Hu in Hn. exact (conj Hu Hn).
Defined.
