(* ===== verification/carried.v ===== *)
(** * The connection between two devices

    Each of two programs runs on its own system, which keeps a log of the packets that it has read
    and written; [carried] says that the two logs are those of one connection
    between the devices, on which packets are lost, duplicated, delayed, reordered and
    padded, and to which others add packets of their own.  [goes] is a run of a model of the two ends, with
    what their applications offer meanwhile; [tap_hosts.v] and [tun_hosts.v] turn logs into such runs.
    [arrives_whole] is what both show of two programs. *)

From S2P Require Import prelude byte_stream tcp_receiver tcp_sender tcp_connection tcp_duplex.
From S2P Require Import ip_host ip_duplex os.

#[local] Open Scope Z_scope.

(** ** Logs that fit together *)

(** The logs of two devices, from now on.  [passes bs bs'] says what can become of a packet on its way, [noise] what others may
    add; [to_here] and [to_there] are the packets that may still arrive, any number of times and in any order, or never. *)
Inductive carried (passes : bytes → bytes → Prop) (noise : bytes → Prop) :
    list bytes → list bytes → list traffic → list traffic → Prop :=
| carried_end to_here to_there :
    carried passes noise to_here to_there [] []
| carried_noise bs to_here to_there l l' :
    noise bs → carried passes noise (to_here ++ [bs]) (to_there ++ [bs]) l l' →
    carried passes noise to_here to_there l l'
| carried_sent bs bs' to_here to_there l l' :
    passes bs bs' → carried passes noise to_here (to_there ++ [bs']) l l' →
    carried passes noise to_here to_there (Sent bs :: l) l'
| carried_sent' bs bs' to_here to_there l l' :
    passes bs bs' → carried passes noise (to_here ++ [bs']) to_there l l' →
    carried passes noise to_here to_there l (Sent bs :: l')
| carried_received bs to_here to_there l l' :
    bs ∈ to_here → carried passes noise to_here to_there l l' →
    carried passes noise to_here to_there (Received bs :: l) l'
| carried_received' bs to_here to_there l l' :
    bs ∈ to_there → carried passes noise to_here to_there l l' →
    carried passes noise to_here to_there l (Received bs :: l').

(** A cable may pad a packet. *)
Definition pads (bs bs' : bytes) : Prop := ∃ padding, bs' = bs ++ padding.

(** The network may route it first, each router counting its time to live down. *)
Definition routes (bs bs' : bytes) : Prop :=
  ∃ hops p padding, Station.through hops bs = Ret (Some p) ∧ bs' = p ++ padding.

(** Two logs that fit together as they are: packets arrive as they were sent. *)
Fixpoint joins (fuel : nat) (to_here to_there : list bytes) (l l' : list traffic) : bool :=
  match fuel with
  | O => false
  | S fuel =>
      match l, l' with
      | [], [] => true
      | Sent bs :: l, _ => joins fuel to_here (to_there ++ [bs]) l l'
      | _, Sent bs :: l' => joins fuel (to_here ++ [bs]) to_there l l'
      | Received bs :: k, _ =>
          if bool_decide (bs ∈ to_here) then joins fuel to_here to_there k l'
          else match l' with
               | Received bs' :: k' => bool_decide (bs' ∈ to_there) && joins fuel to_here to_there l k'
               | _ => false
               end
      | [], Received bs' :: k' => bool_decide (bs' ∈ to_there) && joins fuel to_here to_there [] k'
      end
  end.

Lemma joins_carried passes noise fuel to_here to_there l l' : (∀ bs, passes bs bs) →
  joins fuel to_here to_there l l' = true → carried passes noise to_here to_there l l'.
Proof.
  intros Hp. revert to_here to_there l l'. induction fuel as [|fuel IH]; intros a b l l' H; [done|]. cbn [joins] in H.
  destruct l as [|[bs|bs] l], l' as [|[bs'|bs'] l'];
    repeat (case_bool_decide; cbn [andb] in H); try discriminate;
    first [by constructor|by eapply carried_sent; [apply Hp|apply IH]|by eapply carried_sent'; [apply Hp|apply IH]
          |by apply carried_received; [|apply IH]|by apply carried_received'; [|apply IH]].
Qed.


(** A network that brings, before each turn of two programs, what the other has sent until then, and nothing more. [sends] and
    [sends'] say what the programs send within so many turns when their devices have these
    reads; the result is the reads of both, and how much each has sent. *)
Fixpoint plays (sends sends' : list (result bytes io_error) → nat → list bytes) (count : nat)
    : list (result bytes io_error) * list (result bytes io_error) * nat * nat :=
  match count with
  | O => ([], [], 0%nat, 0%nat)
  | S count =>
      let '(r, r', n, n') := plays sends sends' count in
      let s := sends r count in
      let s' := sends' r' count in
      (r ++ map Ok (drop n' s') ++ [Err WouldBlock], r' ++ map Ok (drop n s) ++ [Err WouldBlock], length s, length s')
  end.

(** ** Runs *)

Section runs.
Context {N : Type} (move : N → Z → Z → N → Prop).
Implicit Types (n : N) (p q : Z).

(** Some moves lead from [n] to [n'], and the applications offer [p] and [q] bytes. *)
Inductive goes : N → Z → Z → N → Prop :=
| goes_refl n : goes n 0 0 n
| goes_cons n p q n1 p' q' n2 : move n p q n1 → goes n1 p' q' n2 → goes n (p + p') (q + q') n2.

Lemma goes_move n p q n' : move n p q n' → goes n p q n'.
Proof. intros H. rewrite <- (Z.add_0_r p), <- (Z.add_0_r q). eapply goes_cons; [exact H|apply goes_refl]. Qed.

Lemma goes_trans n p q n1 p' q' n2 : goes n p q n1 → goes n1 p' q' n2 → goes n (p + p') (q + q') n2.
Proof. induction 1 as [n|n p q n1 p1 q1 n3 Hm _ IH]; [done|]. intros H%IH. rewrite <- !Z.add_assoc. by eapply goes_cons. Qed.

End runs.

(** Runs as they look from the other end. *)
Lemma goes_flip {N} (move move' : N → Z → Z → N → Prop) (flip : N → N) n p q n' :
  (∀ n p q n', move n p q n' → move' (flip n) q p (flip n')) → goes move n p q n' → goes move' (flip n) q p (flip n').
Proof. intros Hf. induction 1; [apply goes_refl|]. by eapply goes_cons; [apply Hf|]. Qed.

(** ** What two programs deliver *)

(** One direction: the stream that [h'] has assembled is a prefix of [a], which [h] has accepted, and all of it when it has ended
    or [h] reports itself finished. *)
Definition arrives_whole (a : bytes) (h h' : IpHost.t) : Prop :=
  let stream := TcpReceiver.output (TcpConnection.receiver (IpHost.connection h')) in
  ByteStream.content stream `prefix_of` a ∧
  (ByteStream.is_closed stream = true → ByteStream.content stream = a ∧
     ByteStream.is_closed (TcpSender.outbound (TcpConnection.sender (IpHost.connection h))) = true) ∧
  (TcpConnection.is_finished (IpHost.connection h) = true →
     ByteStream.is_closed stream = true ∧ ByteStream.content stream = a).

Lemma delivers_whole x y sx sy : Duplex.delivers (Station.side x sx) (Station.side y sy) →
  arrives_whole (Station.written x) (Station.host x) (Station.host y).
Proof.
  intros ([rest Hr] & Hend & Hfin & _). cbn in Hr, Hend, Hfin. split_and!.
  - by exists rest.
  - intros Hc. destruct (Hend Hc) as [-> ?]. done.
  - intros Hf. destruct (Hfin Hf) as [? ->]. done.
Qed.
