(* ===== verification/tap_hosts.v ===== *)
(** * Two running TAP programs

    The whole development in one statement: two TAP programs whose devices are joined by a cable.
    The stream that one program's TCP assembles is what the other's user typed.  The events of the two
    programs ([tap_host_is_endpoint]) become, in the order that [carried] gives them, a run of
    the network of [internet.v]. *)

From S2P Require Import prelude wrapping_integers byte_stream btree_map tcp_message stream.
From S2P Require Import reassembler tcp_segment tcp_receiver tcp_sender tcp_link tcp_connection.
From S2P Require Import tcp_duplex ethernet_frame arp ipv4_datagram network_interface router.
From S2P Require Import ip_host ip_duplex conservation internet.
From S2P Require Import os host_cli tap_host carried.
From Stdlib Require Strings.String.
Import Strings.String.StringSyntax.

Section tap.
Import Endpoint.
Implicit Types (e : Endpoint.t) (net : Internet.t).

(** An event takes of what the application writes what the stream accepts. *)
Lemma happen_written next_hop e v l e' : happen next_hop e v = Ret (l, e') →
  ∃ k, Station.written (station e') = Station.written (station e) ++ take k (input v).
Proof.
  assert (Hemit : ∀ e w r e', emit next_hop e w r = Ret e' → Station.written (station e') = w).
  { intros e0 w [out h] e1. unfold emit, Station.send. cbn [fst]. destruct (send_via _ _ _); [|done]. rewrite bind_Ret.
    destruct (Station.serialize_all _); [|done]. rewrite !bind_Ret. by intros [= <-]. }
  destruct v as [o|bs|]; cbn [happen input].
  - destruct (act next_hop e o) as [e1|] eqn:E; [|done]. rewrite bind_Ret. intros [= <- <-]. destruct o as [|data| |ms|]; cbn [act] in E.
    + destruct (IpHost.connect _) as [r|]; [|done]. apply Hemit in E. exists 0%nat. by rewrite app_nil_r.
    + destruct (IpHost.write _ data) as [[[n out] h]|]; [|done]. apply Hemit in E. by exists (Z.to_nat n).
    + destruct (IpHost.close _) as [r|]; [|done]. apply Hemit in E. exists 0%nat. by rewrite app_nil_r.
    + destruct (IpHost.tick _ ms) as [r|]; [|done]. apply Hemit in E. exists 0%nat. by rewrite app_nil_r.
    + exists 0%nat. rewrite app_nil_r. destruct (NetworkInterface.pop_datagram _) as [[d|] n]; [|by injection E as <-].
      destruct (IpHost.receive_datagram _ d) as [r|]; [|done]. by apply Hemit in E.
  - exists 0%nat. rewrite app_nil_r. destruct (EthernetFrame.parse_bytes bs) as [[f|]|]; [|by injection H as <- <-|done].
    rewrite bind_Ret in H. destruct (NetworkInterface.recv_frame _ f); [|done]. by injection H as <- <-.
  - intros H. exists 0%nat. rewrite app_nil_r. destruct (NetworkInterface.pop_frame _) as [[f|] n]; by injection H as <- <-.
Qed.

Lemma happens_written next_hop e vs l e' : happens next_hop e vs = Ret (l, e') →
  Station.written (station e') `sublist_of` Station.written (station e) ++ inputs vs.
Proof.
  revert e l. induction vs as [|v vs IH]; intros e l H; cbn [happens] in H; [by injection H as _ <-; rewrite app_nil_r|].
  destruct (happen next_hop e v) as [[l1 e1]|] eqn:E; [|done]. rewrite bind_Ret in H.
  destruct (happens next_hop e1 vs) as [[l2 e2]|] eqn:E2; [|done]. injection H as _ <-.
  apply happen_written in E as [k E]. apply IH in E2. etransitivity; [exact E2|]. rewrite E. unfold inputs. cbn [map concat].
  rewrite app_assoc. apply sublist_app; [|done]. apply sublist_app; [done|]. apply sublist_take.
Qed.

(** ** Events of a machine as steps of the network *)

Context (ca cb : IpHostConfig.t).

Abbreviation noise := (wire_carries (λ d, Ipv4Datagram.wf d ∧ foreign ca d ∧ foreign cb d)).
Abbreviation step := (Internet.step tap_host.direct tap_host.direct).
Abbreviation run := (Internet.run tap_host.direct tap_host.direct).

(** The same network seen from the other end. *)
Definition flip_port (p : Internet.port) : Internet.port :=
  match p with Internet.PortHere => Internet.PortThere | Internet.PortThere => Internet.PortHere | p => p end.

Definition flip (o : Internet.op) : Internet.op :=
  match o with
  | Internet.Here o => Internet.There o
  | Internet.There o => Internet.Here o
  | Internet.Transmit p padding => Internet.Transmit (flip_port p) padding
  | Internet.Receive p i => Internet.Receive (flip_port p) i
  | o => o
  end.

Lemma step_flip net o net' : step net o = Ret net' → step (swap net) (flip o) = Ret (swap net').
Proof.
  destruct net as [x y rs wire]. change (swap (Internet.mk x y rs wire)) with (Internet.mk y x rs wire).
  destruct o as [o|o|p padding|p i|k|k i ms|frame]; cbn [step Internet.step flip swap Internet.here Internet.there Internet.routers Internet.wire]; intros H.
  - destruct (act _ x o); [|done]. rewrite bind_Ret in *. by injection H as <-.
  - destruct (act _ y o); [|done]. rewrite bind_Ret in *. by injection H as <-.
  - destruct p as [| |k i]; cbn in H |- *; [| |destruct (rs !! k); [|by injection H as <-]; destruct (Router.interface _ i); [|by injection H as <-]];
      destruct (NetworkInterface.pop_frame _) as [[f|] n]; by injection H as <-.
  - assert (Hp : ∀ p n, Internet.interface (Internet.mk x y rs wire) p = Some n →
      Internet.interface (Internet.mk y x rs wire) (flip_port p) = Some n) by (intros [] n; done).
    destruct (Internet.interface (Internet.mk x y rs wire) p) as [n|] eqn:En.
    + rewrite (Hp p n En). destruct (wire !! i) as [bs|]; [|by injection H as <-].
      destruct (EthernetFrame.parse_bytes bs) as [[f|]|]; [|by injection H as <-|done]. rewrite bind_Ret in *.
      destruct (NetworkInterface.recv_frame n f); [|done]. rewrite bind_Ret in *. injection H as <-. by destruct p.
    + injection H as <-. destruct p; [done..|]. cbn in En |- *. by rewrite En.
  - destruct (rs !! k) as [r|]; [|by injection H as <-]. destruct (Router.route r); [|done]. rewrite bind_Ret in *. by injection H as <-.
  - cbn in H |- *. destruct (rs !! k); [|by injection H as <-]. destruct (Router.interface _ i); by injection H as <-.
  - by injection H as <-.
Qed.

(** One step of the network. *)
Definition move net p q net' : Prop := ∃ o, op_ok ca cb o ∧ Internet.offered [o] = (p, q) ∧ step net o = Ret net'.

Abbreviation goes := (goes move).

Lemma move_flip net p q net' : move net p q net' → move (swap net) q p (swap net').
Proof.
  intros (o & Ho & Hf & Hs). exists (flip o). split; [by destruct o|]. split; [|by apply step_flip].
  destruct o; cbn in Hf |- *; by injection Hf as <- <-.
Qed.

Lemma internet_goes_run net p q net' : goes net p q net' →
  ∃ ops, Forall (op_ok ca cb) ops ∧ Internet.offered ops = (p, q) ∧ run net ops = Ret net'.
Proof.
  induction 1 as [net|net p q net1 p' q' net2 (o & Ho & Hf & Hs) _ (ops & Hok & Hf' & Hr)]; [by exists []|]. exists (o :: ops).
  split; [by constructor|]. split; [by rewrite internet_offered_cons, Hf, Hf'|]. cbn [Internet.run]. by rewrite Hs, bind_Ret.
Qed.

(** An event whose frame, if one arrives, is on the wire; a frame that leaves may be padded. *)
Lemma event_step net v l e' padding : happen tap_host.direct (Internet.here net) v = Ret (l, e') → event_ok v →
  (∀ bs, l = [Received bs] → bs ∈ Internet.wire net) →
  move net (blen (input v)) 0 (Internet.mk e' (Internet.there net) (Internet.routers net)
    (Internet.wire net ++ map (λ bs, bs ++ padding) (outgoing l))).
Proof.
  intros Hv Hok Hin. destruct net as [[x n] there rs wire]. destruct v as [o|bs|]; cbn in Hv, Hin.
  - exists (Internet.Here o). destruct (act tap_host.direct (mk x n) o) as [e|] eqn:E; [|done]. injection Hv as <- <-.
    split; [done|]. split; [cbn; rewrite Z.add_0_r; by destruct o|]. cbn. by rewrite E, bind_Ret, app_nil_r.
  - assert (bs ∈ wire) as [i Hi]%list_elem_of_lookup.
    { apply Hin. destruct (EthernetFrame.parse_bytes bs) as [[f|]|]; [|by injection Hv as <- _|done].
      rewrite bind_Ret in Hv. destruct (NetworkInterface.recv_frame n f); [|done]. by injection Hv as <- _. }
    exists (Internet.Receive Internet.PortHere i). split; [done|]. split; [done|].
    cbn [Internet.step Internet.interface Internet.here interface Internet.wire]. rewrite Hi.
    destruct (EthernetFrame.parse_bytes bs) as [[f|]|]; [| |done]; rewrite bind_Ret; rewrite bind_Ret in Hv.
    + destruct (NetworkInterface.recv_frame n f) as [n'|]; [|done]. rewrite bind_Ret. rewrite bind_Ret in Hv. injection Hv as <- <-. cbn. by rewrite app_nil_r.
    + injection Hv as <- <-. cbn. by rewrite app_nil_r.
  - exists (Internet.Transmit Internet.PortHere padding). split; [done|]. split; [done|]. cbn. destruct (NetworkInterface.pop_frame n) as [[f|] n'].
    + by injection Hv as <- <-.
    + injection Hv as <- <-. cbn. by rewrite app_nil_r.
Qed.

(** ** The events of one machine *)

Lemma happen_short next_hop e v l e' : happen next_hop e v = Ret (l, e') → l = [] ∨ ∃ x, l = [x].
Proof.
  destruct v as [o|bs|]; cbn; intros H.
  - destruct (act next_hop e o); [|done]. injection H as <- _. by left.
  - right. destruct (EthernetFrame.parse_bytes bs) as [[f|]|]; [|injection H as <- _; by eexists|done].
    rewrite bind_Ret in H. destruct (NetworkInterface.recv_frame _ f); [|done]. injection H as <- _. by eexists.
  - destruct (NetworkInterface.pop_frame _) as [[f|] n]; injection H as <- _; [right; by eexists|by left].
Qed.

(** The events up to the next traffic. *)
Lemma next_event net vs l e : happens tap_host.direct (Internet.here net) vs = Ret (l, e) → Forall event_ok vs →
  match l with
  | [] => goes net (blen (inputs vs)) 0 (Internet.mk e (Internet.there net) (Internet.routers net) (Internet.wire net))
  | x :: l' => (∀ bs, x = Received bs → bs ∈ Internet.wire net) → ∀ padding, ∃ vs' e' p,
      goes net p 0 (Internet.mk e' (Internet.there net) (Internet.routers net)
                      (Internet.wire net ++ map (λ bs, bs ++ padding) (outgoing [x]))) ∧
      happens tap_host.direct e' vs' = Ret (l', e) ∧ Forall event_ok vs' ∧ p + blen (inputs vs') = blen (inputs vs)
  end.
Proof.
  intros H Hvs. revert net H. induction Hvs as [|v vs Hv Hvs IH]; intros net H; cbn [happens] in H.
  { injection H as <- <-. cbn. destruct net. apply goes_refl. }
  destruct (happen tap_host.direct (Internet.here net) v) as [[l1 e1]|] eqn:E; [|done]. rewrite bind_Ret in H.
  destruct (happens tap_host.direct e1 vs) as [[l2 e2]|] eqn:E2; [|done]. rewrite bind_Ret in H. injection H as <- <-.
  assert (Hin : blen (inputs (v :: vs)) = blen (input v) + blen (inputs vs)) by (unfold inputs; cbn; by rewrite blen_app).
  rewrite Hin. destruct (happen_short _ _ _ _ _ E) as [-> | [x ->]]; cbn [app] in *.
  - pose proof (event_step net v [] e1 [] E Hv ltac:(done)) as Hg%goes_move. cbn [outgoing map] in Hg. rewrite app_nil_r in Hg.
    specialize (IH (Internet.mk e1 (Internet.there net) (Internet.routers net) (Internet.wire net)) E2). cbn [Internet.there Internet.routers Internet.wire] in IH.
    destruct l2 as [|x l2]; [eapply goes_trans in IH; [|exact Hg]; by rewrite Z.add_0_r in IH|].
    intros Hx padding. destruct (IH Hx padding) as (vs' & e' & p & Hg' & Hh & Hok & Hp). exists vs', e', (blen (input v) + p).
    split_and!; [|done|done|lia]. eapply goes_trans in Hg'; [|exact Hg]. by rewrite Z.add_0_r in Hg'.
  - intros Hx padding. exists vs, e1, (blen (input v)). split_and!; [|done..]. apply goes_move, event_step; [done..|].
    intros bs [= ->]. by apply Hx.
Qed.

(** The same for the other machine. *)
Lemma next_event_there net vs l e : happens tap_host.direct (Internet.there net) vs = Ret (l, e) → Forall event_ok vs →
  match l with
  | [] => goes net 0 (blen (inputs vs)) (Internet.mk (Internet.here net) e (Internet.routers net) (Internet.wire net))
  | x :: l' => (∀ bs, x = Received bs → bs ∈ Internet.wire net) → ∀ padding, ∃ vs' e' q,
      goes net 0 q (Internet.mk (Internet.here net) e' (Internet.routers net)
                      (Internet.wire net ++ map (λ bs, bs ++ padding) (outgoing [x]))) ∧
      happens tap_host.direct e' vs' = Ret (l', e) ∧ Forall event_ok vs' ∧ q + blen (inputs vs') = blen (inputs vs)
  end.
Proof.
  destruct net as [x y rs wire]. intros H Hok. pose proof (next_event (swap (Internet.mk x y rs wire)) vs l e H Hok) as Hn.
  destruct l as [|t l']; [by apply (goes_flip move move swap) in Hn; [|apply move_flip]|]. intros Hx padding. destruct (Hn Hx padding) as (vs' & e' & q & Hg & ?).
  exists vs', e', q. split; [by apply (goes_flip move move swap) in Hg; [|apply move_flip]|done].
Qed.

(** ** Both machines *)

Lemma wire_grows (a b a' b' wire : list bytes) bs : (∀ p, p ∈ a ∨ p ∈ b → p ∈ wire) →
  (a' = a ∨ a' = a ++ [bs]) → (b' = b ∨ b' = b ++ [bs]) → ∀ p, p ∈ a' ∨ p ∈ b' → p ∈ wire ++ [bs].
Proof. intros Hw [-> | ->] [-> | ->] p; rewrite !elem_of_app; intros; destruct_or!; auto. Qed.

Lemma carried_goes to_here to_there l l' : carried pads noise to_here to_there l l' →
  ∀ net vs vs' e e', (∀ bs, bs ∈ to_here ∨ bs ∈ to_there → bs ∈ Internet.wire net) →
  happens tap_host.direct (Internet.here net) vs = Ret (l, e) → Forall event_ok vs →
  happens tap_host.direct (Internet.there net) vs' = Ret (l', e') → Forall event_ok vs' →
  ∃ net', goes net (blen (inputs vs)) (blen (inputs vs')) net' ∧ Internet.here net' = e ∧ Internet.there net' = e'.
Proof.
  intros Hc. induction Hc as [a b|bs a b k k' Hbs _ IH|bs bs' a b k k' [padding ->] _ IH|bs bs' a b k k' [padding ->] _ IH
    |bs a b k k' Hin _ IH|bs a b k k' Hin _ IH]; intros net vs vs' e e' Hw H Hok H' Hok'.
  - pose proof (next_event net vs [] e H Hok) as Hg.
    pose proof (next_event_there (Internet.mk e (Internet.there net) (Internet.routers net) (Internet.wire net)) vs' [] e' H' Hok') as Hg'.
    eapply goes_trans in Hg'; [|exact Hg]. rewrite Z.add_0_r in Hg'. by eexists.
  - destruct (IH (Internet.with_wire net (Internet.wire net ++ [bs])) vs vs' e e') as (net' & Hg & He); [|done..|].
    { eapply wire_grows; [exact Hw|auto..]. }
    exists net'. split; [|done]. eapply goes_trans in Hg; [|apply goes_move; by exists (Internet.Noise bs)]. exact Hg.
  - destruct (next_event net vs _ e H Hok ltac:(done) padding) as (vs1 & e1 & p & Hg & H1 & Hok1 & Hp). cbn [outgoing map] in Hg.
    destruct (IH (Internet.mk e1 (Internet.there net) (Internet.routers net) (Internet.wire net ++ [bs ++ padding])) vs1 vs' e e') as (net' & Hg' & He); [|done..|].
    { eapply wire_grows; [exact Hw|auto..]. }
    exists net'. split; [|done]. eapply goes_trans in Hg'; [|exact Hg]. by rewrite Hp in Hg'.
  - destruct (next_event_there net vs' _ e' H' Hok' ltac:(done) padding) as (vs1 & e1 & p & Hg & H1 & Hok1 & Hp). cbn [outgoing map] in Hg.
    destruct (IH (Internet.mk (Internet.here net) e1 (Internet.routers net) (Internet.wire net ++ [bs ++ padding])) vs vs1 e e') as (net' & Hg' & He); [|done..|].
    { eapply wire_grows; [exact Hw|auto..]. }
    exists net'. split; [|done]. eapply goes_trans in Hg'; [|exact Hg]. by rewrite Hp in Hg'.
  - destruct (next_event net vs _ e H Hok ltac:(intros ? [= <-]; auto) []) as (vs1 & e1 & p & Hg & H1 & Hok1 & Hp).
    cbn [outgoing map] in Hg. rewrite app_nil_r in Hg.
    destruct (IH (Internet.mk e1 (Internet.there net) (Internet.routers net) (Internet.wire net)) vs1 vs' e e') as (net' & Hg' & He); [done..|].
    exists net'. split; [|done]. eapply goes_trans in Hg'; [|exact Hg]. by rewrite Hp in Hg'.
  - destruct (next_event_there net vs' _ e' H' Hok' ltac:(intros ? [= <-]; auto) []) as (vs1 & e1 & p & Hg & H1 & Hok1 & Hp).
    cbn [outgoing map] in Hg. rewrite app_nil_r in Hg.
    destruct (IH (Internet.mk (Internet.here net) e1 (Internet.routers net) (Internet.wire net)) vs vs1 e e') as (net' & Hg' & He); [done..|].
    exists net'. split; [|done]. eapply goes_trans in Hg'; [|exact Hg]. by rewrite Hp in Hg'.
Qed.

End tap.

(** ** Two programs on two computers joined by a cable *)

(** What a program sends within [count] turns. *)
Definition sends_within (args : list bytes) (typing : list AppEvent) (reads : list (result bytes io_error)) (count : nat) : list bytes :=
  match tap_host.main args count (Script.mk reads typing (replicate count 10) [] [] [] 0) with
  | Ret (_, w) => sent w
  | Fault _ => []
  end.

Example a_args : list bytes := [str "tap_host"].
Example b_args : list bytes :=
  [str "tap_host"; str "--local-mac"; str "02:00:00:00:00:01"; str "--local-ip"; str "169.254.144.1";
   str "--peer-ip"; str "169.254.144.2"; str "--local-port"; str "9090"; str "--peer-port"; str "50000"; str "--isn"; str "7"].

Example a_world : Script.t :=
  Script.mk (plays (sends_within a_args [Data (str "hi"); Close]) (sends_within b_args []) 8).1.1.1
    [Data (str "hi"); Close] (replicate 8 10) [] [] [] 0.
Example b_world : Script.t :=
  Script.mk (plays (sends_within a_args [Data (str "hi"); Close]) (sends_within b_args []) 8).1.1.2 [] (replicate 8 10) [] [] [] 0.

(** When every frame arrives twice, the other program prints what was typed twice; its stream has it once. *)
Example duplicates_are_printed :
  let twice r := match r with Ok bs => [Ok bs; Ok bs] | Err e => [Err e] end in
  let world := Script.mk (concat (map twice (Script.reads b_world))) [] (replicate 8 10) [] [] [] 0 in
  ∃ n h w, tap_host.main b_args 8 world = Ret (Ok (Some (n, h)), w) ∧ Script.printed w = str "hihi" ∧
    ByteStream.content (TcpReceiver.output (TcpConnection.receiver (IpHost.connection h))) = str "hi".
Proof.
  intros twice world.
  assert (Hok : match tap_host.main b_args 8 world with
    | Ret (Ok (Some (_, h)), w) => bool_decide (Script.printed w = str "hihi" ∧
        ByteStream.content (TcpReceiver.output (TcpConnection.receiver (IpHost.connection h))) = str "hi")
    | _ => false end = true) by (vm_compute; reflexivity).
  destruct (tap_host.main b_args 8 world) as [[[[[n h]|]|e] w]|f] eqn:E; [|discriminate Hok..].
  apply bool_decide_eq_true in Hok as [? ?]. exists n, h, w. by split_and!.
Qed.

(** The logs of two devices that a cable connects, on which others send ARP messages and datagrams that neither
    host takes for a segment of its connection. *)
Definition cable (ca cb : IpHostConfig.t) : list traffic → list traffic → Prop :=
  carried pads (wire_carries (λ d, Ipv4Datagram.wf d ∧ foreign ca d ∧ foreign cb d)) [] [].

(** [took args w w1 n h a]: the TCP of a program that has run from [w] to [w1] has accepted [a].  Some run of the
    program's machine has the traffic of the device, writes and closes as the user has typed, and ends with the program's
    interface and host; [a] is what its stream took of each write, by the counts that [IpHost::write] returned. *)
Definition took {W} `{OsView W} `{Utf8} (args : list bytes) (w w1 : W) (n : NetworkInterface.t) (h : IpHost.t) (a : bytes) : Prop :=
  ∃ c machine vs e l, tap_host.parse_args args = Ret (Ok (Some c)) ∧
    Endpoint.new (tap_host.host_config c) (tap_host.Config.local_mac c) = Ret machine ∧
    Forall Endpoint.event_ok vs ∧ Endpoint.happens tap_host.direct machine vs = Ret (l, e) ∧
    Endpoint.interface e = n ∧ Station.host (Endpoint.station e) = h ∧
    log w1 = log w ++ l ∧ tap_host.entries vs ++ typed w1 = typed w ∧
    Station.written (Endpoint.station e) = a.

(** What the machine of a program has accepted, when its stream was never reset. *)
Lemma written_taken vs machine l e (script left : list AppEvent) :
  Endpoint.happens tap_host.direct machine vs = Ret (l, e) → Station.written (Endpoint.station machine) = [] →
  tap_host.entries vs ++ left = script → books script (Station.host (Endpoint.station e)) left →
  ByteStream.error (TcpSender.outbound (TcpConnection.sender (IpHost.connection (Station.host (Endpoint.station e))))) = false →
  blen (Station.written (Endpoint.station e)) = pushed (Station.host (Endpoint.station e)) →
  taken_from script left (Station.host (Endpoint.station e)) (Station.written (Endpoint.station e)).
Proof.
  intros Hh Hw Hs Hb He Hp. apply happens_written in Hh. rewrite Hw in Hh. cbn in Hh. rewrite <- tap_host.entered_entries in Hh.
  by apply (taken_from_books (tap_host.entries vs)).
Qed.

(** C3: Two running TAP programs deliver in both directions. Run the TAP program twice, on two systems of any
    behaviour whose standard output works, with mirrored addresses and ports, for any number of turns each (main returns, so the arguments are
    Unicode), let fewer than 2^31 - 2 bytes be typed at each, and let the
    logs of the two devices be those of a cable that loses, duplicates, delays, reorders and pads frames and
    on which others send (any ARP messages, any datagrams that are no valid segment of the
    connection). Each program's TCP has accepted a definite part of the typing (as many bytes as its stream counts, in order): it is
    what some run of the program's code with the same traffic, the same typing and the same end accepted, and whichever
    such runs are taken, the stream that each program's TCP has assembled is a prefix of what its peer's
    TCP has accepted, and all of it once the stream has ended, which it does only when the peer's is closed; a program reports itself finished only when
    everything is there. When what is typed at a program fits its send buffer of 64 KiB, with nothing after the end of
    input, its TCP has accepted all that the program has taken of it, so its peer assembles a prefix of
    what was typed. *)
Theorem tap_hosts_deliver {W W'} `{OsLaws W} `{!StdoutWorks W} `{OsLaws W'} `{!StdoutWorks W'} `{Libc} `{Utf8}
    args args' c c' count count' (w w1 : W) (w' w1' : W') n n' h h' :
  tap_host.parse_args args = Ret (Ok (Some c)) → tap_host.parse_args args' = Ret (Ok (Some c')) →
  let ca := tap_host.host_config c in let cb := tap_host.host_config c' in
  IpDuplex.mirrored ca cb →
  tap_host.main args count w = Ret (Ok (Some (n, h)), w1) → tap_host.main args' count' w' = Ret (Ok (Some (n', h')), w1') →
  log w = [] → log w' = [] →
  cable ca cb (log w1) (log w1') →
  typed_bytes (typed w) < 2 ^ 31 - 2 → typed_bytes (typed w') < 2 ^ 31 - 2 →
  (∃ a, took args w w1 n h a) ∧ (∃ b, took args' w' w1' n' h' b) ∧
  ∀ a b, took args w w1 n h a → took args' w' w1' n' h' b →
    arrives_whole a h h' ∧ arrives_whole b h' h ∧
    taken_from (typed w) (typed w1) h a ∧ taken_from (typed w') (typed w1') h' b.
Proof.
  intros Hc Hc' ca cb Hm Hmain Hmain' Hl Hl' Hcar Hb Hb'.
  assert (Hb1 : typed_bytes (typed w) + 2 ≤ u64_max) by lia. assert (Hb1' : typed_bytes (typed w') + 2 ≤ u64_max) by lia.
  destruct (tap_host.tap_host_is_endpoint args count w n h w1 Hb1 Hmain) as (c0 & m0 & vs0 & e0 & l0 & (Hc0 & Hok & Hne) & Hnew0 & Hvs0 & He0 & Hn0 & Hh0 & Hlog0 & Hin0 & Hbk).
  destruct (tap_host.tap_host_is_endpoint args' count' w' n' h' w1' Hb1' Hmain') as (c1 & m1 & vs1 & e1 & l1 & (Hc1 & Hok' & _) & Hnew1 & Hvs1 & He1 & Hn1 & Hh1 & Hlog1 & Hin1 & Hbk').
  assert (Hcc : c0 = c) by congruence. assert (Hcc' : c1 = c') by congruence. subst c0 c1.
  split; [by eexists _, c, m0, vs0, e0, l0; split_and!|]. split; [by eexists _, c', m1, vs1, e1, l1; split_and!|].
  clear Hc0 Hnew0 Hvs0 He0 Hn0 Hh0 Hlog0 Hin0 m0 vs0 e0 l0 Hc1 Hnew1 Hvs1 He1 Hn1 Hh1 Hlog1 Hin1 m1 vs1 e1 l1.
  intros a b (c0 & m & vs & e & l & Hc0 & Hnew & Hvs & He & _ & <- & Hlog & Hin & <-)
    (c1 & m' & vs' & e' & l' & Hc1 & Hnew' & Hvs' & He' & _ & <- & Hlog' & Hin' & <-).
  rewrite Hc in Hc0. injection Hc0 as <-. rewrite Hc' in Hc1. injection Hc1 as <-. rewrite Hl in Hlog. rewrite Hl' in Hlog'. cbn in Hlog, Hlog'.
  unfold cable in Hcar. rewrite Hlog, Hlog' in Hcar. fold ca in Hnew. fold cb in Hnew'.
  assert (Hca : IpDuplex.config_ok ca) by (split; [by apply tap_host.demo_config_ok|vm_compute; discriminate]).
  assert (Hcb : IpDuplex.config_ok cb) by (split; [by apply tap_host.demo_config_ok|vm_compute; discriminate]).
  assert (Hip : IpHostConfig.local_ip ca ≠ IpHostConfig.local_ip cb) by (destruct Hm as (_ & <- & _); exact Hne).
  pose proof (internet_new_wp ca cb (tap_host.Config.local_mac c) (tap_host.Config.local_mac c') [] Hca Hcb Hm ltac:(by constructor)) as Hn.
  unfold Internet.new in Hn. rewrite Hnew, bind_Ret, Hnew', bind_Ret in Hn. destruct Hn as (Hnet & Hw1 & Hw2). cbn in Hw1, Hw2.
  destruct (carried_goes ca cb [] [] l l' Hcar (Internet.mk m m' [] []) vs vs' e e') as (net & (ops & Hops & Hoff & Hrun)%internet_goes_run & Hnh & Hnt);
    [by intros ? [?%elem_of_nil|?%elem_of_nil]|done..|].
  pose proof (internet_run_wp ca cb tap_host.direct tap_host.direct _ ops Hip Hm Hnet Hops) as Hr.
  cbn [Internet.here Internet.there] in Hr. rewrite Hoff, Hw1, Hw2, blen_nil in Hr. cbn [fst snd] in Hr. rewrite Hrun in Hr.
  assert (Hi : blen (Endpoint.inputs vs) ≤ typed_bytes (typed w)).
  { rewrite <- tap_host.entered_entries, entered_bytes, <- Hin, typed_bytes_app. pose proof (typed_bytes_nonneg (typed w1)). lia. }
  assert (Hi' : blen (Endpoint.inputs vs') ≤ typed_bytes (typed w')).
  { rewrite <- tap_host.entered_entries, entered_bytes, <- Hin', typed_bytes_app. pose proof (typed_bytes_nonneg (typed w1')). lia. }
  specialize (Hr ltac:(lia) ltac:(lia)). destruct Hr as [(sx & sy & Hme) _ _ _ _ _ _]. rewrite Hnh, Hnt in Hme.
  pose proof (me_joined _ _ _ _ Hme) as Hj. pose proof (joined_sym _ _ Hj) as Hj'.
  split_and!.
  - by eapply delivers_whole, joined_delivers.
  - by eapply delivers_whole, joined_delivers.
  - apply (written_taken vs m l e); [done..|by eapply joined_no_error in Hj|by eapply eq_sym, meet_pushed].
  - apply (written_taken vs' m' l' e'); [done..|by eapply joined_no_error in Hj'|by eapply eq_sym, meet_pushed, meet_sym].
Qed.

Lemma tap_hosts_deliver_witness :
  ∃ c c' n n' h h' w w', tap_host.main a_args 8 a_world = Ret (Ok (Some (n, h)), w) ∧
  tap_host.main b_args 8 b_world = Ret (Ok (Some (n', h')), w') ∧
  tap_host.parse_args a_args = Ret (Ok (Some c)) ∧ tap_host.parse_args b_args = Ret (Ok (Some c')) ∧
  (∃ a, took a_args a_world w n h a) ∧ (∃ b, took b_args b_world w' n' h' b) ∧
  ∀ a b, took a_args a_world w n h a → took b_args b_world w' n' h' b →
    arrives_whole a h h' ∧ arrives_whole b h' h ∧
    taken_from (typed a_world) (typed w) h a ∧ taken_from (typed b_world) (typed w') h' b.
Proof.
  assert (Hok : match tap_host.main a_args 8 a_world, tap_host.main b_args 8 b_world with
    | Ret (Ok (Some (_, h)), w), Ret (Ok (Some (_, h')), w') =>
        joins 100 [] [] (log w) (log w') && bool_decide (Script.printed w' = str "hi")
    | _, _ => false end = true) by (vm_compute; reflexivity).
  destruct (tap_host.main a_args 8 a_world) as [[[[[n h]|]|e] w]|f] eqn:E; [|discriminate Hok..].
  destruct (tap_host.main b_args 8 b_world) as [[[[[n' h']|]|e] w']|f] eqn:E'; [|discriminate Hok..].
  apply andb_true_iff in Hok as [Hj _].
  destruct (tap_host.parse_args a_args) as [[[c|]|e]|f] eqn:Ec; [|vm_compute in Ec; discriminate Ec..].
  destruct (tap_host.parse_args b_args) as [[[c'|]|e]|f] eqn:Ec'; [|vm_compute in Ec'; discriminate Ec'..].
  assert (Hm : IpDuplex.mirrored (tap_host.host_config c) (tap_host.host_config c')).
  { vm_compute in Ec, Ec'. injection Ec as <-. injection Ec' as <-. by split_and!. }
  exists c, c', n, n', h, h', w, w'. split; [reflexivity|]. split; [reflexivity|]. split; [reflexivity|]. split; [reflexivity|].
  apply (tap_hosts_deliver a_args b_args c c' 8 8 a_world w b_world w' n n' h h' Ec Ec' Hm E E'); [by vm_compute..| |by vm_compute|by vm_compute].
  eapply joins_carried; [|exact Hj]. intros bs. exists []. by rewrite app_nil_r.
Defined.
