(* ===== verification/tun_hosts.v ===== *)
(** * Two running TUN programs

    Two TUN programs whose devices are joined by a network that carries IPv4 packets.  The
    stream that one program's TCP assembles is what the other's user typed.  The actions of the two programs
    ([tun_host_is_station]) become, in the order that [carried] gives them, a run of the two
    hosts of [ip_duplex.v]. *)

From S2P Require Import prelude wrapping_integers byte_stream btree_map tcp_message stream.
From S2P Require Import reassembler tcp_segment tcp_receiver tcp_sender tcp_link tcp_connection.
From S2P Require Import tcp_duplex ipv4_datagram router ip_host ip_duplex.
From S2P Require Import os host_cli tun_host carried.
From Stdlib Require Strings.String.
Import Strings.String.StringSyntax.

#[local] Open Scope Z_scope.

Section tun.
Import Station.
Implicit Types (x y : Station.t) (d : IpDuplex.t).

(** ** One host *)

(** An action takes of what the application writes what the stream accepts, and adds packets. *)
Lemma act_written x net o x' : act x net o = Ret x' →
  (∃ k, written x' = written x ++ take k (input o)) ∧ ∃ ps, packets x' = packets x ++ ps.
Proof.
  assert (Hsend : ∀ w r x', send x w r = Ret x' → written x' = w ∧ ∃ ps, packets x' = packets x ++ ps).
  { intros w [out h] x1. unfold send. destruct (serialize_all _) as [ps|]; [|done]. rewrite bind_Ret. intros [= <-]. split; [done|by exists ps]. }
  assert (Hsame : ∀ r, send x (written x) r = Ret x' → (∃ k, written x' = written x ++ take k (@nil byte)) ∧ ∃ ps, packets x' = packets x ++ ps).
  { intros r [-> ?]%Hsend. split; [|done]. exists 0%nat. by rewrite app_nil_r. }
  destruct o as [|data| |ms|i hops padding|packet]; cbn [act input].
  - destruct (IpHost.connect _); [|done]. apply Hsame.
  - destruct (IpHost.write _ data) as [[[n out] h]|]; [|done]. rewrite bind_Ret. intros [-> ?]%Hsend. split; [by exists (Z.to_nat n)|done].
  - destruct (IpHost.close _); [|done]. apply Hsame.
  - destruct (IpHost.tick _ ms); [|done]. apply Hsame.
  - destruct (match net !! i with Some p => through hops p | None => mret None end) as [[p|]|]; [| |done]; rewrite bind_Ret.
    + destruct (IpHost.receive_ipv4_bytes _ _); [|done]. apply Hsame.
    + intros [= <-]. split; [exists 0%nat|exists []]; by rewrite app_nil_r.
  - destruct (IpHost.receive_ipv4_bytes _ packet); [|done]. apply Hsame.
Qed.

Lemma conduct_written x os l x' : conduct x os = Ret (l, x') → written x' `sublist_of` written x ++ inputs os.
Proof.
  revert x l. induction os as [|o os IH]; intros x l H; cbn [conduct] in H; [by injection H as _ <-; rewrite app_nil_r|].
  destruct (act x [] o) as [x1|] eqn:E; [|done]. rewrite bind_Ret in H.
  destruct (conduct x1 os) as [[l2 x2]|] eqn:E2; [|done]. injection H as _ <-.
  apply act_written in E as [[k E] _]. apply IH in E2. etransitivity; [exact E2|]. rewrite E. unfold inputs. cbn [map concat].
  rewrite app_assoc. apply sublist_app; [|done]. apply sublist_app; [done|]. apply sublist_take.
Qed.

(** ** Actions of a host as steps of the two *)

Context (ca cb : IpHostConfig.t).

Definition move d p q d' : Prop := ∃ o, IpDuplex.op_ok ca cb o ∧ IpDuplex.offered [o] = (p, q) ∧ IpDuplex.step d o = Ret d'.

Abbreviation goes := (goes move).

Lemma hosts_goes_run d p q d' : goes d p q d' →
  ∃ ops, Forall (IpDuplex.op_ok ca cb) ops ∧ IpDuplex.offered ops = (p, q) ∧ IpDuplex.run d ops = Ret d'.
Proof.
  induction 1 as [d|d p q d1 p' q' d2 (o & Ho & Hf & Hs) _ (ops & Hok & Hf' & Hr)]; [by exists []|]. exists (o :: ops).
  split; [by constructor|]. split; [|cbn [IpDuplex.run]; by rewrite Hs, bind_Ret].
  cbn [IpDuplex.offered] in *. rewrite Hf'. destruct o; injection Hf as <- <-; f_equal; lia.
Qed.

(** What others send is no segment of the connection. *)
Context (noise : bytes → Prop) (Hnoise : ∀ bs, noise bs → inert ca bs).

(** What may arrive when [ps] has been sent. *)
Definition arrives (ps : list bytes) (bs : bytes) : Prop := noise bs ∨ ∃ p, p ∈ ps ∧ routes p bs.

Lemma arrives_app ps ps' bs : arrives ps bs → arrives (ps ++ ps') bs.
Proof. intros [?|(p & ? & ?)]; [by left|]. right. exists p. rewrite elem_of_app. auto. Qed.

Lemma action_move x y o x' : timely o → act x [] o = Ret x' → (∀ bs, heard o = [Received bs] → arrives (packets y) bs) →
  move (IpDuplex.mk x y) (blen (input o)) 0 (IpDuplex.mk x' y).
Proof.
  intros Ho Hx Hin.
  assert (Hgo : ∀ o', action_ok ca o' → offered o' = blen (input o) → act x (packets y) o' = Ret x' →
    move (IpDuplex.mk x y) (blen (input o)) 0 (IpDuplex.mk x' y)).
  { intros o' Ho' Hf Hx'. exists (IpDuplex.Here o'). split; [done|]. split; [cbn; by rewrite Z.add_0_r, Hf|].
    cbn [IpDuplex.step IpDuplex.here IpDuplex.there]. by rewrite Hx', bind_Ret. }
  destruct o as [|data| |ms|i hops padding|packet]; [exact (Hgo Connect I eq_refl Hx)|exact (Hgo (Write data) I eq_refl Hx)
    |exact (Hgo Close I eq_refl Hx)|exact (Hgo (Tick ms) Ho eq_refl Hx)|done|].
  destruct (Hin packet eq_refl) as [Hn%Hnoise|(p & [i Hi]%list_elem_of_lookup & hops & p' & padding & Hp & ->)]; [exact (Hgo (Inject packet) Hn eq_refl Hx)|].
  apply (Hgo (Deliver i hops padding)); [done..|]. cbn [act]. by rewrite Hi, Hp, bind_Ret.
Qed.

(** What a host has still to do: the packets it has sent that are not in the log yet, then
    actions, on which the application offers [n] bytes. *)
Definition owes x (l : list traffic) x' (n : Z) : Prop :=
  ∃ ps os l', (∀ p, p ∈ ps → p ∈ packets x) ∧ l = map Sent ps ++ l' ∧ conduct x os = Ret (l', x') ∧
    Forall timely os ∧ blen (inputs os) = n.

Lemma inputs_cons o os : blen (inputs (o :: os)) = blen (input o) + blen (inputs os).
Proof. unfold inputs. cbn [map concat]. apply blen_app. Qed.

Lemma owes_end x y x' n : owes x [] x' n → goes (IpDuplex.mk x y) n 0 (IpDuplex.mk x' y).
Proof.
  intros (ps & os & l' & _ & [_ Hl]%eq_sym%app_nil & Hx & Hos & <-). subst l'. revert x Hx.
  induction Hos as [|o os Ho _ IH]; intros x Hx; cbn [conduct] in Hx; [injection Hx as <-; apply goes_refl|].
  destruct (act x [] o) as [x1|] eqn:E; [|done]. rewrite bind_Ret in Hx. destruct (conduct x1 os) as [[l1 x2]|] eqn:E1; [|done].
  rewrite bind_Ret in Hx. injection Hx as Hl <-. apply app_nil in Hl as [Hh Hl]. apply app_nil in Hl as [_ ->].
  rewrite inputs_cons. apply (goes_cons move _ _ 0 (IpDuplex.mk x1 y) _ 0); [|by apply IH]. apply action_move; [done..|].
  intros bs. by rewrite Hh.
Qed.

(** The actions up to the next packet that comes or goes. *)
Lemma owes_next x y t l x' n : owes x (t :: l) x' n → (∀ bs, t = Received bs → arrives (packets y) bs) →
  ∃ x1 p ps, goes (IpDuplex.mk x y) p 0 (IpDuplex.mk x1 y) ∧ owes x1 l x' (n - p) ∧
    packets x1 = packets x ++ ps ∧ ∀ bs, t = Sent bs → bs ∈ packets x1.
Proof.
  intros (ps & os & l' & Hps & Hl & Hx & Hos & Hn) Hin. destruct ps as [|p ps]; cbn in Hl.
  2: { injection Hl as -> ->. exists x, 0, []. split; [apply goes_refl|]. rewrite app_nil_r. split_and!; [|done|].
    - exists ps, os, l'. split_and!; [|done..|lia]. intros q Hq. apply Hps. by right.
    - intros bs [= <-]. apply Hps. by left. }
  subst l'. clear Hps. revert x n Hx Hn. induction Hos as [|o os Ho Hos IH]; intros x n Hx Hn; cbn [conduct] in Hx; [done|].
  destruct (act x [] o) as [x1|] eqn:E; [|done]. rewrite bind_Ret in Hx. destruct (conduct x1 os) as [[l1 x2]|] eqn:E1; [|done].
  rewrite bind_Ret in Hx. injection Hx as Hl <-. rewrite inputs_cons in Hn.
  destruct (act_written _ _ _ _ E) as [_ [new Hnew]]. rewrite Hnew, drop_app_length in Hl.
  assert (Hmove : (∀ bs, heard o = [Received bs] → arrives (packets y) bs) →
    goes (IpDuplex.mk x y) (blen (input o)) 0 (IpDuplex.mk x1 y)) by (intros; by apply goes_move, action_move).
  assert (Hdone : ∀ sent, (∀ p, p ∈ sent → p ∈ packets x1) → l = map Sent sent ++ l1 → owes x1 l x2 (n - blen (input o))).
  { intros sent Hsent ->. exists sent, os, l1. split_and!; [done..|lia]. }
  destruct (heard o) as [|h hs] eqn:Hh; [destruct new as [|p new]|].
  - cbn in Hl. subst l1. destruct (IH x1 (n - blen (input o)) E1 ltac:(lia)) as (x3 & p & ps & Hg & Ho3 & Hp3 & Hs3).
    exists x3, (blen (input o) + p), ps. split_and!; [|by rewrite Z.sub_add_distr|by rewrite Hp3, Hnew, app_nil_r|done].
    exact (goes_trans move _ _ 0 _ _ 0 _ (Hmove ltac:(done)) Hg).
  - cbn in Hl. injection Hl as <- <-. exists x1, (blen (input o)), (p :: new). split_and!; [by apply Hmove| |done|].
    + apply (Hdone new); [|done]. intros q Hq. rewrite Hnew, elem_of_app. right. by right.
    + intros bs [= <-]. rewrite Hnew, elem_of_app. right. by left.
  - assert (h = t ∧ hs = [] ∧ ∃ bs, t = Received bs) as (-> & -> & bs & ->).
    { destruct o; try done. cbn in Hh. injection Hh as <- <-. injection Hl as <- _. split_and!; [done..|by eexists]. }
    cbn in Hl. injection Hl as <-. exists x1, (blen (input o)), new. split_and!; [|apply (Hdone new); [|done]|done|done].
    + apply Hmove. intros bs' [= <-]. by apply Hin.
    + intros q Hq. rewrite Hnew, elem_of_app. by right.
Qed.

(** ** Both hosts *)

End tun.

(** The two hosts seen from the other end. *)
Definition turned (d : IpDuplex.t) : IpDuplex.t := IpDuplex.mk (IpDuplex.there d) (IpDuplex.here d).

Section both.
Import Station.
Implicit Types (x y : Station.t) (d : IpDuplex.t).
Context (ca cb : IpHostConfig.t) (noise : bytes → Prop) (Hnoise : ∀ bs, noise bs → inert ca bs ∧ inert cb bs).

Abbreviation goes := (goes (move ca cb)).
Abbreviation arrives := (arrives noise).

Lemma move_turned d p q d' : move cb ca d p q d' → move ca cb (turned d) q p (turned d').
Proof.
  intros (o & Ho & Hf & Hs). exists match o with IpDuplex.Here o => IpDuplex.There o | IpDuplex.There o => IpDuplex.Here o end.
  destruct d as [x y], o as [o|o]; cbn in Ho, Hf, Hs |- *; (split; [done|]); injection Hf as <- <-; (split; [done|]);
    (destruct (act _ _ o); [|done]; rewrite bind_Ret in *; by injection Hs as <-).
Qed.

(** The same for the other host. *)
Lemma owes_end_there x y y' n : owes y [] y' n → goes (IpDuplex.mk x y) 0 n (IpDuplex.mk x y').
Proof.
  intros H. apply (owes_end cb ca noise (λ bs H, proj2 (Hnoise bs H)) y x y' n) in H.
  exact (goes_flip (move cb ca) (move ca cb) turned _ _ _ _ move_turned H).
Qed.

Lemma owes_next_there x y t l y' n : owes y (t :: l) y' n → (∀ bs, t = Received bs → arrives (packets x) bs) →
  ∃ y1 q ps, goes (IpDuplex.mk x y) 0 q (IpDuplex.mk x y1) ∧ owes y1 l y' (n - q) ∧
    packets y1 = packets y ++ ps ∧ ∀ bs, t = Sent bs → bs ∈ packets y1.
Proof.
  intros H Hin. destruct (owes_next cb ca noise (λ bs H, proj2 (Hnoise bs H)) y x t l y' n H Hin) as (y1 & q & ps & Hg & ?).
  exists y1, q, ps. split; [|done]. exact (goes_flip (move cb ca) (move ca cb) turned _ _ _ _ move_turned Hg).
Qed.

Lemma carried_conducts to_here to_there l l' : carried routes noise to_here to_there l l' →
  ∀ d n n' x' y', (∀ bs, bs ∈ to_here → arrives (packets (IpDuplex.there d)) bs) →
  (∀ bs, bs ∈ to_there → arrives (packets (IpDuplex.here d)) bs) →
  owes (IpDuplex.here d) l x' n → owes (IpDuplex.there d) l' y' n' → goes d n n' (IpDuplex.mk x' y').
Proof.
  assert (Hsplit : ∀ d p n n' d1 d', goes d p 0 d1 → goes d1 (n - p) n' d' → goes d n n' d').
  { intros d p n n' d1 d' H1 H2. replace n with (p + (n - p)) by lia. exact (goes_trans _ _ _ 0 _ _ _ _ H1 H2). }
  assert (Hsplit' : ∀ d p n n' d1 d', goes d 0 p d1 → goes d1 n (n' - p) d' → goes d n n' d').
  { intros d p n n' d1 d' H1 H2. replace n' with (p + (n' - p)) by lia. exact (goes_trans _ _ 0 _ _ _ _ _ H1 H2). }
  assert (Hadd : ∀ (a : list bytes) ps ps' bs, (∀ bs, bs ∈ a → arrives ps bs) → arrives (ps ++ ps') bs →
    ∀ bs', bs' ∈ a ++ [bs] → arrives (ps ++ ps') bs').
  { intros a ps ps' bs Ha Hbs bs' [?| ->%list_elem_of_singleton]%elem_of_app; [|done]. by apply arrives_app, Ha. }
  intros Hc. induction Hc as [a b|bs a b k k' Hbs _ IH|bs bs' a b k k' Hr _ IH|bs bs' a b k k' Hr _ IH
    |bs a b k k' Hin _ IH|bs a b k k' Hin _ IH]; intros [x y] n n' x' y' Ha Hb Hx Hy; cbn [IpDuplex.here IpDuplex.there] in *.
  - apply (owes_end ca cb noise (λ bs H, proj1 (Hnoise bs H)) x y) in Hx. eapply Hsplit; [exact Hx|].
    rewrite Z.sub_diag. by apply owes_end_there.
  - apply IH; [|  |done..]; cbn [IpDuplex.here IpDuplex.there]; [rewrite <- (app_nil_r (packets y))|rewrite <- (app_nil_r (packets x))];
      (eapply Hadd; [done|by left]).
  - destruct (owes_next ca cb noise (λ bs H, proj1 (Hnoise bs H)) x y _ _ _ _ Hx ltac:(done)) as (x1 & p & ps & Hg & Hx1 & Hps & Hs).
    eapply Hsplit; [exact Hg|]. apply IH; cbn [IpDuplex.here IpDuplex.there]; [done| |done..].
    rewrite Hps in Hs |- *. eapply Hadd; [done|]. right. exists bs. split; [by apply Hs|done].
  - destruct (owes_next_there x y _ _ _ _ Hy ltac:(done)) as (y1 & p & ps & Hg & Hy1 & Hps & Hs).
    eapply Hsplit'; [exact Hg|]. apply IH; cbn [IpDuplex.here IpDuplex.there]; [|done..].
    rewrite Hps in Hs |- *. eapply Hadd; [done|]. right. exists bs. split; [by apply Hs|done].
  - destruct (owes_next ca cb noise (λ bs H, proj1 (Hnoise bs H)) x y _ _ _ _ Hx) as (x1 & p & ps & Hg & Hx1 & Hps & _).
    { intros ? [= <-]. by apply Ha. }
    eapply Hsplit; [exact Hg|]. apply IH; cbn [IpDuplex.here IpDuplex.there]; [done| |done..].
    intros z Hz. rewrite Hps. by apply arrives_app, Hb.
  - destruct (owes_next_there x y _ _ _ _ Hy) as (y1 & p & ps & Hg & Hy1 & Hps & _).
    { intros ? [= <-]. by apply Hb. }
    eapply Hsplit'; [exact Hg|]. apply IH; cbn [IpDuplex.here IpDuplex.there]; [|done..].
    intros z Hz. rewrite Hps. by apply arrives_app, Ha.
Qed.

End both.

Lemma main_parsed {W} `{OsLaws W} `{!StdoutWorks W} `{Libc} `{Utf8} args count (w : W) h w' : main args count w = Ret (Ok (Some h), w') →
  IpDuplex.config_ok (chosen_host args).
Proof.
  intros Hm. assert (Hargs : forallb utf8 args = true).
  { destruct (forallb utf8 args) eqn:Hargs; [done|]. by rewrite main_tun_unicode in Hm. }
  unfold main, chosen_host in *. pose proof (parse_tun_args_wp args Hargs) as Hp. wp_inv Hp. rewrite Heq in Hm |- *.
  destruct r as [[c|]|e]; [destruct Hp as [Hc _]; split; [by apply tun_config_ok|vm_compute; discriminate]| |done].
  assert (Hr : runs (_ ⇐ print_help; @ok W (option IpHost.t) None) w (λ r _, r = None) (λ _, True))
    by (apply runs_bind, runs_print; intros; by apply runs_ok).
  unfold runs in Hr. change ((_ ⇐ print_help; ok None) w = Ret (Ok (Some h), w')) in Hm. by rewrite Hm in Hr.
Qed.

(** ** Two programs on two computers *)

(** What a program sends within [count] turns. *)
Definition sends_in (args : list bytes) (typing : list AppEvent) (reads : list (result bytes io_error)) (count : nat) : list bytes :=
  match main args count (Script.mk reads typing (replicate count 10) [] [] [] 0) with
  | Ret (_, w) => sent w
  | Fault _ => []
  end.

Example here_args : list bytes := [str "tun_host"].
Example there_args : list bytes :=
  [str "tun_host"; str "--local-ip"; str "169.254.144.1"; str "--peer-ip"; str "169.254.144.2"; str "--local-port"; str "9090";
   str "--peer-port"; str "50000"; str "--isn"; str "7"].

Example here_world : Script.t :=
  Script.mk (plays (sends_in here_args [Data (str "hi"); Close]) (sends_in there_args []) 8).1.1.1
    [Data (str "hi"); Close] (replicate 8 10) [] [] [] 0.
Example there_world : Script.t :=
  Script.mk (plays (sends_in here_args [Data (str "hi"); Close]) (sends_in there_args []) 8).1.1.2 [] (replicate 8 10) [] [] [] 0.

(** The logs of two devices that a network connects, on which others send nothing that either host takes for a segment of its
    connection. *)
Definition network (ca cb : IpHostConfig.t) : list traffic → list traffic → Prop :=
  carried routes (λ bs, Station.inert ca bs ∧ Station.inert cb bs) [] [].

(** [took args w w1 h a]: the TCP of a program that has run from [w] to [w1] has accepted [a].  Some run of the
    program's host has the traffic of the device, writes and closes as the user has typed, and ends as the program's
    host; [a] is what its stream took of each write, by the counts that [IpHost::write] returned. *)
Definition took {W} `{OsView W} `{Utf8} (args : list bytes) (w w1 : W) (h : IpHost.t) (a : bytes) : Prop :=
  ∃ machine os x l, Station.new (chosen_host args) = Ret machine ∧ Forall timely os ∧
    Station.conduct machine os = Ret (l, x) ∧ Station.host x = h ∧
    log w1 = log w ++ l ∧ entries os ++ typed w1 = typed w ∧ Station.written x = a.

(** What the host of a program has accepted, when its stream was never reset. *)
Lemma conducted_taken os machine l x (script left : list AppEvent) :
  Station.conduct machine os = Ret (l, x) → Station.written machine = [] →
  entries os ++ left = script → books script (Station.host x) left →
  ByteStream.error (TcpSender.outbound (TcpConnection.sender (IpHost.connection (Station.host x)))) = false →
  blen (Station.written x) = pushed (Station.host x) →
  taken_from script left (Station.host x) (Station.written x).
Proof.
  intros Hh Hw Hs Hb He Hp. apply conduct_written in Hh. rewrite Hw in Hh. cbn in Hh. rewrite <- entered_tun_entries in Hh.
  by apply (taken_from_books (entries os)).
Qed.

(** C4: Two running TUN programs deliver in both directions. Run the TUN program twice, on two systems of any
    behaviour whose standard output works, with mirrored addresses and ports, for any number of turns each (main returns, so the arguments are
    Unicode), let fewer than 2^31 - 2 bytes be typed at each, and let the
    logs of the two devices be those of a network that loses, duplicates, delays, reorders, routes (counting the
    time to live down) and pads packets and on which others send anything that is no valid segment of the
    connection. Each program's TCP has accepted a definite part of the typing (as many bytes as its stream counts, in order): it is
    what some run of the program's code with the same traffic, the same typing and the same end accepted, and whichever
    such runs are taken, the stream that each program's TCP has assembled is a prefix of what its peer's
    TCP has accepted, and all of it once the stream has ended, which it does only when the peer's is closed; a program reports itself finished only when
    everything is there. When what is typed at a program fits its send buffer of 64 KiB, with nothing after the end of
    input, its TCP has accepted all that the program has taken of it, so its peer assembles a prefix of
    what was typed. *)
Theorem tun_hosts_deliver {W W'} `{OsLaws W} `{!StdoutWorks W} `{OsLaws W'} `{!StdoutWorks W'} `{Libc} `{Utf8}
    args args' count count' (w w1 : W) (w' w1' : W') h h' :
  let ca := chosen_host args in let cb := chosen_host args' in
  IpDuplex.mirrored ca cb →
  main args count w = Ret (Ok (Some h), w1) → main args' count' w' = Ret (Ok (Some h'), w1') →
  log w = [] → log w' = [] →
  network ca cb (log w1) (log w1') →
  typed_bytes (typed w) < 2 ^ 31 - 2 → typed_bytes (typed w') < 2 ^ 31 - 2 →
  (∃ a, took args w w1 h a) ∧ (∃ b, took args' w' w1' h' b) ∧
  ∀ a b, took args w w1 h a → took args' w' w1' h' b →
    arrives_whole a h h' ∧ arrives_whole b h' h ∧
    taken_from (typed w) (typed w1) h a ∧ taken_from (typed w') (typed w1') h' b.
Proof.
  intros ca cb Hm Hmain Hmain' Hl Hl' Hcar Hb Hb'.
  assert (Hb1 : typed_bytes (typed w) + 2 ≤ u64_max) by lia. assert (Hb1' : typed_bytes (typed w') + 2 ≤ u64_max) by lia.
  destruct (tun_host_is_station args count w h w1 Hb1 Hmain) as (m0 & os0 & x0 & l0 & Hnew0 & Hos0 & Hx0 & Hh0 & Hlog0 & Hin0 & Hbk).
  destruct (tun_host_is_station args' count' w' h' w1' Hb1' Hmain') as (m1 & os1 & x1 & l1 & Hnew1 & Hos1 & Hx1 & Hh1 & Hlog1 & Hin1 & Hbk').
  split; [by eexists _, m0, os0, x0, l0; split_and!|]. split; [by eexists _, m1, os1, x1, l1; split_and!|].
  clear Hnew0 Hos0 Hx0 Hh0 Hlog0 Hin0 m0 os0 x0 l0 Hnew1 Hos1 Hx1 Hh1 Hlog1 Hin1 m1 os1 x1 l1.
  intros a b (m & os & x & l & Hnew & Hos & Hx & <- & Hlog & Hin & <-) (m' & os' & y & l' & Hnew' & Hos' & Hy & <- & Hlog' & Hin' & <-).
  apply main_parsed in Hmain as Hca. apply main_parsed in Hmain' as Hcb. fold ca in Hnew, Hca. fold cb in Hnew', Hcb.
  unfold network in Hcar. rewrite Hlog, Hlog', Hl, Hl' in Hcar. cbn [app] in Hcar.
  pose proof (ip_duplex_new_wp ca cb Hca Hcb Hm) as Hn. unfold IpDuplex.new in Hn. rewrite Hnew, bind_Ret, Hnew', bind_Ret in Hn.
  destruct Hn as (Hme & Hc1 & Hc2 & Hw1 & Hw2). cbn [IpDuplex.here IpDuplex.there] in *.
  assert (Ho : owes m l x (blen (Station.inputs os))) by (exists [], os, l; split_and!; [by intros ? ?%elem_of_nil|done..]).
  assert (Ho' : owes m' l' y (blen (Station.inputs os'))) by (exists [], os', l'; split_and!; [by intros ? ?%elem_of_nil|done..]).
  destruct (hosts_goes_run ca cb _ _ _ _ (carried_conducts ca cb _ (λ _ H, H) [] [] l l' Hcar (IpDuplex.mk m m') _ _ x y
    ltac:(by intros ? ?%elem_of_nil) ltac:(by intros ? ?%elem_of_nil) Ho Ho')) as (ops & Hops & Hoff & Hrun).
  pose proof (ip_duplex_run_wp ca cb (IpDuplex.mk m m') [] [] ops Hme Hc1 Hc2 Hops) as Hr.
  rewrite Hoff in Hr. cbn [IpDuplex.here IpDuplex.there fst snd] in Hr. rewrite Hw1, Hw2, Hrun in Hr.
  assert (Hi : blen (Station.inputs os) ≤ typed_bytes (typed w)).
  { rewrite <- entered_tun_entries, entered_bytes, <- Hin, typed_bytes_app. pose proof (typed_bytes_nonneg (typed w1)). lia. }
  assert (Hi' : blen (Station.inputs os') ≤ typed_bytes (typed w')).
  { rewrite <- entered_tun_entries, entered_bytes, <- Hin', typed_bytes_app. pose proof (typed_bytes_nonneg (typed w1')). lia. }
  specialize (Hr ltac:(rewrite blen_nil; lia) ltac:(rewrite blen_nil; lia)).
  destruct Hr as (sx & sy & Hmeet & _ & _). cbn [IpDuplex.here IpDuplex.there] in Hmeet.
  pose proof (me_joined _ _ _ _ Hmeet) as Hj. pose proof (joined_sym _ _ Hj) as Hj'.
  split_and!.
  - by eapply delivers_whole, joined_delivers.
  - by eapply delivers_whole, joined_delivers.
  - apply (conducted_taken os m l x); [done..|by eapply joined_no_error in Hj|by eapply eq_sym, meet_pushed].
  - apply (conducted_taken os' m' l' y); [done..|by eapply joined_no_error in Hj'|by eapply eq_sym, meet_pushed, meet_sym].
Qed.

Lemma tun_hosts_deliver_witness :
  ∃ h h' w w', main here_args 8 here_world = Ret (Ok (Some h), w) ∧ main there_args 8 there_world = Ret (Ok (Some h'), w') ∧
  (∃ a, took here_args here_world w h a) ∧ (∃ b, took there_args there_world w' h' b) ∧
  ∀ a b, took here_args here_world w h a → took there_args there_world w' h' b →
    arrives_whole a h h' ∧ arrives_whole b h' h ∧
    taken_from (typed here_world) (typed w) h a ∧ taken_from (typed there_world) (typed w') h' b.
Proof.
  assert (Hok : match main here_args 8 here_world, main there_args 8 there_world with
    | Ret (Ok (Some h), w), Ret (Ok (Some h'), w') =>
        joins 100 [] [] (log w) (log w') && bool_decide (Script.printed w' = str "hi")
    | _, _ => false end = true) by (vm_compute; reflexivity).
  destruct (main here_args 8 here_world) as [[[[h|]|e] w]|f] eqn:E; [|discriminate Hok..].
  destruct (main there_args 8 there_world) as [[[[h'|]|e] w']|f] eqn:E'; [|discriminate Hok..].
  apply andb_true_iff in Hok as [Hj _]. exists h, h', w, w'. split; [reflexivity|]. split; [reflexivity|].
  assert (Hm : IpDuplex.mirrored (chosen_host here_args) (chosen_host there_args)) by (by split_and!).
  apply (tun_hosts_deliver here_args there_args 8 8 here_world w there_world w' h h' Hm E E'); [by vm_compute..| |by vm_compute|by vm_compute].
  eapply joins_carried; [|exact Hj]. intros bs. exists 0%nat, bs, []. split; [reflexivity|symmetry; apply app_nil_r].
Defined.
