(* ===== verification/tun_probe.v ===== *)
(** * The TUN probe ([src/bin/tun_probe.rs])

    Prints a summary of every packet that arrives on a TUN device, until a read fails.  The
    text on standard error is left out.  The loop runs with one more unit of fuel than
    there are reads to come, which is enough. *)

From S2P Require Import prelude checksum ipv4_datagram os tun host_cli ip_host.
From stdpp Require Import pretty.
From Stdlib Require Strings.String.
Import Strings.String.StringSyntax.

#[local] Open Scope Z_scope.

(** A [usize] as [{}]. *)
Definition number (n : Z) : bytes := str (pretty n).

Definition protocol_name (protocol : Z) : bytes :=
  if protocol =? IPV4_PROTOCOL_TCP then str "TCP"
  else if protocol =? 1 then str "ICMP"
  else if protocol =? 17 then str "UDP"
  else str "OTHER".

(** The line that describes a packet. *)
Definition summary (r : result Ipv4Datagram.t Ipv4ParseError) : bytes :=
  match r with
  | Ok datagram =>
      let header := Ipv4Datagram.header datagram in
      str "IPv4: " ++ fmt_ip (Ipv4Header.src header) ++ str " -> " ++ fmt_ip (Ipv4Header.dst header) ++
      str " proto=" ++ protocol_name (Ipv4Header.protocol header) ++
      str " payload_len=" ++ number (blen (Ipv4Datagram.payload datagram))
  | Err err => str "failed to parse IPv4 packet: " ++ str (debug_ipv4 err)
  end.

(** One turn of the [loop] of [main]. *)
Definition report {W} `{Os W} (packet : bytes) : io W unit :=
  _ ⇐ println (str "raw packet: " ++ number (blen packet) ++ str " bytes");
  r ⇐ lift (Ipv4Datagram.parse_bytes packet);
  _ ⇐ println (summary r);
  println [].

Fixpoint probe {W} `{Os W} (fuel : nat) : io W unit :=
  match fuel with
  | O => lift (Fault OutOfFuel)
  | S fuel => packet ⇐ TunDevice.read_packet; _ ⇐ report packet; probe fuel
  end.

(** [nth(1)] goes through the first two arguments. *)
Definition main {W} `{Os W} `{OsView W} `{Libc} `{Utf8} (args : list bytes) : io W unit :=
  args ⇐ lift (env_args (take 2 args));
  let name := default (str "tun144") (args !! 1%nat) in
  _ ⇐ TunDevice.create name;
  λ w, probe (S (queued_reads w)) w.

(** What is on standard output. *)
Class PrintLaws (W : Type) `{Os W} := {
  printed : W → bytes;
  print_appends w bs w' : stdout_print bs w = (Ok tt, w') → printed w' = printed w ++ bs;
  read_prints w n r w' : file_read n w = (r, w') → printed w' = printed w;
}.

(** The text for one packet. *)
Definition text (packet : bytes) (r : result Ipv4Datagram.t Ipv4ParseError) : bytes :=
  str "raw packet: " ++ number (blen packet) ++ str " bytes" ++ [x0a] ++ summary r ++ [x0a; x0a].

Section facts.
Context {W : Type} `{OsLaws W} `{!StdoutWorks W} `{!PrintLaws W}.
Implicit Types (w : W).

Lemma println_runs line w : runs (println line) w (λ _ w', calm w w' ∧ printed w' = printed w ++ line ++ [x0a]) (λ _, False).
Proof.
  apply runs_print. intros w' E Hc. split; [done|]. by apply print_appends.
Qed.

Lemma report_runs packet w : runs (report packet) w (λ _ w', calm w w' ∧
    ∃ r, Ipv4Datagram.parse_bytes packet = Ret r ∧ printed w' = printed w ++ text packet r) (λ _, False).
Proof.
  unfold report. apply runs_bind. eapply runs_mono; [apply println_runs| |done]. intros _ w1 [Hc1 Hp1].
  pose proof (ipv4_parse_wp packet) as Hp. wp_inv Hp. apply runs_bind, runs_lift. rewrite Heq. wp_step.
  apply runs_bind. eapply runs_mono; [apply println_runs| |done]. intros _ w2 [Hc2 Hp2].
  eapply runs_mono; [apply println_runs| |done]. intros _ w3 [Hc3 Hp3].
  split; [by eapply calm_trans; [|eapply calm_trans]|]. exists r. split; [done|].
  rewrite Hp3, Hp2, Hp1. unfold text. rewrite <- !(assoc_L (++)). done.
Qed.

(** The loop ends only when a read fails, sends nothing, and prints the text of each packet it read. *)
Lemma probe_runs fuel w : (queued_reads w < fuel)%nat →
  runs (probe fuel) w (λ _ _, False) (λ w', ∃ packets rs, log w' = log w ++ map Received packets ∧
    Forall2 (λ p r, Ipv4Datagram.parse_bytes p = Ret r) packets rs ∧
    printed w' = printed w ++ concat (zip_with text packets rs)).
Proof.
  revert w. induction fuel as [|fuel IH]; intros w Hf; [lia|]. cbn [probe]. apply runs_bind, runs_call.
  destruct (file_read MAX_IPV4_PACKET_SIZE w) as [r w1] eqn:E.
  pose proof (read_prints _ _ _ _ E) as Hp1. apply read_uses in E as (_ & Hl & Hq). destruct r as [packet|e].
  2:{ exists [], []. rewrite Hl, Hp1, (app_nil_r (log w)), (app_nil_r (printed w)). split_and!; [done|constructor|done]. }
  apply runs_bind. eapply runs_mono; [apply report_runs| |done].
  intros _ w2 [(_ & Hq2 & Hl2) (r & Hr & Hp2)]. eapply runs_mono; [apply IH; lia|done|].
  intros w3 (packets & rs & Hl3 & Hf2 & Hp3). exists (packet :: packets), (r :: rs).
  split; [by rewrite Hl3, Hl2, Hl, <- (assoc_L (++))|]. split; [by constructor|].
  change (concat (zip_with text (packet :: packets) (r :: rs))) with (text packet r ++ concat (zip_with text packets rs)).
  by rewrite Hp3, Hp2, Hp1, <- (assoc_L (++)).
Qed.
End facts.

(** The probe on a scripted system: a ping, then garbage, then the device fails. *)
Example probe_prints :
  let packet := match Ipv4Datagram.serialize (Ipv4Datagram.new_icmp (A4 x0a x00 x00 x02) (A4 x0a x00 x00 x01) [x08; x00]) with
                | Ret bs => bs | Fault _ => [] end in
  let w := Script.mk [Ok packet; Ok [x45]; Err OtherError] [] [] [] [] [] 0 in
  match main [] w with
  | Ret (Err OtherError, w') => Script.printed w' =
      str "raw packet: 22 bytes" ++ [x0a] ++
      str "IPv4: 10.0.0.2 -> 10.0.0.1 proto=ICMP payload_len=2" ++ [x0a; x0a] ++
      str "raw packet: 1 bytes" ++ [x0a] ++ str "failed to parse IPv4 packet: PacketTooShort" ++ [x0a; x0a]
  | _ => False
  end.
Proof. by vm_compute. Qed.
