(* ===== verification/webget.v ===== *)
(** * The web client ([src/bin/webget.rs])

    A client on the operating system's own TCP: it checks its arguments, sends one request
    and copies the answer to standard output.  The socket and standard output are
    parameters; the request and the copying loop are the program's.  The loop runs with
    one more unit of fuel than there are bytes to come, which is enough. *)

From S2P Require Import prelude os host_cli.
From Stdlib Require Strings.String.
Import Strings.String.StringSyntax.

#[local] Open Scope Z_scope.

Class Net (W : Type) := {
  (** [TcpStream::connect] *)
  connect : bytes → W → result unit io_error * W;
  (** [write_all], [flush] and [read] on the socket *)
  socket_write_all : bytes → W → result unit io_error * W;
  socket_flush : W → result unit io_error * W;
  socket_read : Z → W → result bytes io_error * W;
  (** [write_all] and [flush] on standard output *)
  out_write_all : bytes → W → result unit io_error * W;
  out_flush : W → result unit io_error * W;
}.

(** What the laws speak of: the bytes the server has yet to deliver, those delivered, the
    bytes sent to it, and what is on standard output. *)
Class NetView (W : Type) := {
  incoming : W → bytes;
  delivered : W → bytes;
  requested : W → bytes;
  out : W → bytes;
}.

Definition logs `{NetView W} (w : W) : bytes * bytes * bytes := (delivered w, requested w, out w).

(** A read gives at least one byte until all have been delivered, and then none; writing to
    standard output does not disturb the connection. *)
Class NetLaws (W : Type) `{Net W} `{NetView W} := {
  connect_keeps address r w w' : connect address w = (r, w') → logs w' = logs w;
  socket_write_logs bs w w' : socket_write_all bs w = (Ok tt, w') →
    logs w' = (delivered w, requested w ++ bs, out w);
  socket_flush_keeps r w w' : socket_flush w = (r, w') → logs w' = logs w;
  socket_read_gives n bs w w' : 0 < n → socket_read n w = (Ok bs, w') →
    incoming w = bs ++ incoming w' ∧ (bs = [] ↔ incoming w = []) ∧
    logs w' = (delivered w ++ bs, requested w, out w);
  out_write_logs bs w w' : out_write_all bs w = (Ok tt, w') →
    logs w' = (delivered w, requested w, out w ++ bs) ∧ incoming w' = incoming w;
  out_flush_keeps r w w' : out_flush w = (r, w') → logs w' = logs w ∧ incoming w' = incoming w;
}.

Definition crlf : bytes := [x0d; x0a].

(** The line breaks and the indentation of the source's literal are part of the request. *)
Definition indent : bytes := x0a :: replicate 8 x20.

Definition request (path hostname : bytes) : bytes :=
  str "GET " ++ path ++ str " HTTP/1.1" ++ crlf ++ indent ++
  str "Host: " ++ hostname ++ crlf ++ indent ++
  str "Connection: close" ++ crlf ++ indent ++ crlf.

(** The host name and the path: exactly two arguments, and the path starts with a slash. *)
Definition arguments (args : list bytes) : result (bytes * bytes) io_error :=
  match drop 1 args with
  | [hostname; path] =>
      match path with
      | c :: _ => if b2z c =? 47 then Ok (hostname, path) else Err InvalidInput
      | [] => Err InvalidInput
      end
  | _ => Err InvalidInput
  end.

Section program.
Context {W : Type} `{Net W}.

(** The [loop] of [main]. *)
Fixpoint copy (fuel : nat) : io W unit :=
  match fuel with
  | O => lift (Fault OutOfFuel)
  | S fuel =>
      buffer ⇐ call (socket_read 8192);
      if blen buffer =? 0 then ok tt
      else _ ⇐ call (out_write_all buffer); copy fuel
  end.

(** The iterator over the arguments is asked for the first four at most. *)
Definition main `{NetView W} `{Utf8} (args : list bytes) : io W unit :=
  _ ⇐ lift (env_args (take 4 args));
  match arguments args with
  | Err e => fail e
  | Ok (hostname, path) =>
      _ ⇐ call (connect (hostname ++ str ":80"));
      _ ⇐ call (socket_write_all (request path hostname));
      _ ⇐ call socket_flush;
      _ ⇐ (λ w, copy (S (length (incoming w))) w);
      call out_flush
  end.

End program.

Section facts.
Context {W : Type} `{NetLaws W} `{Utf8}.
Implicit Types (w : W).

Lemma copy_runs fuel w : (length (incoming w) < fuel)%nat →
  runs (copy fuel) w (λ _ w', incoming w' = [] ∧
    ∃ answer, logs w' = (delivered w ++ answer, requested w, out w ++ answer)) (λ _, True).
Proof.
  revert w. induction fuel as [|fuel IH]; intros w Hf; [lia|]. cbn [copy]. apply runs_bind, runs_call.
  destruct (socket_read 8192 w) as [[bs|e] w1] eqn:E; [|done]. apply socket_read_gives in E as (Hin & Hnil & Hl); [|done].
  destruct (Z.eqb_spec (blen bs) 0) as [Hb|Hb]; unfold blen in Hb.
  - apply runs_ok. destruct bs; [|cbn in Hb; lia]. rewrite (proj1 Hnil eq_refl) in Hin. split; [done|].
    exists []. by rewrite (app_nil_r (out w)).
  - apply runs_bind, runs_call. destruct (out_write_all bs w1) as [[[]|e] w2] eqn:E; [|done].
    apply out_write_logs in E as [Hl2 Hin2]. unfold logs in Hl, Hl2. injection Hl as Hd Hr Ho. injection Hl2 as Hd2 Hr2 Ho2.
    eapply runs_mono; [apply IH| |done].
    + rewrite Hin2. apply (f_equal length) in Hin. rewrite length_app in Hin. lia.
    + intros [] w3 (Hi3 & answer & Hl3). split; [done|]. exists (bs ++ answer).
      by rewrite Hl3, Hd2, Hr2, Ho2, Hd, Hr, Ho, <- !(assoc_L (++)).
Qed.

Lemma webget_runs args w : forallb utf8 (take 4 args) = true →
  runs (main args) w (λ _ w', ∃ hostname path answer, arguments args = Ok (hostname, path) ∧ incoming w' = [] ∧
    logs w' = (delivered w ++ answer, requested w ++ request path hostname, out w ++ answer)) (λ _, True).
Proof.
  intros Hargs. unfold main, env_args. rewrite Hargs. apply runs_bind, runs_lift. wp_step.
  destruct (arguments args) as [[hostname path]|e]; [|by apply runs_fail].
  apply runs_bind, runs_call. destruct (connect _ w) as [[[]|e] w1] eqn:E; [apply connect_keeps in E as Hl1|done].
  apply runs_bind, runs_call. destruct (socket_write_all _ w1) as [[[]|e] w2] eqn:E2; [apply socket_write_logs in E2 as Hl2|done].
  apply runs_bind, runs_call. destruct (socket_flush w2) as [[[]|e] w3] eqn:E3; [apply socket_flush_keeps in E3 as Hl3|done].
  apply runs_bind. eapply runs_mono; [apply copy_runs; lia| |done]. intros [] w4 (Hi & answer & Hl4).
  apply runs_call. destruct (out_flush w4) as [[[]|e] w5] eqn:E5; [apply out_flush_keeps in E5 as [Hl5 Hi5]|done].
  exists hostname, path, answer. split; [done|]. split; [congruence|].
  unfold logs in *. injection Hl1 as H1a H1b H1c. injection Hl2 as H2a H2b H2c. injection Hl3 as H3a H3b H3c.
  rewrite Hl5, Hl4. congruence.
Qed.
End facts.

(** The request line is followed by an empty line and the headers are indented, so a server does not
    take them for the headers of the request. *)
Lemma request_head path hostname :
  request path hostname = str "GET " ++ path ++ str " HTTP/1.1" ++ crlf ++ [x0a] ++
    replicate 8 x20 ++ str "Host: " ++ hostname ++ crlf ++ indent ++ str "Connection: close" ++ crlf ++ indent ++ crlf.
Proof. done. Qed.

(** The client copies the whole answer. When the arguments it looks at are Unicode the program always returns
    (otherwise it panics at once). Without exactly a host name and a path
    starting with a slash it fails and touches nothing; with them, if it succeeds, it has sent exactly its
    request, the stream has been read to its end, and what was read from it, in order
    and nothing else, is what has been added to standard output. *)
Theorem webget_copies {W} `{NetLaws W} `{Utf8} (args : list bytes) (w : W) :
  if forallb utf8 (take 4 args) then
    ∃ r w', main args w = Ret (r, w') ∧
      match arguments args with
      | Err e => r = Err e ∧ w' = w
      | Ok (hostname, path) => r = Ok tt →
          incoming w' = [] ∧ requested w' = requested w ++ request path hostname ∧
          ∃ answer, delivered w' = delivered w ++ answer ∧ out w' = out w ++ answer
      end
  else main args w = Fault Panicked.
Proof.
  destruct (forallb utf8 (take 4 args)) eqn:Hargs; [|unfold main, io_bind, lift, env_args; by rewrite Hargs].
  pose proof (webget_runs args w Hargs) as Hm. unfold runs in Hm. wp_inv Hm. destruct r as [r w']. exists r, w'. split; [done|].
  destruct (arguments args) as [[hostname path]|e] eqn:Ea.
  - intros ->. destruct Hm as (? & ? & answer & [= <- <-] & Hi & Hl). injection Hl as Hd Hr Ho. eauto.
  - unfold main, io_bind, lift, env_args in Heq. rewrite Hargs, Ea in Heq. unfold fail in Heq. by injection Heq as <- <-.
Qed.

(** A server with an answer ready, and logs: (yet to come, delivered, requested, output). *)
Module Served.

Definition t : Type := bytes * bytes * bytes * bytes.

#[global] Instance net : Net t := {
  connect _ w := (Ok tt, w);
  socket_write_all bs w := let '(i, d, q, o) := w in (Ok tt, (i, d, q ++ bs, o));
  socket_flush w := (Ok tt, w);
  socket_read n w := let '(i, d, q, o) := w in
    (Ok (take (Z.to_nat n) i), (drop (Z.to_nat n) i, d ++ take (Z.to_nat n) i, q, o));
  out_write_all bs w := let '(i, d, q, o) := w in (Ok tt, (i, d, q, o ++ bs));
  out_flush w := (Ok tt, w);
}.

#[global] Instance view : NetView t := {
  incoming w := w.1.1.1;
  delivered w := w.1.1.2;
  requested w := w.1.2;
  out w := w.2;
}.

#[global, refine] Instance laws : NetLaws t := {}.
Proof.
  - by intros address r w w' [= <- <-].
  - by intros bs [[[i d] q] o] w' [= <-].
  - by intros r w w' [= <- <-].
  - intros n bs [[[i d] q] o] w' Hn [= <- <-]. cbn. rewrite take_drop. split_and!; [done| |done].
    destruct (Z.to_nat n) eqn:E; [lia|]. by destruct i.
  - by intros bs [[[i d] q] o] w' [= <-].
  - by intros r w w' [= <- <-].
Defined.

End Served.

Example webget_copies_example :
  let w : Served.t := (str "HTTP/1.1 200 OK", [], [], []) in
  match main [str "webget"; str "example.org"; str "/index"] w with
  | Ret (Ok _, w') => out w' = str "HTTP/1.1 200 OK" ∧ incoming w' = []
  | _ => False
  end.
Proof. by vm_compute. Qed.
