(* ===== verification/tests_stream.v ===== *)
(** * The unit tests of the stream components, run on the model

    Each Module is the [mod tests] of a source file ([src/wrapping_integers.rs],
    [src/byte_stream.rs], [src/reassembler.rs]), each definition a test function.  A test
    passes when it returns: a failed assertion is a panic.  That the model passes the
    program's own tests is evidence that its definitions are those of the program. *)

From S2P Require Import prelude wrapping_integers byte_stream btree_map stream reassembler.
From S2P Require Import os host_cli.
From Stdlib Require Strings.String.
Import Strings.String.StringSyntax.

#[local] Open Scope Z_scope.

(** [assert_eq!], on a value and on the outcome of a call. *)
Definition assert_eq {A} `{EqDecision A} (x y : A) : exec unit := assert (bool_decide (x = y)).
Definition returns {A} `{EqDecision A} (m : exec A) (y : A) : exec unit := x ← m; assert_eq x y.

(** [Result::is_ok], [Result::expect_err] *)
Definition is_ok {T E} (r : result T E) : bool := match r with Ok _ => true | Err _ => false end.
Definition expect_err {T E} (r : result T E) : exec E := match r with Ok _ => panic | Err e => mret e end.

(** [unwrap] and [unwrap_err] on the [Result] of a call *)
Definition unwrap {T E} (m : exec (result T E)) : exec T :=
  r ← m; match r with Ok t => mret t | Err _ => panic end.
Definition unwrap_err {T E} (m : exec (result T E)) : exec E := r ← m; expect_err r.

(** [l[i..].copy_from_slice(bs)], as many places as there are bytes *)
Fixpoint store (l : bytes) (i : nat) (bs : bytes) : exec bytes :=
  match bs with
  | [] => mret l
  | b :: bs => if bool_decide (i < length l)%nat then store (<[i := b]> l) (S i) bs else panic
  end.

Definition passes (test : exec unit) : Prop := test = Ret tt.

Ltac run_tests := repeat apply Forall_cons_2; try apply Forall_nil_2; vm_compute; reflexivity.

Module WrappingTests.

Definition raw_value_round_trip : exec unit :=
  let value := Wrap32.new 123 in
  assert_eq (Wrap32.raw_value value) 123.

Definition wrap_without_overflow : exec unit :=
  let isn := Wrap32.new 1000 in
  _ ← assert_eq (Wrap32.wrap 0 isn) (Wrap32.new 1000);
  assert_eq (Wrap32.wrap 5 isn) (Wrap32.new 1005).

Definition wrap_crosses_u32_boundary : exec unit :=
  let isn := Wrap32.new (u32_max - 1) in
  _ ← assert_eq (Wrap32.wrap 0 isn) (Wrap32.new (u32_max - 1));
  _ ← assert_eq (Wrap32.wrap 1 isn) (Wrap32.new u32_max);
  _ ← assert_eq (Wrap32.wrap 2 isn) (Wrap32.new 0);
  assert_eq (Wrap32.wrap 3 isn) (Wrap32.new 1).

Definition unwrap_without_wraparound : exec unit :=
  let isn := Wrap32.new 1000 in
  let seqno := Wrap32.new 1005 in
  returns (Wrap32.unwrap seqno isn 4) 5.

Definition unwrap_selects_first_era_near_small_checkpoint : exec unit :=
  let isn := Wrap32.new 0 in
  let seqno := Wrap32.new 17 in
  returns (Wrap32.unwrap seqno isn 20) 17.

Definition unwrap_selects_later_era_near_large_checkpoint : exec unit :=
  let isn := Wrap32.new 0 in
  let seqno := Wrap32.new 17 in
  returns (Wrap32.unwrap seqno isn (MODULUS + 20)) (MODULUS + 17).

Definition unwrap_handles_wrapped_isn : exec unit :=
  let isn := Wrap32.new (u32_max - 1) in
  _ ← returns (Wrap32.unwrap (Wrap32.new 0) isn 2) 2;
  returns (Wrap32.unwrap (Wrap32.new 1) isn 3) 3.

Definition wrap_and_unwrap_round_trip_across_multiple_eras : exec unit :=
  let isn := Wrap32.new 9876 in
  let absolute := 3 * MODULUS + 123 in
  let wrapped := Wrap32.wrap absolute isn in
  returns (Wrap32.unwrap wrapped isn absolute) absolute.

Definition tests : list (exec unit) :=
  [raw_value_round_trip; wrap_without_overflow; wrap_crosses_u32_boundary; unwrap_without_wraparound;
   unwrap_selects_first_era_near_small_checkpoint; unwrap_selects_later_era_near_large_checkpoint;
   unwrap_handles_wrapped_isn; wrap_and_unwrap_round_trip_across_multiple_eras].

End WrappingTests.

#[global] Instance reassembler_error_eq_dec : EqDecision ReassemblerError.
Proof. solve_decision. Defined.

Module ByteStreamTests.
Import ByteStream.

Definition new_stream_is_empty : exec unit :=
  let stream := new 5 in
  _ ← returns (available_capacity stream) 5;
  _ ← assert_eq (bytes_buffered stream) 0;
  _ ← assert_eq (bytes_pushed stream) 0;
  _ ← assert_eq (bytes_popped stream) 0;
  _ ← assert (negb (is_closed stream));
  _ ← assert (negb (is_finished stream));
  assert (negb (has_error stream)).

Definition push_and_peek : exec unit :=
  let stream := new 5 in
  '(pushed, stream) ← push stream (str "abc");
  _ ← assert_eq pushed 3;
  _ ← assert_eq (peek stream) (str "abc");
  _ ← assert_eq (bytes_buffered stream) 3;
  _ ← returns (available_capacity stream) 2;
  assert_eq (bytes_pushed stream) 3.

Definition push_respects_capacity : exec unit :=
  let stream := new 4 in
  '(pushed, stream) ← push stream (str "abcdef");
  _ ← assert_eq pushed 4;
  _ ← assert_eq (peek stream) (str "abcd");
  _ ← assert_eq (bytes_buffered stream) 4;
  _ ← returns (available_capacity stream) 0;
  assert_eq (bytes_pushed stream) 4.

Definition pop_releases_capacity : exec unit :=
  let stream := new 4 in
  '(pushed, stream) ← push stream (str "abcd");
  _ ← assert_eq pushed 4;
  '(_, stream) ← pop stream 2;
  _ ← assert_eq (peek stream) (str "cd");
  _ ← assert_eq (bytes_buffered stream) 2;
  _ ← returns (available_capacity stream) 2;
  _ ← assert_eq (bytes_popped stream) 2;
  '(pushed, stream) ← push stream (str "XY");
  _ ← assert_eq pushed 2;
  assert_eq (bytes_buffered stream) 4.

Definition close_rejects_new_data : exec unit :=
  let stream := close (new 4) in
  '(pushed, stream) ← push stream (str "abc");
  _ ← assert_eq pushed 0;
  _ ← assert_eq (bytes_buffered stream) 0;
  _ ← assert (is_closed stream);
  assert (is_finished stream).

Definition closed_stream_finishes_after_reader_drains_buffer : exec unit :=
  let stream := new 4 in
  '(_, stream) ← push stream (str "abc");
  let stream := close stream in
  _ ← assert (is_closed stream);
  _ ← assert (negb (is_finished stream));
  '(_, stream) ← pop stream 3;
  assert (is_finished stream).

Definition pop_more_than_buffered_is_safe : exec unit :=
  let stream := new 4 in
  '(_, stream) ← push stream (str "ab");
  '(_, stream) ← pop stream 100;
  _ ← assert_eq (bytes_buffered stream) 0;
  _ ← assert_eq (bytes_popped stream) 2;
  returns (available_capacity stream) 4.

(** The [for] loop of the next test. *)
Fixpoint carry (stream : t) (data : bytes) : exec t :=
  match data with
  | [] => mret stream
  | byte :: data =>
      '(pushed, stream) ← push stream [byte];
      _ ← assert_eq pushed 1;
      _ ← assert_eq (peek stream) [byte];
      '(_, stream) ← pop stream 1;
      carry stream data
  end.

Definition tiny_capacity_can_carry_a_long_stream : exec unit :=
  stream ← carry (new 1) (str "hello world");
  _ ← assert_eq (bytes_pushed stream) 11;
  _ ← assert_eq (bytes_popped stream) 11;
  _ ← assert_eq (bytes_buffered stream) 0;
  returns (available_capacity stream) 1.

Definition error_state_rejects_new_data : exec unit :=
  let stream := new 5 in
  '(_, stream) ← push stream (str "ab");
  let stream := set_error stream in
  _ ← assert (has_error stream);
  '(pushed, stream) ← push stream (str "cd");
  _ ← assert_eq pushed 0;
  assert_eq (bytes_buffered stream) 2.

Definition push_and_pop_move_chunks : exec unit :=
  let stream := new 8 in
  '(pushed, stream) ← push stream (str "abcdef");
  _ ← assert_eq pushed 6;
  '(first, stream) ← pop stream 2;
  '(second, stream) ← pop stream 10;
  _ ← assert_eq first (str "ab");
  _ ← assert_eq second (str "cdef");
  _ ← assert_eq (bytes_buffered stream) 0;
  _ ← assert_eq (bytes_pushed stream) 6;
  assert_eq (bytes_popped stream) 6.

Definition push_respects_capacity_without_copying_past_window : exec unit :=
  let stream := new 3 in
  '(pushed, stream) ← push stream (str "abcdef");
  _ ← assert_eq pushed 3;
  _ ← assert_eq (peek stream) (str "abc");
  _ ← assert_eq (bytes_buffered stream) 3;
  returns (available_capacity stream) 0.

Definition tests : list (exec unit) :=
  [new_stream_is_empty; push_and_peek; push_respects_capacity; pop_releases_capacity; close_rejects_new_data;
   closed_stream_finishes_after_reader_drains_buffer; pop_more_than_buffered_is_safe;
   tiny_capacity_can_carry_a_long_stream; error_state_rejects_new_data; push_and_pop_move_chunks;
   push_respects_capacity_without_copying_past_window].

End ByteStreamTests.

Module ReassemblerTests.
Import Reassembler.

Definition buffered_bytes (stream : ByteStream.t) : bytes := concat (ByteStream.chunks stream).

Definition ordered_insert_is_written_immediately : exec unit :=
  reassembler ← new 10;
  reassembler ← insert reassembler 0 (str "abc") false;
  _ ← assert_eq (buffered_bytes (output reassembler)) (str "abc");
  _ ← assert_eq (ByteStream.bytes_pushed (output reassembler)) 3;
  assert_eq (bytes_pending reassembler) 0.

Definition out_of_order_insert_waits_for_missing_prefix : exec unit :=
  reassembler ← new 10;
  reassembler ← insert reassembler 3 (str "def") false;
  _ ← assert_eq (ByteStream.bytes_buffered (output reassembler)) 0;
  _ ← assert_eq (bytes_pending reassembler) 3;
  reassembler ← insert reassembler 0 (str "abc") false;
  _ ← assert_eq (buffered_bytes (output reassembler)) (str "abcdef");
  _ ← assert_eq (ByteStream.bytes_pushed (output reassembler)) 6;
  assert_eq (bytes_pending reassembler) 0.

Definition duplicate_segment_is_stored_once : exec unit :=
  reassembler ← new 10;
  reassembler ← insert reassembler 3 (str "def") false;
  reassembler ← insert reassembler 3 (str "def") false;
  assert_eq (bytes_pending reassembler) 3.

Definition overlapping_insert_keeps_only_missing_ranges : exec unit :=
  reassembler ← new 20;
  reassembler ← insert reassembler 4 (str "ef") false;
  reassembler ← insert reassembler 2 (str "cdefgh") false;
  _ ← assert_eq (bytes_pending reassembler) 6;
  reassembler ← insert reassembler 0 (str "ab") false;
  _ ← assert_eq (buffered_bytes (output reassembler)) (str "abcdefgh");
  assert_eq (bytes_pending reassembler) 0.

Definition adjacent_segments_flush_in_order : exec unit :=
  reassembler ← new 20;
  reassembler ← insert reassembler 5 (str "fgh") false;
  reassembler ← insert reassembler 8 (str "ijk") false;
  _ ← assert_eq (bytes_pending reassembler) 6;
  reassembler ← insert reassembler 0 (str "abcde") false;
  _ ← assert_eq (buffered_bytes (output reassembler)) (str "abcdefghijk");
  assert_eq (bytes_pending reassembler) 0.

Definition earlier_already_assembled_bytes_are_discarded : exec unit :=
  reassembler ← new 10;
  reassembler ← insert reassembler 0 (str "abcd") false;
  reassembler ← insert reassembler 0 (str "abcdef") false;
  _ ← assert_eq (buffered_bytes (output reassembler)) (str "abcdef");
  _ ← assert_eq (ByteStream.bytes_pushed (output reassembler)) 6;
  assert_eq (bytes_pending reassembler) 0.

Definition bytes_beyond_capacity_window_are_discarded : exec unit :=
  reassembler ← new 5;
  reassembler ← insert reassembler 0 (str "abcdefghij") false;
  _ ← assert_eq (buffered_bytes (output reassembler)) (str "abcde");
  _ ← assert_eq (ByteStream.bytes_pushed (output reassembler)) 5;
  assert_eq (bytes_pending reassembler) 0.

Definition future_bytes_beyond_window_are_not_saved : exec unit :=
  reassembler ← new 5;
  reassembler ← insert reassembler 100 (str "xyz") false;
  _ ← assert_eq (ByteStream.bytes_buffered (output reassembler)) 0;
  assert_eq (bytes_pending reassembler) 0.

(** [output_mut().pop] *)
Definition pop_output (self : t) (len : Z) : exec t :=
  '(_, o) ← ByteStream.pop (output self) len;
  mret (with_output self o).

Definition reader_pop_advances_the_acceptable_window : exec unit :=
  reassembler ← new 5;
  reassembler ← insert reassembler 0 (str "abcde") false;
  reassembler ← pop_output reassembler 3;
  reassembler ← insert reassembler 5 (str "fgh") false;
  _ ← assert_eq (ByteStream.bytes_pushed (output reassembler)) 8;
  _ ← assert_eq (ByteStream.bytes_popped (output reassembler)) 3;
  assert_eq (ByteStream.bytes_buffered (output reassembler)) 5.

(** The [while] loop of the next test, one turn per chunk. *)
Fixpoint drain (fuel : nat) (self : t) : exec t :=
  if 0 <? ByteStream.bytes_buffered (output self) then
    match fuel with
    | O => Fault OutOfFuel
    | S fuel => self ← pop_output self usize_max; drain fuel self
    end
  else mret self.

Definition final_substring_closes_output_after_complete_assembly : exec unit :=
  reassembler ← new 10;
  reassembler ← insert reassembler 3 (str "def") true;
  _ ← assert (negb (ByteStream.is_closed (output reassembler)));
  reassembler ← insert reassembler 0 (str "abc") false;
  _ ← assert_eq (buffered_bytes (output reassembler)) (str "abcdef");
  _ ← assert (ByteStream.is_closed (output reassembler));
  _ ← assert (negb (ByteStream.is_finished (output reassembler)));
  reassembler ← drain 6 reassembler;
  assert (ByteStream.is_finished (output reassembler)).

Definition empty_final_segment_can_close_an_empty_stream : exec unit :=
  reassembler ← new 10;
  reassembler ← insert reassembler 0 (str "") true;
  _ ← assert (ByteStream.is_closed (output reassembler));
  assert (ByteStream.is_finished (output reassembler)).

Definition zero_capacity_discards_everything : exec unit :=
  reassembler ← new 0;
  reassembler ← insert reassembler 0 (str "abc") false;
  _ ← assert_eq (ByteStream.bytes_pushed (output reassembler)) 0;
  assert_eq (bytes_pending reassembler) 0.

Definition segment_is_clipped_on_both_sides : exec unit :=
  reassembler ← new 5;
  reassembler ← insert reassembler 0 (str "abc") false;
  reassembler ← pop_output reassembler 2;
  reassembler ← insert reassembler 1 (str "bcdefghi") false;
  _ ← assert_eq (ByteStream.bytes_pushed (output reassembler)) 7;
  assert_eq (ByteStream.bytes_buffered (output reassembler)) 5.

(** The [for] loop of the next test. *)
Fixpoint insert_bytes (self : t) (indices : list Z) : exec t :=
  match indices with
  | [] => mret self
  | index :: indices =>
      self ← insert self index [z2b (97 + index)] false;
      insert_bytes self indices
  end.

Definition reverse_single_byte_segments_are_reassembled : exec unit :=
  reassembler ← new 10;
  reassembler ← insert_bytes reassembler [9; 8; 7; 6; 5; 4; 3; 2; 1; 0];
  _ ← assert_eq (buffered_bytes (output reassembler)) (str "abcdefghij");
  assert_eq (bytes_pending reassembler) 0.

Definition combined_storage_never_exceeds_capacity : exec unit :=
  let within_capacity reassembler :=
    assert (ByteStream.bytes_buffered (output reassembler) + bytes_pending reassembler
            <=? ByteStream.capacity (output reassembler)) in
  reassembler ← new 10;
  reassembler ← insert reassembler 5 (str "fghij") false;
  _ ← within_capacity reassembler;
  reassembler ← insert reassembler 0 (str "abcdefghij") false;
  _ ← assert_eq (buffered_bytes (output reassembler)) (str "abcdefghij");
  _ ← assert_eq (bytes_pending reassembler) 0;
  within_capacity reassembler.

Definition inconsistent_eof_is_rejected : exec unit :=
  reassembler ← new 10;
  '(r, reassembler) ← try_insert reassembler 3 (str "def") true;
  _ ← assert (is_ok r);
  '(r, reassembler) ← try_insert reassembler 4 (str "def") true;
  error ← expect_err r;
  assert_eq error (InconsistentEof 6 7).

Definition bytes_beyond_known_eof_are_rejected : exec unit :=
  reassembler ← new 10;
  '(r, reassembler) ← try_insert reassembler 3 (str "def") true;
  _ ← assert (is_ok r);
  '(r, reassembler) ← try_insert reassembler 5 (str "fg") false;
  error ← expect_err r;
  assert_eq error (SegmentBeyondEof 6 5 7).

Definition tests : list (exec unit) :=
  [ordered_insert_is_written_immediately; out_of_order_insert_waits_for_missing_prefix; duplicate_segment_is_stored_once;
   overlapping_insert_keeps_only_missing_ranges; adjacent_segments_flush_in_order;
   earlier_already_assembled_bytes_are_discarded; bytes_beyond_capacity_window_are_discarded;
   future_bytes_beyond_window_are_not_saved; reader_pop_advances_the_acceptable_window;
   final_substring_closes_output_after_complete_assembly; empty_final_segment_can_close_an_empty_stream;
   zero_capacity_discards_everything; segment_is_clipped_on_both_sides; reverse_single_byte_segments_are_reassembled;
   combined_storage_never_exceeds_capacity; inconsistent_eof_is_rejected; bytes_beyond_known_eof_are_rejected].

End ReassemblerTests.

(** The model passes the program's unit tests of these components. *)
Lemma wrapping_tests_pass : Forall passes WrappingTests.tests.
Proof. run_tests. Qed.

Lemma byte_stream_tests_pass : Forall passes ByteStreamTests.tests.
Proof. run_tests. Qed.

Lemma reassembler_tests_pass : Forall passes ReassemblerTests.tests.
Proof. run_tests. Qed.
