(* ===== verification/tests_wire.v ===== *)
(** * The unit tests of the wire formats, run on the model

    The [mod tests] of [src/checksum.rs], [src/ethernet_frame.rs], [src/arp.rs], [src/icmp.rs],
    [src/ipv4_datagram.rs], [src/tcp_segment.rs] and [src/pcap.rs], as in
    [tests_stream.v].  [parse] is [parse_bytes] on a copy. *)

From S2P Require Import prelude wrapping_integers tcp_message checksum ethernet_frame arp.
From S2P Require Import icmp ipv4_datagram tcp_segment os pcap host_cli.
From S2P Require Import tests_stream.
From Stdlib Require Strings.String.
Import Strings.String.StringSyntax.

#[local] Open Scope Z_scope.

#[global] Instance ethernet_error_eq_dec : EqDecision EthernetParseError.
Proof. solve_decision. Defined.
#[global] Instance ethernet_header_eq_dec : EqDecision EthernetHeader.t.
Proof. solve_decision. Defined.
#[global] Instance ethernet_frame_eq_dec : EqDecision EthernetFrame.t.
Proof. solve_decision. Defined.
#[global] Instance arp_error_eq_dec : EqDecision ArpParseError.
Proof. solve_decision. Defined.
#[global] Instance arp_message_eq_dec : EqDecision ArpMessage.t.
Proof. solve_decision. Defined.
#[global] Instance icmp_error_eq_dec : EqDecision IcmpParseError.
Proof. solve_decision. Defined.
#[global] Instance icmp_message_eq_dec : EqDecision IcmpMessage.t.
Proof. solve_decision. Defined.
#[global] Instance ipv4_error_eq_dec : EqDecision Ipv4ParseError.
Proof. solve_decision. Defined.
#[global] Instance tcp_error_eq_dec : EqDecision TcpParseError.
Proof. solve_decision. Defined.

Module ChecksumTests.

Definition checksum_of_empty_data_is_ffff : exec unit :=
  returns (internet_checksum []) 65535.

Definition checksum_handles_even_length_data : exec unit :=
  returns (internet_checksum [x00; x01; xf2; x03]) 3579.

Definition checksum_handles_odd_length_data : exec unit :=
  returns (internet_checksum [x00; x01; xf2]) 3582.

Definition checksum_verifies_header_with_checksum_inserted : exec unit :=
  let data := [x45; x00; x00; x14; x00; x00; x40; x00] ++ [z2b 64; x06; x00; x00]
    ++ [z2b 127; x00; x00; x01] ++ [z2b 127; x00; x00; x01] in
  checksum ← internet_checksum data;
  data ← store data 10 [z2b (cast 255 (Z.shiftr checksum 8))];
  data ← store data 11 [z2b (cast 255 checksum)];
  returns (verify_internet_checksum data) true.

Definition incremental_checksum_matches_one_shot : exec unit :=
  let data := str "hello world" in
  let incremental := InternetChecksum.new in
  part1 ← slice 0 3 data;
  incremental ← InternetChecksum.add_bytes incremental part1;
  part2 ← slice 3 8 data;
  incremental ← InternetChecksum.add_bytes incremental part2;
  part3 ← slice_from 8 data;
  incremental ← InternetChecksum.add_bytes incremental part3;
  one_shot ← internet_checksum data;
  returns (InternetChecksum.checksum incremental) one_shot.

Definition tcp_checksum_ipv4_is_stable : exec unit :=
  let src := [x0a; x00; x00; x01] in
  let dst := [x0a; x00; x00; x02] in
  let tcp := replicate 20 x00 in
  tcp ← store tcp 0 (put_u16 1234);
  tcp ← store tcp 2 (put_u16 80);
  tcp ← store tcp 12 [z2b (Z.shiftl 5 4)];
  csum ← tcp_checksum_ipv4 src dst tcp;
  tcp ← store tcp 16 (put_u16 csum);
  returns (tcp_checksum_ipv4 src dst tcp) 0.

Definition tests : list (exec unit) :=
  [checksum_of_empty_data_is_ffff; checksum_handles_even_length_data; checksum_handles_odd_length_data;
   checksum_verifies_header_with_checksum_inserted; incremental_checksum_matches_one_shot; tcp_checksum_ipv4_is_stable].

End ChecksumTests.

Module EthernetFrameTests.

Definition mac_a : EthernetAddress.t := A6 x02 xaa xbb xcc xdd x01.
Definition mac_b : EthernetAddress.t := A6 x02 xaa xbb xcc xdd x02.

(** [Debug] and [Display] are the same function. *)
Definition ethernet_address_debug_and_display : exec unit :=
  let mac := mac_a in
  assert_eq (EthernetAddress.fmt mac) (str "02:aa:bb:cc:dd:01").

Definition ethernet_ipv4_round_trip : exec unit :=
  let frame := EthernetFrame.ipv4 mac_b mac_a (str "ipv4-payload") in
  let serialized := EthernetFrame.serialize frame in
  _ ← assert_eq (blen serialized) (ETHERNET_HEADER_LEN + 12);
  _ ← returns (slice 0 6 serialized) (EthernetAddress.octets mac_b);
  _ ← returns (slice 6 12 serialized) (EthernetAddress.octets mac_a);
  _ ← returns (read_u16 serialized 12) ETHERTYPE_IPV4;
  parsed ← unwrap (EthernetFrame.parse_bytes serialized);
  assert_eq parsed frame.

Definition ethernet_arp_round_trip : exec unit :=
  let frame := EthernetFrame.arp EthernetAddress.BROADCAST mac_a (str "arp-payload") in
  parsed ← unwrap (EthernetFrame.parse_bytes (EthernetFrame.serialize frame));
  let header := EthernetFrame.header parsed in
  _ ← assert_eq (EthernetHeader.dst header) EthernetAddress.BROADCAST;
  _ ← assert_eq (EthernetHeader.src header) mac_a;
  _ ← assert_eq (EthernetHeader.ethertype header) ETHERTYPE_ARP;
  assert_eq (EthernetFrame.payload parsed) (str "arp-payload").

Definition rejects_short_frame : exec unit :=
  error ← unwrap_err (EthernetFrame.parse_bytes (replicate 13 x00));
  assert_eq error FrameTooShort.

Definition frame_destination_filter : exec unit :=
  let mine := mac_a in
  let unicast_to_me := EthernetFrame.ipv4 mine mac_b [] in
  let broadcast := EthernetFrame.ipv4 EthernetAddress.BROADCAST mac_b [] in
  let other := EthernetFrame.ipv4 mac_b mine [] in
  _ ← assert (EthernetFrame.is_for unicast_to_me mine);
  _ ← assert (EthernetFrame.is_for broadcast mine);
  assert (negb (EthernetFrame.is_for other mine)).

Definition tests : list (exec unit) :=
  [ethernet_address_debug_and_display; ethernet_ipv4_round_trip; ethernet_arp_round_trip; rejects_short_frame;
   frame_destination_filter].

End EthernetFrameTests.

Module ArpTests.
Import EthernetFrameTests.

Definition ip (a b c d : Z) : array4 := A4 (z2b a) (z2b b) (z2b c) (z2b d).

Definition arp_request_round_trip : exec unit :=
  let request := ArpMessage.request mac_a (ip 169 254 144 2) (ip 169 254 144 1) in
  serialized ← ArpMessage.serialize request;
  _ ← assert_eq (blen serialized) ARP_MESSAGE_LEN;
  _ ← returns (read_u16 serialized 0) ARP_HARDWARE_TYPE_ETHERNET;
  _ ← returns (read_u16 serialized 2) ARP_PROTOCOL_TYPE_IPV4;
  _ ← returns (read_u8 serialized 4) 6;
  _ ← returns (read_u8 serialized 5) 4;
  _ ← returns (read_u16 serialized 6) ARP_OPCODE_REQUEST;
  parsed ← unwrap (ArpMessage.parse_bytes serialized);
  _ ← assert_eq parsed request;
  _ ← assert (ArpMessage.is_request parsed);
  _ ← assert (negb (ArpMessage.is_reply parsed));
  assert_eq (ArpMessage.target_ethernet_address parsed) EthernetAddress.ZERO.

Definition arp_reply_round_trip : exec unit :=
  let reply := ArpMessage.reply mac_a (ip 169 254 144 1) mac_b (ip 169 254 144 2) in
  serialized ← ArpMessage.serialize reply;
  parsed ← unwrap (ArpMessage.parse_bytes serialized);
  _ ← assert_eq parsed reply;
  _ ← assert (ArpMessage.is_reply parsed);
  _ ← assert (negb (ArpMessage.is_request parsed));
  _ ← assert_eq (ArpMessage.sender_ethernet_address parsed) mac_a;
  assert_eq (ArpMessage.target_ethernet_address parsed) mac_b.

Definition rejects_short_arp_message : exec unit :=
  error ← unwrap_err (ArpMessage.parse_bytes (replicate 27 x00));
  assert_eq error arp.MessageTooShort.

Definition rejects_unsupported_hardware_type : exec unit :=
  data ← ArpMessage.serialize (ArpMessage.request mac_a (ip 1 1 1 1) (ip 2 2 2 2));
  data ← store data 1 [x02];
  error ← unwrap_err (ArpMessage.parse_bytes data);
  assert_eq error (UnsupportedHardwareType 2).

Definition rejects_unsupported_protocol_type : exec unit :=
  data ← ArpMessage.serialize (ArpMessage.request mac_a (ip 1 1 1 1) (ip 2 2 2 2));
  data ← store data 2 (put_u16 34525);
  error ← unwrap_err (ArpMessage.parse_bytes data);
  assert_eq error (UnsupportedProtocolType 34525).

Definition rejects_unsupported_opcode : exec unit :=
  data ← ArpMessage.serialize (ArpMessage.request mac_a (ip 1 1 1 1) (ip 2 2 2 2));
  data ← store data 6 (put_u16 9);
  error ← unwrap_err (ArpMessage.parse_bytes data);
  assert_eq error (UnsupportedOperation 9).

Definition tests : list (exec unit) :=
  [arp_request_round_trip; arp_reply_round_trip; rejects_short_arp_message; rejects_unsupported_hardware_type;
   rejects_unsupported_protocol_type; rejects_unsupported_opcode].

End ArpTests.

Module IcmpTests.

Definition echo_request_round_trips : exec unit :=
  let request := IcmpMessage.echo_request 4660 7 (str "hello") in
  serialized ← IcmpMessage.serialize request;
  parsed ← unwrap (IcmpMessage.parse_bytes serialized);
  assert_eq parsed request.

Definition echo_reply_preserves_id_sequence_and_payload : exec unit :=
  let request := IcmpMessage.echo_request 43981 42 (str "payload") in
  reply ← expect (IcmpMessage.echo_reply_from_request request);
  _ ← assert_eq (IcmpMessage.icmp_type reply) ICMP_ECHO_REPLY;
  _ ← assert_eq (IcmpMessage.code reply) 0;
  _ ← assert_eq (IcmpMessage.identifier reply) (IcmpMessage.identifier request);
  _ ← assert_eq (IcmpMessage.sequence_number reply) (IcmpMessage.sequence_number request);
  _ ← assert_eq (IcmpMessage.payload reply) (IcmpMessage.payload request);
  serialized ← IcmpMessage.serialize reply;
  r ← IcmpMessage.parse_bytes serialized;
  assert (is_ok r).

Definition parse_rejects_bad_checksum : exec unit :=
  bytes ← IcmpMessage.serialize (IcmpMessage.echo_request 1 1 (str "x"));
  b ← read_u8 bytes 8;
  bytes ← store bytes 8 [z2b (Z.lxor b 255)];
  error ← unwrap_err (IcmpMessage.parse_bytes bytes);
  assert_eq error icmp.InvalidChecksum.

Definition tests : list (exec unit) :=
  [echo_request_round_trips; echo_reply_preserves_id_sequence_and_payload; parse_rejects_bad_checksum].

End IcmpTests.

Module Ipv4Tests.
Import ArpTests.

Definition ipv4_round_trip_tcp_payload : exec unit :=
  let payload := str "tcp bytes" in
  let datagram := Ipv4Datagram.new_tcp (ip 192 168 1 10) (ip 93 184 216 34) payload in
  serialized ← Ipv4Datagram.serialize datagram;
  _ ← returns (read_u8 serialized 0) 69;
  _ ← returns (read_u16 serialized 2) (IPV4_HEADER_MIN_LEN + blen payload);
  parsed ← unwrap (Ipv4Datagram.parse_bytes serialized);
  let header := Ipv4Datagram.header parsed in
  _ ← assert_eq (Ipv4Header.src header) (ip 192 168 1 10);
  _ ← assert_eq (Ipv4Header.dst header) (ip 93 184 216 34);
  _ ← assert_eq (Ipv4Header.protocol header) IPV4_PROTOCOL_TCP;
  assert_eq (Ipv4Datagram.payload parsed) payload.

Definition rejects_non_ipv4_packet : exec unit :=
  packet ← Ipv4Datagram.serialize (Ipv4Datagram.new_tcp (ip 1 1 1 1) (ip 2 2 2 2) []);
  packet ← store packet 0 [x65];
  error ← unwrap_err (Ipv4Datagram.parse_bytes packet);
  assert_eq error NotIpv4.

Definition rejects_bad_ipv4_checksum : exec unit :=
  packet ← Ipv4Datagram.serialize (Ipv4Datagram.new_tcp (ip 1 1 1 1) (ip 2 2 2 2) []);
  b ← read_u8 packet 10;
  packet ← store packet 10 [z2b (Z.lxor b 255)];
  error ← unwrap_err (Ipv4Datagram.parse_bytes packet);
  assert_eq error ipv4_datagram.InvalidChecksum.

Definition parse_allows_extra_trailing_bytes_but_respects_total_length : exec unit :=
  packet ← Ipv4Datagram.serialize (Ipv4Datagram.new_tcp (ip 10 0 0 1) (ip 10 0 0 2) (str "abc"));
  let packet := packet ++ str "trailing garbage" in
  parsed ← unwrap (Ipv4Datagram.parse_bytes packet);
  assert_eq (Ipv4Datagram.payload parsed) (str "abc").

Definition rejects_invalid_total_length : exec unit :=
  packet ← Ipv4Datagram.serialize (Ipv4Datagram.new_tcp (ip 10 0 0 1) (ip 10 0 0 2) (str "abc"));
  packet ← store packet 2 (put_u16 10);
  packet ← store packet 10 [x00];
  packet ← store packet 11 [x00];
  head ← slice 0 IPV4_HEADER_MIN_LEN packet;
  checksum ← internet_checksum head;
  packet ← store packet 10 (put_u16 checksum);
  error ← unwrap_err (Ipv4Datagram.parse_bytes packet);
  assert_eq error InvalidTotalLength.

Definition tests : list (exec unit) :=
  [ipv4_round_trip_tcp_payload; rejects_non_ipv4_packet; rejects_bad_ipv4_checksum;
   parse_allows_extra_trailing_bytes_but_respects_total_length; rejects_invalid_total_length].

End Ipv4Tests.

Module TcpSegmentTests.
Import ArpTests TcpSegment.

Definition sender_message : TcpSenderMessage.t :=
  TcpSenderMessage.mk (Wrap32.new 1000) true (str "abc") false false.

Definition tcp_segment_round_trip_with_syn_payload_and_ack : exec unit :=
  let sender := sender_message in
  let receiver := TcpReceiverMessage.mk (Some (Wrap32.new 9001)) 4096 false in
  let segment := from_messages 12345 80 sender (Some receiver) in
  serialized ← serialize_ipv4 segment (ip 10 0 0 1) (ip 10 0 0 2);
  parsed ← unwrap (parse_ipv4_bytes (ip 10 0 0 1) (ip 10 0 0 2) serialized);
  let header := header parsed in
  _ ← assert_eq (TcpHeader.src_port header) 12345;
  _ ← assert_eq (TcpHeader.dst_port header) 80;
  _ ← assert_eq (TcpHeader.seqno header) (Wrap32.new 1000);
  _ ← assert_eq (TcpHeader.ackno header) (Some (Wrap32.new 9001));
  _ ← assert_eq (TcpHeader.window_size header) 4096;
  _ ← assert (TcpHeader.syn header);
  _ ← assert (negb (TcpHeader.fin header));
  _ ← assert (negb (TcpHeader.rst header));
  _ ← assert_eq (payload parsed) (str "abc");
  _ ← assert_eq (to_sender_message parsed) sender;
  assert_eq (to_receiver_message parsed) receiver.

Definition tcp_segment_round_trip_fin_without_ack : exec unit :=
  let sender := TcpSenderMessage.mk (Wrap32.new 77) false [] true false in
  let segment := from_messages 5000 5001 sender None in
  serialized ← serialize_ipv4 segment (ip 192 168 0 1) (ip 192 168 0 2);
  parsed ← unwrap (parse_ipv4_bytes (ip 192 168 0 1) (ip 192 168 0 2) serialized);
  let header := header parsed in
  _ ← assert_eq (TcpHeader.seqno header) (Wrap32.new 77);
  _ ← assert_eq (TcpHeader.ackno header) None;
  _ ← assert (TcpHeader.fin header);
  _ ← assert (negb (TcpHeader.syn header));
  assert_eq (payload parsed) [].

Definition tcp_checksum_rejects_wrong_pseudo_header : exec unit :=
  let segment := from_messages 12345 80 sender_message None in
  serialized ← serialize_ipv4 segment (ip 10 0 0 1) (ip 10 0 0 2);
  error ← unwrap_err (parse_ipv4_bytes (ip 10 0 0 9) (ip 10 0 0 2) serialized);
  assert_eq error tcp_segment.InvalidChecksum.

Definition tcp_parse_rejects_short_segment : exec unit :=
  error ← unwrap_err (parse_ipv4_bytes (ip 1 1 1 1) (ip 2 2 2 2) (replicate 10 x00));
  assert_eq error SegmentTooShort.

Definition tcp_parse_rejects_invalid_data_offset : exec unit :=
  let segment := from_messages 12345 80 sender_message None in
  serialized ← serialize_ipv4 segment (ip 10 0 0 1) (ip 10 0 0 2);
  serialized ← store serialized 12 [z2b (Z.shiftl 4 4)];
  serialized ← store serialized 16 [x00];
  serialized ← store serialized 17 [x00];
  checksum ← tcp_checksum_ipv4 (list4 (ip 10 0 0 1)) (list4 (ip 10 0 0 2)) serialized;
  serialized ← store serialized 16 (put_u16 checksum);
  error ← unwrap_err (parse_ipv4_bytes (ip 10 0 0 1) (ip 10 0 0 2) serialized);
  assert_eq error InvalidDataOffset.

Definition rst_propagates_from_receiver_message : exec unit :=
  let sender := TcpSenderMessage.new (Wrap32.new 100) in
  let receiver := TcpReceiverMessage.mk (Some (Wrap32.new 200)) 0 true in
  let segment := from_messages 1 2 sender (Some receiver) in
  assert (TcpHeader.rst (header segment)).

Definition tests : list (exec unit) :=
  [tcp_segment_round_trip_with_syn_payload_and_ack; tcp_segment_round_trip_fin_without_ack;
   tcp_checksum_rejects_wrong_pseudo_header; tcp_parse_rejects_short_segment; tcp_parse_rejects_invalid_data_offset;
   rst_propagates_from_receiver_message].

End TcpSegmentTests.

Module PcapTests.

(** What is in the capture file after a block that writes it and drops its writer, on a scripted system. *)
Definition file_after (link_type : PcapLinkType.t) (packet : bytes) : exec bytes :=
  '(r, w) ← PcapWriter.session link_type [packet] (Script.mk [] [] [] [] [] [] 0);
  match r with Ok writer => w ← PcapWriter.drop writer w; mret (Script.captured w) | Err _ => panic end.

(** [u32::from_le_bytes(bytes[i..i + 4])] *)
Definition le_u32_at (file : bytes) (i : Z) : exec Z := bs ← slice i (i + 4) file; mret (le_val bs).

Definition writes_classic_pcap_with_raw_linktype : exec unit :=
  let packet := [x45; x00; x00; x14; x00; x00; x40; x00; z2b 64; x01; x00; x00; z2b 127; x00; x00; x01;
                 z2b 127; x00; x00; x01] in
  file ← file_after PcapLinkType.RawIpv4 packet;
  _ ← returns (slice 0 4 file) [xd4; xc3; xb2; xa1];
  _ ← returns (le_u32_at file 20) (PcapLinkType.code PcapLinkType.RawIpv4);
  _ ← returns (le_u32_at file 32) (blen packet);
  returns (slice_from 40 file) packet.

Definition writes_ethernet_linktype : exec unit :=
  file ← file_after PcapLinkType.Ethernet (replicate 14 xff);
  returns (le_u32_at file 20) (PcapLinkType.code PcapLinkType.Ethernet).

Definition tests : list (exec unit) := [writes_classic_pcap_with_raw_linktype; writes_ethernet_linktype].

End PcapTests.

(** The model passes the program's unit tests of these components. *)
Lemma checksum_tests_pass : Forall passes ChecksumTests.tests.
Proof. run_tests. Qed.

Lemma ethernet_frame_tests_pass : Forall passes EthernetFrameTests.tests.
Proof. run_tests. Qed.

Lemma arp_tests_pass : Forall passes ArpTests.tests.
Proof. run_tests. Qed.

Lemma icmp_tests_pass : Forall passes IcmpTests.tests.
Proof. run_tests. Qed.

Lemma ipv4_tests_pass : Forall passes Ipv4Tests.tests.
Proof. run_tests. Qed.

Lemma tcp_segment_tests_pass : Forall passes TcpSegmentTests.tests.
Proof. run_tests. Qed.

Lemma pcap_tests_pass : Forall passes PcapTests.tests.
Proof. run_tests. Qed.
