(* ===== verification/tests_tcp.v ===== *)
(** * The unit tests of the TCP components, run on the model

    The [mod tests] of [src/tcp_message.rs], [src/tcp_receiver.rs], [src/tcp_sender.rs] and
    [src/tcp_connection.rs], as in [tests_stream.v]. *)

From S2P Require Import prelude wrapping_integers byte_stream btree_map tcp_message stream.
From S2P Require Import reassembler tcp_segment tcp_receiver tcp_sender tcp_connection.
From S2P Require Import os host_cli tests_stream.
From Stdlib Require Strings.String.
Import Strings.String.StringSyntax.

#[local] Open Scope Z_scope.

Module TcpMessageTests.

Definition sequence_length_counts_syn_payload_and_fin : exec unit :=
  let message := TcpSenderMessage.mk (Wrap32.new 100) true (str "cat") true false in
  assert_eq (TcpSenderMessage.sequence_length message) 5.

Definition empty_message_occupies_no_sequence_space : exec unit :=
  let message := TcpSenderMessage.new (Wrap32.new 100) in
  _ ← assert_eq (TcpSenderMessage.sequence_length message) 0;
  assert (TcpSenderMessage.is_empty_in_sequence_space message).

Definition tests : list (exec unit) :=
  [sequence_length_counts_syn_payload_and_fin; empty_message_occupies_no_sequence_space].

End TcpMessageTests.

Module TcpReceiverTests.
Import TcpReceiver.

Definition message (seqno : Z) (syn : bool) (payload : bytes) (fin : bool) : TcpSenderMessage.t :=
  TcpSenderMessage.mk (Wrap32.new seqno) syn payload fin false.

Definition buffered_bytes (stream : ByteStream.t) : bytes := concat (ByteStream.chunks stream).

(** [receive(..).unwrap()] *)
Definition receive_unwrap (self : t) (message : TcpSenderMessage.t) : exec t :=
  '(r, self) ← receive self message;
  match r with Ok _ => mret self | Err _ => panic end.

(** One field of [send()]. *)
Definition sends_ackno (self : t) (ackno : option Wrap32.t) : exec unit :=
  response ← send self; assert_eq (TcpReceiverMessage.ackno response) ackno.
Definition sends_window (self : t) (window_size : Z) : exec unit :=
  response ← send self; assert_eq (TcpReceiverMessage.window_size response) window_size.

Definition receiver_has_no_ack_before_syn : exec unit :=
  receiver ← new 10;
  response ← send receiver;
  _ ← assert_eq (TcpReceiverMessage.ackno response) None;
  _ ← assert_eq (TcpReceiverMessage.window_size response) 10;
  assert (negb (TcpReceiverMessage.rst response)).

Definition segment_without_syn_is_ignored_before_connection_starts : exec unit :=
  receiver ← new 10;
  receiver ← receive_unwrap receiver (message 1001 false (str "abc") false);
  _ ← assert_eq (ByteStream.bytes_pushed (output receiver)) 0;
  sends_ackno receiver None.

Definition syn_establishes_isn_and_advances_ack : exec unit :=
  receiver ← new 10;
  receiver ← receive_unwrap receiver (message 1000 true (str "") false);
  _ ← sends_ackno receiver (Some (Wrap32.new 1001));
  sends_window receiver 10.

Definition syn_can_carry_payload : exec unit :=
  receiver ← new 10;
  receiver ← receive_unwrap receiver (message 1000 true (str "abc") false);
  _ ← assert_eq (buffered_bytes (output receiver)) (str "abc");
  _ ← sends_ackno receiver (Some (Wrap32.new 1004));
  sends_window receiver 7.

Definition receiver_reassembles_out_of_order_payload : exec unit :=
  receiver ← new 10;
  receiver ← receive_unwrap receiver (message 1000 true (str "") false);
  receiver ← receive_unwrap receiver (message 1004 false (str "def") false);
  _ ← assert_eq (ByteStream.bytes_pushed (output receiver)) 0;
  _ ← assert_eq (Reassembler.bytes_pending (reassembler receiver)) 3;
  _ ← sends_ackno receiver (Some (Wrap32.new 1001));
  receiver ← receive_unwrap receiver (message 1001 false (str "abc") false);
  _ ← assert_eq (buffered_bytes (output receiver)) (str "abcdef");
  _ ← assert_eq (Reassembler.bytes_pending (reassembler receiver)) 0;
  sends_ackno receiver (Some (Wrap32.new 1007)).

Definition fin_advances_ack_after_complete_reassembly : exec unit :=
  receiver ← new 10;
  receiver ← receive_unwrap receiver (message 1000 true (str "abc") false);
  receiver ← receive_unwrap receiver (message 1004 false (str "de") true);
  _ ← assert_eq (buffered_bytes (output receiver)) (str "abcde");
  _ ← assert (ByteStream.is_closed (output receiver));
  sends_ackno receiver (Some (Wrap32.new 1007)).

Definition fin_waits_until_missing_prefix_arrives : exec unit :=
  receiver ← new 10;
  receiver ← receive_unwrap receiver (message 1000 true (str "") false);
  receiver ← receive_unwrap receiver (message 1004 false (str "def") true);
  _ ← assert (negb (ByteStream.is_closed (output receiver)));
  _ ← sends_ackno receiver (Some (Wrap32.new 1001));
  receiver ← receive_unwrap receiver (message 1001 false (str "abc") false);
  _ ← assert (ByteStream.is_closed (output receiver));
  _ ← assert_eq (buffered_bytes (output receiver)) (str "abcdef");
  sends_ackno receiver (Some (Wrap32.new 1008)).

Definition advertised_window_shrinks_and_reopens : exec unit :=
  receiver ← new 5;
  receiver ← receive_unwrap receiver (message 1000 true (str "abc") false);
  _ ← sends_window receiver 2;
  '(_, o) ← ByteStream.pop (output receiver) 2;
  let receiver := with_output receiver o in
  sends_window receiver 4.

Definition advertised_window_is_limited_to_u16_max : exec unit :=
  receiver ← new 100000;
  sends_window receiver u16_max.

Definition rst_marks_stream_as_failed : exec unit :=
  receiver ← new 10;
  receiver ← receive_unwrap receiver (TcpSenderMessage.mk (Wrap32.new 0) false [] false true);
  _ ← assert (ByteStream.has_error (output receiver));
  response ← send receiver;
  assert (TcpReceiverMessage.rst response).

Definition receiver_handles_seqno_wraparound : exec unit :=
  let isn := u32_max - 1 in
  receiver ← new 10;
  receiver ← receive_unwrap receiver (message isn true (str "cat") true);
  _ ← assert_eq (buffered_bytes (output receiver)) (str "cat");
  _ ← assert (ByteStream.is_closed (output receiver));
  sends_ackno receiver (Some (Wrap32.new 3)).

Definition conflicting_retransmitted_syn_is_ignored : exec unit :=
  receiver ← new 10;
  receiver ← receive_unwrap receiver (message 1000 true (str "") false);
  receiver ← receive_unwrap receiver (message 2000 true (str "abc") false);
  _ ← assert_eq (ByteStream.bytes_pushed (output receiver)) 0;
  sends_ackno receiver (Some (Wrap32.new 1001)).

Definition tests : list (exec unit) :=
  [receiver_has_no_ack_before_syn; segment_without_syn_is_ignored_before_connection_starts;
   syn_establishes_isn_and_advances_ack; syn_can_carry_payload; receiver_reassembles_out_of_order_payload;
   fin_advances_ack_after_complete_reassembly; fin_waits_until_missing_prefix_arrives;
   advertised_window_shrinks_and_reopens; advertised_window_is_limited_to_u16_max; rst_marks_stream_as_failed;
   receiver_handles_seqno_wraparound; conflicting_retransmitted_syn_is_ignored].

End TcpReceiverTests.

Module TcpSenderTests.
Import TcpSender.

Definition test_config : TcpSenderConfig.t := TcpSenderConfig.mk 100 10000 4.

Definition sender : exec t := new 64 (Wrap32.new 1000) test_config.

Definition receiver_message (ackno : option Z) (window_size : Z) : TcpReceiverMessage.t :=
  TcpReceiverMessage.mk (option_map Wrap32.new ackno) window_size false.

(** [push] and [tick] with a callback that appends to [sent]. *)
Definition push_to (self : t) (sent : list TcpSenderMessage.t) : exec (list TcpSenderMessage.t * t) :=
  '(messages, self) ← push self; mret (sent ++ messages, self).
Definition tick_to (self : t) (elapsed_ms : Z) (sent : list TcpSenderMessage.t) : exec (list TcpSenderMessage.t * t) :=
  '(messages, self) ← tick self elapsed_ms; mret (sent ++ messages, self).

(** [outbound_mut().push] and [outbound_mut().close] *)
Definition write (self : t) (data : bytes) : exec (Z * t) :=
  '(n, o) ← ByteStream.push (outbound self) data; mret (n, with_outbound self o).
Definition close (self : t) : t := with_outbound self (ByteStream.close (outbound self)).

Definition outstanding_segments (self : t) : Z := blen (outstanding self).

Definition timer_mode (self : t) : option bytes :=
  match Timer.mode (timer self) with
  | Some Retransmission => Some (str "retransmission")
  | Some Persist => Some (str "persist")
  | None => None
  end.

Definition first_push_sends_syn_only_with_default_window : exec unit :=
  sender ← sender;
  '(sent, sender) ← push_to sender [];
  _ ← assert_eq (blen sent) 1;
  sent0 ← index sent 0;
  _ ← assert_eq (TcpSenderMessage.seqno sent0) (Wrap32.new 1000);
  _ ← assert (TcpSenderMessage.syn sent0);
  _ ← assert_eq (TcpSenderMessage.payload sent0) [];
  _ ← assert (negb (TcpSenderMessage.fin sent0));
  _ ← assert_eq (snd_una sender) 0;
  _ ← assert_eq (snd_nxt sender) 1;
  _ ← returns (bytes_in_flight sender) 1;
  _ ← assert_eq (outstanding_segments sender) 1;
  assert_eq (timer_mode sender) (Some (str "retransmission")).

Definition no_duplicate_syn_on_second_push : exec unit :=
  sender ← sender;
  '(sent, sender) ← push_to sender [];
  '(sent, sender) ← push_to sender sent;
  _ ← assert_eq (blen sent) 1;
  _ ← returns (bytes_in_flight sender) 1;
  assert_eq (outstanding_segments sender) 1.

Definition empty_message_uses_next_sequence_number_and_is_not_tracked : exec unit :=
  sender ← sender;
  '(sent, sender) ← push_to sender [];
  let empty := make_empty_message sender in
  _ ← assert_eq (TcpSenderMessage.seqno empty) (Wrap32.new 1001);
  _ ← assert (TcpSenderMessage.is_empty_in_sequence_space empty);
  assert_eq (outstanding_segments sender) 1.

Definition ack_of_syn_opens_window_and_stops_timer : exec unit :=
  sender ← sender;
  '(sent, sender) ← push_to sender [];
  sender ← receive sender (receiver_message (Some 1001) 8);
  _ ← assert_eq (snd_una sender) 1;
  _ ← assert_eq (snd_nxt sender) 1;
  _ ← returns (bytes_in_flight sender) 0;
  _ ← assert_eq (outstanding_segments sender) 0;
  _ ← assert_eq (timer_timeout_ms sender) None;
  assert_eq (advertised_window sender) 8.

Definition payload_is_segmented_and_fin_is_added_when_space_allows : exec unit :=
  sender ← sender;
  '(sent, sender) ← push_to sender [];
  sender ← receive sender (receiver_message (Some 1001) 8);
  '(n, sender) ← write sender (str "abcdef");
  _ ← assert_eq n 6;
  let sender := close sender in
  '(sent, sender) ← push_to sender [];
  _ ← assert_eq (blen sent) 2;
  sent0 ← index sent 0;
  _ ← assert_eq (TcpSenderMessage.seqno sent0) (Wrap32.new 1001);
  _ ← assert_eq (TcpSenderMessage.payload sent0) (str "abcd");
  _ ← assert (negb (TcpSenderMessage.syn sent0));
  _ ← assert (negb (TcpSenderMessage.fin sent0));
  sent1 ← index sent 1;
  _ ← assert_eq (TcpSenderMessage.seqno sent1) (Wrap32.new 1005);
  _ ← assert_eq (TcpSenderMessage.payload sent1) (str "ef");
  _ ← assert (negb (TcpSenderMessage.syn sent1));
  _ ← assert (TcpSenderMessage.fin sent1);
  _ ← returns (bytes_in_flight sender) 7;
  _ ← assert_eq (outstanding_segments sender) 2;
  assert (fin_sent sender).

Definition fin_waits_for_window_space : exec unit :=
  sender ← sender;
  '(sent, sender) ← push_to sender [];
  sender ← receive sender (receiver_message (Some 1001) 4);
  '(_, sender) ← write sender (str "abcd");
  let sender := close sender in
  '(sent, sender) ← push_to sender [];
  _ ← assert_eq (blen sent) 1;
  sent0 ← index sent 0;
  _ ← assert_eq (TcpSenderMessage.payload sent0) (str "abcd");
  _ ← assert (negb (TcpSenderMessage.fin sent0));
  _ ← assert (negb (fin_sent sender));
  sender ← receive sender (receiver_message (Some 1005) 4);
  '(sent, sender) ← push_to sender [];
  _ ← assert_eq (blen sent) 1;
  sent0 ← index sent 0;
  _ ← assert_eq (TcpSenderMessage.seqno sent0) (Wrap32.new 1005);
  _ ← assert_eq (TcpSenderMessage.payload sent0) [];
  _ ← assert (TcpSenderMessage.fin sent0);
  assert (fin_sent sender).

Definition partial_ack_trims_front_segment_precisely : exec unit :=
  sender ← sender;
  '(sent, sender) ← push_to sender [];
  sender ← receive sender (receiver_message (Some 1001) 8);
  '(_, sender) ← write sender (str "abcdef");
  let sender := close sender in
  '(sent, sender) ← push_to sender sent;
  sender ← receive sender (receiver_message (Some 1003) 8);
  _ ← assert_eq (snd_una sender) 3;
  _ ← returns (bytes_in_flight sender) 5;
  front ← expect (head (outstanding sender));
  _ ← assert_eq (OutstandingSegment.absolute_start front) 3;
  _ ← assert_eq (TcpSenderMessage.seqno (OutstandingSegment.message front)) (Wrap32.new 1003);
  _ ← assert_eq (TcpSenderMessage.payload (OutstandingSegment.message front)) (str "cd");
  _ ← assert (negb (TcpSenderMessage.syn (OutstandingSegment.message front)));
  assert (negb (TcpSenderMessage.fin (OutstandingSegment.message front))).

Definition partial_ack_can_trim_syn_and_payload_together : exec unit :=
  sender ← new 64 (Wrap32.new 5000) (TcpSenderConfig.mk 100 10000 10);
  '(_, sender) ← write sender (str "abc");
  sender ← receive sender (receiver_message None 10);
  '(sent, sender) ← push_to sender [];
  _ ← assert_eq (blen sent) 1;
  sent0 ← index sent 0;
  _ ← assert (TcpSenderMessage.syn sent0);
  _ ← assert_eq (TcpSenderMessage.payload sent0) (str "abc");
  sender ← receive sender (TcpReceiverMessage.mk (Some (Wrap32.new 5002)) 10 false);
  front ← expect (head (outstanding sender));
  _ ← assert_eq (OutstandingSegment.absolute_start front) 2;
  _ ← assert_eq (TcpSenderMessage.seqno (OutstandingSegment.message front)) (Wrap32.new 5002);
  _ ← assert (negb (TcpSenderMessage.syn (OutstandingSegment.message front)));
  assert_eq (TcpSenderMessage.payload (OutstandingSegment.message front)) (str "bc").

Definition ack_beyond_snd_nxt_is_ignored : exec unit :=
  sender ← sender;
  '(sent, sender) ← push_to sender [];
  sender ← receive sender (receiver_message (Some 9999) 10);
  _ ← assert_eq (snd_una sender) 0;
  _ ← assert_eq (snd_nxt sender) 1;
  _ ← returns (bytes_in_flight sender) 1;
  assert_eq (outstanding_segments sender) 1.

Definition duplicate_ack_updates_window_but_does_not_reset_rto : exec unit :=
  sender ← sender;
  '(sent, sender) ← push_to sender [];
  '(_, sender) ← tick sender 100;
  _ ← assert_eq (current_rto_ms sender) 200;
  _ ← assert_eq (consecutive_retransmissions sender) 1;
  sender ← receive sender (receiver_message (Some 1000) 20);
  _ ← assert_eq (advertised_window sender) 20;
  _ ← assert_eq (current_rto_ms sender) 200;
  assert_eq (consecutive_retransmissions sender) 1.

Definition timeout_retransmits_earliest_segment_and_backs_off_rto : exec unit :=
  sender ← sender;
  '(sent, sender) ← push_to sender [];
  '(sent, sender) ← tick_to sender 99 [];
  _ ← assert_eq sent [];
  '(sent, sender) ← tick_to sender 1 sent;
  _ ← assert_eq (blen sent) 1;
  sent0 ← index sent 0;
  _ ← assert (TcpSenderMessage.syn sent0);
  _ ← assert_eq (current_rto_ms sender) 200;
  _ ← assert_eq (consecutive_retransmissions sender) 1;
  _ ← assert_eq (timer_timeout_ms sender) (Some 200);
  assert_eq (timer_mode sender) (Some (str "retransmission")).

Definition advancing_ack_resets_loss_backoff : exec unit :=
  sender ← sender;
  '(sent, sender) ← push_to sender [];
  '(_, sender) ← tick sender 100;
  _ ← assert_eq (current_rto_ms sender) 200;
  _ ← assert_eq (consecutive_retransmissions sender) 1;
  sender ← receive sender (receiver_message (Some 1001) 10);
  _ ← assert_eq (current_rto_ms sender) 100;
  _ ← assert_eq (consecutive_retransmissions sender) 0;
  _ ← returns (bytes_in_flight sender) 0;
  assert_eq (timer_timeout_ms sender) None.

Definition rto_backoff_is_capped : exec unit :=
  sender ← new 64 (Wrap32.new 1000) (TcpSenderConfig.mk 100 250 4);
  '(sent, sender) ← push_to sender [];
  '(_, sender) ← tick sender 100;
  _ ← assert_eq (current_rto_ms sender) 200;
  '(_, sender) ← tick sender 200;
  _ ← assert_eq (current_rto_ms sender) 250;
  '(_, sender) ← tick sender 250;
  assert_eq (current_rto_ms sender) 250.

Definition zero_window_allows_one_probe_and_uses_persist_backoff : exec unit :=
  sender ← sender;
  '(sent, sender) ← push_to sender [];
  sender ← receive sender (receiver_message (Some 1001) 0);
  '(_, sender) ← write sender (str "ABC");
  '(sent, sender) ← push_to sender [];
  _ ← assert_eq (blen sent) 1;
  sent0 ← index sent 0;
  _ ← assert_eq (TcpSenderMessage.seqno sent0) (Wrap32.new 1001);
  _ ← assert_eq (TcpSenderMessage.payload sent0) (str "A");
  _ ← returns (bytes_in_flight sender) 1;
  _ ← assert_eq (timer_mode sender) (Some (str "persist"));
  '(sent, sender) ← tick_to sender 100 [];
  _ ← assert_eq (blen sent) 1;
  sent0 ← index sent 0;
  _ ← assert_eq (TcpSenderMessage.payload sent0) (str "A");
  _ ← assert_eq (consecutive_retransmissions sender) 0;
  _ ← assert_eq (persist_interval_ms sender) 200;
  _ ← assert_eq (timer_timeout_ms sender) (Some 200);
  assert_eq (timer_mode sender) (Some (str "persist")).

Definition opening_window_after_probe_allows_normal_sending : exec unit :=
  sender ← sender;
  '(sent, sender) ← push_to sender [];
  sender ← receive sender (receiver_message (Some 1001) 0);
  '(_, sender) ← write sender (str "ABC");
  '(sent, sender) ← push_to sender [];
  sent0 ← index sent 0;
  _ ← assert_eq (TcpSenderMessage.payload sent0) (str "A");
  sender ← receive sender (receiver_message (Some 1002) 10);
  '(sent, sender) ← push_to sender [];
  _ ← assert_eq (blen sent) 1;
  sent0 ← index sent 0;
  _ ← assert_eq (TcpSenderMessage.payload sent0) (str "BC");
  _ ← assert_eq (timer_mode sender) (Some (str "retransmission"));
  assert_eq (consecutive_retransmissions sender) 0.

Definition window_shrink_does_not_send_new_data_if_flight_exceeds_window : exec unit :=
  sender ← sender;
  '(sent, sender) ← push_to sender [];
  sender ← receive sender (receiver_message (Some 1001) 5);
  '(_, sender) ← write sender (str "ABCDE");
  '(sent, sender) ← push_to sender [];
  _ ← returns (bytes_in_flight sender) 5;
  sender ← receive sender (receiver_message (Some 1001) 0);
  '(sent, sender) ← push_to sender [];
  _ ← assert_eq sent [];
  returns (bytes_in_flight sender) 5.

Definition rst_aborts_sender_and_clears_outstanding_queue : exec unit :=
  sender ← sender;
  '(sent, sender) ← push_to sender [];
  sender ← receive sender (TcpReceiverMessage.mk None 0 true);
  _ ← assert (ByteStream.has_error (outbound sender));
  _ ← returns (bytes_in_flight sender) 0;
  _ ← assert_eq (outstanding_segments sender) 0;
  assert_eq (timer_timeout_ms sender) None.

Definition sender_finishes_after_fin_is_fully_acked : exec unit :=
  sender ← sender;
  '(sent, sender) ← push_to sender [];
  sender ← receive sender (receiver_message (Some 1001) 10);
  let sender := close sender in
  '(sent, sender) ← push_to sender [];
  _ ← assert_eq (blen sent) 1;
  sent0 ← index sent 0;
  _ ← assert (TcpSenderMessage.fin sent0);
  _ ← assert_eq (TcpSenderMessage.seqno sent0) (Wrap32.new 1001);
  _ ← assert (negb (is_finished sender));
  sender ← receive sender (receiver_message (Some 1002) 10);
  _ ← assert (is_finished sender);
  _ ← returns (bytes_in_flight sender) 0;
  assert_eq (outstanding_segments sender) 0.

Definition sequence_number_wraparound_is_handled : exec unit :=
  sender ← new 64 (Wrap32.new (u32_max - 1)) test_config;
  '(sent, sender) ← push_to sender [];
  sent0 ← index sent 0;
  _ ← assert_eq (TcpSenderMessage.seqno sent0) (Wrap32.new (u32_max - 1));
  _ ← assert (TcpSenderMessage.syn sent0);
  sender ← receive sender (TcpReceiverMessage.mk (Some (Wrap32.new u32_max)) 10 false);
  '(_, sender) ← write sender (str "cat");
  let sender := close sender in
  '(sent, sender) ← push_to sender [];
  _ ← assert_eq (blen sent) 1;
  sent0 ← index sent 0;
  _ ← assert_eq (TcpSenderMessage.seqno sent0) (Wrap32.new u32_max);
  _ ← assert_eq (TcpSenderMessage.payload sent0) (str "cat");
  _ ← assert (TcpSenderMessage.fin sent0);
  sender ← receive sender (TcpReceiverMessage.mk (Some (Wrap32.new 3)) 10 false);
  assert (is_finished sender).

Definition tests : list (exec unit) :=
  [first_push_sends_syn_only_with_default_window; no_duplicate_syn_on_second_push;
   empty_message_uses_next_sequence_number_and_is_not_tracked; ack_of_syn_opens_window_and_stops_timer;
   payload_is_segmented_and_fin_is_added_when_space_allows; fin_waits_for_window_space;
   partial_ack_trims_front_segment_precisely; partial_ack_can_trim_syn_and_payload_together;
   ack_beyond_snd_nxt_is_ignored; duplicate_ack_updates_window_but_does_not_reset_rto;
   timeout_retransmits_earliest_segment_and_backs_off_rto; advancing_ack_resets_loss_backoff; rto_backoff_is_capped;
   zero_window_allows_one_probe_and_uses_persist_backoff; opening_window_after_probe_allows_normal_sending;
   window_shrink_does_not_send_new_data_if_flight_exceeds_window; rst_aborts_sender_and_clears_outstanding_queue;
   sender_finishes_after_fin_is_fully_acked; sequence_number_wraparound_is_handled].

End TcpSenderTests.

Module TcpConnectionTests.
Import TcpConnection.

Definition sender_config : TcpSenderConfig.t := TcpSenderConfig.mk 100 10000 4.

Definition client : exec t :=
  new (TcpConnectionConfig.mk 50000 80 128 128 (Wrap32.new 1000) sender_config).

Definition server : exec t :=
  new (TcpConnectionConfig.mk 80 50000 128 128 (Wrap32.new 9000) sender_config).

(** [remove(0)] on the segments of a call, of which the rest is dropped. *)
Definition first (m : exec (list TcpSegment.t * t)) : exec (TcpSegment.t * t) :=
  '(segments, self) ← m;
  segment ← index segments 0;
  mret (segment, self).

Definition ackno (s : TcpSegment.t) : option Wrap32.t := TcpHeader.ackno (TcpSegment.header s).
Definition seqno (s : TcpSegment.t) : Wrap32.t := TcpHeader.seqno (TcpSegment.header s).

Definition complete_handshake (client server : t) : exec (t * t) :=
  '(syn, client) ← first (connect client);
  '(syn_ack, server) ← first (receive_segment server syn);
  '(ack, client) ← first (receive_segment client syn_ack);
  '(response, server) ← receive_segment server ack;
  _ ← assert (blen response =? 0);
  _ ← returns (is_established client) true;
  _ ← returns (is_established server) true;
  mret (client, server).

Definition active_open_sends_syn : exec unit :=
  client ← client;
  '(segments, client) ← connect client;
  _ ← assert_eq (blen segments) 1;
  syn ← index segments 0;
  let header := TcpSegment.header syn in
  _ ← assert_eq (TcpHeader.src_port header) 50000;
  _ ← assert_eq (TcpHeader.dst_port header) 80;
  _ ← assert_eq (TcpHeader.seqno header) (Wrap32.new 1000);
  _ ← assert (TcpHeader.syn header);
  _ ← assert (negb (TcpHeader.fin header));
  _ ← assert_eq (TcpSegment.payload syn) [];
  returns (bytes_in_flight client) 1.

Definition passive_open_replies_with_syn_ack : exec unit :=
  client ← client;
  server ← server;
  '(syn, client) ← first (connect client);
  '(response, server) ← receive_segment server syn;
  _ ← assert_eq (blen response) 1;
  syn_ack ← index response 0;
  let header := TcpSegment.header syn_ack in
  _ ← assert_eq (TcpHeader.src_port header) 80;
  _ ← assert_eq (TcpHeader.dst_port header) 50000;
  _ ← assert_eq (TcpHeader.seqno header) (Wrap32.new 9000);
  _ ← assert_eq (TcpHeader.ackno header) (Some (Wrap32.new 1001));
  _ ← assert (TcpHeader.syn header);
  _ ← assert (negb (TcpHeader.fin header));
  returns (bytes_in_flight server) 1.

Definition three_way_handshake_reaches_established_state : exec unit :=
  client ← client;
  server ← server;
  '(syn, client) ← first (connect client);
  '(syn_ack, server) ← first (receive_segment server syn);
  '(client_ack, client) ← receive_segment client syn_ack;
  _ ← assert_eq (blen client_ack) 1;
  ack0 ← index client_ack 0;
  _ ← assert_eq (ackno ack0) (Some (Wrap32.new 9001));
  _ ← assert (negb (TcpHeader.syn (TcpSegment.header ack0)));
  _ ← assert_eq (TcpSegment.payload ack0) [];
  '(server_response, server) ← receive_segment server ack0;
  _ ← assert (blen server_response =? 0);
  _ ← returns (is_established client) true;
  _ ← returns (is_established server) true;
  _ ← returns (bytes_in_flight client) 0;
  returns (bytes_in_flight server) 0.

Definition client_data_is_acked_by_server : exec unit :=
  client ← client;
  server ← server;
  '(client, server) ← complete_handshake client server;
  '(written, data_segments, client) ← write client (str "hello");
  _ ← assert_eq written 5;
  _ ← assert_eq (blen data_segments) 2;
  data0 ← index data_segments 0;
  _ ← assert_eq (TcpSegment.payload data0) (str "hell");
  _ ← assert_eq (seqno data0) (Wrap32.new 1001);
  _ ← assert_eq (ackno data0) (Some (Wrap32.new 9001));
  data1 ← index data_segments 1;
  _ ← assert_eq (TcpSegment.payload data1) (str "o");
  _ ← assert_eq (seqno data1) (Wrap32.new 1005);
  '(ack1, server) ← receive_segment server data0;
  _ ← assert_eq (blen ack1) 1;
  ack1 ← index ack1 0;
  _ ← assert_eq (ackno ack1) (Some (Wrap32.new 1005));
  '(ack2, server) ← receive_segment server data1;
  _ ← assert_eq (blen ack2) 1;
  ack2 ← index ack2 0;
  _ ← assert_eq (ackno ack2) (Some (Wrap32.new 1006));
  '(_, client) ← receive_segment client ack1;
  '(_, client) ← receive_segment client ack2;
  returns (bytes_in_flight client) 0.

Definition data_ack_can_be_piggybacked_on_sender_data : exec unit :=
  client ← client;
  server ← server;
  '(client, server) ← complete_handshake client server;
  '(_, client_data, client) ← write client (str "abc");
  _ ← assert_eq (blen client_data) 1;
  '(_, server_pending_data, server) ← write server (str "xyz");
  _ ← assert_eq (blen server_pending_data) 1;
  data0 ← index client_data 0;
  '(server_response, server) ← receive_segment server data0;
  match server_response with
  | [] =>
      '(pure_ack, server) ← receive_segment server data0;
      assert (blen pure_ack <=? 1)
  | response :: _ => assert_eq (ackno response) (Some (Wrap32.new 1004))
  end.

Definition close_sends_fin_and_peer_acks_it : exec unit :=
  client ← client;
  server ← server;
  '(client, server) ← complete_handshake client server;
  '(fin_segments, client) ← close client;
  _ ← assert_eq (blen fin_segments) 1;
  fin0 ← index fin_segments 0;
  _ ← assert (TcpHeader.fin (TcpSegment.header fin0));
  _ ← assert_eq (seqno fin0) (Wrap32.new 1001);
  '(server_ack, server) ← receive_segment server fin0;
  _ ← assert_eq (blen server_ack) 1;
  ack0 ← index server_ack 0;
  _ ← assert_eq (ackno ack0) (Some (Wrap32.new 1002));
  '(_, client) ← receive_segment client ack0;
  assert (is_finished client).

Definition retransmission_reemits_oldest_outstanding_segment : exec unit :=
  client ← client;
  '(syn, client) ← first (connect client);
  '(retransmissions, client) ← tick client 100;
  _ ← assert_eq (blen retransmissions) 1;
  again ← index retransmissions 0;
  _ ← assert_eq (seqno again) (seqno syn);
  _ ← assert (TcpHeader.syn (TcpSegment.header again));
  _ ← assert_eq (TcpSender.consecutive_retransmissions (sender client)) 1;
  assert_eq (TcpSender.current_rto_ms (sender client)) 200.

Definition wrong_ports_are_ignored : exec unit :=
  client ← client;
  let bad := TcpSegment.from_messages 1234 5678
    (TcpSenderMessage.mk (Wrap32.new 1) true [] false false) None in
  '(response, client) ← receive_segment client bad;
  _ ← assert (blen response =? 0);
  returns (bytes_in_flight client) 0.

Definition tests : list (exec unit) :=
  [active_open_sends_syn; passive_open_replies_with_syn_ack; three_way_handshake_reaches_established_state;
   client_data_is_acked_by_server; data_ack_can_be_piggybacked_on_sender_data; close_sends_fin_and_peer_acks_it;
   retransmission_reemits_oldest_outstanding_segment; wrong_ports_are_ignored].

End TcpConnectionTests.

(** The model passes the program's unit tests of these components. *)
Lemma tcp_message_tests_pass : Forall passes TcpMessageTests.tests.
Proof. run_tests. Qed.

Lemma tcp_receiver_tests_pass : Forall passes TcpReceiverTests.tests.
Proof. run_tests. Qed.

Lemma tcp_sender_tests_pass : Forall passes TcpSenderTests.tests.
Proof. run_tests. Qed.

Lemma tcp_connection_tests_pass : Forall passes TcpConnectionTests.tests.
Proof. run_tests. Qed.
