(* ===== verification/tests_net.v ===== *)
(** * The unit and integration tests of the network layer, run on the model

    The [mod tests] of [src/network_interface.rs], [src/router.rs], [src/ip_host.rs],
    [src/tap.rs] and [src/tun.rs], and [tests/packet_flows.rs], as in [tests_stream.v].  The
    one test of [src/tun.rs] on the size of a C structure is left out. *)

From S2P Require Import prelude wrapping_integers byte_stream tcp_message checksum ethernet_frame.
From S2P Require Import arp icmp ipv4_datagram tcp_segment tcp_receiver tcp_sender.
From S2P Require Import tcp_connection network_interface router ip_host os tap.
From S2P Require Import tun host_cli tests_stream tests_wire.
From stdpp Require Import gmap.
From Stdlib Require Strings.String.
Import Strings.String.StringSyntax.

#[local] Open Scope Z_scope.

#[global] Instance ipv4_header_eq_dec : EqDecision Ipv4Header.t.
Proof. solve_decision. Defined.
#[global] Instance ipv4_datagram_eq_dec : EqDecision Ipv4Datagram.t.
Proof. solve_decision. Defined.

Definition ip (a b c d : Z) : array4 := A4 (z2b a) (z2b b) (z2b c) (z2b d).
Definition mac (n : Z) : EthernetAddress.t := A6 x02 x00 x00 x00 x00 (z2b n).

(** [pop_frame().unwrap()] and [pop_datagram().unwrap()] *)
Definition take_frame (iface : NetworkInterface.t) : exec (EthernetFrame.t * NetworkInterface.t) :=
  let '(frame, iface) := NetworkInterface.pop_frame iface in
  frame ← expect frame; mret (frame, iface).
Definition take_datagram (iface : NetworkInterface.t) : exec (Ipv4Datagram.t * NetworkInterface.t) :=
  let '(datagram, iface) := NetworkInterface.pop_datagram iface in
  datagram ← expect datagram; mret (datagram, iface).

(** The header of a frame, and the destination, the source and the type at once. *)
Definition frame_header (frame : EthernetFrame.t) (dst src : EthernetAddress.t) (ethertype : Z) : exec unit :=
  _ ← assert_eq (EthernetHeader.dst (EthernetFrame.header frame)) dst;
  _ ← assert_eq (EthernetHeader.src (EthernetFrame.header frame)) src;
  assert_eq (EthernetHeader.ethertype (EthernetFrame.header frame)) ethertype.

(** An ARP message in a frame. *)
Definition arp_frame_of (dst src : EthernetAddress.t) (message : ArpMessage.t) : exec EthernetFrame.t :=
  payload ← ArpMessage.serialize message; mret (EthernetFrame.arp dst src payload).

Module NetworkInterfaceTests.
Import NetworkInterface.

Definition my_mac : EthernetAddress.t := mac 1.
Definition peer_mac : EthernetAddress.t := mac 2.
Definition other_mac : EthernetAddress.t := mac 3.
Definition my_ip : Ipv4AddrBytes.t := ip 169 254 144 2.
Definition peer_ip : Ipv4AddrBytes.t := ip 169 254 144 1.
Definition other_ip : Ipv4AddrBytes.t := ip 10 0 0 99.

Definition interface : t := new my_mac my_ip.
Definition datagram (payload : bytes) : Ipv4Datagram.t := Ipv4Datagram.new_tcp my_ip peer_ip payload.

Definition arp_reply_from_peer : exec EthernetFrame.t :=
  arp_frame_of my_mac peer_mac (ArpMessage.reply peer_mac peer_ip my_mac my_ip).

Definition cache_hit_sends_ipv4_frame_immediately : exec unit :=
  iface ← learn_arp_mapping interface peer_ip peer_mac;
  iface ← send_datagram iface (datagram (str "abc")) peer_ip;
  _ ← assert_eq (frames_out_len iface) 1;
  '(frame, iface) ← take_frame iface;
  _ ← frame_header frame peer_mac my_mac ETHERTYPE_IPV4;
  parsed ← unwrap (Ipv4Datagram.parse_bytes (EthernetFrame.payload frame));
  assert_eq (Ipv4Datagram.payload parsed) (str "abc").

Definition cache_miss_sends_arp_request_and_queues_datagram : exec unit :=
  iface ← send_datagram interface (datagram (str "abc")) peer_ip;
  _ ← assert_eq (frames_out_len iface) 1;
  _ ← assert_eq (pending_len iface) 1%nat;
  '(frame, iface) ← take_frame iface;
  _ ← frame_header frame EthernetAddress.BROADCAST my_mac ETHERTYPE_ARP;
  arp ← unwrap (ArpMessage.parse_bytes (EthernetFrame.payload frame));
  _ ← assert (ArpMessage.is_request arp);
  _ ← assert_eq (ArpMessage.sender_ethernet_address arp) my_mac;
  _ ← assert_eq (ArpMessage.sender_ip_address arp) my_ip;
  _ ← assert_eq (ArpMessage.target_ethernet_address arp) EthernetAddress.ZERO;
  assert_eq (ArpMessage.target_ip_address arp) peer_ip.

Definition repeated_datagrams_within_cooldown_do_not_send_duplicate_arp_requests : exec unit :=
  iface ← send_datagram interface (datagram (str "one")) peer_ip;
  iface ← send_datagram iface (datagram (str "two")) peer_ip;
  iface ← send_datagram iface (datagram (str "three")) peer_ip;
  _ ← assert_eq (frames_out_len iface) 1;
  _ ← assert_eq (pending_len iface) 1%nat;
  '(frame, iface) ← take_frame iface;
  arp ← unwrap (ArpMessage.parse_bytes (EthernetFrame.payload frame));
  assert (ArpMessage.is_request arp).

Definition after_pending_expires_new_datagram_can_trigger_new_arp_request : exec unit :=
  iface ← send_datagram interface (datagram (str "one")) peer_ip;
  _ ← assert_eq (frames_out_len iface) 1;
  _ ← assert_eq (pending_len iface) 1%nat;
  let '(_, iface) := pop_frame iface in
  let iface := tick iface PENDING_DATAGRAM_TTL_MS in
  _ ← assert_eq (pending_len iface) 0%nat;
  iface ← send_datagram iface (datagram (str "two")) peer_ip;
  _ ← assert_eq (frames_out_len iface) 1;
  assert_eq (pending_len iface) 1%nat.

Definition arp_reply_learns_mapping_and_flushes_queued_datagrams : exec unit :=
  iface ← send_datagram interface (datagram (str "one")) peer_ip;
  iface ← send_datagram iface (datagram (str "two")) peer_ip;
  _ ← assert_eq (frames_out_len iface) 1;
  _ ← assert_eq (pending_len iface) 1%nat;
  let '(_, iface) := pop_frame iface in
  reply ← arp_reply_from_peer;
  iface ← recv_frame iface reply;
  _ ← assert_eq (pending_len iface) 0%nat;
  _ ← assert_eq (arp_cache_len iface) 1%nat;
  _ ← assert_eq (lookup_ethernet_address iface peer_ip) (Some peer_mac);
  _ ← assert_eq (frames_out_len iface) 2;
  '(first, iface) ← take_frame iface;
  '(second, iface) ← take_frame iface;
  _ ← frame_header first peer_mac my_mac ETHERTYPE_IPV4;
  _ ← frame_header second peer_mac my_mac ETHERTYPE_IPV4;
  first_datagram ← unwrap (Ipv4Datagram.parse_bytes (EthernetFrame.payload first));
  second_datagram ← unwrap (Ipv4Datagram.parse_bytes (EthernetFrame.payload second));
  _ ← assert_eq (Ipv4Datagram.payload first_datagram) (str "one");
  assert_eq (Ipv4Datagram.payload second_datagram) (str "two").

Definition arp_request_for_my_ip_gets_reply_and_learns_sender : exec unit :=
  frame ← arp_frame_of EthernetAddress.BROADCAST peer_mac (ArpMessage.request peer_mac peer_ip my_ip);
  iface ← recv_frame interface frame;
  _ ← assert_eq (lookup_ethernet_address iface peer_ip) (Some peer_mac);
  _ ← assert_eq (frames_out_len iface) 1;
  '(reply_frame, iface) ← take_frame iface;
  _ ← frame_header reply_frame peer_mac my_mac ETHERTYPE_ARP;
  reply ← unwrap (ArpMessage.parse_bytes (EthernetFrame.payload reply_frame));
  _ ← assert (ArpMessage.is_reply reply);
  _ ← assert_eq (ArpMessage.sender_ethernet_address reply) my_mac;
  _ ← assert_eq (ArpMessage.sender_ip_address reply) my_ip;
  _ ← assert_eq (ArpMessage.target_ethernet_address reply) peer_mac;
  assert_eq (ArpMessage.target_ip_address reply) peer_ip.

Definition arp_request_for_someone_else_is_learned_but_not_replied_to : exec unit :=
  frame ← arp_frame_of EthernetAddress.BROADCAST peer_mac (ArpMessage.request peer_mac peer_ip other_ip);
  iface ← recv_frame interface frame;
  _ ← assert_eq (lookup_ethernet_address iface peer_ip) (Some peer_mac);
  assert_eq (frames_out_len iface) 0.

(** A datagram to [peer_ip] in a frame from the peer to [dst]. *)
Definition ipv4_frame_to (dst : EthernetAddress.t) (payload : bytes) : exec EthernetFrame.t :=
  dgram ← Ipv4Datagram.serialize (datagram payload); mret (EthernetFrame.ipv4 dst peer_mac dgram).

Definition ipv4_frame_for_me_is_accepted : exec unit :=
  frame ← ipv4_frame_to my_mac (str "hello");
  iface ← recv_frame interface frame;
  _ ← assert_eq (datagrams_in_len iface) 1;
  '(received, iface) ← take_datagram iface;
  assert_eq (Ipv4Datagram.payload received) (str "hello").

Definition broadcast_ipv4_frame_is_accepted : exec unit :=
  frame ← ipv4_frame_to EthernetAddress.BROADCAST (str "hello");
  iface ← recv_frame interface frame;
  assert_eq (datagrams_in_len iface) 1.

Definition frame_not_for_me_is_ignored : exec unit :=
  frame ← ipv4_frame_to other_mac (str "hello");
  iface ← recv_frame interface frame;
  _ ← assert_eq (datagrams_in_len iface) 0;
  assert_eq (frames_out_len iface) 0.

Definition malformed_ipv4_frame_is_ignored : exec unit :=
  let frame := EthernetFrame.ipv4 my_mac peer_mac (str "not-an-ipv4-packet") in
  iface ← recv_frame interface frame;
  assert_eq (datagrams_in_len iface) 0.

Definition malformed_arp_frame_is_ignored : exec unit :=
  let frame := EthernetFrame.arp my_mac peer_mac (str "too-short") in
  iface ← recv_frame interface frame;
  _ ← assert_eq (frames_out_len iface) 0;
  assert_eq (arp_cache_len iface) 0%nat.

Definition arp_cache_entry_expires_after_30_seconds : exec unit :=
  iface ← learn_arp_mapping interface peer_ip peer_mac;
  _ ← assert (has_arp_cache_entry iface peer_ip);
  let iface := tick iface (ARP_CACHE_TTL_MS - 1) in
  _ ← assert (has_arp_cache_entry iface peer_ip);
  let iface := tick iface 1 in
  assert (negb (has_arp_cache_entry iface peer_ip)).

Definition learning_existing_arp_mapping_refreshes_ttl : exec unit :=
  iface ← learn_arp_mapping interface peer_ip peer_mac;
  let iface := tick iface (ARP_CACHE_TTL_MS - 1) in
  _ ← assert (has_arp_cache_entry iface peer_ip);
  iface ← learn_arp_mapping iface peer_ip peer_mac;
  let iface := tick iface 1 in
  assert (has_arp_cache_entry iface peer_ip).

Definition arp_reply_for_unrelated_ip_is_still_learned : exec unit :=
  frame ← arp_frame_of my_mac other_mac (ArpMessage.reply other_mac other_ip peer_mac peer_ip);
  iface ← recv_frame interface frame;
  assert_eq (lookup_ethernet_address iface other_ip) (Some other_mac).

Definition tests : list (exec unit) :=
  [cache_hit_sends_ipv4_frame_immediately; cache_miss_sends_arp_request_and_queues_datagram;
   repeated_datagrams_within_cooldown_do_not_send_duplicate_arp_requests;
   after_pending_expires_new_datagram_can_trigger_new_arp_request;
   arp_reply_learns_mapping_and_flushes_queued_datagrams; arp_request_for_my_ip_gets_reply_and_learns_sender;
   arp_request_for_someone_else_is_learned_but_not_replied_to; ipv4_frame_for_me_is_accepted;
   broadcast_ipv4_frame_is_accepted; frame_not_for_me_is_ignored; malformed_ipv4_frame_is_ignored;
   malformed_arp_frame_is_ignored; arp_cache_entry_expires_after_30_seconds;
   learning_existing_arp_mapping_refreshes_ttl; arp_reply_for_unrelated_ip_is_still_learned].

End NetworkInterfaceTests.

Module RouterTests.
Import Router.

Definition datagram (dst : Ipv4AddrBytes.t) (ttl : Z) (payload : bytes) : Ipv4Datagram.t :=
  let datagram := Ipv4Datagram.new_tcp (ip 10 0 0 100) dst payload in
  let h := Ipv4Datagram.header datagram in
  Ipv4Datagram.mk (Ipv4Header.mk (Ipv4Header.src h) (Ipv4Header.dst h) ttl (Ipv4Header.protocol h)
                     (Ipv4Header.identification h) (Ipv4Header.flags_fragment_offset h)) (Ipv4Datagram.payload datagram).

Definition test_interface (n : Z) (addr : Ipv4AddrBytes.t) : NetworkInterface.t := NetworkInterface.new (mac n) addr.

(** [interface(n).unwrap()] and [interface_mut(n).unwrap().recv_frame(frame)] *)
Definition the_interface (router : t) (n : Z) : exec NetworkInterface.t := expect (interface router n).
Definition recv_on (router : t) (n : Z) (frame : EthernetFrame.t) : exec t :=
  iface ← the_interface router n;
  iface ← NetworkInterface.recv_frame iface frame;
  mret (set_interface router n iface).

Definition prime_arp (router : t) (interface_num : Z) (next_hop_ip : Ipv4AddrBytes.t)
    (next_hop_mac : EthernetAddress.t) : exec t :=
  iface ← the_interface router interface_num;
  let my_mac := NetworkInterface.ethernet_address iface in
  let reply := ArpMessage.reply next_hop_mac next_hop_ip my_mac (NetworkInterface.ip_address iface) in
  frame ← arp_frame_of my_mac next_hop_mac reply;
  recv_on router interface_num frame.

Definition inject_datagram (router : t) (interface_num : Z) (datagram : Ipv4Datagram.t) : exec t :=
  iface ← the_interface router interface_num;
  payload ← Ipv4Datagram.serialize datagram;
  recv_on router interface_num (EthernetFrame.ipv4 (NetworkInterface.ethernet_address iface) (mac 99) payload).

(** The next frame out of an interface, of the given type. *)
Definition pop_typed (router : t) (interface_num ethertype : Z) : exec (EthernetFrame.t * t) :=
  iface ← the_interface router interface_num;
  '(frame, iface) ← take_frame iface;
  _ ← assert_eq (EthernetHeader.ethertype (EthernetFrame.header frame)) ethertype;
  mret (frame, set_interface router interface_num iface).

Definition pop_forwarded (router : t) (interface_num : Z) : exec (EthernetFrame.t * Ipv4Datagram.t * t) :=
  '(frame, router) ← pop_typed router interface_num ETHERTYPE_IPV4;
  datagram ← unwrap (Ipv4Datagram.parse_bytes (EthernetFrame.payload frame));
  mret (frame, datagram, router).

Definition pop_arp (router : t) (interface_num : Z) : exec (EthernetFrame.t * ArpMessage.t * t) :=
  '(frame, router) ← pop_typed router interface_num ETHERTYPE_ARP;
  message ← unwrap (ArpMessage.parse_bytes (EthernetFrame.payload frame));
  mret (frame, message, router).

(** [assert_eq!(router.interface(n).unwrap().frames_out_len(), 0)] *)
Definition nothing_out (router : t) (n : Z) : exec unit :=
  iface ← the_interface router n;
  assert_eq (NetworkInterface.frames_out_len iface) 0.

(** The checks on a forwarded datagram. *)
Definition checks (frame : EthernetFrame.t) (forwarded : Ipv4Datagram.t) (dst : EthernetAddress.t) (ttl : Z)
    (payload : bytes) : exec unit :=
  _ ← assert_eq (EthernetHeader.dst (EthernetFrame.header frame)) dst;
  _ ← assert_eq (Ipv4Header.ttl (Ipv4Datagram.header forwarded)) ttl;
  assert_eq (Ipv4Datagram.payload forwarded) payload.

Definition longest_prefix_match_selects_most_specific_route : exec unit :=
  let router := new in
  let '(input, router) := add_interface router (test_interface 1 (ip 10 0 0 1)) in
  let '(output_default, router) := add_interface router (test_interface 2 (ip 172 16 0 1)) in
  let '(output_specific, router) := add_interface router (test_interface 3 (ip 192 168 1 1)) in
  let default_hop := ip 172 16 0 2 in
  let specific_hop := ip 192 168 1 2 in
  let specific_mac := mac 42 in
  router ← prime_arp router output_default default_hop (mac 41);
  router ← prime_arp router output_specific specific_hop specific_mac;
  router ← add_route router (ip 0 0 0 0) 0 (Some default_hop) output_default;
  router ← add_route router (ip 192 168 1 0) 24 (Some specific_hop) output_specific;
  router ← inject_datagram router input (datagram (ip 192 168 1 99) 64 (str "hello"));
  router ← route router;
  _ ← nothing_out router output_default;
  '(frame, forwarded, router) ← pop_forwarded router output_specific;
  _ ← checks frame forwarded specific_mac 63 (str "hello");
  _ ← assert_eq (EthernetHeader.src (EthernetFrame.header frame)) (mac 3);
  assert_eq (Ipv4Header.dst (Ipv4Datagram.header forwarded)) (ip 192 168 1 99).

Definition direct_route_uses_destination_as_next_hop : exec unit :=
  let router := new in
  let '(input, router) := add_interface router (test_interface 1 (ip 10 0 0 1)) in
  let '(output, router) := add_interface router (test_interface 2 (ip 10 1 0 1)) in
  let destination := ip 10 1 2 3 in
  let destination_mac := mac 23 in
  router ← prime_arp router output destination destination_mac;
  router ← add_route router (ip 10 1 0 0) 16 None output;
  router ← inject_datagram router input (datagram destination 10 (str "direct"));
  router ← route router;
  '(frame, forwarded, router) ← pop_forwarded router output;
  checks frame forwarded destination_mac 9 (str "direct").

Definition ttl_one_is_dropped : exec unit :=
  let router := new in
  let '(input, router) := add_interface router (test_interface 1 (ip 10 0 0 1)) in
  let '(output, router) := add_interface router (test_interface 2 (ip 172 16 0 1)) in
  let next_hop := ip 172 16 0 2 in
  router ← prime_arp router output next_hop (mac 50);
  router ← add_route router (ip 0 0 0 0) 0 (Some next_hop) output;
  router ← inject_datagram router input (datagram (ip 8 8 8 8) 1 (str "drop"));
  router ← route router;
  nothing_out router output.

Definition datagram_without_matching_route_is_dropped : exec unit :=
  let router := new in
  let '(input, router) := add_interface router (test_interface 1 (ip 10 0 0 1)) in
  let '(output, router) := add_interface router (test_interface 2 (ip 172 16 0 1)) in
  router ← add_route router (ip 192 168 0 0) 16 None output;
  router ← inject_datagram router input (datagram (ip 8 8 8 8) 64 (str "drop"));
  router ← route router;
  nothing_out router output.

Definition default_route_handles_destinations_without_specific_match : exec unit :=
  let router := new in
  let '(input, router) := add_interface router (test_interface 1 (ip 10 0 0 1)) in
  let '(output, router) := add_interface router (test_interface 2 (ip 172 16 0 1)) in
  let next_hop := ip 172 16 0 2 in
  let next_hop_mac := mac 61 in
  router ← prime_arp router output next_hop next_hop_mac;
  router ← add_route router (ip 0 0 0 0) 0 (Some next_hop) output;
  router ← inject_datagram router input (datagram (ip 203 0 113 9) 32 (str "default"));
  router ← route router;
  '(frame, forwarded, router) ← pop_forwarded router output;
  checks frame forwarded next_hop_mac 31 (str "default").

Definition equal_length_routes_keep_first_added_route : exec unit :=
  let router := new in
  let '(input, router) := add_interface router (test_interface 1 (ip 10 0 0 1)) in
  let '(first_output, router) := add_interface router (test_interface 2 (ip 172 16 0 1)) in
  let '(second_output, router) := add_interface router (test_interface 3 (ip 172 17 0 1)) in
  let first_hop := ip 172 16 0 2 in
  let second_hop := ip 172 17 0 2 in
  let first_mac := mac 71 in
  router ← prime_arp router first_output first_hop first_mac;
  router ← prime_arp router second_output second_hop (mac 72);
  router ← add_route router (ip 198 51 100 0) 24 (Some first_hop) first_output;
  router ← add_route router (ip 198 51 100 0) 24 (Some second_hop) second_output;
  router ← inject_datagram router input (datagram (ip 198 51 100 77) 20 (str "tie"));
  router ← route router;
  _ ← nothing_out router second_output;
  '(frame, forwarded, router) ← pop_forwarded router first_output;
  checks frame forwarded first_mac 19 (str "tie").

Definition unresolved_next_hop_emits_arp_and_forwards_after_reply : exec unit :=
  let router := new in
  let '(input, router) := add_interface router (test_interface 1 (ip 10 0 0 1)) in
  let '(output, router) := add_interface router (test_interface 2 (ip 172 16 0 1)) in
  let next_hop := ip 172 16 0 2 in
  let next_hop_mac := mac 88 in
  router ← add_route router (ip 203 0 113 0) 24 (Some next_hop) output;
  router ← inject_datagram router input (datagram (ip 203 0 113 9) 64 (str "queued"));
  router ← route router;
  '(arp_frame, arp, router) ← pop_arp router output;
  _ ← assert_eq (EthernetHeader.dst (EthernetFrame.header arp_frame)) EthernetAddress.BROADCAST;
  _ ← assert (ArpMessage.is_request arp);
  _ ← assert_eq (ArpMessage.target_ip_address arp) next_hop;
  iface ← the_interface router output;
  _ ← assert_eq (NetworkInterface.pending_len iface) 1%nat;
  router ← prime_arp router output next_hop next_hop_mac;
  '(frame, forwarded, router) ← pop_forwarded router output;
  _ ← checks frame forwarded next_hop_mac 63 (str "queued");
  iface ← the_interface router output;
  assert_eq (NetworkInterface.pending_len iface) 0%nat.

Definition tests : list (exec unit) :=
  [longest_prefix_match_selects_most_specific_route; direct_route_uses_destination_as_next_hop; ttl_one_is_dropped;
   datagram_without_matching_route_is_dropped; default_route_handles_destinations_without_specific_match;
   equal_length_routes_keep_first_added_route; unresolved_next_hop_emits_arp_and_forwards_after_reply].

End RouterTests.

Module IpHostTests.
Import IpHost.

Definition host : exec t :=
  new (IpHostConfig.tcp_demo (ip 169 254 144 2) (ip 169 254 144 1) 50000 9090 (Wrap32.new 1)).

Definition replies_to_icmp_echo_request_for_local_ip : exec unit :=
  let request := IcmpMessage.echo_request 7 11 (str "hello") in
  serialized ← IcmpMessage.serialize request;
  let datagram := Ipv4Datagram.new_icmp (ip 169 254 144 1) (ip 169 254 144 2) serialized in
  host ← host;
  '(output, host) ← receive_datagram host datagram;
  _ ← assert_eq (blen (IpHostOutput.datagrams output)) 1;
  datagram0 ← index (IpHostOutput.datagrams output) 0;
  _ ← assert_eq (Ipv4Header.src (Ipv4Datagram.header datagram0)) (ip 169 254 144 2);
  _ ← assert_eq (Ipv4Header.dst (Ipv4Datagram.header datagram0)) (ip 169 254 144 1);
  reply ← unwrap (IcmpMessage.parse_bytes (Ipv4Datagram.payload datagram0));
  _ ← assert_eq (IcmpMessage.icmp_type reply) ICMP_ECHO_REPLY;
  _ ← assert_eq (IcmpMessage.identifier reply) 7;
  _ ← assert_eq (IcmpMessage.sequence_number reply) 11;
  assert_eq (IcmpMessage.payload reply) (str "hello").

Definition ignores_datagram_for_other_ip : exec unit :=
  let request := IcmpMessage.echo_request 7 11 [] in
  serialized ← IcmpMessage.serialize request;
  let datagram := Ipv4Datagram.new_icmp (ip 169 254 144 1) (ip 10 0 0 99) serialized in
  host ← host;
  '(output, host) ← receive_datagram host datagram;
  _ ← assert (blen (IpHostOutput.datagrams output) =? 0);
  assert (blen (IpHostOutput.events output) =? 0).

Definition tests : list (exec unit) := [replies_to_icmp_echo_request_for_local_ip; ignores_datagram_for_other_ip].

End IpHostTests.

Module DeviceTests.

(** The result of a call that does not use the system, [is_err] and [unwrap]. *)
Definition fails {A} (m : io Script.t A) : exec unit :=
  '(r, _) ← m (Script.mk [] [] [] [] [] [] 0);
  match r with Ok _ => panic | Err _ => mret tt end.
Definition succeeds {A} (m : io Script.t A) : exec A :=
  '(r, _) ← m (Script.mk [] [] [] [] [] [] 0);
  match r with Ok a => mret a | Err _ => panic end.

Definition ifreq_uses_tap_flags : exec unit :=
  let flags := as_c_short (Z.lor IFF_TAP IFF_NO_PI) in
  ifreq ← succeeds (tap.IfReq.new (str "tap144") flags);
  _ ← assert_eq (tap.ifreq_name_to_string (tap.IfReq.ifr_name ifreq)) (str "tap144");
  assert_eq (tap.IfReq.ifr_flags ifreq) flags.

Definition rejects_invalid_interface_names : exec unit :=
  _ ← fails (tap.IfReq.new (str "") 0);
  _ ← fails (tap.IfReq.new (str "tap" ++ [x00] ++ str "bad") 0);
  fails (tap.IfReq.new (replicate IFNAMSIZ x61) 0).

Definition rejects_empty_interface_name : exec unit := fails (tun.IfReq.new (str "") 0).

Definition rejects_interface_name_with_nul : exec unit :=
  fails (tun.IfReq.new (str "tun" ++ [x00] ++ str "bad") 0).

Definition rejects_too_long_interface_name : exec unit :=
  let name := replicate IFNAMSIZ x61 in
  fails (tun.IfReq.new name 0).

Definition accepts_maximum_valid_interface_name_length : exec unit :=
  let name := replicate (IFNAMSIZ - 1) x61 in
  ifreq ← succeeds (tun.IfReq.new name 123);
  _ ← assert_eq (tun.ifreq_name_to_string (tun.IfReq.ifr_name ifreq)) name;
  assert_eq (tun.IfReq.ifr_flags ifreq) 123.

Definition ifreq_stores_name_and_flags : exec unit :=
  let flags := as_c_short (Z.lor IFF_TUN IFF_NO_PI) in
  ifreq ← succeeds (tun.IfReq.new (str "tun144") flags);
  _ ← assert_eq (tun.ifreq_name_to_string (tun.IfReq.ifr_name ifreq)) (str "tun144");
  assert_eq (tun.IfReq.ifr_flags ifreq) flags.

Definition tests : list (exec unit) :=
  [ifreq_uses_tap_flags; rejects_invalid_interface_names; rejects_empty_interface_name;
   rejects_interface_name_with_nul; rejects_too_long_interface_name; accepts_maximum_valid_interface_name_length;
   ifreq_stores_name_and_flags].

End DeviceTests.

(** [tests/packet_flows.rs]: the interface and the host together. *)
Module PacketFlows.
Import IpHost.

Definition LOCAL_IP : array4 := ip 169 254 144 2.
Definition PEER_IP : array4 := ip 169 254 144 1.
Definition LOCAL_PORT : Z := 50000.
Definition PEER_PORT : Z := 9090.
Definition LOCAL_ISN : Z := 1000.
Definition PEER_ISN : Z := 9000.

Definition local_mac : EthernetAddress.t := mac 2.
Definition peer_mac : EthernetAddress.t := mac 1.

Definition iface : NetworkInterface.t := NetworkInterface.new local_mac LOCAL_IP.

Definition host : exec t := new (IpHostConfig.tcp_demo LOCAL_IP PEER_IP LOCAL_PORT PEER_PORT (Wrap32.new LOCAL_ISN)).

Definition peer_arp_reply : exec EthernetFrame.t :=
  arp_frame_of local_mac peer_mac (ArpMessage.reply peer_mac PEER_IP local_mac LOCAL_IP).

Definition parse_tcp (datagram : Ipv4Datagram.t) : exec TcpSegment.t :=
  unwrap (TcpSegment.parse_ipv4_bytes (Ipv4Header.src (Ipv4Datagram.header datagram))
            (Ipv4Header.dst (Ipv4Datagram.header datagram)) (Ipv4Datagram.payload datagram)).

Definition peer_tcp_segment (seqno : Z) (ackno : option Z) (syn : bool) (payload : bytes) : exec Ipv4Datagram.t :=
  let segment := TcpSegment.mk
    (TcpHeader.mk PEER_PORT LOCAL_PORT (Wrap32.new seqno) (option_map Wrap32.new ackno) 4096 syn false false) payload in
  serialized ← TcpSegment.serialize_ipv4 segment PEER_IP LOCAL_IP;
  mret (Ipv4Datagram.new_tcp PEER_IP LOCAL_IP serialized).

Definition arp_resolution_releases_queued_ipv4_datagram_as_ethernet_frame : exec unit :=
  let datagram := Ipv4Datagram.new_tcp LOCAL_IP PEER_IP (str "tcp payload") in
  iface ← NetworkInterface.send_datagram iface datagram PEER_IP;
  '(request_frame, iface) ← take_frame iface;
  _ ← frame_header request_frame EthernetAddress.BROADCAST local_mac ETHERTYPE_ARP;
  request ← unwrap (ArpMessage.parse_bytes (EthernetFrame.payload request_frame));
  _ ← assert (ArpMessage.is_request request);
  _ ← assert_eq (ArpMessage.sender_ethernet_address request) local_mac;
  _ ← assert_eq (ArpMessage.sender_ip_address request) LOCAL_IP;
  _ ← assert_eq (ArpMessage.target_ip_address request) PEER_IP;
  _ ← assert_eq (NetworkInterface.pending_len iface) 1%nat;
  reply ← peer_arp_reply;
  iface ← NetworkInterface.recv_frame iface reply;
  _ ← assert_eq (NetworkInterface.pending_len iface) 0%nat;
  _ ← assert_eq (NetworkInterface.lookup_ethernet_address iface PEER_IP) (Some peer_mac);
  '(ipv4_frame, iface) ← take_frame iface;
  _ ← frame_header ipv4_frame peer_mac local_mac ETHERTYPE_IPV4;
  parsed ← unwrap (Ipv4Datagram.parse_bytes (EthernetFrame.payload ipv4_frame));
  assert_eq parsed datagram.

(** The [matches!] of the next tests. *)
Definition is_echo_request (event : IpHostEvent.t) : bool :=
  match event with
  | IpHostEvent.IcmpEchoRequest _ _ identifier sequence_number payload_len =>
      (identifier =? 4660) && (sequence_number =? 7) && (payload_len =? 12)
  | _ => false
  end.
Definition is_echo_reply (event : IpHostEvent.t) : bool :=
  match event with
  | IpHostEvent.IcmpEchoReply _ _ identifier sequence_number payload_len =>
      (identifier =? 4660) && (sequence_number =? 7) && (payload_len =? 12)
  | _ => false
  end.
Definition is_payload (bs : bytes) (event : IpHostEvent.t) : bool :=
  match event with IpHostEvent.TcpPayload payload => bool_decide (payload = bs) | _ => false end.

Definition tap_style_arp_and_icmp_echo_flow_round_trips_through_stack : exec unit :=
  host ← host;
  arp_request ← arp_frame_of EthernetAddress.BROADCAST peer_mac (ArpMessage.request peer_mac PEER_IP LOCAL_IP);
  iface ← NetworkInterface.recv_frame iface arp_request;
  '(arp_reply_frame, iface) ← take_frame iface;
  _ ← frame_header arp_reply_frame peer_mac local_mac ETHERTYPE_ARP;
  arp_reply ← unwrap (ArpMessage.parse_bytes (EthernetFrame.payload arp_reply_frame));
  _ ← assert (ArpMessage.is_reply arp_reply);
  _ ← assert_eq (ArpMessage.sender_ethernet_address arp_reply) local_mac;
  _ ← assert_eq (ArpMessage.sender_ip_address arp_reply) LOCAL_IP;
  _ ← assert_eq (ArpMessage.target_ethernet_address arp_reply) peer_mac;
  _ ← assert_eq (ArpMessage.target_ip_address arp_reply) PEER_IP;
  echo_request ← IcmpMessage.serialize (IcmpMessage.echo_request 4660 7 (str "hello minnow"));
  request_bytes ← Ipv4Datagram.serialize (Ipv4Datagram.new_icmp PEER_IP LOCAL_IP echo_request);
  iface ← NetworkInterface.recv_frame iface (EthernetFrame.ipv4 local_mac peer_mac request_bytes);
  '(inbound, iface) ← take_datagram iface;
  '(host_output, host) ← receive_datagram host inbound;
  _ ← assert_eq (blen (IpHostOutput.datagrams host_output)) 1;
  _ ← assert (existsb is_echo_request (IpHostOutput.events host_output));
  _ ← assert (existsb is_echo_reply (IpHostOutput.events host_output));
  datagram0 ← index (IpHostOutput.datagrams host_output) 0;
  iface ← NetworkInterface.send_datagram iface datagram0 PEER_IP;
  '(reply_frame, iface) ← take_frame iface;
  _ ← frame_header reply_frame peer_mac local_mac ETHERTYPE_IPV4;
  reply_datagram ← unwrap (Ipv4Datagram.parse_bytes (EthernetFrame.payload reply_frame));
  _ ← assert_eq (Ipv4Header.src (Ipv4Datagram.header reply_datagram)) LOCAL_IP;
  _ ← assert_eq (Ipv4Header.dst (Ipv4Datagram.header reply_datagram)) PEER_IP;
  reply ← unwrap (IcmpMessage.parse_bytes (Ipv4Datagram.payload reply_datagram));
  _ ← assert_eq (IcmpMessage.icmp_type reply) ICMP_ECHO_REPLY;
  _ ← assert_eq (IcmpMessage.identifier reply) 4660;
  _ ← assert_eq (IcmpMessage.sequence_number reply) 7;
  assert_eq (IcmpMessage.payload reply) (str "hello minnow").

Definition tcp_host_completes_handshake_and_acks_peer_payload : exec unit :=
  host ← host;
  '(connect_output, host) ← connect host;
  _ ← assert_eq (blen (IpHostOutput.datagrams connect_output)) 1;
  datagram0 ← index (IpHostOutput.datagrams connect_output) 0;
  syn ← parse_tcp datagram0;
  _ ← assert_eq (TcpHeader.src_port (TcpSegment.header syn)) LOCAL_PORT;
  _ ← assert_eq (TcpHeader.dst_port (TcpSegment.header syn)) PEER_PORT;
  _ ← assert_eq (TcpHeader.seqno (TcpSegment.header syn)) (Wrap32.new LOCAL_ISN);
  _ ← assert (TcpHeader.syn (TcpSegment.header syn));
  _ ← assert_eq (TcpHeader.ackno (TcpSegment.header syn)) None;
  syn_ack ← peer_tcp_segment PEER_ISN (Some (LOCAL_ISN + 1)) true [];
  '(ack_output, host) ← receive_datagram host syn_ack;
  _ ← returns (is_established host) true;
  _ ← assert_eq (blen (IpHostOutput.datagrams ack_output)) 1;
  datagram0 ← index (IpHostOutput.datagrams ack_output) 0;
  ack ← parse_tcp datagram0;
  _ ← assert (negb (TcpHeader.syn (TcpSegment.header ack)));
  _ ← assert_eq (TcpHeader.ackno (TcpSegment.header ack)) (Some (Wrap32.new (PEER_ISN + 1)));
  _ ← assert_eq (TcpSegment.payload ack) [];
  peer_data ← peer_tcp_segment (PEER_ISN + 1) (Some (LOCAL_ISN + 1)) false (str "pong");
  '(data_output, host) ← receive_datagram host peer_data;
  _ ← assert_eq (blen (IpHostOutput.datagrams data_output)) 1;
  _ ← assert (existsb (is_payload (str "pong")) (IpHostOutput.events data_output));
  datagram0 ← index (IpHostOutput.datagrams data_output) 0;
  data_ack ← parse_tcp datagram0;
  _ ← assert_eq (TcpHeader.ackno (TcpSegment.header data_ack)) (Some (Wrap32.new (PEER_ISN + 5)));
  assert_eq (TcpSegment.payload data_ack) [].

Definition tests : list (exec unit) :=
  [arp_resolution_releases_queued_ipv4_datagram_as_ethernet_frame;
   tap_style_arp_and_icmp_echo_flow_round_trips_through_stack; tcp_host_completes_handshake_and_acks_peer_payload].

End PacketFlows.

(** The model passes the program's unit tests of these components. *)
Lemma network_interface_tests_pass : Forall passes NetworkInterfaceTests.tests.
Proof. run_tests. Qed.

Lemma router_tests_pass : Forall passes RouterTests.tests.
Proof. run_tests. Qed.

Lemma ip_host_tests_pass : Forall passes IpHostTests.tests.
Proof. run_tests. Qed.

Lemma device_tests_pass : Forall passes DeviceTests.tests.
Proof. run_tests. Qed.

Lemma packet_flows_pass : Forall passes PacketFlows.tests.
Proof. run_tests. Qed.
